(* ===== verification/_CoqProject ===== *)
-Q . S2P
Prelude.v
GoLib.v
GoHeap.v
GoErrors.v
RulesetCache.v
RulesetCacheSpec.v
TokenAuth.v
GoJson.v
JsonParse.v
JsonDecode.v
CacheServer.v
CacheLifecycle.v
CacheMetrics.v
ServerHandler.v
Unsupported.v
MemFS.v
KubeApi.v
DeepCopy.v
Status.v
StatusMem.v
Logging.v
RuleSetController.v
EngineNetwork.v
EngineToken.v
EngineController.v
Watches.v
System.v
Serving.v
Provisioning.v
EndToEnd.v
ManagerMain.v
CrsRules.v
CrsManifest.v
CrsGenerate.v
Scheme.v
KubectlCoraza.v
Triage.v
GoFlag.v
KubectlFlags.v
ManagerFlags.v
Deployment.v
GitHub.v
GitHubMain.v
GitHubSafety.v
GitHubErrors.v
TriageRefinement.v
