(* ===== verification/Prelude.v ===== *)
(** * Coraza Kubernetes Operator: verification library (root file)

    ** The program

    The operator turns custom resources into a running web application firewall.
    - A [RuleSet] names [RuleSource]s (fragments of SecLang rules) and [RuleData]
      (data files).  The RuleSet controller ([internal/controller/ruleset_*.go])
      aggregates them, validates every fragment and the whole with Coraza, rejects
      rules the WASM engine cannot run ([internal/rulesets/unsupported.go]), and
      puts the result in the cache.
    - The cache ([internal/rulesets/cache/cache.go]) keeps revisions of each
      RuleSet; the HTTP server beside it ([server.go]) authenticates a request by a
      bearer token bound to one RuleSet ([auth.go]), serves the latest revision,
      prunes old ones, and counts requests ([metrics.go], [metrics_use.go]).
    - An [Engine] binds a RuleSet to a Gateway.  The Engine controller
      ([internal/controller/engine_*.go]) writes the NetworkPolicy that opens the
      cache to the gateway pods, the ServiceAccount and the token, and then the
      WasmPlugin that polls the cache with that token.
    - [tools/corerulesetgen] generates such resources from the OWASP Core Rule Set;
      the kubectl plugin ([cmd/kubectl-coraza]) runs it.
    - The manager binary ([cmd/manager]) checks its configuration and starts all of
      the above on a controller manager.
    - [tools/github_project_manager] labels and closes the issues of the repository
      and sorts its pull requests through the GitHub API.

    The operator's components meet at the cache (the RuleSet controller writes what the server
    reads), at the audience of the token (the Engine controller asks for it, the
    server checks it), and at the registry of unsupported rules (the RuleSet
    controller and the generator use it).  The project manager stands alone: its
    rules ([triage.go], [pr_triage.go]) are pure, its commands ([main.go]) apply
    them with the requests of its client ([github.go]).

    ** Files

    - [Prelude]: notations, tactics ([split_cases], [bool_to_prop]), the hint
      databases [operator], sums over lists and maps, reachability.
    - [GoLib], [GoErrors], [GoJson]: the parts of Go and of its standard library the
      source uses: 64-bit [int] with wrap-around, times as nanoseconds, [strings],
      [strconv], [filepath], UTF-8, the conversion to [float64], errors as trees of
      [Unwrap], JSON and base64.
    - [GoHeap]: Go's memory, for what depends on aliasing: a finite map of typed cells,
      a monad that panics on a bad address, pointers, slices that share an array, maps.
    - [RulesetCache], [RulesetCacheSpec]: [cache.go].  A Go method under the mutex is
      one function on the record [RuleSetCache]; UUIDs, clock readings and the order
      of map iteration are arguments.  The specification is a map from instances to
      their last published revision; [RulesetCacheSpec] also defines the reachable caches.
    - [TokenAuth]: [auth.go].  [Authenticate] and its atomic pieces; the steps of
      concurrent calls are a relation on the shared table.
    - [CacheServer]: [server.go].  Handlers as functions from a request to a state
      and a response; histories are sequences of exchanges, publications and
      collections.  [CacheLifecycle]: [Start] and [rungc], the three goroutines as a
      transition function whose events are the scheduler's choices.
      [CacheMetrics]: [metrics.go] and [metrics_use.go].  [ServerHandler]: the handler
      chain [NewServer] builds from the two.
    - [Unsupported]: [unsupported.go], the regular expression matched by hand.
    - [MemFS]: [memfs.go] and [ruleset_controller_secret_data.go].
    - [KubeApi]: the types of [api/v1alpha1] and the client.  The cluster is the
      record [api] of answers, each a function of the trace of effects so far, so
      that an answer may depend on everything done before; a reconciler is a program
      of the monad [prog] (world, error); [post] is its program logic.  The class
      [ApiMeta] states what [meta.SetStatusCondition] promises, with an instance.
    - [DeepCopy]: the same types as Go lays them out, and every function of
      [zz_generated.deepcopy.go]; each type is an instance of [GoHeap.DeepCopyable],
      from which its clients get the law of copies.  The copies of the types of
      apimachinery are the members of the class [MetaOps].
    - [Status]: [utils.go], conditions, patches, events and error sanitising, on lists
      of conditions.  [StatusMem]: the same helpers through the pointer
      [*[]metav1.Condition] into the object they patch.  [Logging]: the log lines.
    - [RuleSetController]: [ruleset_controller*.go]; [EngineNetwork]: targets, map
      functions and NetworkPolicies; [EngineToken]: service accounts and tokens;
      [EngineController]: the driver, [Reconcile], and the Istio prerequisites.
    - [Watches]: [SetupWithManager] of both controllers as data, and the requests an
      event enqueues; the predicates of controller-runtime are a class with their laws.
    - [System]: the operator as one transition system: both controllers, the cache and
      the server; an event is a reconciliation or a step of the server.  [Serving]:
      RuleSets the cluster has settled on, and what becomes of them.
      [Provisioning]: Engines the cluster has settled on, and the renewal of their
      tokens.  [EndToEnd]: both, and the requests of a plugin.
    - [CrsRules], [CrsManifest], [CrsGenerate]: [tools/corerulesetgen];
      [KubectlCoraza]: [genCRS] of [cmd/kubectl-coraza/main.go], from the values of
      its flags; [KubectlFlags]: the command tree, its flags, and how [genCRS] reads
      them.
    - [ManagerMain]: [cmd/manager/main.go], [manager.go] and [internal/defaults]; the
      start-up is a program of calls whose answers are an argument.  [ManagerFlags]:
      the flags registered over the configuration, and the command line.
      [Deployment]: the process, from its command line to its exit status, and the port
      of the cache server against the policies.  [Scheme]: [groupversion_info.go], the
      registrations of the packages' [init] functions, and the kinds the program uses.
    - [JsonParse], [JsonDecode]: [encoding/json], reading and writing; [GoFlag]: the
      package [flag] and the integers of [strconv] in any base.
    - [Triage]: [triage.go] and [pr_triage.go].  [GitHub]: [github.go]; an operation is
      a program of the monad [gh] over a world with a server (class [Network]), the
      requests sent so far and the two output streams.  [GitHubMain]: [main.go].
      [GitHubSafety]: the predicate [sends] on the requests of a program;
      [GitHubErrors]: the predicates [careful] and [careful_board] on the answers it
      goes on after.
      [TriageRefinement]: the class [IssueServer] of servers that answer as the REST
      API documents, the predicate [succeeds] for total correctness, the abstract
      effect of the issue commands, and a server with one issue.

    ** What is proved

    - The operator: in every interleaving, a 200 answer goes to an authorised client
      and carries rules of the RuleSources its RuleSet lists, accepted by Coraza and
      supported ([System]); conversely a RuleSet the cluster has settled on is stored by
      its reconciliation and then served, whatever happens later ([Serving]); an Engine it
      has settled on gets its plugin, and a new token before the old one expires
      ([Provisioning]); and the plugin's own requests are answered with the rules of its
      Engine's RuleSet and of no other ([EndToEnd]).
    - Cache: any interleaving of [Put], [Prune] and [PruneBySize] refines the map of
      latest revisions; the byte and entry totals are exact; what each pruning keeps,
      whatever the iteration order; the bound [PruneBySize] reaches.
    - Server and authentication: what is served is the last publication for the key,
      and only to a token reviewed for that key and namespace; a refused request
      learns nothing about the cache; results come from reviews still in their
      lifetime; the table of reviews is bounded and holds successes only.
    - RuleSet controller: only rules accepted by Coraza, and free of unsupported
      rules or explicitly exempted, reach the cache, in every history and under any
      answers of the cluster; the outcome of each branch; the exact aggregation; the
      events and messages; exactly the events that make it reconcile.
    - Engine controller: a plugin is written only after the policy, with the token of
      the right audience and for a RuleSet that is not degraded; policies admit
      exactly the gateway pods; finalizers; renewal of tokens, with the rounding of
      the [float64] product bounded; exactly the events that make it reconcile.
    - Objects in memory: a deep copy has the type and the value of its original and
      shares no cell with it; the status helpers, which change the conditions of the
      object they patch in place, compute what the model on lists says, against a base
      and a snapshot that the change does not reach; log lines are key-value pairs.
    - Metrics: after any requests, each counter is the number of requests with its
      labels and none is in flight; a scrape reads the exact totals.
    - Life of the cache server: what [Start] returns and when; after a cancellation
      every schedule ends with the three goroutines returned, within five steps.
    - Generator and kubectl plugin: splitting loses nothing; chains partition the rules; what
      is kept; names; the YAML block scalar; the manifest of a whole run; no
      unsupported rule is emitted, from the flags of the plugin to its output; every
      flag is read as it was given.
    - Manager binary: nothing is called unless the configuration is valid; then the
      calls are made in their order, [Start] last, up to the first that fails; every
      configuration can be given on the command line, and a process given it makes
      these calls and ends with the status it should; the scheme knows every kind the
      controllers and the generator use.
    - Project manager: the commands on issues refine their specification against a
      documented server, [update-labels] converges in one run; no failure of a
      command, the board requests of [triage-pr] apart, goes unnoticed or is followed by
      another request; a dry run only reads;
      requests stay within the repository and the configured issue and carry the
      token; labels are addressed faithfully; the lowest milestone is chosen.
    - JSON: the parser reads what the printer writes and always decides.
    - Where the code departs from its intent, the behaviour is proved as it is: the
      drift of the counter of cached reviews, the collision of their keys, an event
      note cut inside a UTF-8 sequence, a degraded RuleSet stopping its Engines,
      chains in the Core Rule Set layout being split, an accepted issue that is
      not put back to needing triage, and policies that open the default port whatever
      port the cache server was given.

    ** Bounds, fuel and parameters

    Every function is total and structurally recursive (on a string, a list or a
    list of names), except the JSON parser, whose fuel is twice the length of the
    text plus two: each call that takes no byte is followed by one that does, and
    [JsonParse.json_parse_total] shows the fuel never runs out and more changes
    nothing.  Nesting is limited to 10000, as in [encoding/json].  Integers of type [int], [int64] and
    [time.Duration] wrap at 64 bits; theorems that need no overflow say so by
    congruence modulo [2 ^ 64] or by a hypothesis on sizes.  Code outside the
    repository is an argument: the Kubernetes API, the token review, Coraza's
    compiler, the formatting of times, the name checks of apimachinery, the file
    system, the Prometheus registry, the GitHub server, the order of semantic
    versions, the [%q] verb.  What a theorem needs of it is a hypothesis of
    that theorem, with a witness that meets it.

    ** Not modelled

    controller-runtime's queue, rate limiter and informers (a reconciliation is a
    call with a request; that events lead to it is modelled up to the queue).  In
    [System] a reconciliation is one event: the cluster may answer each of its calls as
    it likes, but the server's steps fall before or after it.  cobra's parsing of
    the kubectl plugin's command line (the flags are set one by one, from their
    declarations on).  The logger's own flags of the manager, an argument.  TLS and
    socket handling of the server, what the request multiplexer answers itself, and the
    HTTP transport of the project manager.  The buckets of the durations and the
    registration of the request metrics, log lines outside [utils.go], and what the
    package [flag] prints on a mistake.  The JSON tags and validation markers of the
    API types.  Tests and their framework, charts and scripts. *)
From Stdlib Require Export Ascii.
From stdpp Require Export prelude gmap strings list sorting pretty fin_maps.
From Stdlib Require Export ZArith Lia.

#[export] Set Default Goal Selector "!".
#[global] Open Scope string_scope.
#[global] Open Scope list_scope.
#[global] Open Scope Z_scope.

(** ** Notations *)

Declare Scope operator_scope.
Delimit Scope operator_scope with operator.

(** Errors are the left of a sum: the Go idiom [if err != nil { return err }]
    is the bind of this monad. *)
#[export] Instance sum_bind E : MBind (sum E) := fun A B k m =>
  match m with inl e => inl e | inr a => k a end.
#[export] Instance sum_ret E : MRet (sum E) := fun A a => inr a.
#[global] Open Scope operator_scope.

(** ** Automation *)

Create HintDb operator.
Create Rewrite HintDb operator.

(** Turn every boolean equation of the context into a proposition. *)
Ltac bool_to_prop :=
  repeat match goal with
  | H : (_ && _)%bool = true |- _ => apply andb_true_iff in H as [? ?]
  | H : (_ || _)%bool = false |- _ => apply orb_false_iff in H as [? ?]
  | H : (_ || _)%bool = true |- _ => apply orb_true_iff in H
  | H : (_ && _)%bool = false |- _ => apply andb_false_iff in H
  | H : negb _ = true |- _ => apply negb_true_iff in H
  | H : negb _ = false |- _ => apply negb_false_iff in H
  | H : (_ <=? _) = true |- _ => apply Z.leb_le in H
  | H : (_ <=? _) = false |- _ => apply Z.leb_gt in H
  | H : (_ <? _) = true |- _ => apply Z.ltb_lt in H
  | H : (_ <? _) = false |- _ => apply Z.ltb_ge in H
  | H : (_ =? _)%Z = true |- _ => apply Z.eqb_eq in H
  | H : (_ =? _)%Z = false |- _ => apply Z.eqb_neq in H
  | H : String.eqb _ _ = true |- _ => apply String.eqb_eq in H
  | H : String.eqb _ _ = false |- _ => apply String.eqb_neq in H
  | H : bool_decide _ = true |- _ => apply bool_decide_eq_true in H
  | H : bool_decide _ = false |- _ => apply bool_decide_eq_false in H
  end.

(** Case analysis on every [match] and [if] of the goal, discarding the
    branches whose equations clash. *)
Ltac split_cases := repeat (case_match; simplify_eq/=; bool_to_prop).

(** The same on a hypothesis. *)
Ltac split_cases_in H :=
  repeat match type of H with
  | context [match ?x with _ => _ end] => destruct x eqn:?; simplify_eq/=; bool_to_prop
  end.

Lemma bind_inr {E A B} (m : E + A) (k : A -> E + B) b :
  m ≫= k = inr b -> exists a, m = inr a /\ k a = inr b.
Proof. destruct m as [e|a]; [done|]. by exists a. Qed.

(** ** Sums of integers over lists and finite maps *)

Fixpoint sumZ (l : list Z) : Z :=
  match l with [] => 0 | x :: l' => x + sumZ l' end.

Lemma sumZ_app l1 l2 : sumZ (l1 ++ l2) = sumZ l1 + sumZ l2.
Proof. induction l1 as [|x l1 IH]; simpl; lia. Qed.

Lemma sumZ_nonneg {A} (f : A -> Z) (l : list A) :
  (forall x, 0 <= f x) -> 0 <= sumZ (f <$> l).
Proof.
  intros Hf. induction l as [|x l IH]; [done|].
  rewrite fmap_cons; simpl. specialize (Hf x). lia.
Qed.

Definition map_sum {K} `{Countable K} {A} (f : K -> A -> Z) (m : gmap K A) : Z :=
  map_fold (fun k v acc => f k v + acc) 0 m.

Section map_sum.
Context {K : Type} `{Countable K} {A : Type} (f : K -> A -> Z).
Implicit Types m : gmap K A.

Lemma map_sum_empty : map_sum f ∅ = 0.
Proof. apply map_fold_empty. Qed.

Lemma map_sum_insert m k v :
  m !! k = None -> map_sum f (<[k:=v]> m) = f k v + map_sum f m.
Proof. intros Hk. unfold map_sum. rewrite map_fold_insert_L; [done| |done]. intros; lia. Qed.

Lemma map_sum_delete m k v :
  m !! k = Some v -> map_sum f m = f k v + map_sum f (delete k m).
Proof.
  intros Hk. rewrite <- (insert_delete_id m k v Hk) at 1.
  apply map_sum_insert, lookup_delete_eq.
Qed.

Lemma map_sum_update m k v w :
  m !! k = Some v -> map_sum f (<[k:=w]> m) = map_sum f m - f k v + f k w.
Proof.
  intros Hk. rewrite <- insert_delete_eq, map_sum_insert by apply lookup_delete_eq.
  rewrite (map_sum_delete m k v Hk). lia.
Qed.

Lemma map_sum_nonneg m : (forall k v, 0 <= f k v) -> 0 <= map_sum f m.
Proof.
  intros Hf. induction m as [|k v m Hk IH] using map_ind; [by rewrite map_sum_empty|].
  rewrite map_sum_insert by done. specialize (Hf k v). lia.
Qed.

Lemma map_sum_lookup_le m k v :
  (forall k v, 0 <= f k v) -> m !! k = Some v -> f k v <= map_sum f m.
Proof.
  intros Hf Hk. rewrite (map_sum_delete _ _ _ Hk).
  pose proof (map_sum_nonneg (delete k m) Hf). lia.
Qed.
End map_sum.

(** ** Option and list lemmas *)

Lemma fmap_Some_inv {A B} (f : A -> B) (o : option A) (y : B) :
  f <$> o = Some y -> exists x, o = Some x /\ f x = y.
Proof. destruct o; intros; simplify_eq/=; eauto. Qed.

Lemma filter_all {A} (P : A -> Prop) `{forall x, Decision (P x)} (l : list A) :
  Forall P l -> filter P l = l.
Proof. induction 1; [done|]. by rewrite filter_cons_True, IHForall. Qed.

Lemma filter_none {A} (P : A -> Prop) `{forall x, Decision (P x)} (l : list A) :
  Forall (fun x => ~ P x) l -> filter P l = [].
Proof. induction 1; [done|]. by rewrite filter_cons_False. Qed.

Lemma Forall_filter {A} (P Q : A -> Prop) `{forall x, Decision (Q x)} (l : list A) :
  Forall P l -> Forall P (filter Q l).
Proof. rewrite !Forall_forall. intros Hl x [_ Hx]%list_elem_of_filter. by apply Hl. Qed.

(** Two filters that agree on the elements of the list. *)
Lemma filter_ext_in {A} (P Q : A -> Prop) `{forall x, Decision (P x)} `{forall x, Decision (Q x)} (l : list A) :
  (forall x, x ∈ l -> P x <-> Q x) -> filter P l = filter Q l.
Proof.
  induction l as [|x l IH]; intros Hl; [done|].
  assert (Hx : P x <-> Q x) by (apply Hl; by left).
  rewrite !filter_cons, IH by (intros y Hy; apply Hl; by right).
  destruct (decide (P x)), (decide (Q x)); naive_solver.
Qed.

(** ** Sizes of finite maps *)

Lemma size_delete_present {K} `{Countable K} {A} (m : gmap K A) k v :
  m !! k = Some v -> size m = S (size (delete k m)).
Proof.
  intros Hk. rewrite <- (insert_delete_id m k v Hk) at 1.
  apply map_size_insert_None, lookup_delete_eq.
Qed.

Lemma size_insert_le {K} `{Countable K} {A} (m : gmap K A) k v : (size (<[k:=v]> m) <= S (size m))%nat.
Proof.
  destruct (m !! k) eqn:Hk.
  - rewrite map_size_insert_Some by eauto. lia.
  - rewrite map_size_insert_None by done. lia.
Qed.

(** ** Reachability: transition sequences of a step relation *)

Section reachable.
Context {S : Type} (step : S -> S -> Prop).

(** An invariant of the initial state preserved by every step holds in every
    reachable state. *)
Lemma reachable_invariant (I : S -> Prop) (s s' : S) :
  (forall x y, I x -> step x y -> I y) -> I s -> rtc step s s' -> I s'.
Proof. intros Hstep HI Hr. induction Hr; eauto. Qed.
End reachable.

#[export] Hint Resolve map_sum_nonneg sumZ_nonneg : operator.
#[export] Hint Rewrite @map_sum_empty sumZ_app @fmap_app : operator.
