(* ===== verification/GoLib.v ===== *)
(** * The parts of the Go language and standard library that the operator uses

    Machine integers ([int] and [time.Duration] are 64-bit two's complement),
    [time.Time] as nanoseconds, and the functions of [strings], [strconv],
    [path/filepath] and [unicode/utf8] that the source calls.  A Go [string] or
    [[]byte] is the byte sequence [string]. *)
From S2P Require Import Prelude.
From Stdlib Require Import Ascii String.

(** ** 64-bit integers *)

Definition int64_min : Z := - 2 ^ 63.
Definition int64_max : Z := 2 ^ 63 - 1.

Definition wrap64 (z : Z) : Z := (z + 2 ^ 63) mod 2 ^ 64 - 2 ^ 63.

Definition in_int64 (z : Z) : Prop := int64_min <= z <= int64_max.
#[export] Instance in_int64_dec z : Decision (in_int64 z).
Proof. unfold in_int64. apply _. Defined.

Definition int_add (a b : Z) : Z := wrap64 (a + b).
Definition int_sub (a b : Z) : Z := wrap64 (a - b).
Infix "+i" := int_add (at level 50, left associativity) : operator_scope.
Infix "-i" := int_sub (at level 50, left associativity) : operator_scope.

Lemma wrap64_small z : in_int64 z -> wrap64 z = z.
Proof.
  unfold in_int64, int64_min, int64_max, wrap64. intros Hz.
  rewrite Z.mod_small by lia. lia.
Qed.

Lemma wrap64_range z : in_int64 (wrap64 z).
Proof.
  unfold in_int64, int64_min, int64_max, wrap64.
  pose proof (Z.mod_pos_bound (z + 2 ^ 63) (2 ^ 64)). lia.
Qed.

(** Wrapping is congruence modulo [2 ^ 64]. *)
Lemma wrap64_cong a b : wrap64 a = wrap64 b <-> a mod 2 ^ 64 = b mod 2 ^ 64.
Proof.
  unfold wrap64. split; intros Heq.
  - replace a with (a + 2 ^ 63 - 2 ^ 63) by lia. replace b with (b + 2 ^ 63 - 2 ^ 63) by lia.
    rewrite (Zminus_mod (a + _)), (Zminus_mod (b + _)). f_equal. f_equal. lia.
  - rewrite (Zplus_mod a), (Zplus_mod b), Heq. done.
Qed.

Lemma wrap64_mod z : wrap64 z mod 2 ^ 64 = z mod 2 ^ 64.
Proof.
  unfold wrap64. rewrite Zminus_mod_idemp_l. f_equal. lia.
Qed.

Lemma wrap64_idem z : wrap64 (wrap64 z) = wrap64 z.
Proof. apply wrap64_cong, wrap64_mod. Qed.

Lemma int_add_wrap a b : wrap64 a +i wrap64 b = wrap64 (a + b).
Proof. apply wrap64_cong. by rewrite Zplus_mod, !wrap64_mod, <- Zplus_mod. Qed.

Lemma int_sub_wrap a b : wrap64 a -i wrap64 b = wrap64 (a - b).
Proof. apply wrap64_cong. by rewrite Zminus_mod, !wrap64_mod, <- Zminus_mod. Qed.

Lemma int_add_wrap_l a b : wrap64 a +i b = wrap64 (a + b).
Proof. apply wrap64_cong. by rewrite Zplus_mod, wrap64_mod, <- Zplus_mod. Qed.

Lemma int_add_wrap_r a b : a +i wrap64 b = wrap64 (a + b).
Proof. apply wrap64_cong. by rewrite Zplus_mod, wrap64_mod, <- Zplus_mod. Qed.

Lemma int_sub_wrap_l a b : wrap64 a -i b = wrap64 (a - b).
Proof. apply wrap64_cong. by rewrite Zminus_mod, wrap64_mod, <- Zminus_mod. Qed.

Lemma int_sub_wrap_r a b : a -i wrap64 b = wrap64 (a - b).
Proof. apply wrap64_cong. by rewrite Zminus_mod, wrap64_mod, <- Zminus_mod. Qed.

Lemma wrap64_add_l a b : wrap64 (wrap64 a + b) = wrap64 (a + b).
Proof. apply (int_add_wrap_l a b). Qed.

Lemma int_add_twice x a b : x +i a +i b = wrap64 (x + (a + b)).
Proof. unfold int_add. rewrite wrap64_add_l. f_equal. lia. Qed.

#[export] Hint Rewrite int_add_twice wrap64_add_l int_sub_wrap_r int_add_wrap int_sub_wrap int_add_wrap_l int_add_wrap_r
  int_sub_wrap_l wrap64_idem : operator.

(** ** Binary64 arithmetic

    A non-negative float is a mantissa and an exponent; [round53] rounds a
    non-negative integer to 53 significant bits, to nearest and ties to even. *)
Definition round53 (m : Z) : Z * Z :=
  let d := Z.log2 m + 1 - 53 in
  if d <=? 0 then (m, 0)
  else
    let q := m / 2 ^ d in
    let rem := m mod 2 ^ d in
    let half := 2 ^ (d - 1) in
    let up := (half <? rem) || ((rem =? half) && Z.odd q) in
    ((if up then q + 1 else q), d).

(** The conversion [float64(n)] of an integer, which is one. *)
Definition float64 (n : Z) : Z :=
  let '(q, d) := round53 (Z.abs n) in Z.sgn n * (q * 2 ^ d).

(** ** Time

    A [time.Time] is its number of nanoseconds; [Sub] saturates to the range of
    [time.Duration]. *)
Definition time_Sub (t u : Z) : Z := Z.max int64_min (Z.min int64_max (t - u)).
Definition time_Before (t u : Z) : bool := t <? u.
Definition time_After (t u : Z) : bool := u <? t.
Definition time_Add (t d : Z) : Z := t + d.

Definition Nanosecond : Z := 1.
Definition Millisecond : Z := 1000000.
Definition Second : Z := 1000 * Millisecond.
Definition Minute : Z := 60 * Second.
Definition Hour : Z := 60 * Minute.

(** ** Package strings: prefixes, suffixes, searching *)

Definition len (s : string) : Z := Z.of_nat (String.length s).

Fixpoint strip_prefix (p s : string) : option string :=
  match p, s with
  | EmptyString, _ => Some s
  | String a p', String b s' => if Ascii.eqb a b then strip_prefix p' s' else None
  | _, EmptyString => None
  end.

Fixpoint strip_suffix (x s : string) : option string :=
  if bool_decide (s = x) then Some "" else
  match s with
  | EmptyString => None
  | String a s' => String a <$> strip_suffix x s'
  end.

Definition HasPrefix (s p : string) : bool := bool_decide (is_Some (strip_prefix p s)).
Definition HasSuffix (s x : string) : bool := bool_decide (is_Some (strip_suffix x s)).
Definition TrimPrefix (s p : string) : string := default s (strip_prefix p s).
Definition TrimSuffix (s x : string) : string := default s (strip_suffix x s).
(** [CutSuffix s x] is [Some before] when the Go function returns [(before, true)]. *)
Definition CutSuffix (s x : string) : option string := strip_suffix x s.

Fixpoint Contains (s sub : string) : bool :=
  HasPrefix s sub || match s with EmptyString => false | String _ s' => Contains s' sub end.

(** [Cut s sep] is [Some (before, after)] around the first [sep], [None] without one. *)
Fixpoint Cut (s sep : string) : option (string * string) :=
  match strip_prefix sep s with
  | Some after => Some ("", after)
  | None => match s with
            | EmptyString => None
            | String a s' => '(b, r) ← Cut s' sep; Some (String a b, r)
            end
  end.

(** [strings.Split] with a one-byte separator, the only kind the source uses. *)
Fixpoint Split (s : string) (sep : ascii) : list string :=
  match s with
  | EmptyString => [""]
  | String a s' =>
      if Ascii.eqb a sep then "" :: Split s' sep
      else match Split s' sep with
           | x :: l => String a x :: l
           | [] => [String a ""]
           end
  end.

Definition Join (l : list string) (sep : string) : string := String.concat sep l.

(** [strings.ReplaceAll] of one byte by a string. *)
Fixpoint ReplaceByte (s : string) (old : ascii) (new : string) : string :=
  match s with
  | EmptyString => ""
  | String a s' =>
      if Ascii.eqb a old then new +:+ ReplaceByte s' old new
      else String a (ReplaceByte s' old new)
  end.

Fixpoint Repeat (s : string) (n : nat) : string :=
  match n with O => "" | S n' => s +:+ Repeat s n' end.

Definition rev_string (s : string) : string :=
  string_of_list_ascii (rev (list_ascii_of_string s)).

(** [TrimLeft] and [TrimRight] with a cutset of ASCII bytes. *)
Fixpoint TrimLeft (cut : ascii -> bool) (s : string) : string :=
  match s with
  | String a s' => if cut a then TrimLeft cut s' else s
  | EmptyString => ""
  end.

Fixpoint TrimRight (cut : ascii -> bool) (s : string) : string :=
  match s with
  | EmptyString => ""
  | String a s' =>
      match TrimRight cut s' with
      | EmptyString => if cut a then "" else String a ""
      | r => String a r
      end
  end.

Definition in_cutset (cutset : string) (a : ascii) : bool :=
  existsb (Ascii.eqb a) (list_ascii_of_string cutset).

(** ** Text literals *)

Definition nl : ascii := ascii_of_N 10.
Definition lf : string := String nl "".

(** A line of text in which [~] stands for a double quote. *)
Definition dq (line : string) : string := ReplaceByte line "~" (String (ascii_of_N 34) "").

(** A literal with its lines in a list. *)
Definition text (lines : list string) : string := Join lines lf.

(** ** Characters, letter case, white space *)

Definition code (a : ascii) : Z := Z.of_N (N_of_ascii a).
Definition in_range (lo hi : Z) (a : ascii) : bool := (lo <=? code a) && (code a <=? hi).

Definition is_digit (a : ascii) : bool := in_range 48 57 a.
Definition is_upper (a : ascii) : bool := in_range 65 90 a.
Definition is_lower (a : ascii) : bool := in_range 97 122 a.
(** The [\w] class of Go's regexp, which defines the [\b] boundaries. *)
Definition is_word (a : ascii) : bool :=
  is_digit a || is_upper a || is_lower a || Ascii.eqb a "_".

Definition lower_ascii (a : ascii) : ascii :=
  if is_upper a then ascii_of_N (Z.to_N (code a + 32)) else a.

(** [strings.ToLower].  ASCII letters are lowered, U+212A (Kelvin sign) and
    U+0130 become the ASCII letters [k] and [i]; every other non-ASCII rune
    lowers to a non-ASCII rune, which the callers drop or never look at, so its
    bytes are kept. *)
Fixpoint ToLower (s : string) : string :=
  match s with
  | EmptyString => ""
  | String a s1 =>
      match s1 with
      | EmptyString => String (lower_ascii a) ""
      | String b s2 =>
          if (code a =? 196) && (code b =? 176) then String "i" (ToLower s2) else
          match s2 with
          | EmptyString => String (lower_ascii a) (ToLower s1)
          | String c s3 =>
              if (code a =? 226) && (code b =? 132) && (code c =? 170) then String "k" (ToLower s3)
              else String (lower_ascii a) (ToLower s1)
          end
      end
  end.

(** Simple case folding: ASCII letters, and the two other runes that fold to one,
    U+212A (Kelvin sign) to [k] and U+017F (long s) to [s]. *)
Fixpoint fold_name (s : string) : string :=
  match s with
  | EmptyString => ""
  | String a s1 =>
      match s1 with
      | EmptyString => String (lower_ascii a) ""
      | String b s2 =>
          if (code a =? 197) && (code b =? 191) then String "s" (fold_name s2) else
          match s2 with
          | EmptyString => String (lower_ascii a) (fold_name s1)
          | String c s3 =>
              if (code a =? 226) && (code b =? 132) && (code c =? 170) then String "k" (fold_name s3)
              else String (lower_ascii a) (fold_name s1)
          end
      end
  end.

(** [strings.EqualFold], exact when one of the texts is ASCII: no other rune folds
    to an ASCII letter. *)
Definition EqualFold (s t : string) : bool := String.eqb (fold_name s) (fold_name t).

(** [unicode.IsSpace] by UTF-8 encoding: one, two and three bytes. *)
Definition space1 (a : ascii) : bool := in_range 9 13 a || (code a =? 32).
Definition space2 (a b : ascii) : bool :=
  (code a =? 194) && ((code b =? 133) || (code b =? 160)).
Definition space3 (a b c : ascii) : bool :=
  ((code a =? 225) && (code b =? 154) && (code c =? 128)) ||
  ((code a =? 226) && (code b =? 128) && in_range 128 138 c) ||
  ((code a =? 226) && (code b =? 128) && ((code c =? 168) || (code c =? 169) || (code c =? 175))) ||
  ((code a =? 226) && (code b =? 129) && (code c =? 159)) ||
  ((code a =? 227) && (code b =? 128) && (code c =? 128)).

Fixpoint trim_space_left (s : string) : string :=
  match s with
  | EmptyString => ""
  | String a s1 =>
      if space1 a then trim_space_left s1 else
      match s1 with
      | EmptyString => s
      | String b s2 =>
          if space2 a b then trim_space_left s2 else
          match s2 with
          | EmptyString => s
          | String c s3 => if space3 a b c then trim_space_left s3 else s
          end
      end
  end.

(** The same from the right end, on the reversed bytes. *)
Fixpoint trim_space_rev (s : string) : string :=
  match s with
  | EmptyString => ""
  | String c s1 =>
      if space1 c then trim_space_rev s1 else
      match s1 with
      | EmptyString => s
      | String b s2 =>
          if space2 b c then trim_space_rev s2 else
          match s2 with
          | EmptyString => s
          | String a s3 => if space3 a b c then trim_space_rev s3 else s
          end
      end
  end.

Definition TrimSpace (s : string) : string :=
  rev_string (trim_space_rev (rev_string (trim_space_left s))).

(** ** UTF-8 validity

    The number of bytes of the valid encoding at the head of a string, 0 when
    the head byte does not start one (the table of [unicode/utf8]). *)
Definition is_cont (a : ascii) : bool := in_range 128 191 a.

Definition rune_size (s : string) : nat :=
  match s with
  | EmptyString => 0%nat
  | String a s1 =>
      if code a <=? 127 then 1%nat else
      match s1 with
      | EmptyString => 0%nat
      | String b s2 =>
          if in_range 194 223 a && is_cont b then 2%nat else
          match s2 with
          | EmptyString => 0%nat
          | String c s3 =>
              let second :=
                if code a =? 224 then in_range 160 191 b
                else if code a =? 237 then in_range 128 159 b
                else in_range 225 239 a && is_cont b in
              if second && is_cont c then 3%nat else
              match s3 with
              | EmptyString => 0%nat
              | String d _ =>
                  let second4 :=
                    if code a =? 240 then in_range 144 191 b
                    else if code a =? 244 then in_range 128 143 b
                    else in_range 241 243 a && is_cont b in
                  if second4 && is_cont c && is_cont d then 4%nat else 0%nat
              end
          end
      end
  end.

(** [strings.ToValidUTF8(s, "")]: [keep] counts the bytes of the current rune
    still to copy. *)
Fixpoint to_valid_utf8 (keep : nat) (s : string) : string :=
  match s with
  | EmptyString => ""
  | String a s' =>
      match keep with
      | S k => String a (to_valid_utf8 k s')
      | O => match rune_size s with
             | O => to_valid_utf8 0 s'
             | S k => String a (to_valid_utf8 k s')
             end
      end
  end.
Definition ToValidUTF8 (s : string) : string := to_valid_utf8 0 s.

(** ** Package strconv *)

Definition Itoa (z : Z) : string := pretty z.

Fixpoint parse_digits (acc : Z) (s : string) : option Z :=
  match s with
  | EmptyString => Some acc
  | String a s' => if is_digit a then parse_digits (10 * acc + (code a - 48)) s' else None
  end.

(** [strconv.Atoi]: an optional sign, at least one digit, in the range of [int]. *)
Definition Atoi (s : string) : option Z :=
  let '(neg, ds) :=
    match s with
    | String "-" s' => (true, s')
    | String "+" s' => (false, s')
    | _ => (false, s)
    end in
  match ds with
  | EmptyString => None
  | _ => v ← parse_digits 0 ds;
         let z := if neg : bool then - v else v in
         if bool_decide (in_int64 z) then Some z else None
  end.

(** ** Runs of digits *)

(** The longest run of digits at the head, and the rest. *)
Fixpoint digit_run (s : string) : string * string :=
  match s with
  | EmptyString => ("", "")
  | String a s' => if is_digit a then let '(ds, r) := digit_run s' in (String a ds, r) else ("", s)
  end.

Fixpoint all_digits (s : string) : bool :=
  match s with EmptyString => true | String a s' => is_digit a && all_digits s' end.
Definition head_digit (s : string) : bool :=
  match s with EmptyString => false | String a _ => is_digit a end.

(** ** Package path/filepath (Unix) *)

(** [filepath.Base]: strip trailing slashes, then everything up to the last one. *)
Definition is_slash (a : ascii) : bool := Ascii.eqb a "/".
Definition Base (path : string) : string :=
  if String.eqb path "" then "." else
  let p := TrimRight is_slash path in
  match List.last (Split p "/") "" with
  | EmptyString => "/"
  | b => b
  end.

(** ** Package sort *)

(** [sort.Strings] and [sort.Ints]: the sorted permutation. *)
Definition sort_Strings (l : list string) : list string := merge_sort String.le l.
Definition sort_Ints (l : list Z) : list Z := merge_sort Z.le l.

(** ** Laws of the string functions *)

Lemma app_cons a s t : String a s +:+ t = String a (s +:+ t).
Proof. done. Qed.

Lemma app_empty_l s : "" +:+ s = s.
Proof. done. Qed.

Lemma app_empty_r s : s +:+ "" = s.
Proof. induction s as [|a s IH]; [done|]. by rewrite app_cons, IH. Qed.

Lemma string_app_assoc s t u : (s +:+ t) +:+ u = s +:+ (t +:+ u).
Proof. induction s as [|a s IH]; [done|]. by rewrite !app_cons, IH. Qed.

Lemma string_app_inj_l s t u : s +:+ t = s +:+ u -> t = u.
Proof. induction s as [|a s IH]; [done|]. rewrite !app_cons. intros. simplify_eq. auto. Qed.

Lemma length_string_app s t :
  String.length (s +:+ t) = (String.length s + String.length t)%nat.
Proof. induction s as [|a s IH]; [done|]. rewrite app_cons. simpl. by rewrite IH. Qed.

Lemma len_app s t : len (s +:+ t) = len s + len t.
Proof. unfold len. rewrite length_string_app. lia. Qed.

Lemma len_nonneg s : 0 <= len s.
Proof. unfold len. lia. Qed.

Lemma string_app_inj_r s t u : t +:+ s = u +:+ s -> t = u.
Proof.
  revert u. induction t as [|a t IH]; intros [|b u] Heq; [done| | |].
  - apply (f_equal String.length) in Heq.
    rewrite !length_string_app in Heq. simpl in Heq. lia.
  - apply (f_equal String.length) in Heq.
    rewrite !length_string_app in Heq. simpl in Heq. lia.
  - rewrite !app_cons in Heq. simplify_eq. f_equal. auto.
Qed.

Lemma string_app_inj s t u v :
  s +:+ t = u +:+ v -> String.length s = String.length u -> s = u /\ t = v.
Proof.
  revert u. induction s as [|a s IH]; intros [|b u] Heq Hlen; try done.
  rewrite !app_cons in Heq. simplify_eq. destruct (IH u) as [-> ->]; auto.
Qed.

Lemma strip_prefix_Some p s r : strip_prefix p s = Some r <-> s = p +:+ r.
Proof.
  revert s. induction p as [|a p IH]; intros [|b s]; simpl; rewrite ?app_empty_l, ?app_cons.
  - split; congruence.
  - split; congruence.
  - split; congruence.
  - destruct (Ascii.eqb_spec a b) as [->|]; [rewrite IH|]; split; congruence.
Qed.

Lemma strip_suffix_Some x s r : strip_suffix x s = Some r <-> s = r +:+ x.
Proof.
  split.
  - revert r. induction s as [|a s IH]; intros r; simpl; case_bool_decide; intros Hr; simplify_eq.
    + done.
    + done.
    + apply fmap_Some_inv in Hr as (t & Ht & <-). rewrite app_cons. f_equal. auto.
  - intros ->. induction r as [|a r IH]; rewrite ?app_empty_l, ?app_cons.
    + destruct x; simpl; [done|]. by case_bool_decide.
    + simpl. rewrite IH. case_bool_decide as Heq; [|done].
      change (String a (r +:+ x)) with (String a r +:+ x) in Heq.
      by apply (string_app_inj_r x _ "") in Heq.
Qed.

Lemma HasPrefix_true s p : HasPrefix s p = true <-> exists r, s = p +:+ r.
Proof.
  unfold HasPrefix. rewrite bool_decide_eq_true. unfold is_Some.
  by setoid_rewrite strip_prefix_Some.
Qed.

Lemma HasSuffix_true s x : HasSuffix s x = true <-> exists r, s = r +:+ x.
Proof.
  unfold HasSuffix. rewrite bool_decide_eq_true. unfold is_Some.
  by setoid_rewrite strip_suffix_Some.
Qed.

Lemma HasPrefix_app p r : HasPrefix (p +:+ r) p = true.
Proof. apply HasPrefix_true. eauto. Qed.

Lemma TrimPrefix_app p r : TrimPrefix (p +:+ r) p = r.
Proof. unfold TrimPrefix. assert (strip_prefix p (p +:+ r) = Some r) as ->; [by apply strip_prefix_Some|done]. Qed.

Lemma HasPrefix_TrimPrefix s p : HasPrefix s p = true -> s = p +:+ TrimPrefix s p.
Proof. intros [r ->]%HasPrefix_true. by rewrite TrimPrefix_app. Qed.

Lemma CutSuffix_Some s x r : CutSuffix s x = Some r <-> s = r +:+ x.
Proof. apply strip_suffix_Some. Qed.

Lemma Cut_Some s sep b a : Cut s sep = Some (b, a) -> s = b +:+ sep +:+ a.
Proof.
  revert b. induction s as [|x s IH]; intros b; simpl.
  - case_match eqn:Hp; [|done]. intros; simplify_eq. by apply strip_prefix_Some in Hp.
  - case_match eqn:Hp; [intros; simplify_eq; by apply strip_prefix_Some in Hp|].
    destruct (Cut s sep) as [[b' a']|] eqn:Hc; simpl; intros; simplify_eq.
    rewrite app_cons. f_equal. auto.
Qed.

Lemma strip_prefix_None p s r : strip_prefix p s = None -> s <> p +:+ r.
Proof. intros Hp Heq. apply strip_prefix_Some in Heq. congruence. Qed.

Lemma Cut_None s sep b a : Cut s sep = None -> s <> b +:+ sep +:+ a.
Proof.
  revert b. induction s as [|x s IH]; intros [|y b]; simpl; rewrite ?app_empty_l, ?app_cons;
    case_match eqn:Hp; try done; intros Hc Heq.
  - by apply (strip_prefix_None sep "" a).
  - by apply (strip_prefix_None sep (String x s) a).
  - simplify_eq. destruct (Cut _ sep) as [[b' a']|] eqn:Hc'; [done|]. by eapply IH.
Qed.

Lemma Contains_true s sub : Contains s sub = true <-> exists b a, s = b +:+ sub +:+ a.
Proof.
  induction s as [|x s IH]; simpl; rewrite orb_true_iff, HasPrefix_true; [|rewrite IH]; split.
  - intros [[r Hr]|]; [|done]. exists "", r. by rewrite app_empty_l.
  - intros ([|] & t & Heq); [|done]. left. rewrite app_empty_l in Heq. eauto.
  - intros [[r Hr]|(b & t & ->)]; [exists "", r; by rewrite app_empty_l|].
    exists (String x b), t. by rewrite app_cons.
  - intros ([|y b] & t & Heq); [rewrite app_empty_l in Heq; eauto|].
    rewrite app_cons in Heq. simplify_eq. eauto.
Qed.

(** *** Split and Join *)

Lemma Split_not_nil s c : Split s c <> [].
Proof. destruct s; simpl; [done|]. repeat case_match; done. Qed.

Lemma Join_cons x l sep : l <> [] -> Join (x :: l) sep = x +:+ sep +:+ Join l sep.
Proof. by destruct l. Qed.

(** Splitting on a byte and joining with it gives the text back. *)
Lemma Join_Split s c : Join (Split s c) (String c "") = s.
Proof.
  induction s as [|a s IH]; [done|]. simpl.
  destruct (Ascii.eqb_spec a c) as [->|Hne].
  - rewrite Join_cons by apply Split_not_nil. by rewrite IH.
  - destruct (Split s c) as [|x l] eqn:Hs; [by destruct (Split_not_nil s c)|].
    destruct l as [|y l].
    + unfold Join in *. simpl in *. by rewrite IH.
    + rewrite Join_cons in * by done. by rewrite app_cons, IH.
Qed.

(** The pieces of a split do not hold the separator. *)
Fixpoint byte_in (c : ascii) (s : string) : bool :=
  match s with EmptyString => false | String a s' => Ascii.eqb a c || byte_in c s' end.

Lemma byte_in_app c s t : byte_in c (s +:+ t) = byte_in c s || byte_in c t.
Proof. induction s as [|a s IH]; [done|]. rewrite app_cons. simpl. by rewrite IH, orb_assoc. Qed.

Lemma Split_no_sep s c : Forall (fun x => byte_in c x = false) (Split s c).
Proof.
  induction s as [|a s IH]; simpl; [by repeat constructor|].
  destruct (Ascii.eqb_spec a c); [by constructor|].
  destruct (Split s c) as [|x l] eqn:Hs; [by destruct (Split_not_nil s c)|].
  apply Forall_cons in IH as [Hx Hl]. constructor; [|done].
  simpl. rewrite Hx. by destruct (Ascii.eqb_spec a c).
Qed.

Lemma Split_app_sep x s c : byte_in c x = false -> Split (x +:+ String c s) c = x :: Split s c.
Proof.
  induction x as [|a x IH]; simpl; intros Hx.
  - by rewrite Ascii.eqb_refl.
  - apply orb_false_iff in Hx as [Ha Hx]. by rewrite Ha, IH.
Qed.

Lemma Split_no_sep_singleton x c : byte_in c x = false -> Split x c = [x].
Proof.
  induction x as [|a x IH]; simpl; intros Hx; [done|].
  apply orb_false_iff in Hx as [Ha Hx]. by rewrite Ha, IH.
Qed.

(** Joining pieces without the separator and splitting again gives the pieces. *)
Lemma Split_Join l c :
  l <> [] -> Forall (fun x => byte_in c x = false) l -> Split (Join l (String c "")) c = l.
Proof.
  intros Hl Hf. induction Hf as [|x l Hx Hf IH]; [done|].
  destruct l as [|y l]; [by apply Split_no_sep_singleton|].
  rewrite Join_cons by done. rewrite app_cons, app_empty_l.
  rewrite Split_app_sep by done. f_equal. by apply IH.
Qed.

(** [strings.SplitN(s, sep, 2)] with a one-byte separator. *)
Definition SplitN2 (s : string) (sep : ascii) : list string :=
  match Cut s (String sep "") with Some (b, a) => [b; a] | None => [s] end.

(** Cutting at a byte: the first part does not hold it. *)
Lemma Cut_byte s c b a :
  Cut s (String c "") = Some (b, a) <-> s = b +:+ String c a /\ byte_in c b = false.
Proof.
  revert b. induction s as [|x s IH]; intros b; simpl.
  - split; [done|]. intros [Heq _]. by destruct b.
  - destruct (Ascii.eqb_spec c x) as [->|Hne].
    + split; [intros; by simplify_eq|]. intros [Heq Hb]. destruct b as [|y b].
      * rewrite app_empty_l in Heq. by simplify_eq.
      * rewrite app_cons in Heq. simplify_eq. simpl in Hb. by rewrite Ascii.eqb_refl in Hb.
    + split.
      * destruct (Cut s _) as [[b' a']|] eqn:Hc; simpl; intros; simplify_eq.
        destruct (proj1 (IH b') eq_refl) as [-> Hb]. split; [by rewrite app_cons|].
        simpl. rewrite Hb. by destruct (Ascii.eqb_spec x c).
      * intros [Heq Hb]. destruct b as [|y b]; [rewrite app_empty_l in Heq; by simplify_eq|].
        rewrite app_cons in Heq. simplify_eq. simpl in Hb. apply orb_false_iff in Hb as [_ Hb].
        assert (Cut (b +:+ String c a) (String c "") = Some (b, a)) as -> by by apply IH. done.
Qed.

Lemma SplitN2_two s c b a :
  SplitN2 s c = [b; a] <-> s = b +:+ String c a /\ byte_in c b = false.
Proof. unfold SplitN2. rewrite <- Cut_byte. destruct (Cut s _) as [[??]|]; naive_solver. Qed.

(** *** Runs of digits *)

Lemma digit_run_spec s ds r :
  digit_run s = (ds, r) <-> s = ds +:+ r /\ all_digits ds = true /\ head_digit r = false.
Proof.
  revert ds r. induction s as [|a s IH]; intros ds r; simpl.
  - split; [intros; by simplify_eq|]. intros (Hs & _). by destruct ds, r.
  - destruct (is_digit a) eqn:Ha.
    + destruct (digit_run s) as [ds' r'] eqn:Hd. split.
      * intros; simplify_eq. destruct (proj1 (IH _ _) eq_refl) as (-> & ? & ?).
        rewrite app_cons. simpl. by rewrite Ha.
      * intros (Hs & Hds & Hr). destruct ds as [|b ds].
        { rewrite app_empty_l in Hs. subst r. simpl in Hr. congruence. }
        rewrite app_cons in Hs. simplify_eq. simpl in Hds. apply andb_true_iff in Hds as [_ Hds].
        assert ((ds', r') = (ds, r)) as Heq by (apply IH; done). by simplify_eq.
    + split.
      * intros; simplify_eq. simpl. done.
      * intros (Hs & Hds & Hr). destruct ds as [|b ds]; [rewrite app_empty_l in Hs; by subst|].
        rewrite app_cons in Hs. simplify_eq. simpl in Hds. rewrite Ha in Hds. done.
Qed.

(** *** Rounding to doubles *)

Lemma round53_error m q d :
  0 <= m -> round53 m = (q, d) -> 0 <= d /\ 0 <= q /\ Z.abs (q * 2 ^ d - m) * 2 ^ 53 <= m.
Proof.
  intros Hm. unfold round53. destruct (Z.leb_spec (Z.log2 m + 1 - 53) 0) as [Hd|Hd].
  - intros; simplify_eq. split_and!; [lia|lia|]. rewrite Z.mul_1_r, Z.sub_diag. simpl. lia.
  - set (e := Z.log2 m + 1 - 53) in *.
    assert (0 < m) as Hpos by (destruct (decide (m = 0)) as [->|]; [simpl in *; lia|lia]).
    pose proof (Z.log2_spec m Hpos) as [Hlo _].
    replace (Z.log2 m) with (52 + e) in Hlo by lia.
    rewrite Z.pow_add_r in Hlo by lia.
    pose proof (Z.div_mod m (2 ^ e)) as Hdm. pose proof (Z.mod_pos_bound m (2 ^ e)) as Hr.
    assert (0 < 2 ^ e) as H2 by (apply Z.pow_pos_nonneg; lia).
    assert (2 ^ e = 2 * 2 ^ (e - 1)) as Hhalf.
    { rewrite <- Z.pow_succ_r by lia. f_equal. lia. }
    assert (0 <= m / 2 ^ e) as Hq by (apply Z.div_pos; lia).
    intros Heq. injection Heq as <- <-.
    set (q := m / 2 ^ e) in *. set (rem := m mod 2 ^ e) in *. set (h := 2 ^ (e - 1)) in *.
    assert (m = 2 ^ e * q + rem) as Hm' by (apply Hdm; lia). clear Hdm.
    assert (2 ^ 53 * h <= m) as Hh by (change (2 ^ 53) with (2 * 2 ^ 52); nia).
    destruct ((h <? rem) || ((rem =? h) && Z.odd q)) eqn:Hup.
    + assert (h <= rem) as Hge.
      { apply orb_true_iff in Hup as [Hup|Hup]; [apply Z.ltb_lt in Hup; lia|].
        apply andb_true_iff in Hup as [Hup _]. apply Z.eqb_eq in Hup. lia. }
      split_and!; [lia|lia|]. nia.
    + assert (rem <= h) as Hle.
      { apply orb_false_iff in Hup as [Hup _]. apply Z.ltb_ge in Hup. lia. }
      split_and!; [lia|lia|]. nia.
Qed.

Lemma float64_error n : Z.abs (float64 n - n) * 2 ^ 53 <= Z.abs n.
Proof.
  unfold float64. destruct (round53 (Z.abs n)) as [q d] eqn:Hr.
  apply round53_error in Hr as (_ & _ & He); [|lia].
  destruct (Z.sgn_spec n) as [[? ->]|[[? ->]|[? ->]]]; lia.
Qed.

Lemma float64_small n : Z.abs n < 2 ^ 53 -> float64 n = n.
Proof. intros Hn. pose proof (float64_error n). nia. Qed.

#[export] Hint Rewrite app_cons app_empty_l app_empty_r string_app_assoc len_app
  HasPrefix_app TrimPrefix_app : operator.
#[export] Hint Resolve len_nonneg wrap64_range Split_not_nil : operator.
