(* ===== verification/GoHeap.v ===== *)
(** * Go's memory

    A heap of typed cells: what [new] and [make] allocate (single values, the
    arrays behind slices, maps).  A pointer is the address of a cell; a slice is
    a window of an array; both may be nil, which is [None].  A computation
    panics ([None]) when it follows an address that holds no value of the
    pointer's type.  [DeepCopyable] is the interface of the generated
    [DeepCopyInto] methods: what the copy of a value must be. *)
From S2P Require Import Prelude.

Abbreviation loc := positive.

Abbreviation heap cell := (gmap loc cell).

(** A computation on the heap: a result and the heap after it, or a panic. *)
Definition mem (cell A : Type) : Type := heap cell -> option (A * heap cell).

#[export] Instance mem_ret cell : MRet (mem cell) := fun A a h => Some (a, h).
#[export] Instance mem_bind cell : MBind (mem cell) := fun A B k m h =>
  match m h with Some (a, h') => k a h' | None => None end.
Definition panic {cell A} : mem cell A := fun _ => None.

Record ptr (T : Type) := Ptr { addr : loc }.
Arguments Ptr {T} _.
Arguments addr {T} _.

(** [s_len] elements of the array at [s_arr], from [s_off] on. *)
Record slice (T : Type) := Slice { s_arr : loc; s_off : nat; s_len : nat }.
Arguments Slice {T} _ _ _.
Arguments s_arr {T} _.
Arguments s_off {T} _.
Arguments s_len {T} _.

(** A [map[string]string]. *)
Record gomap := GoMap { m_addr : loc }.

(** The values of type [T] are stored in cells of their own kind. *)
Class Stored (cell T : Type) := {
  inj : T -> cell;
  prj : cell -> option T;
  prj_inj x : prj (inj x) = Some x
}.

(** The zero value of a type, with which Go initialises memory. *)
Class Zero (T : Type) := zero : T.

(** The order in which [range] visits a map. *)
Class MapRange := {
  range_map : gmap string string -> list (string * string);
  range_map_perm m : range_map m ≡ₚ map_to_list m
}.

Section operations.
Context {cell : Type}.

(** An address not in use. *)
Definition next_loc (h : heap cell) : loc := Pos.succ (foldr Pos.max 1%positive (map_to_list h).*1).

Definition alloc {T} `{Stored cell T} (x : T) : mem cell loc := fun h =>
  let l := next_loc h in Some (l, <[l := inj x]> h).

Definition peek {T} `{Stored cell T} (h : heap cell) (l : loc) : option T := (h !! l) ≫= prj.

Definition read {T} `{Stored cell T} (l : loc) : mem cell T := fun h =>
  match peek h l with Some x => Some (x, h) | None => None end.

(** A store needs the cell to be there, and to hold a value of the type. *)
Definition write {T} `{Stored cell T} (l : loc) (x : T) : mem cell () := fun h =>
  match peek (T := T) h l with Some _ => Some ((), <[l := inj x]> h) | None => None end.

(** [new(T)], [*p] and [*p = x]. *)
Definition new T `{Stored cell T} `{Zero T} : mem cell (ptr T) := l ← alloc (zero : T); mret (Ptr l).
Definition load {T} `{Stored cell T} (p : ptr T) : mem cell T := read (addr p).
Definition store {T} `{Stored cell T} (p : ptr T) (x : T) : mem cell () := write (addr p) x.

(** [make([]T, n)], [s[i]], [s[i] = x] and [copy(dst, src)]. *)
Definition make_slice T `{Stored cell (list T)} `{Zero T} (n : nat) : mem cell (slice T) :=
  l ← alloc (replicate n (zero : T)); mret (Slice l 0 n).

Definition slice_get {T} `{Stored cell (list T)} (s : slice T) (i : nat) : mem cell T :=
  xs ← read (s_arr s);
  if bool_decide (i < s_len s)%nat then
    match xs !! (s_off s + i)%nat with Some x => mret x | None => panic end
  else panic.

Definition slice_set {T} `{Stored cell (list T)} (s : slice T) (i : nat) (x : T) : mem cell () :=
  xs ← read (s_arr s);
  if bool_decide (i < s_len s)%nat then write (s_arr s) (<[(s_off s + i)%nat := x]> xs) else panic.

Definition window {T} (s : slice T) (xs : list T) : list T := take (s_len s) (drop (s_off s) xs).

Definition slice_copy {T} `{Stored cell (list T)} (dst src : slice T) : mem cell () :=
  xs ← read (s_arr src);
  ys ← read (s_arr dst);
  write (s_arr dst) (list_inserts (s_off dst) (take (s_len dst) (window src xs)) ys).

(** [make(map[string]string, n)] (the size is a hint) and [m[k] = v]. *)
Definition make_map `{Stored cell (gmap string string)} : mem cell gomap :=
  l ← alloc (∅ : gmap string string); mret (GoMap l).

Definition map_set `{Stored cell (gmap string string)} (m : gomap) (k v : string) : mem cell () :=
  kv ← read (m_addr m);
  write (m_addr m) (<[k := v]> kv).

(** ** The statements of generated copies *)

(** [if in != nil { *out = new(T); ( *in).DeepCopyInto( *out) }]. *)
Definition copy_pointer {T} `{Stored cell T} `{Zero T} (copy : T -> mem cell T) (p : option (ptr T)) :
    mem cell (option (ptr T)) :=
  match p with
  | None => mret None
  | Some p =>
      out ← new T;
      x ← load p;
      y ← copy x;
      _ ← store out y;
      mret (Some out)
  end.

(** [if in != nil { *out = new(T); **out = **in }]. *)
Definition copy_flat_pointer {T} `{Stored cell T} `{Zero T} (p : option (ptr T)) : mem cell (option (ptr T)) :=
  match p with
  | None => mret None
  | Some p =>
      out ← new T;
      x ← load p;
      _ ← store out x;
      mret (Some out)
  end.

(** [for i := range *in { ( *in)[i].DeepCopyInto(&( *out)[i]) }]: [n] turns from [i] on. *)
Fixpoint copy_items {T} `{Stored cell (list T)} (copy : T -> mem cell T) (in_ out : slice T) (i n : nat) :
    mem cell () :=
  match n with
  | O => mret ()
  | S n =>
      x ← slice_get in_ i;
      y ← copy x;
      _ ← slice_set out i y;
      copy_items copy in_ out (S i) n
  end.

(** [if in != nil { *out = make([]T, len( *in)); for ... }]. *)
Definition copy_slice {T} `{Stored cell (list T)} `{Zero T} (copy : T -> mem cell T) (s : option (slice T)) :
    mem cell (option (slice T)) :=
  match s with
  | None => mret None
  | Some s =>
      out ← make_slice T (s_len s);
      _ ← copy_items copy s out 0 (s_len s);
      mret (Some out)
  end.

(** [if in != nil { *out = make([]T, len( *in)); copy( *out, *in) }]. *)
Definition copy_flat_slice {T} `{Stored cell (list T)} `{Zero T} (s : option (slice T)) :
    mem cell (option (slice T)) :=
  match s with
  | None => mret None
  | Some s =>
      out ← make_slice T (s_len s);
      _ ← slice_copy out s;
      mret (Some out)
  end.

(** [if in != nil { *out = make(map[string]string, len( *in)); for key, val := range *in {...} }]. *)
Fixpoint copy_entries `{Stored cell (gmap string string)} (out : gomap) (kvs : list (string * string)) :
    mem cell () :=
  match kvs with
  | [] => mret ()
  | (key, val) :: kvs => _ ← map_set out key val; copy_entries out kvs
  end.

Definition copy_map `{MapRange} `{Stored cell (gmap string string)} (m : option gomap) :
    mem cell (option gomap) :=
  match m with
  | None => mret None
  | Some m =>
      out ← make_map;
      kv ← read (m_addr m);
      _ ← copy_entries out (range_map kv);
      mret (Some out)
  end.
End operations.

(** ** The values behind pointers *)

(** [den h x] is the value [x] stands for in [h], with every pointer, slice and
    map followed; [None] when one of them leads nowhere.  A copy stands for the
    same value in the cells it allocated alone: it shares no cell with its
    original, and no cell that was there is changed. *)
Class DeepCopyable (cell T V : Type) := {
  den : heap cell -> T -> option V;
  DeepCopyInto : T -> mem cell T;
  den_mono h h' x v : h ⊆ h' -> den h x = Some v -> den h' x = Some v;
  DeepCopyInto_ok h x v : den h x = Some v ->
    exists x' h', DeepCopyInto x h = Some (x', h') /\ h ⊆ h' /\ den (h' ∖ h) x' = Some v
}.
#[global] Hint Mode DeepCopyable - + - : typeclass_instances.

Section denotations.
Context {cell : Type}.

Definition den_ptr {T V} `{DeepCopyable cell T V} `{Stored cell T} (h : heap cell) (p : option (ptr T)) :
    option (option V) :=
  match p with
  | None => Some None
  | Some p => x ← peek h (addr p); Some <$> den h x
  end.

(** The array must reach as far as the slice. *)
Definition den_slice {T V} `{DeepCopyable cell T V} `{Stored cell (list T)} (h : heap cell) (s : option (slice T)) :
    option (option (list V)) :=
  match s with
  | None => Some None
  | Some s =>
      xs ← peek h (s_arr s);
      if bool_decide (s_off s + s_len s <= length xs)%nat then Some <$> mapM (den h) (window s xs) else None
  end.

Definition den_map `{Stored cell (gmap string string)} (h : heap cell) (m : option gomap) :
    option (option (gmap string string)) :=
  match m with
  | None => Some None
  | Some m => Some <$> peek h (m_addr m)
  end.
End denotations.

(** ** Lemmas *)

Section lemmas.
Context {cell : Type}.
Implicit Types h d : heap cell.

(** *** The cells allocated since *)

Lemma diff_subseteq h h1 h2 : h ⊆ h1 -> h1 ⊆ h2 -> h1 ∖ h ⊆ h2 ∖ h /\ h2 ∖ h1 ⊆ h2 ∖ h.
Proof.
  rewrite !map_subseteq_spec. intros H1 H2. split; intros l c; rewrite !lookup_difference_Some.
  - intros [??]; split; eauto.
  - intros [? Hn]; split; [done|]. destruct (h !! l) eqn:Hl; [|done]. by rewrite (H1 _ _ Hl) in Hn.
Qed.

Lemma diff_insert h h1 l c : h !! l = None -> (<[l := c]> h1) ∖ h = <[l := c]> (h1 ∖ h).
Proof.
  intros Hl. apply map_eq; intros k. destruct (decide (k = l)) as [->|].
  - rewrite lookup_insert_eq. apply lookup_difference_Some. by rewrite lookup_insert_eq.
  - rewrite lookup_insert_ne by done.
    destruct ((h1 ∖ h) !! k) eqn:E.
    + apply lookup_difference_Some in E as [??]. apply lookup_difference_Some.
      by rewrite lookup_insert_ne.
    + apply lookup_difference_None in E. apply lookup_difference_None.
      by rewrite lookup_insert_ne.
Qed.

Lemma subseteq_insert_fresh h h1 l c : h ⊆ h1 -> h !! l = None -> h ⊆ <[l := c]> h1.
Proof.
  rewrite !map_subseteq_spec. intros H1 Hl k c' Hk. rewrite lookup_insert_ne by congruence. eauto.
Qed.

(** A cell allocated after [h] keeps its place when only it is rewritten. *)
Lemma diff_below_insert h h1 h2 l c :
  h ⊆ h1 -> h !! l = None -> is_Some (h1 !! l) -> h2 ∖ h1 ⊆ (<[l := c]> h2) ∖ h.
Proof.
  rewrite !map_subseteq_spec. intros H1 Hl [c1 Hl1] k c2. rewrite !lookup_difference_Some.
  intros [Hk Hn]. split.
  - rewrite lookup_insert_ne; [done|]. intros ->. by rewrite Hl1 in Hn.
  - destruct (h !! k) eqn:E; [|done]. by rewrite (H1 _ _ E) in Hn.
Qed.

Lemma peek_mono {T} `{Stored cell T} h h' l (x : T) : h ⊆ h' -> peek h l = Some x -> peek h' l = Some x.
Proof.
  unfold peek. intros Hs Hl. destruct (h !! l) as [c|] eqn:E; [|done].
  by rewrite (lookup_weaken _ _ _ _ E Hs).
Qed.

Lemma peek_insert {T} `{Stored cell T} h l (x : T) : peek (<[l := inj x]> h) l = Some x.
Proof. unfold peek. rewrite lookup_insert_eq. apply prj_inj. Qed.

Lemma peek_insert_ne {T} `{Stored cell T} h l l' c : l <> l' -> peek (T := T) (<[l := c]> h) l' = peek h l'.
Proof. intros. unfold peek. by rewrite lookup_insert_ne. Qed.

Lemma peek_is_Some {T} `{Stored cell T} h l (x : T) : peek h l = Some x -> is_Some (h !! l).
Proof. unfold peek. destruct (h !! l); by eauto. Qed.

Lemma next_loc_None h : h !! next_loc h = None.
Proof.
  destruct (h !! next_loc h) as [c|] eqn:E; [exfalso|done].
  apply elem_of_map_to_list, (list_elem_of_fmap_2 fst) in E. simpl in E.
  assert (Hle : forall (ls : list loc) l, l ∈ ls -> (l <= foldr Pos.max 1 ls)%positive).
  { induction ls as [|l' ls IH]; intros l Hl; [by apply not_elem_of_nil in Hl|]. simpl.
    apply elem_of_cons in Hl as [->|Hl]; [lia|]. specialize (IH l Hl). lia. }
  apply Hle in E. unfold next_loc in E. lia.
Qed.

(** *** Denotations only grow with the heap *)

Lemma den_ptr_mono {T V} `{DeepCopyable cell T V} `{Stored cell T} h h' (p : option (ptr T)) v :
  h ⊆ h' -> den_ptr h p = Some v -> den_ptr h' p = Some v.
Proof.
  intros Hs. destruct p as [p|]; [simpl|done].
  destruct (peek h (addr p)) as [x|] eqn:E; [|done]; simpl.
  rewrite (peek_mono _ _ _ _ Hs E); simpl.
  destruct (den h x) as [w|] eqn:Ew; [|done]. by rewrite (den_mono _ _ _ _ Hs Ew).
Qed.

Lemma mapM_den_mono {T V} `{DeepCopyable cell T V} h h' (xs : list T) (vs : list V) :
  h ⊆ h' -> mapM (den h) xs = Some vs -> mapM (den h') xs = Some vs.
Proof.
  intros Hs. rewrite !mapM_Some. intros Hf. eapply Forall2_impl; [exact Hf|].
  intros x v Hx. by eapply den_mono.
Qed.

Lemma den_slice_mono {T V} `{DeepCopyable cell T V} `{Stored cell (list T)} h h' (s : option (slice T)) v :
  h ⊆ h' -> den_slice h s = Some v -> den_slice h' s = Some v.
Proof.
  intros Hs. destruct s as [s|]; [simpl|done].
  destruct (peek h (s_arr s)) as [xs|] eqn:E; [|done]; simpl.
  rewrite (peek_mono _ _ _ _ Hs E); simpl. case_bool_decide; [|done].
  destruct (mapM (den h) _) as [vs|] eqn:Ev; [|done]. by rewrite (mapM_den_mono _ _ _ _ Hs Ev).
Qed.

Lemma den_map_mono `{Stored cell (gmap string string)} h h' m v :
  h ⊆ h' -> den_map h m = Some v -> den_map h' m = Some v.
Proof.
  intros Hs. destruct m as [m|]; [simpl|done].
  destruct (peek h (m_addr m)) as [kv|] eqn:E; [|done]. by rewrite (peek_mono _ _ _ _ Hs E).
Qed.

(** *** Copies *)

(** [m] makes, from fresh cells only, something that stands for [v]. *)
Definition copies {T V} (dn : heap cell -> T -> option V) h (m : mem cell T) (v : V) : Prop :=
  exists x h', m h = Some (x, h') /\ h ⊆ h' /\ dn (h' ∖ h) x = Some v.

Lemma copy_pointer_ok {T V} `{DeepCopyable cell T V} `{Stored cell T} `{Zero T} h (p : option (ptr T)) v :
  den_ptr h p = Some v -> copies den_ptr h (copy_pointer DeepCopyInto p) v.
Proof.
  destruct p as [p|]; simpl; [|intros [= <-]; by exists None, h].
  destruct (peek h (addr p)) as [x|] eqn:E; [|done]; simpl.
  destruct (den h x) as [w|] eqn:Ew; intros; simplify_eq/=.
  set (l := next_loc h). assert (Hl : h !! l = None) by apply next_loc_None.
  assert (Hs : h ⊆ <[l := inj zero]> h) by by apply insert_subseteq.
  destruct (DeepCopyInto_ok (<[l := inj zero]> h) x w) as (y & h2 & Ey & Hs2 & Hy);
    [by eapply den_mono|].
  exists (Some (Ptr l)), (<[l := inj y]> h2).
  assert (Hl2 : peek h2 l = Some zero) by (eapply peek_mono; [done|apply peek_insert]).
  split_and!.
  - unfold copy_pointer, new, load, store, read, write, alloc, mbind, mem_bind, mret, mem_ret; simpl.
    fold l. rewrite (peek_mono _ _ _ _ Hs E), Ey, Hl2. done.
  - apply subseteq_insert_fresh; [|done]. by etrans.
  - simpl. rewrite diff_insert, peek_insert by done; simpl.
    rewrite <- diff_insert by done. rewrite (den_mono _ _ _ _ (diff_below_insert _ _ h2 _ _ Hs Hl (peek_is_Some _ _ _ (peek_insert _ _ _))) Hy).
    done.
Qed.

Lemma DeepCopyInto_copies {T V} `{DeepCopyable cell T V} h (x : T) (v : V) :
  den h x = Some v -> copies den h (DeepCopyInto x) v.
Proof. apply DeepCopyInto_ok. Qed.

Lemma copies_ext {T V} (dn : heap cell -> T -> option V) h (m m' : mem cell T) v :
  (forall h, m h = m' h) -> copies dn h m' v -> copies dn h m v.
Proof. unfold copies. intros E (x & h' & E' & Hr). exists x, h'. by rewrite E. Qed.

(** The turns of the loop over a slice: [ys] is the array of the copy, whose
    first [i] elements are done. *)
Lemma copy_items_ok {T V} `{DeepCopyable cell T V} `{Stored cell (list T)} h (s : slice T) (xs : list T) (vs : list V) l :
  peek h (s_arr s) = Some xs -> (s_off s + s_len s <= length xs)%nat ->
  mapM (den h) (window s xs) = Some vs -> h !! l = None ->
  forall n i h1 ys, h ⊆ h1 -> peek h1 l = Some ys -> length ys = s_len s -> (i + n = s_len s)%nat ->
  mapM (den (delete l (h1 ∖ h))) (take i ys) = Some (take i vs) ->
  exists h2 zs, copy_items DeepCopyInto s (Slice l 0 (s_len s)) i n h1 = Some ((), h2) /\ h ⊆ h2 /\
    peek h2 l = Some zs /\ mapM (den (delete l (h2 ∖ h))) zs = Some vs.
Proof.
  intros Hxs Hlen Hvs Hl. induction n as [|n IH]; intros i h1 ys Hs Hys Hly Hi Hd.
  { exists h1, ys. split_and!; try done. rewrite Nat.add_0_r in Hi. subst i.
    assert (length vs = s_len s) as Hlv.
    { apply length_mapM in Hvs. unfold window in Hvs. rewrite length_take, length_drop in Hvs. lia. }
    by rewrite !take_ge in Hd by lia. }
  assert (exists x, xs !! (s_off s + i)%nat = Some x) as [x Hx] by (apply lookup_lt_is_Some; lia).
  assert (exists v, vs !! i = Some v /\ den h x = Some v) as (v & Hv & Hxv).
  { apply mapM_Some in Hvs. assert (window s xs !! i = Some x) as Hw.
    { unfold window. rewrite lookup_take_lt, lookup_drop by lia. done. }
    destruct (Forall2_lookup_l _ _ _ _ _ Hvs Hw) as (v & ? & ?). eauto. }
  destruct (DeepCopyInto_ok h1 x v) as (y & h2 & Ey & Hs2 & Hy); [by eapply den_mono|].
  assert (Hys2 : peek h2 l = Some ys) by by eapply peek_mono.
  destruct (IH (S i) (<[l := inj (<[i := y]> ys)]> h2) (<[i := y]> ys)) as (h3 & zs & E & Hrest).
  - apply subseteq_insert_fresh; [|done]. by etrans.
  - apply peek_insert.
  - by rewrite length_insert.
  - lia.
  - assert (Hyl : ys !! i = Some (default y (ys !! i))).
    { destruct (ys !! i) eqn:E; [done|]. apply lookup_ge_None in E. lia. }
    rewrite (take_S_r _ _ y) by (rewrite list_lookup_insert_eq; [done|lia]).
    rewrite (take_S_r _ _ v) by done. rewrite take_insert_ge by lia.
    apply mapM_Some, Forall2_app; [apply mapM_Some in Hd; eapply Forall2_impl; [exact Hd|]|constructor; [|constructor]].
    + intros a b Hab. eapply den_mono; [|exact Hab]. rewrite diff_insert, delete_insert_eq by done.
      apply delete_mono. by apply diff_subseteq.
    + eapply den_mono; [|exact Hy]. rewrite diff_insert, delete_insert_eq by done.
      apply map_subseteq_spec. intros k c Hk. rewrite lookup_delete_ne.
      * eapply lookup_weaken; [exact Hk|]. by apply diff_subseteq.
      * intros ->. apply lookup_difference_Some in Hk as [_ Hk]. apply peek_is_Some in Hys as [? ?]. congruence.
  - exists h3, zs. split; [|done]. rewrite <- E. simpl.
    unfold slice_get, slice_set, read, write, mbind, mem_bind, mret, mem_ret; simpl.
    rewrite (peek_mono _ _ _ _ Hs Hxs); simpl. rewrite bool_decide_true, Hx by lia; simpl.
    by rewrite Ey, Hys2, Hys2.
Qed.

Lemma copy_slice_ok {T V} `{DeepCopyable cell T V} `{Stored cell (list T)} `{Zero T} h (s : option (slice T)) v :
  den_slice h s = Some v -> copies den_slice h (copy_slice DeepCopyInto s) v.
Proof.
  destruct s as [s|]; simpl; [|intros [= <-]; by exists None, h].
  destruct (peek h (s_arr s)) as [xs|] eqn:E; [|done]; simpl. case_bool_decide as Hlen; [|done].
  destruct (mapM (den h) (window s xs)) as [vs|] eqn:Evs; intros; simplify_eq/=.
  set (l := next_loc h). assert (Hl : h !! l = None) by apply next_loc_None.
  set (z := replicate (s_len s) (zero : T)).
  destruct (copy_items_ok h s xs vs l E Hlen Evs Hl (s_len s) 0 (<[l := inj z]> h) z)
    as (h2 & zs & E2 & Hs & Hzs & Hvs); try done.
  - by apply insert_subseteq.
  - apply peek_insert.
  - unfold z; by rewrite length_replicate.
  - exists (Some (Slice l 0 (s_len s))), h2. split_and!; [|done|].
    + unfold copy_slice, make_slice, alloc, mbind, mem_bind, mret, mem_ret. fold l z. by rewrite E2.
    + assert (Hlv : length zs = s_len s).
      { apply length_mapM in Hvs, Evs. unfold window in Evs. rewrite length_take, length_drop in Evs. lia. }
      unfold den_slice; simpl. assert (peek (h2 ∖ h) l = Some zs) as ->.
      { unfold peek in *. destruct (h2 !! l) as [c|] eqn:Ec; [|done].
        by rewrite (proj2 (lookup_difference_Some _ _ _ c) (conj Ec Hl)). }
      unfold window; simpl. rewrite bool_decide_true by lia. rewrite drop_0, take_ge by lia.
      rewrite (mapM_den_mono (delete l (h2 ∖ h)) _ _ vs); [done| |done]. apply delete_subseteq.
Qed.

(** A type whose values are themselves, whatever the heap. *)
Class Flat T `{DeepCopyable cell T T} := {
  den_flat h (x : T) : den h x = Some x;
  DeepCopyInto_flat (x : T) : DeepCopyInto x = mret x
}.

Lemma mapM_den_flat {T} `{Flat T} h (xs : list T) : mapM (den h) xs = Some xs.
Proof. apply mapM_Some, Forall_Forall2_diag, Forall_true. intros x. apply den_flat. Qed.

Lemma copy_flat_pointer_ok {T} `{Flat T} `{Stored cell T} `{Zero T} h (p : option (ptr T)) v :
  den_ptr h p = Some v -> copies den_ptr h (copy_flat_pointer p) v.
Proof.
  intros Hp. eapply copies_ext; [|by apply copy_pointer_ok]. intros h'.
  destruct p as [p|]; [|done]. unfold copy_flat_pointer, copy_pointer, mbind, mem_bind.
  destruct (new T h') as [[out h1]|]; [|done]. destruct (load p h1) as [[x h2]|]; [|done].
  by rewrite DeepCopyInto_flat.
Qed.

Lemma copy_flat_slice_ok {T} `{Flat T} `{Stored cell (list T)} `{Zero T} h (s : option (slice T)) v :
  den_slice h s = Some v -> copies den_slice h (copy_flat_slice s) v.
Proof.
  destruct s as [s|]; simpl; [|intros [= <-]; by exists None, h].
  destruct (peek h (s_arr s)) as [xs|] eqn:E; [|done]; simpl. case_bool_decide as Hlen; [|done].
  rewrite mapM_den_flat. intros; simplify_eq/=.
  set (l := next_loc h). assert (Hl : h !! l = None) by apply next_loc_None.
  set (z := replicate (s_len s) (zero : T)).
  assert (Hw : length (window s xs) = s_len s).
  { unfold window. rewrite length_take, length_drop. lia. }
  exists (Some (Slice l 0 (s_len s))), (<[l := inj (window s xs)]> (<[l := inj z]> h)). split_and!.
  - unfold copy_flat_slice, make_slice, slice_copy, alloc, read, write, mbind, mem_bind, mret, mem_ret; simpl.
    fold l z.
    rewrite (peek_mono h _ _ xs); [|by apply insert_subseteq|done].
    rewrite !peek_insert, take_ge by lia.
    rewrite <- (app_nil_r (window s xs)) at 1. rewrite list_inserts_0_l; [done|].
    unfold z. by rewrite length_replicate.
  - rewrite insert_insert_eq. by apply insert_subseteq.
  - simpl. rewrite diff_insert, peek_insert by done; simpl.
    rewrite bool_decide_true by (rewrite Hw; lia). rewrite mapM_den_flat. simpl.
    unfold window at 1; simpl. by rewrite drop_0, take_ge by lia.
Qed.

Lemma copy_entries_ok `{Stored cell (gmap string string)} (out : gomap) kvs : forall h (m : gmap string string),
  peek h (m_addr out) = Some m ->
  copy_entries out kvs h =
    Some ((), match kvs with [] => h | _ => <[m_addr out := inj (list_to_map (reverse kvs) ∪ m)]> h end).
Proof.
  induction kvs as [|[k v] kvs IH]; intros h m Hm; [done|].
  unfold copy_entries; fold copy_entries.
  unfold map_set, read, write, mbind, mem_bind; simpl. rewrite Hm, Hm.
  rewrite (IH _ (<[k := v]> m)) by apply peek_insert.
  destruct kvs as [|kv kvs]; simpl.
  - by rewrite <- insert_union_l, (left_id_L ∅ (∪)).
  - rewrite insert_insert_eq. do 3 f_equal.
    change ((k, v) :: kv :: kvs) with ([(k, v)] ++ kv :: kvs).
    rewrite reverse_app, list_to_map_app; simpl.
    by rewrite <- (assoc_L (∪)), insert_empty, insert_union_singleton_l.
Qed.

Lemma copy_map_ok `{MapRange} `{Stored cell (gmap string string)} h (m : option gomap) v :
  den_map h m = Some v -> copies den_map h (copy_map m) v.
Proof.
  destruct m as [m|]; simpl; [|intros [= <-]; by exists None, h].
  destruct (peek h (m_addr m)) as [kv|] eqn:E; intros; simplify_eq/=.
  set (l := next_loc h). assert (Hl : h !! l = None) by apply next_loc_None.
  assert (Hkv : list_to_map (reverse (range_map kv)) = kv).
  { transitivity (list_to_map (map_to_list kv) : gmap string string); [|apply list_to_map_to_list].
    apply list_to_map_proper; [|by rewrite reverse_Permutation, range_map_perm].
    rewrite reverse_Permutation, range_map_perm. apply NoDup_fst_map_to_list. }
  exists (Some (GoMap l)).
  unfold copy_map, make_map, alloc, read, mbind, mem_bind, mret, mem_ret; simpl. fold l.
  rewrite (peek_mono h _ _ kv); [|by apply insert_subseteq|done].
  rewrite (copy_entries_ok (GoMap l) _ _ ∅) by apply peek_insert.
  destruct (range_map kv) as [|e kvs].
  - eexists. split_and!; [done|by apply insert_subseteq|]. simpl in Hkv. subst kv.
    rewrite diff_insert by done. by rewrite peek_insert.
  - eexists. split_and!; [done|rewrite insert_insert_eq; by apply insert_subseteq|].
    cbn [m_addr]. by rewrite Hkv, (right_id_L ∅ (∪)), diff_insert, peek_insert.
Qed.
(** *** Structs, field by field *)

(** [m] run in [h] leaves a result that satisfies [P] with the cells that are
    not in [h0]. *)
Definition builds {T} h0 h (m : mem cell T) (P : heap cell -> T -> Prop) : Prop :=
  exists x h', m h = Some (x, h') /\ h ⊆ h' /\ P (h' ∖ h0) x.

Lemma builds_bind {T V U} (dn : heap cell -> T -> option V) h0 h (m : mem cell T) (k : T -> mem cell U) v P :
  h0 ⊆ h -> copies dn h m v ->
  (forall h h' x v, h ⊆ h' -> dn h x = Some v -> dn h' x = Some v) ->
  (forall x h1, h0 ⊆ h1 -> h ⊆ h1 -> (forall h2, h1 ⊆ h2 -> dn (h2 ∖ h0) x = Some v) -> builds h0 h1 (k x) P) ->
  builds h0 h (m ≫= k) P.
Proof.
  intros Hs (x & h1 & E & Hs1 & Hx) Hmono Hk.
  destruct (Hk x h1) as (y & h2 & E2 & Hs2 & Hy).
  - by etrans.
  - done.
  - intros h2 Hs2. eapply Hmono; [|exact Hx].
    etrans; [by apply (diff_subseteq h h1 h2)|]. apply (diff_subseteq h0 h h2); [done|by etrans].
  - exists y, h2. split_and!; [|by etrans|done]. unfold mbind, mem_bind. by rewrite E.
Qed.

Lemma builds_ret {T} h0 h (x : T) (P : heap cell -> T -> Prop) : P (h ∖ h0) x -> builds h0 h (mret x) P.
Proof. intros. by exists x, h. Qed.
End lemmas.

Create HintDb goheap.
#[export] Hint Resolve den_mono den_ptr_mono den_slice_mono den_map_mono : goheap.
#[export] Hint Resolve DeepCopyInto_copies copy_pointer_ok copy_flat_pointer_ok copy_slice_ok copy_flat_slice_ok copy_map_ok : goheap.

(** Monotonicity of the denotation of a struct, from that of its fields. *)
Ltac den_struct_mono :=
  intros h h' x v Hs; cbv beta delta [den]; simpl;
  repeat (let w := fresh "w" in let Hw := fresh "Hw" in let H := fresh "H" in
          intros H; apply bind_Some in H as (w & Hw & H); apply bind_Some; exists w;
          split; [by eauto with goheap|revert H]); done.

(** The copy of one field, whose denotation is known in an earlier heap. *)
Ltac copy_field :=
  first [eapply copy_flat_pointer_ok | eapply copy_pointer_ok | eapply copy_flat_slice_ok
        | eapply copy_slice_ok | eapply copy_map_ok | eapply DeepCopyInto_copies];
  solve [eauto with goheap].

(** A struct copied field by field by [f], with denotation [dn]. *)
Ltac copy_struct f dn :=
  let h := fresh "h" in let x := fresh "x" in let v := fresh "v" in let H := fresh "H" in
  let Hs := fresh "Hs" in let R := fresh "R" in
  intros h x v H; unfold dn in H;
  repeat (let w := fresh "w" in let Hw := fresh "Hw" in apply bind_Some in H as (w & Hw & H));
  injection H as <-; assert (Hs : h ⊆ h) by done;
  match goal with |- context [_ /\ _ /\ _ = ?R] =>
    enough (builds h h (f x) (fun d y => dn d y = R)) by done end;
  unfold f;
  repeat (let y := fresh "y" in let h' := fresh "h" in let H0 := fresh "Hs" in
          let H1 := fresh "Hs" in let Hy := fresh "Hy" in
          eapply builds_bind; [eassumption|copy_field|by eauto with goheap|];
          intros y h' H0 H1 Hy);
  apply builds_ret; unfold dn;
  repeat (eapply bind_Some; eexists; split;
          [match goal with Hy : forall h2, _ ⊆ h2 -> _ |- _ =>
             apply Hy; solve [repeat (first [done|etrans; [eassumption|]])] end|]);
  done.

(** A struct without pointers, copied by [f]. *)
Ltac flat_copy d f :=
  refine {| den := d; DeepCopyInto := f |};
  [done|abstract (let h := fresh in intros h ? v [= ->]; by exists v, h)].
