(* ===== verification/GoErrors.v ===== *)
(** * Go errors: their text, [errors.Is] and [errors.As]

    An error is the tree its [Unwrap] methods expose.  The operator inspects
    errors for [fs.ErrNotExist], [*fs.PathError] and [*apierrors.StatusError];
    an error made elsewhere (by Coraza, by the API client) is an arbitrary tree. *)
From S2P Require Import Prelude GoLib.

(** The status an API server answers a failed call with. *)
Record StatusError := {
  st_code : Z;
  st_reason : string;
  st_retryAfterSeconds : option Z;
  st_message : string
}.

Inductive gerror :=
  (** [errors.New], or [fmt.Errorf] without [%w]. *)
  | ErrText (msg : string)
  (** [fmt.Errorf] with [%w]: the whole text and the wrapped error. *)
  | ErrWrap (msg : string) (inner : gerror)
  (** [errors.Join], or several [%w]. *)
  | ErrJoin (msg : string) (inners : list gerror)
  (** [*fs.PathError]. *)
  | ErrPath (op path : string) (inner : gerror)
  (** [fs.ErrNotExist]. *)
  | ErrNotExist
  (** A [syscall.Errno]; its [Is] method answers [fs.ErrNotExist] for [ENOENT]. *)
  | ErrErrno (enoent : bool) (msg : string)
  (** [*apierrors.StatusError]. *)
  | ErrStatus (st : StatusError).

(** The [Error] method. *)
Fixpoint error_text (e : gerror) : string :=
  match e with
  | ErrText msg | ErrWrap msg _ | ErrJoin msg _ | ErrErrno _ msg => msg
  | ErrPath op path inner => op +:+ " " +:+ path +:+ ": " +:+ error_text inner
  | ErrNotExist => "file does not exist"
  | ErrStatus st => st_message st
  end.

(** [errors.Is(err, fs.ErrNotExist)]: depth first over the tree. *)
Fixpoint is_not_exist (e : gerror) : bool :=
  match e with
  | ErrNotExist => true
  | ErrErrno enoent _ => enoent
  | ErrWrap _ inner | ErrPath _ _ inner => is_not_exist inner
  | ErrJoin _ inners => existsb is_not_exist inners
  | ErrText _ | ErrStatus _ => false
  end.

(** [errors.As] to a [*fs.PathError]: the first one, depth first. *)
Fixpoint as_path_error (e : gerror) : option (string * gerror) :=
  match e with
  | ErrPath _ path inner => Some (path, inner)
  | ErrWrap _ inner => as_path_error inner
  | ErrJoin _ inners =>
      (fix go l := match l with
                   | [] => None
                   | x :: l' => match as_path_error x with Some r => Some r | None => go l' end
                   end) inners
  | _ => None
  end.

(** [errors.As] to a [*apierrors.StatusError]. *)
Fixpoint as_status_error (e : gerror) : option StatusError :=
  match e with
  | ErrStatus st => Some st
  | ErrWrap _ inner | ErrPath _ _ inner => as_status_error inner
  | ErrJoin _ inners =>
      (fix go l := match l with
                   | [] => None
                   | x :: l' => match as_status_error x with Some r => Some r | None => go l' end
                   end) inners
  | _ => None
  end.

(** [fmt.Errorf("<prefix>%w", err)]. *)
Definition errorf_w (prefix : string) (err : gerror) : gerror :=
  ErrWrap (prefix +:+ error_text err) err.

(** ** Lemmas *)

(** Induction that reaches the errors of a join. *)
Lemma gerror_nested_ind (P : gerror -> Prop) :
  (forall msg, P (ErrText msg)) -> (forall msg e, P e -> P (ErrWrap msg e)) ->
  (forall msg l, Forall P l -> P (ErrJoin msg l)) ->
  (forall op path e, P e -> P (ErrPath op path e)) -> P ErrNotExist ->
  (forall b msg, P (ErrErrno b msg)) -> (forall st, P (ErrStatus st)) -> forall e, P e.
Proof.
  intros HT HW HJ HP HN HE HS. fix IH 1. intros [msg|msg e|msg l|op path e| |b msg|st].
  - apply HT.
  - apply HW, IH.
  - apply HJ. induction l as [|x l IHl]; constructor; [apply IH|apply IHl].
  - apply HP, IH.
  - apply HN.
  - apply HE.
  - apply HS.
Qed.

(** A path error that wraps a missing file makes the whole error one. *)
Lemma as_path_error_not_exist e path inner :
  as_path_error e = Some (path, inner) -> is_not_exist inner = true -> is_not_exist e = true.
Proof.
  induction e as [msg|msg e IH|msg l IH|op p e IH| |b msg|st] using gerror_nested_ind; try done.
  - simpl. induction IH as [|x l Hx Hl IHl]; [done|]. simpl. intros Hp Hn.
    apply orb_true_iff. destruct (as_path_error x) as [[??]|]; [left|right]; auto.
  - simpl. intros. by simplify_eq.
Qed.
