(* ===== verification/RulesetCache.v ===== *)
(** * The versioned RuleSet cache ([internal/rulesets/cache/cache.go])

    [RuleSetCache] keeps, per instance (["namespace/name"]), the revisions of a
    compiled rule set, oldest first, with the UUID of the latest one, and two
    running totals.  The operations are translated with their critical section
    as one atomic step.  Go iterates a map in an arbitrary order: the operations
    that range over [c.entries] take that order as an argument.  The UUID and
    the time a revision gets are arguments of [Put]. *)
From S2P Require Import Prelude GoLib.

(** ** Data *)

Record RuleSetEntry := {
  UUID : string;
  Timestamp : Z;
  Rules : string;
  (** A nil Go map is [None]. *)
  DataFiles : option (gmap string string)
}.

Record RuleSetEntries := {
  Latest : string;
  Entries : list RuleSetEntry
}.

Record RuleSetCache := {
  entries : gmap string RuleSetEntries;
  totalSize : Z;
  totalEntries : Z
}.

#[export] Instance RuleSetEntry_eq_dec : EqDecision RuleSetEntry.
Proof. solve_decision. Defined.

(** ** Operations *)

Definition NewRuleSetCache : RuleSetCache :=
  {| entries := ∅; totalSize := 0; totalEntries := 0 |}.

(** The byte size of an entry's payload, accumulated in an [int]. *)
Definition entrySize (entry : RuleSetEntry) : Z :=
  map_fold (fun filename v size => size +i len filename +i len v)
    (len (Rules entry)) (default ∅ (DataFiles entry)).

(** [bytes.Clone] of every file: the copy has the same names and contents. *)
Definition cloneDataFiles (m : gmap string string) : gmap string string :=
  (fun contents => contents) <$> m.

Fixpoint find_entry (uuid : string) (l : list RuleSetEntry) : option RuleSetEntry :=
  match l with
  | [] => None
  | entry :: l' => if String.eqb (UUID entry) uuid then Some entry else find_entry uuid l'
  end.

Definition Get (c : RuleSetCache) (inst : string) : option RuleSetEntry :=
  match entries c !! inst with
  | Some es =>
      if (0 <? Z.of_nat (length (Entries es))) then
        match find_entry (Latest es) (Entries es) with
        | Some entry =>
            Some {| UUID := UUID entry; Timestamp := Timestamp entry; Rules := Rules entry;
                    DataFiles := cloneDataFiles <$> DataFiles entry |}
        | None => None
        end
      else None
  | None => None
  end.

Definition newEntry (uuid : string) (now : Z) (rules : string)
    (datafiles : option (gmap string string)) : RuleSetEntry :=
  {| UUID := uuid; Timestamp := now; Rules := rules;
     DataFiles := match datafiles with
                  | Some m => if bool_decide (m = ∅) then None else Some (cloneDataFiles m)
                  | None => None
                  end |}.

Definition Put (uuid : string) (now : Z) (inst rules : string)
    (datafiles : option (gmap string string)) (c : RuleSetCache) : RuleSetCache :=
  let e := newEntry uuid now rules datafiles in
  {| entries :=
       match entries c !! inst with
       | None => <[inst := {| Latest := UUID e; Entries := [e] |}]> (entries c)
       | Some es => <[inst := {| Latest := UUID e; Entries := Entries es ++ [e] |}]> (entries c)
       end;
     totalSize := totalSize c +i entrySize e;
     totalEntries := totalEntries c +i 1 |}.

Definition Len (c : RuleSetCache) : Z := Z.of_nat (size (entries c)).
Definition ListKeys (order : list string) (c : RuleSetCache) : list string :=
  filter (fun k => is_Some (entries c !! k)) order.
Definition TotalSize (c : RuleSetCache) : Z := totalSize c.
Definition TotalEntries (c : RuleSetCache) : Z := totalEntries c.
Definition CountEntries (c : RuleSetCache) (inst : string) : Z :=
  match entries c !! inst with
  | Some es => Z.of_nat (length (Entries es))
  | None => 0
  end.

(** The counters a pruning loop updates: the two totals of the cache, the
    [currentSize] local of [PruneBySize], and the number of pruned entries. *)
Record Counters := {
  ctrSize : Z;
  ctrEntries : Z;
  ctrCurrent : Z;
  ctrPruned : Z
}.

Definition drop_entry (entry : RuleSetEntry) (k : Counters) : Counters :=
  {| ctrSize := ctrSize k -i entrySize entry;
     ctrEntries := ctrEntries k -i 1;
     ctrCurrent := ctrCurrent k -i entrySize entry;
     ctrPruned := ctrPruned k +i 1 |}.

(** The inner loop of [Prune]: the entries kept and the updated counters. *)
Fixpoint prune_entries (now maxAge : Z) (latest : string) (l : list RuleSetEntry)
    (k : Counters) : list RuleSetEntry * Counters :=
  match l with
  | [] => ([], k)
  | entry :: l' =>
      if String.eqb (UUID entry) latest then
        let '(kept, k') := prune_entries now maxAge latest l' k in (entry :: kept, k')
      else if time_Sub now (Timestamp entry) <=? maxAge then
        let '(kept, k') := prune_entries now maxAge latest l' k in (entry :: kept, k')
      else prune_entries now maxAge latest l' (drop_entry entry k)
  end.

(** The inner loop of [PruneBySize]. *)
Fixpoint prune_entries_by_size (maxSize : Z) (latest : string) (l : list RuleSetEntry)
    (k : Counters) : list RuleSetEntry * Counters :=
  match l with
  | [] => ([], k)
  | entry :: l' =>
      if String.eqb (UUID entry) latest then
        let '(kept, k') := prune_entries_by_size maxSize latest l' k in (entry :: kept, k')
      else if maxSize <? ctrCurrent k then
        prune_entries_by_size maxSize latest l' (drop_entry entry k)
      else
        let '(kept, k') := prune_entries_by_size maxSize latest l' k in (entry :: kept, k')
  end.

(** The outer loops, over the instances in the order the map iteration gives. *)
Section outer_loop.
  Context (stop : Counters -> bool)
          (inner : string -> list RuleSetEntry -> Counters -> list RuleSetEntry * Counters).

Fixpoint prune_instances (order : list string) (m : gmap string RuleSetEntries)
    (k : Counters) : gmap string RuleSetEntries * Counters :=
  match order with
  | [] => (m, k)
  | inst :: order' =>
      if stop k then (m, k) else
      match m !! inst with
      | None => prune_instances order' m k
      | Some es =>
          let '(newEntries, k') := inner (Latest es) (Entries es) k in
          prune_instances order'
            (<[inst := {| Latest := Latest es; Entries := newEntries |}]> m) k'
      end
  end.
End outer_loop.

Definition start_counters (c : RuleSetCache) : Counters :=
  {| ctrSize := totalSize c; ctrEntries := totalEntries c;
     ctrCurrent := totalSize c; ctrPruned := 0 |}.

Definition finish (r : gmap string RuleSetEntries * Counters) : RuleSetCache * Z :=
  ({| entries := r.1; totalSize := ctrSize r.2; totalEntries := ctrEntries r.2 |},
   ctrPruned r.2).

Definition Prune (order : list string) (now maxAge : Z) (c : RuleSetCache) : RuleSetCache * Z :=
  if Z.of_nat (size (entries c)) =? 0 then (c, 0)
  else finish (prune_instances (fun _ => false) (prune_entries now maxAge) order
                 (entries c) (start_counters c)).

Definition PruneBySize (order : list string) (maxSize : Z) (c : RuleSetCache) : RuleSetCache * Z :=
  if totalSize c <=? maxSize then (c, 0)
  else finish (prune_instances (fun k => ctrCurrent k <=? maxSize)
                 (prune_entries_by_size maxSize) order (entries c) (start_counters c)).

(** An iteration order of the instances: each key of the map exactly once. *)
Definition iteration_of (c : RuleSetCache) (order : list string) : Prop :=
  order ≡ₚ elements (dom (entries c)).

(** ** Specification vocabulary *)

(** The payload bytes of an entry, of an instance, and of the cache. *)
Definition payload (e : RuleSetEntry) : Z :=
  len (Rules e) + map_sum (fun f v => len f + len v) (default ∅ (DataFiles e)).
Definition payload_of (l : list RuleSetEntry) : Z := sumZ (payload <$> l).
Definition map_payload (m : gmap string RuleSetEntries) : Z :=
  map_sum (fun _ es => payload_of (Entries es)) m.
Definition map_count (m : gmap string RuleSetEntries) : Z :=
  map_sum (fun _ es => Z.of_nat (length (Entries es))) m.

(** An instance is well formed when its revisions have distinct UUIDs and the
    latest one is the newest. *)
Definition entries_wf (es : RuleSetEntries) : Prop :=
  NoDup (UUID <$> Entries es) /\
  exists older e, Entries es = older ++ [e] /\ UUID e = Latest es.

Record cache_wf (c : RuleSetCache) : Prop := {
  wf_entries : map_Forall (fun _ es => entries_wf es) (entries c);
  wf_size : totalSize c = wrap64 (map_payload (entries c));
  wf_count : totalEntries c = wrap64 (map_count (entries c))
}.

(** The UUIDs an instance has used so far. *)
Definition uuids_of (c : RuleSetCache) (inst : string) : list string :=
  match entries c !! inst with Some es => UUID <$> Entries es | None => [] end.

(** ** Lemmas: sizes *)

Lemma entrySize_payload e : wrap64 (entrySize e) = wrap64 (payload e).
Proof.
  unfold entrySize, payload. generalize (default ∅ (DataFiles e)) as m. intros m.
  induction m as [|f v m Hf IH] using map_ind.
  - rewrite map_fold_empty, map_sum_empty. f_equal. lia.
  - rewrite map_fold_insert_L by (done || (intros; rewrite !int_add_twice, !wrap64_add_l; f_equal; lia)).
    rewrite map_sum_insert by done. rewrite int_add_twice, wrap64_idem, <- wrap64_add_l, IH, wrap64_add_l.
    f_equal. lia.
Qed.

Lemma payload_nonneg e : 0 <= payload e.
Proof.
  unfold payload. pose proof (len_nonneg (Rules e)).
  assert (0 <= map_sum (fun f v => len f + len v) (default ∅ (DataFiles e))); [|lia].
  apply map_sum_nonneg. intros f v. pose proof (len_nonneg f). pose proof (len_nonneg v). lia.
Qed.
#[local] Hint Resolve payload_nonneg : operator.

Lemma payload_of_nonneg l : 0 <= payload_of l.
Proof. apply sumZ_nonneg. auto with operator. Qed.

Lemma payload_of_cons e l : payload_of (e :: l) = payload e + payload_of l.
Proof. done. Qed.

Lemma payload_of_singleton e : payload_of [e] = payload e.
Proof. rewrite payload_of_cons. unfold payload_of. simpl. lia. Qed.

Lemma payload_of_app l1 l2 : payload_of (l1 ++ l2) = payload_of l1 + payload_of l2.
Proof. unfold payload_of. by autorewrite with operator. Qed.

Lemma payload_of_sublist l l' : l' `sublist_of` l -> payload_of l' <= payload_of l.
Proof.
  induction 1 as [|e l' l _ IH|e l' l _ IH]; rewrite ?payload_of_cons;
    try pose proof (payload_nonneg e); lia || done.
Qed.

Lemma map_payload_nonneg m : 0 <= map_payload m.
Proof. apply map_sum_nonneg. intros. apply payload_of_nonneg. Qed.

Lemma map_count_nonneg m : 0 <= map_count m.
Proof. apply map_sum_nonneg. intros. lia. Qed.

(** ** Lemmas: the counters of a pruning loop *)

(** [k'] is [k] after dropping [n] entries of [bytes] payload bytes. *)
Record accounted (bytes n : Z) (k k' : Counters) : Prop := {
  acc_size S : ctrSize k = wrap64 S -> ctrSize k' = wrap64 (S - bytes);
  acc_entries S : ctrEntries k = wrap64 S -> ctrEntries k' = wrap64 (S - n);
  acc_current S : ctrCurrent k = wrap64 S -> ctrCurrent k' = wrap64 (S - bytes);
  acc_pruned S : ctrPruned k = wrap64 S -> ctrPruned k' = wrap64 (S + n)
}.

Lemma accounted_refl k : accounted 0 0 k k.
Proof. split; intros S ->; f_equal; lia. Qed.

Lemma accounted_drop e k : accounted (payload e) 1 k (drop_entry e k).
Proof.
  assert (forall S x, x = wrap64 S -> x -i entrySize e = wrap64 (S - payload e)) as Hs.
  { intros S x ->. rewrite <- (int_sub_wrap_r _ (payload e)), <- entrySize_payload.
    by autorewrite with operator. }
  split; simpl; intros S HS; try (by apply Hs); rewrite HS; by autorewrite with operator.
Qed.

Lemma accounted_trans b1 n1 b2 n2 k1 k2 k3 :
  accounted b1 n1 k1 k2 -> accounted b2 n2 k2 k3 -> accounted (b1 + b2) (n1 + n2) k1 k3.
Proof.
  intros H1 H2. split; intros S HS.
  - rewrite (acc_size _ _ _ _ H2 (S - b1)) by by apply H1. f_equal. lia.
  - rewrite (acc_entries _ _ _ _ H2 (S - n1)) by by apply H1. f_equal. lia.
  - rewrite (acc_current _ _ _ _ H2 (S - b1)) by by apply H1. f_equal. lia.
  - rewrite (acc_pruned _ _ _ _ H2 (S + n1)) by by apply H1. f_equal. lia.
Qed.

Lemma accounted_eq b n b' n' k k' :
  accounted b n k k' -> b = b' -> n = n' -> accounted b' n' k k'.
Proof. by intros ? -> ->. Qed.

(** ** Lemmas: what a pruning loop may do to an instance and to the map *)

(** Some revisions are dropped, those with the latest UUID are all kept. *)
Definition inst_pruned (es es' : RuleSetEntries) : Prop :=
  Latest es' = Latest es /\
  Entries es' `sublist_of` Entries es /\
  filter (fun e => UUID e = Latest es) (Entries es')
    = filter (fun e => UUID e = Latest es) (Entries es).

Definition map_pruned (m m' : gmap string RuleSetEntries) : Prop :=
  forall i, option_Forall2 inst_pruned (m !! i) (m' !! i).

(** What the inner loops guarantee. *)
Definition inner_ok
    (inner : string -> list RuleSetEntry -> Counters -> list RuleSetEntry * Counters) : Prop :=
  forall latest l k,
    (inner latest l k).1 `sublist_of` l /\
    filter (fun e => UUID e = latest) (inner latest l k).1 = filter (fun e => UUID e = latest) l /\
    accounted (payload_of l - payload_of (inner latest l k).1)
      (Z.of_nat (length l) - Z.of_nat (length (inner latest l k).1)) k (inner latest l k).2.

Lemma inst_pruned_refl es : inst_pruned es es.
Proof. done. Qed.

Lemma inst_pruned_trans es1 es2 es3 :
  inst_pruned es1 es2 -> inst_pruned es2 es3 -> inst_pruned es1 es3.
Proof.
  intros (Hl & Hs & Hf) (Hl' & Hs' & Hf'). repeat split.
  - congruence.
  - by etrans.
  - rewrite <- Hl, Hf', Hl. done.
Qed.

#[export] Instance map_pruned_preorder : PreOrder map_pruned.
Proof.
  split.
  - intros m i. destruct (m !! i); constructor. apply inst_pruned_refl.
  - intros m1 m2 m3 H12 H23 i. specialize (H12 i). specialize (H23 i).
    destruct H12; inversion H23; constructor. by eapply inst_pruned_trans.
Qed.

Lemma inst_pruned_wf es es' : entries_wf es -> inst_pruned es es' -> entries_wf es'.
Proof.
  intros [Hnd (older & e & Heq & He)] (Hl & Hs & Hf). split.
  - eapply sublist_NoDup; [done|by apply fmap_sublist].
  - rewrite Heq in Hs. apply sublist_app_r in Hs as (k1 & k2 & Heq' & Hk1 & Hk2).
    assert (k2 = [e] \/ k2 = []) as [->| ->].
    { inversion Hk2 as [| |? ? ? Hn]; simplify_eq/=; [left|right];
        f_equal; by apply sublist_nil_r. }
    + exists k1, e. split; [done|congruence].
    + exfalso. assert (e ∈ k1) as Hin.
      { rewrite app_nil_r in Heq'. rewrite <- Heq'.
        apply (list_elem_of_filter (fun e => UUID e = Latest es) (Entries es')).
        rewrite Hf, Heq. apply list_elem_of_filter. split; [done|set_solver]. }
      rewrite Heq, fmap_app in Hnd. apply NoDup_app in Hnd as (_ & Hd & _).
      apply (Hd (UUID e)); [|set_solver].
      apply list_elem_of_fmap_2. by eapply elem_of_sublist.
Qed.

(** The three moves of an inner loop: keep the latest, keep, drop. *)
Lemma inner_keep latest e l kept k k' :
  kept `sublist_of` l /\
  filter (fun e => UUID e = latest) kept = filter (fun e => UUID e = latest) l /\
  accounted (payload_of l - payload_of kept) (Z.of_nat (length l) - Z.of_nat (length kept)) k k' ->
  (e :: kept) `sublist_of` (e :: l) /\
  filter (fun e => UUID e = latest) (e :: kept) = filter (fun e => UUID e = latest) (e :: l) /\
  accounted (payload_of (e :: l) - payload_of (e :: kept))
    (Z.of_nat (length (e :: l)) - Z.of_nat (length (e :: kept))) k k'.
Proof.
  intros (Hs & Hf & Ha). repeat split_and!.
  - by constructor.
  - rewrite !filter_cons. case_decide; by rewrite ?Hf.
  - eapply accounted_eq; [done| |]; rewrite ?payload_of_cons; simpl length; lia.
Qed.

Lemma inner_drop latest e l kept k k' :
  UUID e <> latest ->
  kept `sublist_of` l /\
  filter (fun e => UUID e = latest) kept = filter (fun e => UUID e = latest) l /\
  accounted (payload_of l - payload_of kept) (Z.of_nat (length l) - Z.of_nat (length kept))
    (drop_entry e k) k' ->
  kept `sublist_of` (e :: l) /\
  filter (fun e => UUID e = latest) kept = filter (fun e => UUID e = latest) (e :: l) /\
  accounted (payload_of (e :: l) - payload_of kept)
    (Z.of_nat (length (e :: l)) - Z.of_nat (length kept)) k k'.
Proof.
  intros Hne (Hs & Hf & Ha). repeat split_and!.
  - by constructor.
  - by rewrite filter_cons_False.
  - eapply accounted_eq; [eapply accounted_trans; [apply accounted_drop|done]| |];
      rewrite ?payload_of_cons; simpl length; lia.
Qed.

Lemma inner_nil latest k (l := @nil RuleSetEntry) :
  l `sublist_of` l /\
  filter (fun e => UUID e = latest) l = filter (fun e => UUID e = latest) l /\
  accounted (payload_of l - payload_of l) (Z.of_nat (length l) - Z.of_nat (length l)) k k.
Proof. repeat split_and!; [constructor|done|]. eapply accounted_eq; [apply accounted_refl| |]; lia. Qed.

Lemma prune_entries_ok now maxAge : inner_ok (prune_entries now maxAge).
Proof.
  intros latest l. induction l as [|e l IH]; intros k; simpl; [apply inner_nil|].
  case_match eqn:Hl; [|case_match eqn:Ht].
  - specialize (IH k). destruct (prune_entries _ _ _ _ k). by apply inner_keep.
  - specialize (IH k). destruct (prune_entries _ _ _ _ k). by apply inner_keep.
  - bool_to_prop. by apply inner_drop.
Qed.

Lemma prune_entries_by_size_ok maxSize : inner_ok (prune_entries_by_size maxSize).
Proof.
  intros latest l. induction l as [|e l IH]; intros k; simpl; [apply inner_nil|].
  case_match eqn:Hl; [|case_match eqn:Ht].
  - specialize (IH k). destruct (prune_entries_by_size _ _ _ k). by apply inner_keep.
  - bool_to_prop. by apply inner_drop.
  - specialize (IH k). destruct (prune_entries_by_size _ _ _ k). by apply inner_keep.
Qed.

(** The outer loop prunes instances and accounts for every dropped byte. *)
Lemma prune_instances_ok stop inner order m k :
  inner_ok inner ->
  map_pruned m (prune_instances stop inner order m k).1 /\
  accounted (map_payload m - map_payload (prune_instances stop inner order m k).1)
    (map_count m - map_count (prune_instances stop inner order m k).1)
    k (prune_instances stop inner order m k).2.
Proof.
  intros Hin. revert m k. induction order as [|inst order IH]; intros m k; simpl.
  { split; [done|]. eapply accounted_eq; [apply accounted_refl| |]; lia. }
  case_match; simpl.
  { split; [done|]. eapply accounted_eq; [apply accounted_refl| |]; lia. }
  destruct (m !! inst) as [es|] eqn:Hes; [|apply IH].
  destruct (Hin (Latest es) (Entries es) k) as (Hs & Hf & Ha).
  destruct (inner (Latest es) (Entries es) k) as [kept k1] eqn:Hi; simpl in *.
  set (es' := {| Latest := Latest es; Entries := kept |}).
  destruct (IH (<[inst := es']> m) k1) as [Hp Hacc]. split.
  - etrans; [|exact Hp]. intros i. destruct (decide (i = inst)) as [->|Hne].
    + rewrite Hes, lookup_insert_eq. by constructor.
    + rewrite lookup_insert_ne by done. destruct (m !! i); by constructor.
  - eapply accounted_eq; [eapply accounted_trans; [exact Ha|exact Hacc]| |];
      unfold map_payload, map_count; rewrite (map_sum_update _ m inst es es') by done; subst es'; simpl; lia.
Qed.

(** Every pruning operation keeps the invariant. *)
Lemma finish_wf stop inner order c :
  inner_ok inner -> cache_wf c ->
  cache_wf (finish (prune_instances stop inner order (entries c) (start_counters c))).1.
Proof.
  intros Hin [Hw Hs Hc].
  destruct (prune_instances_ok stop inner order (entries c) (start_counters c) Hin) as [Hp Ha].
  split; simpl.
  - intros i es' Hes'. specialize (Hp i). rewrite Hes' in Hp. inversion Hp as [es ? Hes|]; simplify_eq.
    eapply inst_pruned_wf; [|done]. by eapply Hw.
  - erewrite (acc_size _ _ _ _ Ha) by exact Hs. f_equal. lia.
  - erewrite (acc_entries _ _ _ _ Ha) by exact Hc. f_equal. lia.
Qed.

Lemma Prune_wf order now maxAge c : cache_wf c -> cache_wf (Prune order now maxAge c).1.
Proof. unfold Prune. case_match; [done|]. apply finish_wf, prune_entries_ok. Qed.

Lemma PruneBySize_wf order maxSize c : cache_wf c -> cache_wf (PruneBySize order maxSize c).1.
Proof. unfold PruneBySize. case_match; [done|]. apply finish_wf, prune_entries_by_size_ok. Qed.

Lemma Prune_pruned order now maxAge c : map_pruned (entries c) (entries (Prune order now maxAge c).1).
Proof. unfold Prune. case_match; [done|]. simpl. apply prune_instances_ok, prune_entries_ok. Qed.

Lemma PruneBySize_pruned order maxSize c :
  map_pruned (entries c) (entries (PruneBySize order maxSize c).1).
Proof. unfold PruneBySize. case_match; [done|]. simpl. apply prune_instances_ok, prune_entries_by_size_ok. Qed.

Lemma NewRuleSetCache_wf : cache_wf NewRuleSetCache.
Proof. split; simpl; [apply map_Forall_empty|done|done]. Qed.

Lemma newEntry_UUID uuid now rules df : UUID (newEntry uuid now rules df) = uuid.
Proof. done. Qed.

Lemma Put_wf uuid now inst rules df c :
  uuid ∉ uuids_of c inst -> cache_wf c -> cache_wf (Put uuid now inst rules df c).
Proof.
  unfold uuids_of. intros Hfresh [Hw Hs Hc]. unfold Put.
  set (e := newEntry uuid now rules df).
  assert (totalSize c +i entrySize e = wrap64 (map_payload (entries c) + payload e)) as Hsize.
  { rewrite Hs, int_add_wrap_l, <- (int_add_wrap_r _ (payload e)), <- entrySize_payload.
    by autorewrite with operator. }
  assert (totalEntries c +i 1 = wrap64 (map_count (entries c) + 1)) as Hcount.
  { rewrite Hc. by autorewrite with operator. }
  destruct (entries c !! inst) as [es|] eqn:Hes; split; simpl; rewrite ?Hsize, ?Hcount.
  - apply map_Forall_insert_2; [|done].
    destruct (Hw _ _ Hes) as [Hnd _]. split; simpl.
    + rewrite fmap_app. apply NoDup_app. split_and!; [done| |apply NoDup_singleton].
      intros x Hx Hx'. apply list_elem_of_singleton in Hx'. by subst x.
    + by eexists _, e.
  - unfold map_payload. rewrite (map_sum_update _ _ _ _ _ Hes). simpl.
    rewrite payload_of_app, payload_of_singleton. apply (f_equal wrap64). lia.
  - unfold map_count. rewrite (map_sum_update _ _ _ _ _ Hes). simpl.
    rewrite length_app. apply (f_equal wrap64). simpl. lia.
  - apply map_Forall_insert_2; [|done]. split; simpl; [apply NoDup_singleton|]. by exists [], e.
  - unfold map_payload. rewrite map_sum_insert by done. simpl.
    rewrite payload_of_singleton. apply (f_equal wrap64). lia.
  - unfold map_count. rewrite map_sum_insert by done. apply (f_equal wrap64). simpl. lia.
Qed.
#[export] Hint Resolve NewRuleSetCache_wf Put_wf Prune_wf PruneBySize_wf : operator.
