(* ===== verification/RulesetCacheSpec.v ===== *)
(** * What the RuleSet cache promises, and that it keeps the promise

    The abstract cache maps an instance to its latest revision and has two
    moves: publishing a revision, and garbage collection, which does nothing.
    The versioned cache of [RulesetCache] refines it under any interleaving of
    [Put], [Prune] and [PruneBySize]; the rest of the file states what each
    garbage collection removes. *)
From S2P Require Import Prelude GoLib RulesetCache.

(** ** Runs of the cache *)

Inductive cache_op :=
  | OpPut (uuid : string) (now : Z) (inst rules : string) (df : option (gmap string string))
  | OpPrune (order : list string) (now maxAge : Z)
  | OpPruneBySize (order : list string) (maxSize : Z).

Definition exec_op (op : cache_op) (c : RuleSetCache) : RuleSetCache :=
  match op with
  | OpPut uuid now inst rules df => Put uuid now inst rules df c
  | OpPrune order now maxAge => (Prune order now maxAge c).1
  | OpPruneBySize order maxSize => (PruneBySize order maxSize c).1
  end.

(** [uuid.New] never repeats a UUID of the instance; an iteration visits each
    key once. *)
Definition op_allowed (op : cache_op) (c : RuleSetCache) : Prop :=
  match op with
  | OpPut uuid _ inst _ _ => uuid ∉ uuids_of c inst
  | OpPrune order _ _ | OpPruneBySize order _ => iteration_of c order
  end.
#[export] Instance iteration_of_dec c order : Decision (iteration_of c order).
Proof. unfold iteration_of. apply _. Defined.
#[export] Instance op_allowed_dec op c : Decision (op_allowed op c).
Proof. destruct op; simpl; apply _. Defined.

Fixpoint run_ops (ops : list cache_op) (c : RuleSetCache) : RuleSetCache :=
  match ops with [] => c | op :: ops' => run_ops ops' (exec_op op c) end.

Fixpoint run_allowed (ops : list cache_op) (c : RuleSetCache) : Prop :=
  match ops with [] => True | op :: ops' => op_allowed op c /\ run_allowed ops' (exec_op op c) end.
#[export] Instance run_allowed_dec ops c : Decision (run_allowed ops c).
Proof. revert c. induction ops as [|op ops IH]; intros c; simpl; apply _. Defined.

(** ** The abstract cache *)

Abbreviation spec_cache := (gmap string RuleSetEntry).

Definition spec_op (op : cache_op) (m : spec_cache) : spec_cache :=
  match op with
  | OpPut uuid now inst rules df => <[inst := newEntry uuid now rules df]> m
  | OpPrune _ _ _ | OpPruneBySize _ _ => m
  end.

Fixpoint run_spec (ops : list cache_op) (m : spec_cache) : spec_cache :=
  match ops with [] => m | op :: ops' => run_spec ops' (spec_op op m) end.

(** The abstraction function: the newest revision of every instance. *)
Definition abs_cache (c : RuleSetCache) : spec_cache :=
  omap (fun es => last (Entries es)) (entries c).

(** ** Lemmas *)

Lemma exec_op_wf op c : op_allowed op c -> cache_wf c -> cache_wf (exec_op op c).
Proof. destruct op; simpl; auto with operator. Qed.

Lemma run_ops_wf ops c : run_allowed ops c -> cache_wf c -> cache_wf (run_ops ops c).
Proof.
  revert c. induction ops as [|op ops IH]; intros c; simpl; [done|].
  intros [Ho Hr] Hw. auto using exec_op_wf.
Qed.

Lemma find_entry_filter u l : find_entry u l = head (filter (fun e => UUID e = u) l).
Proof.
  induction l as [|e l IH]; [done|]. simpl.
  destruct (String.eqb_spec (UUID e) u); [by rewrite filter_cons_True|by rewrite filter_cons_False].
Qed.

(** The latest entry of a well-formed instance is the only one with its UUID. *)
Lemma latest_filter es :
  entries_wf es ->
  exists e, last (Entries es) = Some e /\ UUID e = Latest es /\
            filter (fun e => UUID e = Latest es) (Entries es) = [e].
Proof.
  intros [Hnd (older & e & Heq & He)]. exists e. rewrite Heq in *.
  split_and!; [by rewrite last_snoc|done|].
  rewrite fmap_app in Hnd. apply NoDup_app in Hnd as (_ & Hd & _).
  rewrite filter_app, filter_none.
  - simpl. rewrite filter_cons_True by done. done.
  - apply Forall_forall. intros x Hx Hux. apply (Hd (UUID x)); [by apply list_elem_of_fmap_2|].
    simpl. rewrite Hux, <- He. set_solver.
Qed.

Lemma cloneDataFiles_id m : cloneDataFiles m = m.
Proof. apply map_fmap_id. Qed.

Lemma clone_DataFiles_id (df : option (gmap string string)) : cloneDataFiles <$> df = df.
Proof. destruct df; simpl; [|done]. by rewrite cloneDataFiles_id. Qed.

(** In a well-formed cache [Get] returns the newest revision. *)
Lemma Get_newest c i : cache_wf c -> Get c i = abs_cache c !! i.
Proof.
  intros [Hw _ _]. unfold Get, abs_cache. rewrite lookup_omap.
  destruct (entries c !! i) as [es|] eqn:Hes; simpl; [|done].
  destruct (latest_filter es (Hw _ _ Hes)) as (e & Hl & Hu & Hf).
  rewrite find_entry_filter, Hf, Hl. simpl. rewrite clone_DataFiles_id.
  case_match eqn:Hlen; [by destruct e|].
  bool_to_prop. destruct (Entries es); simpl in *; [done|lia].
Qed.

Lemma inst_pruned_last es es' :
  entries_wf es -> inst_pruned es es' -> last (Entries es') = last (Entries es).
Proof.
  intros Hw Hp. pose proof (inst_pruned_wf _ _ Hw Hp) as Hw'. destruct Hp as (Hl & Hs & Hf).
  destruct (latest_filter _ Hw) as (e & -> & _ & He).
  destruct (latest_filter _ Hw') as (e' & -> & _ & He').
  rewrite Hl in He'. congruence.
Qed.

Lemma map_pruned_abs m m' :
  map_Forall (fun _ es => entries_wf es) m -> map_pruned m m' ->
  omap (fun es => last (Entries es)) m' = omap (fun es => last (Entries es)) m.
Proof.
  intros Hw Hp. apply map_eq. intros i. rewrite !lookup_omap.
  specialize (Hp i). inversion Hp as [es es' Hpr Hes Hes'|Hes Hes']; simpl; [|done].
  eapply inst_pruned_last; [|done]. by eapply Hw.
Qed.

(** One step of the cache is one step of the abstract cache. *)
Lemma exec_op_abs op c : cache_wf c -> abs_cache (exec_op op c) = spec_op op (abs_cache c).
Proof.
  intros Hw. pose proof (wf_entries _ Hw). destruct op; unfold abs_cache; simpl.
  - unfold Put. simpl. apply map_eq. intros j.
    destruct (entries c !! inst) as [es|] eqn:Hes; rewrite lookup_omap;
      (destruct (decide (j = inst)) as [ ->|Hne];
       [rewrite !lookup_insert_eq|rewrite !lookup_insert_ne, lookup_omap by done; done]); simpl.
    + by rewrite last_snoc.
    + done.
  - apply map_pruned_abs; [done|]. apply Prune_pruned.
  - apply map_pruned_abs; [done|]. apply PruneBySize_pruned.
Qed.

Lemma run_ops_abs ops c :
  run_allowed ops c -> cache_wf c -> abs_cache (run_ops ops c) = run_spec ops (abs_cache c).
Proof.
  revert c. induction ops as [|op ops IH]; intros c; simpl; [done|].
  intros [Ho Hr] Hw. rewrite IH by auto using exec_op_wf. by rewrite exec_op_abs.
Qed.

(** *** Age-based pruning *)

(** An entry survives [Prune] when it is the latest or young enough. *)
Definition survives_age (now maxAge : Z) (latest : string) (e : RuleSetEntry) : Prop :=
  UUID e = latest \/ time_Sub now (Timestamp e) <= maxAge.
#[export] Instance survives_age_dec now maxAge latest e : Decision (survives_age now maxAge latest e).
Proof. unfold survives_age. apply _. Defined.

Definition prune_spec (now maxAge : Z) (es : RuleSetEntries) : RuleSetEntries :=
  {| Latest := Latest es; Entries := filter (survives_age now maxAge (Latest es)) (Entries es) |}.

Lemma prune_entries_kept now maxAge latest l k :
  (prune_entries now maxAge latest l k).1 = filter (survives_age now maxAge latest) l.
Proof.
  revert k. induction l as [|e l IH]; intros k; simpl; [done|].
  rewrite filter_cons.
  destruct (String.eqb_spec (UUID e) latest) as [Hu|Hu];
    [|destruct (Z.leb_spec (time_Sub now (Timestamp e)) maxAge)].
  - specialize (IH k). destruct (prune_entries _ _ _ l k).
    rewrite decide_True by (by left). simpl in *. congruence.
  - specialize (IH k). destruct (prune_entries _ _ _ l k).
    rewrite decide_True by (by right). simpl in *. congruence.
  - rewrite decide_False by (intros [?|?]; [done|lia]). apply IH.
Qed.

(** An instance outside the iteration order is untouched. *)
Lemma prune_instances_other stop inner order m k i :
  i ∉ order -> (prune_instances stop inner order m k).1 !! i = m !! i.
Proof.
  revert m k. induction order as [|inst order IH]; intros m k Hi; simpl; [done|].
  apply not_elem_of_cons in Hi as [Hne Hi]. case_match; [done|].
  destruct (m !! inst); [|by apply IH].
  destruct (inner _ _ _). rewrite IH by done. by rewrite lookup_insert_ne.
Qed.

(** Without an early stop, an inner loop that keeps [kept latest l] is applied to
    every instance of the order. *)
Lemma prune_instances_all inner kept order m k i :
  (forall latest l k, (inner latest l k).1 = kept latest l) -> NoDup order -> i ∈ order ->
  (prune_instances (fun _ => false) inner order m k).1 !! i
    = (fun es => {| Latest := Latest es; Entries := kept (Latest es) (Entries es) |}) <$> m !! i.
Proof.
  intros Hk Hnd Hi. revert m k. induction Hnd as [|inst order Hni Hnd IH]; intros m k; simpl.
  { by apply not_elem_of_nil in Hi. }
  apply elem_of_cons in Hi as [ ->|Hi].
  - destruct (m !! inst) as [es|] eqn:Hes.
    + specialize (Hk (Latest es) (Entries es) k). destruct (inner _ _ k) as [l' k'].
      rewrite prune_instances_other by done. rewrite lookup_insert_eq. simpl in *. by subst.
    + rewrite prune_instances_other by done. by rewrite Hes.
  - assert (i <> inst) by (by intros ->). destruct (m !! inst) as [es|] eqn:Hes; [|by apply IH].
    destruct (inner _ _ k) as [l' k']. rewrite IH by done. by rewrite lookup_insert_ne.
Qed.

Lemma iteration_NoDup c order : iteration_of c order -> NoDup order.
Proof. unfold iteration_of. intros ->. apply NoDup_elements. Qed.

Lemma iteration_elem c order i : iteration_of c order -> i ∈ order <-> is_Some (entries c !! i).
Proof. unfold iteration_of. intros ->. by rewrite elem_of_elements, elem_of_dom. Qed.

Lemma Prune_entries order now maxAge c :
  iteration_of c order -> entries (Prune order now maxAge c).1 = prune_spec now maxAge <$> entries c.
Proof.
  intros Hit. unfold Prune. case_match eqn:Hsz; bool_to_prop; simpl.
  { assert (size (entries c) = 0%nat) as Hz by lia. apply map_size_empty_iff in Hz.
    by rewrite Hz, fmap_empty. }
  apply map_eq. intros i. rewrite lookup_fmap. destruct (decide (i ∈ order)) as [Hi|Hi].
  - rewrite (prune_instances_all _ (fun latest => filter (survives_age now maxAge latest)));
      [done| |by eapply iteration_NoDup|done].
    intros. apply prune_entries_kept.
  - rewrite prune_instances_other by done.
    destruct (entries c !! i) eqn:Hc; [|done]. exfalso. apply Hi, (iteration_elem c); eauto.
Qed.

Lemma Prune_count order now maxAge c :
  (Prune order now maxAge c).2
    = wrap64 (map_count (entries c) - map_count (entries (Prune order now maxAge c).1)).
Proof.
  unfold Prune. case_match; simpl; [by rewrite Z.sub_diag|].
  rewrite (acc_pruned _ _ _ _ (proj2 (prune_instances_ok _ _ order (entries c) (start_counters c)
    (prune_entries_ok now maxAge))) 0) by done. apply (f_equal wrap64). lia.
Qed.

(** *** Size-based pruning *)

Lemma by_size_fits maxSize latest l k :
  ctrCurrent k <= maxSize -> prune_entries_by_size maxSize latest l k = (l, k).
Proof.
  intros Hk. induction l as [|e l IH]; simpl; [done|].
  rewrite IH. case_match; [done|]. case_match; bool_to_prop; [lia|done].
Qed.

(** The inner loop ends within the limit or keeps nothing but the latest. *)
Lemma by_size_post maxSize latest l k :
  ctrCurrent (prune_entries_by_size maxSize latest l k).2 <= maxSize \/
  (prune_entries_by_size maxSize latest l k).1 = filter (fun e => UUID e = latest) l.
Proof.
  revert k. induction l as [|e l IH]; intros k; simpl; [by right|].
  case_match eqn:Hu; [|case_match eqn:Hc]; bool_to_prop.
  - specialize (IH k). destruct (prune_entries_by_size _ _ l k); simpl in *.
    rewrite filter_cons_True by done. destruct IH as [| ->]; auto.
  - rewrite filter_cons_False by done. apply IH.
  - left. by rewrite by_size_fits.
Qed.

(** The dropped revisions are the oldest ones. *)
Lemma by_size_suffix maxSize es k :
  entries_wf es ->
  (prune_entries_by_size maxSize (Latest es) (Entries es) k).1 `suffix_of` Entries es.
Proof.
  intros Hw. pose proof (latest_filter es Hw) as (x & Hx & _ & Hf).
  destruct Hw as [_ (older & e & Heq & He)]. rewrite Heq in *. clear Heq.
  rewrite filter_app, filter_cons_True in Hf by done. rewrite filter_nil in Hf.
  apply (f_equal length) in Hf. rewrite length_app in Hf. simpl in Hf.
  revert k Hf. clear Hx. induction older as [|o older IH]; intros k Hf; simpl.
  - rewrite He, String.eqb_refl. simpl. done.
  - rewrite filter_cons in Hf. case_decide; [simpl in Hf; lia|].
    destruct (String.eqb_spec (UUID o) (Latest es)); [done|].
    case_match; bool_to_prop; [|by rewrite by_size_fits].
    apply suffix_cons_r. apply IH. simpl in Hf. lia.
Qed.

(** The outer loop ends within the limit, or has reduced every instance of the
    order to its latest revision. *)
Lemma prune_instances_size_post maxSize order m k :
  NoDup order ->
  let r := prune_instances (fun k => ctrCurrent k <=? maxSize)
             (prune_entries_by_size maxSize) order m k in
  ctrCurrent r.2 <= maxSize \/
  forall i es, i ∈ order -> m !! i = Some es ->
    r.1 !! i = Some {| Latest := Latest es;
                       Entries := filter (fun e => UUID e = Latest es) (Entries es) |}.
Proof.
  intros Hnd. revert m k. induction Hnd as [|inst order Hni Hnd IH]; intros m k; simpl.
  { right. intros i es Hi. by apply not_elem_of_nil in Hi. }
  case_match eqn:Hst; bool_to_prop; [by left|].
  destruct (m !! inst) as [es0|] eqn:Hes0.
  - pose proof (by_size_post maxSize (Latest es0) (Entries es0) k) as Hpost.
    destruct (prune_entries_by_size _ _ _ k) as [l' k'] eqn:Hin; simpl in *.
    destruct (IH (<[inst := {| Latest := Latest es0; Entries := l' |}]> m) k') as [|IH']; [by left|].
    destruct Hpost as [Hle| ->].
    + left. destruct order as [|i' order']; simpl in *; [done|].
      case_match; bool_to_prop; [done|lia].
    + right. intros i es Hi Hm. apply elem_of_cons in Hi as [ ->|Hi].
      * rewrite prune_instances_other by done. rewrite lookup_insert_eq. naive_solver.
      * apply IH'; [done|]. rewrite lookup_insert_ne; [done|]. by intros ->.
  - destruct (IH m k) as [|IH']; [by left|]. right. intros i es Hi Hm.
    apply elem_of_cons in Hi as [ ->|Hi]; [congruence|by apply IH'].
Qed.

(** Every instance keeps a suffix of its revisions. *)
Lemma prune_instances_suffix maxSize order m k :
  map_Forall (fun _ es => entries_wf es) m ->
  forall i es, m !! i = Some es ->
  exists es', (prune_instances (fun k => ctrCurrent k <=? maxSize)
                 (prune_entries_by_size maxSize) order m k).1 !! i = Some es' /\
    Entries es' `suffix_of` Entries es.
Proof.
  revert m k. induction order as [|inst order IH]; intros m k Hw i es Hi; simpl; [eauto|].
  case_match; [simpl; eauto|].
  destruct (m !! inst) as [es0|] eqn:Hes0; [|by apply IH].
  pose proof (by_size_suffix maxSize es0 k (Hw _ _ Hes0)) as Hsuf.
  destruct (prune_entries_by_size_ok maxSize (Latest es0) (Entries es0) k) as (Hs & Hf & _).
  destruct (prune_entries_by_size _ _ _ k) as [l' k'] eqn:Hin; simpl in *.
  set (es1 := {| Latest := Latest es0; Entries := l' |}).
  assert (map_Forall (fun _ es => entries_wf es) (<[inst := es1]> m)) as Hw'.
  { apply map_Forall_insert_2; [|done]. by apply (inst_pruned_wf es0); [eapply Hw|]. }
  destruct (decide (i = inst)) as [->|Hne].
  - destruct (IH (<[inst := es1]> m) k' Hw' inst es1) as (es' & -> & Hs').
    { by rewrite lookup_insert_eq. }
    exists es'. split; [done|]. simplify_eq. by etrans.
  - apply IH; [done|]. by rewrite lookup_insert_ne.
Qed.

Lemma map_pruned_payload m m' : map_pruned m m' -> map_payload m' <= map_payload m.
Proof.
  unfold map_pruned, map_payload. revert m'.
  induction m as [|i es m Hi IH] using map_ind; intros m' Hp.
  - assert (m' = ∅) as ->; [|done]. apply map_eq. intros i. specialize (Hp i).
    rewrite lookup_empty in *. by inversion Hp.
  - pose proof (Hp i) as Hpi. rewrite lookup_insert_eq in Hpi.
    inversion Hpi as [es1 es' Hpr Hes Hes'|]; subst. destruct Hpr as (Hl & Hs & Hf).
    rewrite (map_sum_delete _ m' i es') by done. rewrite map_sum_insert by done.
    assert (map_sum (fun _ es => payload_of (Entries es)) (delete i m')
            <= map_sum (fun _ es => payload_of (Entries es)) m).
    { apply IH. intros j. destruct (decide (i = j)) as [ ->|Hne].
      - rewrite Hi, lookup_delete_eq. constructor.
      - specialize (Hp j). rewrite lookup_insert_ne in Hp by done. by rewrite lookup_delete_ne. }
    pose proof (payload_of_sublist _ _ Hs). lia.
Qed.

(** Within the limit, or only the latest revisions are left. *)
Lemma PruneBySize_limit order maxSize c :
  cache_wf c -> iteration_of c order -> in_int64 (map_payload (entries c)) ->
  let c' := (PruneBySize order maxSize c).1 in
  map_payload (entries c') <= maxSize \/
  forall i es, entries c' !! i = Some es -> length (Entries es) = 1%nat.
Proof.
  intros Hw Hit Hint c'.
  pose proof (PruneBySize_pruned order maxSize c) as Hp. fold c' in Hp.
  pose proof (map_pruned_payload _ _ Hp) as Hle.
  pose proof (map_payload_nonneg (entries c')) as H0.
  unfold c', PruneBySize in *. case_match eqn:Hfit; bool_to_prop; simpl in *.
  { left. rewrite (wf_size _ Hw), wrap64_small in Hfit by done. done. }
  destruct (prune_instances_size_post maxSize order (entries c) (start_counters c)) as [Hc|Hall];
    [by eapply iteration_NoDup| |].
  - left. destruct (prune_instances_ok (fun k => ctrCurrent k <=? maxSize) _ order (entries c)
      (start_counters c) (prune_entries_by_size_ok maxSize)) as [_ Ha].
    rewrite (acc_current _ _ _ _ Ha _ (wf_size _ Hw)) in Hc.
    rewrite wrap64_small in Hc; [lia|]. unfold in_int64, int64_min, int64_max in *. lia.
  - right. intros i es' Hes'. specialize (Hp i). rewrite Hes' in Hp.
    inversion Hp as [es es1 Hpr Hes Heq|]; subst es1.
    rewrite (Hall i es) in Hes'; [|apply (iteration_elem c); eauto|done].
    simplify_eq. simpl. destruct (latest_filter es) as (e & _ & _ & ->); [|done].
    by eapply (wf_entries _ Hw).
Qed.

(** ** The properties *)

(** C6: Refinement. Whatever the interleaving of publications and garbage
    collections, [Get] answers for every instance with exactly the revision
    published last for it (its UUID, time, rules and data files), and with
    nothing for an instance never published: pruning never changes what a
    client reads. *)
Theorem cache_refines_spec (ops : list cache_op) (i : string) :
  run_allowed ops NewRuleSetCache -> Get (run_ops ops NewRuleSetCache) i = run_spec ops ∅ !! i.
Proof.
  intros Hr. rewrite Get_newest by auto using run_ops_wf with operator.
  rewrite run_ops_abs by auto with operator. f_equal.
Qed.

Definition sample_ops : list cache_op :=
  [OpPut "u1" 10 "ns/a" "SecRuleEngine On" (Some {["f.data" := "x"]});
   OpPut "u2" 20 "ns/a" "SecRuleEngine Off" None;
   OpPut "u3" 30 "ns/b" "" (Some ∅);
   OpPrune ["ns/a"; "ns/b"] 100 75;
   OpPut "u4" 110 "ns/a" "SecAction" None;
   OpPruneBySize ["ns/b"; "ns/a"] 3].

Theorem cache_refines_spec_witness :
  run_allowed sample_ops NewRuleSetCache /\
  Get (run_ops sample_ops NewRuleSetCache) "ns/a" = run_spec sample_ops ∅ !! "ns/a".
Proof.
  assert (run_allowed sample_ops NewRuleSetCache) as Hr
    by (apply (bool_decide_unpack _); vm_compute; exact I).
  split; [exact Hr|exact (cache_refines_spec sample_ops "ns/a" Hr)].
Defined.

(** C9: Accounting invariant. In every reachable cache each instance has its
    latest revision last and all its UUIDs distinct, and the running totals are,
    as 64-bit integers, exactly the payload bytes and the number of the stored
    revisions. *)
Theorem cache_accounting (ops : list cache_op) :
  run_allowed ops NewRuleSetCache ->
  let c := run_ops ops NewRuleSetCache in
  (forall i es, entries c !! i = Some es -> entries_wf es) /\
  TotalSize c = wrap64 (map_payload (entries c)) /\
  TotalEntries c = wrap64 (map_count (entries c)).
Proof.
  intros Hr. destruct (run_ops_wf ops NewRuleSetCache) as [Hw Hs Hc]; auto with operator.
Qed.

Theorem cache_accounting_witness :
  run_allowed sample_ops NewRuleSetCache /\
  TotalSize (run_ops sample_ops NewRuleSetCache) = 9.
Proof.
  assert (run_allowed sample_ops NewRuleSetCache) as Hr
    by (apply (bool_decide_unpack _); vm_compute; exact I).
  split; [exact Hr|].
  destruct (cache_accounting sample_ops Hr) as (_ & -> & _). vm_compute. reflexivity.
Defined.

(** C17: [Prune] keeps of every instance exactly the latest revision and the
    revisions not older than [maxAge], in their order; it returns the number of
    dropped revisions, and its outcome does not depend on the iteration order
    of the map. *)
Theorem Prune_exact (order order' : list string) (now maxAge : Z) (c : RuleSetCache) :
  cache_wf c -> iteration_of c order -> iteration_of c order' ->
  entries (Prune order now maxAge c).1 = prune_spec now maxAge <$> entries c /\
  (Prune order now maxAge c).2
    = wrap64 (map_count (entries c) - map_count (prune_spec now maxAge <$> entries c)) /\
  Prune order now maxAge c = Prune order' now maxAge c.
Proof.
  intros Hw H1 H2.
  pose proof (Prune_wf order now maxAge c Hw) as [_ Hs1 Hc1].
  pose proof (Prune_wf order' now maxAge c Hw) as [_ Hs2 Hc2].
  pose proof (Prune_count order now maxAge c) as Hn1.
  pose proof (Prune_count order' now maxAge c) as Hn2.
  rewrite Prune_entries in * by done. split_and!; [done|done|].
  destruct (Prune order now maxAge c) as [[e1 s1 t1] n1] eqn:HP1.
  destruct (Prune order' now maxAge c) as [[e2 s2 t2] n2] eqn:HP2.
  pose proof (Prune_entries order now maxAge c H1) as He1.
  pose proof (Prune_entries order' now maxAge c H2) as He2.
  rewrite HP1 in He1. rewrite HP2 in He2. simpl in *. congruence.
Qed.

Theorem Prune_exact_witness :
  let c := run_ops (take 3 sample_ops) NewRuleSetCache in
  cache_wf c /\
  Prune ["ns/a"; "ns/b"] 100 75 c = Prune ["ns/b"; "ns/a"] 100 75 c.
Proof.
  assert (cache_wf (run_ops (take 3 sample_ops) NewRuleSetCache)) as Hw.
  { apply run_ops_wf; [apply (bool_decide_unpack _); vm_compute; exact I|apply NewRuleSetCache_wf]. }
  split; [exact Hw|].
  apply (Prune_exact ["ns/a"; "ns/b"] ["ns/b"; "ns/a"] 100 75 _ Hw);
    (apply (bool_decide_unpack _); vm_compute; exact I).
Defined.

(** C16: [PruneBySize] brings the payload of the cache within [maxSize], or has
    reduced every instance to its latest revision; of every instance it drops
    the oldest revisions only, and never the latest. *)
Theorem PruneBySize_bound (order : list string) (maxSize : Z) (c : RuleSetCache) :
  cache_wf c -> iteration_of c order -> in_int64 (map_payload (entries c)) ->
  let c' := (PruneBySize order maxSize c).1 in
  (map_payload (entries c') <= maxSize \/
   forall i es, entries c' !! i = Some es -> length (Entries es) = 1%nat) /\
  (forall i es, entries c !! i = Some es ->
     exists es', entries c' !! i = Some es' /\ Entries es' `suffix_of` Entries es /\
       Latest es' = Latest es /\ last (Entries es') = last (Entries es)).
Proof.
  intros Hw Hit Hint c'. split; [by apply PruneBySize_limit|].
  pose proof (PruneBySize_pruned order maxSize c) as Hp. fold c' in Hp.
  intros i es Hes. specialize (Hp i). rewrite Hes in Hp.
    inversion Hp as [es1 es' Hpr Hes1 Hes'|]; subst. exists es'.
    assert (Entries es' `suffix_of` Entries es) as Hsuf.
    { unfold c', PruneBySize in Hes'. case_match; simpl in Hes'.
      { assert (es' = es) as -> by congruence. done. }
      destruct (prune_instances_suffix maxSize order (entries c) (start_counters c)
        (wf_entries _ Hw) i es Hes) as (es2 & Hes2 & Hsuf).
      assert (es' = es2) as -> by congruence. done. }
    split_and!; [done|done|apply Hpr|].
    eapply inst_pruned_last; [|done]. by eapply (wf_entries _ Hw).
Qed.

Theorem PruneBySize_bound_witness :
  let c := run_ops (take 5 sample_ops) NewRuleSetCache in
  cache_wf c /\ in_int64 (map_payload (entries c)) /\
  (map_payload (entries (PruneBySize ["ns/b"; "ns/a"] 3 c).1) <= 3 \/
   forall i es, entries (PruneBySize ["ns/b"; "ns/a"] 3 c).1 !! i = Some es ->
     length (Entries es) = 1%nat).
Proof.
  assert (cache_wf (run_ops (take 5 sample_ops) NewRuleSetCache)) as Hw.
  { apply run_ops_wf; [apply (bool_decide_unpack _); vm_compute; exact I|apply NewRuleSetCache_wf]. }
  assert (in_int64 (map_payload (entries (run_ops (take 5 sample_ops) NewRuleSetCache)))) as Hi
    by (apply (bool_decide_unpack _); vm_compute; exact I).
  split; [exact Hw|split; [exact Hi|]].
  apply (PruneBySize_bound ["ns/b"; "ns/a"] 3 _ Hw); [|exact Hi].
  apply (bool_decide_unpack _); vm_compute; exact I.
Defined.
