(* ===== verification/TokenAuth.v ===== *)
(** * Token authentication of the cache server ([internal/rulesets/cache/auth.go])

    [TokenAuthenticator] validates ServiceAccount tokens with the TokenReview API
    and caches successes.  The call to the API server is outside the repository:
    its answer is an argument.  [Authenticate] is the composition of its atomic
    pieces: the lock-free lookup, the removal of an expired entry under
    [cacheMu], the review, and the evict-then-store section under [cacheMu]; the
    same pieces, interleaved by any number of goroutines, give the transition
    system [auth_step]. *)
From S2P Require Import Prelude GoLib GoErrors.

Definition CacheEngineSAPrefix : string := "coraza-engine-".
Definition cacheAudiencePrefix : string := "coraza-cache:".
Definition defaultAuthCacheTTL : Z := 5 * Minute.
Definition maxAuthCacheSize : Z := 10000.

(** The fields of a TokenReview's status. *)
Record TokenReviewStatus := {
  Authenticated : bool;
  Username : string;
  Audiences : list string
}.

Record AuthResult := {
  Namespace : string;
  Name : string
}.
#[export] Instance AuthResult_eq_dec : EqDecision AuthResult.
Proof. solve_decision. Defined.

Record authCacheEntry := {
  result : AuthResult;
  expiresAt : Z
}.

Record TokenAuthenticator := {
  cache : gmap string authCacheEntry;
  cacheSize : Z;
  cacheTTL : Z
}.

Definition Audience (cacheKey : string) : string := cacheAudiencePrefix +:+ cacheKey.

Definition NewTokenAuthenticator : TokenAuthenticator :=
  {| cache := ∅; cacheSize := 0; cacheTTL := defaultAuthCacheTTL |}.

Definition serviceAccountPrefix : string := "system:serviceaccount:".

Definition parseServiceAccountUsername (username : string) : gerror + (string * string) :=
  if negb (HasPrefix username serviceAccountPrefix) then
    inl (ErrText ("not a service account token: " +:+ username))
  else
    match SplitN2 (TrimPrefix username serviceAccountPrefix) ":" with
    | [namespace; name] => inr (namespace, name)
    | _ => inl (ErrText ("invalid service account username format: " +:+ username))
    end.

(** The key of the result cache. *)
Definition auth_key (token audience : string) : string := token +:+ ":" +:+ audience.

(** *** The pieces of [Authenticate] *)

Inductive lookup_outcome :=
  | Hit (r : AuthResult)
  | Expired
  | Miss.

(** [a.cache.Load] and the expiry check at time [now]. *)
Definition auth_lookup (now : Z) (key : string) (a : TokenAuthenticator) : lookup_outcome :=
  match cache a !! key with
  | Some entry => if time_Before now (expiresAt entry) then Hit (result entry) else Expired
  | None => Miss
  end.

(** [LoadAndDelete] and the decrement, under [cacheMu]. *)
Definition auth_remove (key : string) (a : TokenAuthenticator) : TokenAuthenticator :=
  match cache a !! key with
  | Some _ => {| cache := delete key (cache a); cacheSize := cacheSize a -i 1;
                 cacheTTL := cacheTTL a |}
  | None => a
  end.

(** What [Authenticate] makes of the API server's answer. *)
Definition auth_review (answer : gerror + TokenReviewStatus) : gerror + AuthResult :=
  match answer with
  | inl err => inl (errorf_w "token review failed: " err)
  | inr status =>
      if negb (Authenticated status) then inl (ErrText "token not authenticated")
      else '(namespace, name) ← parseServiceAccountUsername (Username status);
           inr {| Namespace := namespace; Name := name |}
  end.

(** The loop of [evictExpiredLocked] over [sync.Map.Range]. *)
Fixpoint evict_loop (now : Z) (order : list string) (m : gmap string authCacheEntry) (n : Z) :
    gmap string authCacheEntry * Z :=
  match order with
  | [] => (m, n)
  | key :: order' =>
      match m !! key with
      | Some entry =>
          if time_After now (expiresAt entry) then evict_loop now order' (delete key m) (n -i 1)
          else evict_loop now order' m n
      | None => evict_loop now order' m n
      end
  end.

Definition evictExpiredLocked (now : Z) (order : list string) (a : TokenAuthenticator) :
    TokenAuthenticator :=
  let '(m, n) := evict_loop now order (cache a) (cacheSize a) in
  {| cache := m; cacheSize := n; cacheTTL := cacheTTL a |}.

(** The evict-then-store section, under [cacheMu]: [now] is read before the lock,
    [now'] by the eviction, [order] is the order of [Range]. *)
Definition auth_store (now now' : Z) (order : list string) (key : string) (r : AuthResult)
    (a : TokenAuthenticator) : TokenAuthenticator :=
  let expires := time_Add now (cacheTTL a) in
  let a := if maxAuthCacheSize <=? cacheSize a then evictExpiredLocked now' order a else a in
  if cacheSize a <? maxAuthCacheSize then
    {| cache := <[key := {| result := r; expiresAt := expires |}]> (cache a);
       cacheSize := cacheSize a +i 1; cacheTTL := cacheTTL a |}
  else a.

(** The times and the iteration order one call meets. *)
Record auth_env := {
  t_lookup : Z;
  t_store : Z;
  t_evict : Z;
  evict_order : list string
}.

(** [review token audiences] is the API server's answer to this call. *)
Definition Authenticate (review : string -> list string -> gerror + TokenReviewStatus)
    (env : auth_env) (token audience : string) (a : TokenAuthenticator) :
    TokenAuthenticator * (gerror + AuthResult) :=
  let key := auth_key token audience in
  match auth_lookup (t_lookup env) key a with
  | Hit r => (a, inr r)
  | outcome =>
      let a := match outcome with Expired => auth_remove key a | _ => a end in
      match auth_review (review token [audience]) with
      | inl err => (a, inl err)
      | inr r => (auth_store (t_store env) (t_evict env) (evict_order env) key r a, inr r)
      end
  end.

(** ** Concurrent calls

    Each goroutine runs one [Authenticate]; its program counter says which
    atomic piece comes next.  The history records every accepted review with
    the time its [time.Now().Add] used. *)
Inductive auth_pc :=
  | PcLookup (token audience : string)
  | PcRemove (token audience : string)
  | PcReview (token audience : string)
  | PcStore (token audience : string) (now : Z) (r : AuthResult)
  | PcAccepted (token audience : string) (now : Z) (r : AuthResult)
  | PcRefused (err : gerror).

Record auth_state := {
  st_auth : TokenAuthenticator;
  st_threads : gmap nat auth_pc;
  (** the accepted reviews: time, token, audience, result *)
  st_log : list (Z * string * string * AuthResult)
}.

Definition set_pc (t : nat) (pc : auth_pc) (s : auth_state) : auth_state :=
  {| st_auth := st_auth s; st_threads := <[t := pc]> (st_threads s); st_log := st_log s |}.
Definition set_auth (a : TokenAuthenticator) (s : auth_state) : auth_state :=
  {| st_auth := a; st_threads := st_threads s; st_log := st_log s |}.
Definition log_review (x : Z * string * string * AuthResult) (s : auth_state) : auth_state :=
  {| st_auth := st_auth s; st_threads := st_threads s; st_log := x :: st_log s |}.

Definition init_auth_state : auth_state :=
  {| st_auth := NewTokenAuthenticator; st_threads := ∅; st_log := [] |}.

Section steps.
Context (review : string -> list string -> gerror + TokenReviewStatus -> Prop).

(** [review token audiences answer]: the API server may give [answer]. *)
Inductive auth_step : auth_state -> auth_state -> Prop :=
  | step_start t token audience s :
      st_threads s !! t = None ->
      auth_step s (set_pc t (PcLookup token audience) s)
  | step_hit t token audience now r s :
      st_threads s !! t = Some (PcLookup token audience) ->
      auth_lookup now (auth_key token audience) (st_auth s) = Hit r ->
      auth_step s (set_pc t (PcAccepted token audience now r) s)
  | step_expired t token audience now s :
      st_threads s !! t = Some (PcLookup token audience) ->
      auth_lookup now (auth_key token audience) (st_auth s) = Expired ->
      auth_step s (set_pc t (PcRemove token audience) s)
  | step_miss t token audience now s :
      st_threads s !! t = Some (PcLookup token audience) ->
      auth_lookup now (auth_key token audience) (st_auth s) = Miss ->
      auth_step s (set_pc t (PcReview token audience) s)
  | step_remove t token audience s :
      st_threads s !! t = Some (PcRemove token audience) ->
      auth_step s (set_pc t (PcReview token audience)
                     (set_auth (auth_remove (auth_key token audience) (st_auth s)) s))
  | step_refused t token audience answer err s :
      st_threads s !! t = Some (PcReview token audience) ->
      review token [audience] answer -> auth_review answer = inl err ->
      auth_step s (set_pc t (PcRefused err) s)
  | step_accepted t token audience answer now r s :
      st_threads s !! t = Some (PcReview token audience) ->
      review token [audience] answer -> auth_review answer = inr r ->
      auth_step s (set_pc t (PcStore token audience now r)
                     (log_review (now, token, audience, r) s))
  | step_store t token audience now now' order r s :
      st_threads s !! t = Some (PcStore token audience now r) ->
      order ≡ₚ elements (dom (cache (st_auth s))) ->
      auth_step s (set_pc t (PcAccepted token audience now r)
                     (set_auth (auth_store now now' order (auth_key token audience) r (st_auth s)) s)).
End steps.

(** ** Lemmas *)

(** *** The size counter *)

(** The counter is at least the number of cached results, and within the limit. *)
Definition auth_bounded (a : TokenAuthenticator) : Prop :=
  Z.of_nat (size (cache a)) <= cacheSize a <= maxAuthCacheSize.

Lemma bounded_small n : 0 <= n <= maxAuthCacheSize -> in_int64 n.
Proof. unfold in_int64, int64_min, int64_max, maxAuthCacheSize. lia. Qed.

Lemma evict_loop_bounded now order m n :
  Z.of_nat (size m) <= n <= maxAuthCacheSize ->
  Z.of_nat (size (evict_loop now order m n).1) <= (evict_loop now order m n).2 <= maxAuthCacheSize.
Proof.
  revert m n. induction order as [|key order IH]; intros m n Hn; simpl; [done|].
  destruct (m !! key) as [entry|] eqn:Hk; [|by apply IH].
  case_match; [|by apply IH]. apply IH.
  pose proof (size_delete_present m key entry Hk) as Hs.
  unfold int_sub. rewrite wrap64_small by (apply bounded_small; lia). lia.
Qed.

Lemma auth_remove_bounded key a : auth_bounded a -> auth_bounded (auth_remove key a).
Proof.
  unfold auth_bounded, auth_remove. intros Hn.
  destruct (cache a !! key) eqn:Hk; simpl; [|done].
  pose proof (size_delete_present _ key _ Hk) as Hs.
  unfold int_sub. rewrite wrap64_small by (apply bounded_small; lia). lia.
Qed.

Lemma evictExpiredLocked_bounded now order a :
  auth_bounded a -> auth_bounded (evictExpiredLocked now order a).
Proof.
  unfold auth_bounded, evictExpiredLocked. intros Hn.
  pose proof (evict_loop_bounded now order _ _ Hn). by destruct (evict_loop _ _ _ _).
Qed.

Lemma auth_store_bounded now now' order key r a :
  auth_bounded a -> auth_bounded (auth_store now now' order key r a).
Proof.
  intros Ha. unfold auth_store.
  set (a1 := if maxAuthCacheSize <=? cacheSize a then _ else _).
  assert (auth_bounded a1) as Ha1 by (unfold a1; case_match; auto using evictExpiredLocked_bounded).
  case_match eqn:Hlt; bool_to_prop; [|done]. unfold auth_bounded in *; simpl.
  pose proof (size_insert_le (cache a1) key
    {| result := r; expiresAt := time_Add now (cacheTTL a) |}) as Hs.
  unfold int_add. rewrite wrap64_small by (apply bounded_small; lia). lia.
Qed.
#[local] Hint Resolve auth_remove_bounded auth_store_bounded : operator.

Lemma auth_step_bounded review s s' :
  auth_bounded (st_auth s) -> auth_step review s s' -> auth_bounded (st_auth s').
Proof. intros Hb Hs. destruct Hs; simpl; auto with operator. Qed.

(** *** The origin of cached results *)

Lemma evict_loop_subseteq now order m n : (evict_loop now order m n).1 ⊆ m.
Proof.
  revert m n. induction order as [|key order IH]; intros m n; simpl; [done|].
  repeat case_match; auto. etrans; [apply IH|apply delete_subseteq].
Qed.

(** An entry of the cache after a store is the stored one or an old one. *)
Lemma auth_store_lookup now now' order key r a k entry :
  cache (auth_store now now' order key r a) !! k = Some entry ->
  (k = key /\ entry = {| result := r; expiresAt := now + cacheTTL a |}) \/ cache a !! k = Some entry.
Proof.
  unfold auth_store. set (a1 := if maxAuthCacheSize <=? cacheSize a then _ else _).
  assert (cache a1 ⊆ cache a) as Hsub.
  { unfold a1. case_match; [|done]. unfold evictExpiredLocked.
    pose proof (evict_loop_subseteq now' order (cache a) (cacheSize a)). by destruct (evict_loop _ _ _ _). }
  case_match; simpl; [|intros; right; by eapply lookup_weaken].
  destruct (decide (k = key)) as [->|Hne].
  - rewrite lookup_insert_eq. intros. simplify_eq. by left.
  - rewrite lookup_insert_ne by done. intros. right. by eapply lookup_weaken.
Qed.

Lemma auth_store_TTL now now' order key r a :
  cacheTTL (auth_store now now' order key r a) = cacheTTL a.
Proof.
  unfold auth_store, evictExpiredLocked. repeat case_match; simplify_eq/=; done.
Qed.

Lemma auth_remove_TTL key a : cacheTTL (auth_remove key a) = cacheTTL a.
Proof. unfold auth_remove. by case_match. Qed.

Lemma auth_remove_lookup key a k entry :
  cache (auth_remove key a) !! k = Some entry -> cache a !! k = Some entry.
Proof.
  unfold auth_remove. case_match; simpl; [|done]. by intros [_ ?]%lookup_delete_Some.
Qed.

(** Every cached result comes from a logged review of its key. *)
Definition cache_backed (log : list (Z * string * string * AuthResult)) (a : TokenAuthenticator) : Prop :=
  forall k entry, cache a !! k = Some entry ->
    exists now token audience, (now, token, audience, result entry) ∈ log /\
      k = auth_key token audience /\ expiresAt entry = now + cacheTTL a.

Lemma auth_store_backed log now now' order token audience r a :
  (now, token, audience, r) ∈ log -> cache_backed log a ->
  cache_backed log (auth_store now now' order (auth_key token audience) r a).
Proof.
  intros Hin Hb k entry Hk. rewrite auth_store_TTL.
  apply auth_store_lookup in Hk as [[-> ->]|Hk]; [simpl; eauto 10|by apply Hb].
Qed.

Lemma auth_remove_backed log key a : cache_backed log a -> cache_backed log (auth_remove key a).
Proof. intros Hb k entry Hk%auth_remove_lookup. rewrite auth_remove_TTL. by apply Hb. Qed.

Lemma cache_backed_log log x a : cache_backed log a -> cache_backed (x :: log) a.
Proof.
  intros Hb k entry Hk. destruct (Hb k entry Hk) as (now & tok & aud & Hin & Hrest).
  exists now, tok, aud. split; [by constructor|done].
Qed.

Lemma auth_lookup_hit log now key r a :
  cache_backed log a -> auth_lookup now key a = Hit r ->
  exists now0 token audience, (now0, token, audience, r) ∈ log /\
    key = auth_key token audience /\ now < now0 + cacheTTL a.
Proof.
  unfold auth_lookup. intros Hb Hl. split_cases_in Hl.
  destruct (Hb _ _ Heqo) as (now0 & tok & aud & Hin & -> & He).
  exists now0, tok, aud. unfold time_Before in *. bool_to_prop. split_and!; [done|done|lia].
Qed.

(** The two parts of a key are determined when the token has no colon. *)
Lemma auth_key_inj token audience token' audience' :
  byte_in ":" token = false -> byte_in ":" token' = false ->
  auth_key token audience = auth_key token' audience' -> token = token' /\ audience = audience'.
Proof.
  unfold auth_key. intros H1 H2 Heq.
  assert (Cut (auth_key token audience) ":" = Some (token, audience)) as Hc1 by by apply Cut_byte.
  assert (Cut (auth_key token' audience') ":" = Some (token', audience')) as Hc2 by by apply Cut_byte.
  unfold auth_key in *. rewrite Heq, Hc2 in Hc1. by simplify_eq.
Qed.

(** The review a result stems from. *)
Definition reviewed (review : string -> list string -> gerror + TokenReviewStatus -> Prop)
    (token audience : string) (r : AuthResult) : Prop :=
  exists status, review token [audience] (inr status) /\ Authenticated status = true /\
    parseServiceAccountUsername (Username status) = inr (Namespace r, Name r).

Lemma auth_review_inr answer r :
  auth_review answer = inr r ->
  exists status, answer = inr status /\ Authenticated status = true /\
    parseServiceAccountUsername (Username status) = inr (Namespace r, Name r).
Proof.
  unfold auth_review. destruct answer as [err|status]; [done|].
  destruct (Authenticated status) eqn:Ha; simpl; [|done].
  destruct (parseServiceAccountUsername _) as [|[ns name]] eqn:Hp; simpl; intros; simplify_eq. eauto.
Qed.

Record auth_traced (review : string -> list string -> gerror + TokenReviewStatus -> Prop)
    (s : auth_state) : Prop := {
  tr_ttl : cacheTTL (st_auth s) = defaultAuthCacheTTL;
  tr_backed : cache_backed (st_log s) (st_auth s);
  tr_log now token audience r :
    (now, token, audience, r) ∈ st_log s -> reviewed review token audience r;
  tr_store t token audience now r :
    st_threads s !! t = Some (PcStore token audience now r) -> (now, token, audience, r) ∈ st_log s;
  tr_accepted t token audience now r :
    st_threads s !! t = Some (PcAccepted token audience now r) ->
    exists now0 token' audience', (now0, token', audience', r) ∈ st_log s /\
      auth_key token audience = auth_key token' audience' /\ now < now0 + defaultAuthCacheTTL
}.

Lemma init_traced review : auth_traced review init_auth_state.
Proof.
  split; [done| | | |]; unfold init_auth_state, NewTokenAuthenticator; cbn [st_log st_auth st_threads].
  - intros k entry Hk. cbn [cache] in Hk. by rewrite lookup_empty in Hk.
  - intros ???? Hin. by apply not_elem_of_nil in Hin.
  - intros ????? Ht. by rewrite lookup_empty in Ht.
  - intros ????? Ht. by rewrite lookup_empty in Ht.
Qed.

(** Moving a thread to a counter that claims nothing new. *)
Lemma set_pc_traced review t pc s :
  auth_traced review s ->
  (forall token audience now r, pc = PcStore token audience now r ->
     (now, token, audience, r) ∈ st_log s) ->
  (forall token audience now r, pc = PcAccepted token audience now r ->
     exists now0 token' audience', (now0, token', audience', r) ∈ st_log s /\
       auth_key token audience = auth_key token' audience' /\ now < now0 + defaultAuthCacheTTL) ->
  auth_traced review (set_pc t pc s).
Proof.
  intros [Httl Hb Hl Hs Ha] Hps Hpa. split; simpl; [done|done|done| |].
  - intros t' tok aud now r. rewrite lookup_insert_Some. naive_solver.
  - intros t' tok aud now r. rewrite lookup_insert_Some. intros [[_ ->]|[_ ?]]; [by apply Hpa|by eapply Ha].
Qed.

Lemma set_auth_traced review a s :
  auth_traced review s -> cacheTTL a = cacheTTL (st_auth s) -> cache_backed (st_log s) a ->
  auth_traced review (set_auth a s).
Proof. intros [Httl Hb Hl Hs Ha] Heq Hb'. split; simpl; [congruence|done|done|done|done]. Qed.

Lemma log_review_traced review now token audience r s :
  auth_traced review s -> reviewed review token audience r ->
  auth_traced review (log_review (now, token, audience, r) s).
Proof.
  intros [Httl Hb Hl Hs Ha] Hr. split; simpl; [done|by apply cache_backed_log| | |].
  - intros now' tok aud r' [?|Hin]%elem_of_cons; [by simplify_eq|by eapply Hl].
  - intros t tok aud now' r' Ht. constructor. by eapply Hs.
  - intros t tok aud now' r' Ht. destruct (Ha _ _ _ _ _ Ht) as (n0 & t0 & a0 & Hin & Hrest).
    exists n0, t0, a0. split; [by constructor|done].
Qed.

Lemma auth_step_traced review s s' :
  auth_traced review s -> auth_step review s s' -> auth_traced review s'.
Proof.
  intros Ht Hs. pose proof Ht as [Httl Hb Hl Hst Ha]. destruct Hs; try by apply set_pc_traced.
  - apply set_pc_traced; [done|done|]. intros tok aud n r' ?; simplify_eq.
    destruct (auth_lookup_hit _ _ _ _ _ Hb H0) as (n0 & t0 & a0 & Hin & Hk & Hlt).
    rewrite Httl in Hlt. eauto 10.
  - apply set_pc_traced; [|done|done].
    apply set_auth_traced; [done|apply auth_remove_TTL|by apply auth_remove_backed].
  - apply set_pc_traced; [|intros; simplify_eq; by constructor|done].
    apply log_review_traced; [done|].
    destruct (auth_review_inr _ _ H1) as (status & -> & Hau & Hp). by exists status.
  - assert ((now, token, audience, r) ∈ st_log s) as Hin by by eapply Hst.
    apply set_pc_traced; [|done|intros; simplify_eq].
    + apply set_auth_traced; [done|apply auth_store_TTL|by apply auth_store_backed].
    + simpl. eexists _, _, _. split; [exact Hin|]. split; [done|]. unfold defaultAuthCacheTTL, Minute, Second, Millisecond. lia.
Qed.

(** *** User names *)

Lemma parse_username_spec u ns name :
  parseServiceAccountUsername u = inr (ns, name) <->
  u = serviceAccountPrefix +:+ ns +:+ ":" +:+ name /\ byte_in ":" ns = false.
Proof.
  unfold parseServiceAccountUsername. case_match eqn:Hp; bool_to_prop; split.
  - done.
  - intros [-> _]. by rewrite HasPrefix_app in Hp.
  - intros Hs. apply HasPrefix_TrimPrefix in Hp.
    destruct (SplitN2 _ _) as [|b [|a [|]]] eqn:Hc; try done.
    apply SplitN2_two in Hc as [Hc Hb]. simplify_eq. split; [by rewrite Hp, Hc|done].
  - intros [-> Hb]. rewrite TrimPrefix_app.
    assert (SplitN2 (ns +:+ ":" +:+ name) ":" = [ns; name]) as ->; [|done].
    apply SplitN2_two. split; [done|exact Hb].
Qed.

(** ** A sample run

    One goroutine authenticates a token and a second one reuses the result;
    [race_run] interleaves two cache misses of the same token. *)

Definition sample_status : TokenReviewStatus :=
  {| Authenticated := true; Username := "system:serviceaccount:ns:sa"; Audiences := [] |}.
Definition sample_result : AuthResult := {| Namespace := "ns"; Name := "sa" |}.
Definition sample_review (token : string) (audiences : list string)
    (answer : gerror + TokenReviewStatus) : Prop :=
  token = "jwt" /\ audiences = ["coraza-cache:ns/rs"] /\ answer = inr sample_status.

Definition sample_stored (t : nat) (now : Z) (s : auth_state) : auth_state :=
  set_pc t (PcAccepted "jwt" "coraza-cache:ns/rs" now sample_result)
    (set_auth (auth_store now now (elements (dom (cache (st_auth s))))
       (auth_key "jwt" "coraza-cache:ns/rs") sample_result (st_auth s)) s).
Definition sample_missed (t : nat) (s : auth_state) : auth_state :=
  set_pc t (PcReview "jwt" "coraza-cache:ns/rs") (set_pc t (PcLookup "jwt" "coraza-cache:ns/rs") s).
Definition sample_accepted (t : nat) (now : Z) (s : auth_state) : auth_state :=
  set_pc t (PcStore "jwt" "coraza-cache:ns/rs" now sample_result)
    (log_review (now, "jwt", "coraza-cache:ns/rs", sample_result) s).

Definition sample_state : auth_state :=
  set_pc 1%nat (PcAccepted "jwt" "coraza-cache:ns/rs" 7 sample_result)
    (set_pc 1%nat (PcLookup "jwt" "coraza-cache:ns/rs")
      (sample_stored 0 5 (sample_accepted 0 5 (sample_missed 0 init_auth_state)))).

Definition race_state : auth_state :=
  sample_stored 1 6 (sample_stored 0 5
    (sample_accepted 1 6 (sample_accepted 0 5
      (sample_missed 1 (sample_missed 0 init_auth_state))))).

Lemma sample_missed_run t s :
  st_threads s !! t = None -> cache (st_auth s) = ∅ ->
  rtc (auth_step sample_review) s (sample_missed t s).
Proof.
  intros Ht Hc. eapply rtc_l; [by apply (step_start _ t "jwt" "coraza-cache:ns/rs")|].
  apply rtc_once. apply (step_miss _ t _ _ 0).
  - simpl. by rewrite lookup_insert_eq.
  - unfold auth_lookup. simpl. by rewrite Hc, lookup_empty.
Qed.

Lemma sample_accepted_run t now s :
  st_threads s !! t = Some (PcReview "jwt" "coraza-cache:ns/rs") ->
  rtc (auth_step sample_review) s (sample_accepted t now s).
Proof. intros Ht. apply rtc_once. by eapply step_accepted. Qed.

Lemma sample_stored_run t now s :
  st_threads s !! t = Some (PcStore "jwt" "coraza-cache:ns/rs" now sample_result) ->
  rtc (auth_step sample_review) s (sample_stored t now s).
Proof. intros Ht. apply rtc_once. by apply step_store. Qed.

Lemma sample_run : rtc (auth_step sample_review) init_auth_state sample_state.
Proof.
  etrans; [by apply (sample_missed_run 0)|].
  etrans; [by apply (sample_accepted_run 0 5)|].
  etrans; [by apply (sample_stored_run 0 5)|].
  eapply rtc_l; [by apply (step_start _ 1%nat "jwt" "coraza-cache:ns/rs")|].
  apply rtc_once. by apply (step_hit _ 1%nat).
Qed.

Lemma race_run : rtc (auth_step sample_review) init_auth_state race_state.
Proof.
  etrans; [by apply (sample_missed_run 0)|].
  etrans; [by apply (sample_missed_run 1)|].
  etrans; [by apply (sample_accepted_run 0 5)|].
  etrans; [by apply (sample_accepted_run 1 6)|].
  etrans; [by apply (sample_stored_run 0 5)|].
  by apply (sample_stored_run 1 6).
Qed.

(** ** The properties *)



(** C37: Bounded memory under concurrency. Whatever the interleaving and the API
    server's answers, the result cache holds at most [maxAuthCacheSize] entries
    and never more than [cacheSize] says. *)
Theorem auth_cache_bounded (review : string -> list string -> gerror + TokenReviewStatus -> Prop)
    (s : auth_state) :
  rtc (auth_step review) init_auth_state s ->
  Z.of_nat (size (cache (st_auth s))) <= cacheSize (st_auth s) <= maxAuthCacheSize.
Proof.
  apply (reachable_invariant _ (fun s => auth_bounded (st_auth s))).
  - intros x y. apply auth_step_bounded.
  - unfold auth_bounded. done.
Qed.

Theorem auth_cache_bounded_witness :
  rtc (auth_step sample_review) init_auth_state sample_state /\
  Z.of_nat (size (cache (st_auth sample_state))) <= maxAuthCacheSize.
Proof.
  split; [exact sample_run|].
  destruct (auth_cache_bounded sample_review sample_state sample_run) as [H1 H2].
  exact (Z.le_trans _ _ _ H1 H2).
Defined.

(** The counter can drift. Two goroutines that miss the cache for the same
    token both store the result: one entry, counted twice. *)
Theorem auth_counter_drift :
  exists s, rtc (auth_step sample_review) init_auth_state s /\
    size (cache (st_auth s)) = 1%nat /\ cacheSize (st_auth s) = 2.
Proof. exists race_state. split; [exact race_run|split; reflexivity]. Qed.

(** Sequential behaviour. A refused call caches nothing: every entry left
    was there before. After an accepted call that found room in the cache, a
    call with the same token and audience within the TTL returns the same
    account without consulting the API server. *)
Theorem Authenticate_caches_successes_only review review' env env' token audience a a' res :
  Authenticate review env token audience a = (a', res) ->
  match res with
  | inl _ => cache a' ⊆ cache a
  | inr r =>
      cacheSize a < maxAuthCacheSize ->
      t_lookup env' < t_store env + cacheTTL a ->
      (auth_lookup (t_lookup env) (auth_key token audience) a = Miss \/
       auth_lookup (t_lookup env) (auth_key token audience) a = Expired /\ auth_bounded a) ->
      Authenticate review' env' token audience a' = (a', inr r)
  end.
Proof.
  unfold Authenticate. set (key := auth_key token audience). intros HA.
  destruct (auth_lookup (t_lookup env) key a) as [r0| |] eqn:Hl.
  - simplify_eq. intros _ _ [?|[? _]]; done.
  - destruct (auth_review _) as [err|r]; simplify_eq.
    + unfold auth_remove. case_match; [apply delete_subseteq|done].
    + intros Hroom Httl [?|[_ Hb]]; [done|]. pose proof (auth_remove_bounded key a Hb) as Hb'.
      assert (cacheSize (auth_remove key a) < maxAuthCacheSize) as Hroom'.
      { unfold auth_lookup in Hl. unfold auth_remove in *. split_cases_in Hl. simpl in *.
        unfold auth_bounded in *. simpl in *. pose proof (size_delete_present _ _ _ Heqo).
        unfold int_sub. rewrite wrap64_small by (apply bounded_small; lia). lia. }
      unfold auth_store. rewrite (proj2 (Z.leb_gt _ _) Hroom'), (proj2 (Z.ltb_lt _ _) Hroom').
      unfold auth_lookup. simpl. rewrite lookup_insert_eq. simpl.
      unfold time_Before, time_Add. rewrite auth_remove_TTL. by rewrite (proj2 (Z.ltb_lt _ _) Httl).
  - destruct (auth_review _) as [err|r]; simplify_eq; [done|].
    intros Hroom Httl _.
    unfold auth_store. rewrite (proj2 (Z.leb_gt _ _) Hroom), (proj2 (Z.ltb_lt _ _) Hroom).
    unfold auth_lookup. simpl. rewrite lookup_insert_eq. simpl.
    unfold time_Before, time_Add. by rewrite (proj2 (Z.ltb_lt _ _) Httl).
Qed.

Definition sample_env (now : Z) : auth_env :=
  {| t_lookup := now; t_store := now; t_evict := now; evict_order := [] |}.
Definition sample_reviewer (_ : string) (_ : list string) : gerror + TokenReviewStatus :=
  inr sample_status.
Definition refusing_reviewer (_ : string) (_ : list string) : gerror + TokenReviewStatus :=
  inl (ErrText "connection refused").

Theorem Authenticate_caches_successes_only_witness :
  Authenticate refusing_reviewer (sample_env 9) "jwt" "coraza-cache:ns/rs"
    (Authenticate sample_reviewer (sample_env 5) "jwt" "coraza-cache:ns/rs" NewTokenAuthenticator).1
  = ((Authenticate sample_reviewer (sample_env 5) "jwt" "coraza-cache:ns/rs" NewTokenAuthenticator).1,
     inr sample_result).
Proof.
  apply (Authenticate_caches_successes_only sample_reviewer refusing_reviewer (sample_env 5)
    (sample_env 9) "jwt" "coraza-cache:ns/rs" NewTokenAuthenticator _ (inr sample_result)).
  - vm_compute. reflexivity.
  - vm_compute. reflexivity.
  - vm_compute. reflexivity.
  - left. vm_compute. reflexivity.
Defined.

(** The key of the result cache is not injective: a request token that
    itself holds a colon and an audience hits the entry of another audience,
    because the request's token is never checked to be a JWT.  (The API server
    must first have accepted the other token.) *)
Theorem auth_key_collision :
  (Authenticate refusing_reviewer (sample_env 9) "jwt:a" "b"
    (Authenticate sample_reviewer (sample_env 5) "jwt" "a:b" NewTokenAuthenticator).1).2
  = inr sample_result.
Proof. vm_compute. reflexivity. Qed.

(** Parsing of user names: [parseServiceAccountUsername] accepts exactly the
    texts [system:serviceaccount:<namespace>:<name>], cutting at the first colon. *)
Theorem parse_username_roundtrip (u ns name : string) :
  parseServiceAccountUsername u = inr (ns, name) <->
  u = serviceAccountPrefix +:+ ns +:+ ":" +:+ name /\ byte_in ":" ns = false.
Proof. apply parse_username_spec. Qed.
