(* ===== verification/GoJson.v ===== *)
(** * [encoding/json] and [encoding/base64], as far as the cache server uses them

    The encoder's string form (HTML escaping on, as [json.NewEncoder] has it) and
    the padded standard base64 of a [[]byte]. *)
From S2P Require Import Prelude GoLib.

(** ** JSON strings *)

Definition hex_digit (n : Z) : ascii :=
  ascii_of_N (Z.to_N (if n <? 10 then 48 + n else 87 + n)).

(** Two-byte escapes; every other control byte and [<], [>], [&] as [\u00xx]. *)
Definition json_escape (a : ascii) : string :=
  let c := code a in
  let bs := ascii_of_N 92 in
  if (c =? 34) || (c =? 92) then String bs (String a "")
  else if c =? 8 then String bs "b"
  else if c =? 12 then String bs "f"
  else if c =? 10 then String bs "n"
  else if c =? 13 then String bs "r"
  else if c =? 9 then String bs "t"
  else if (c <? 32) || (c =? 60) || (c =? 62) || (c =? 38) then
    String bs ("u00" +:+ String (hex_digit (c / 16)) (String (hex_digit (c mod 16)) ""))
  else String a "".

(** U+2028 and U+2029, by their third byte. *)
Definition is_line_sep (s : string) : option ascii :=
  match s with
  | String a (String b (String c _)) =>
      if (code a =? 226) && (code b =? 128) && ((code c =? 168) || (code c =? 169)) then Some c else None
  | _ => None
  end.

Inductive json_mode := Copy (n : nat) | Skip (n : nat).

(** The body of a JSON string: ASCII bytes are escaped one by one, a valid rune
    is copied ([Copy n]: [n] more of its bytes), an invalid byte becomes
    [\ufffd], and the line separators are escaped. *)
Fixpoint json_body (mode : json_mode) (s : string) : string :=
  match s with
  | EmptyString => ""
  | String a s' =>
      match mode with
      | Copy (S n) => String a (json_body (Copy n) s')
      | Skip (S n) => json_body (Skip n) s'
      | Copy O | Skip O =>
          if code a <? 128 then json_escape a +:+ json_body (Copy 0) s'
          else match is_line_sep s with
          | Some c =>
              String (ascii_of_N 92) ("u202" +:+ String (hex_digit (code c - 160)) (json_body (Skip 2) s'))
          | None =>
              match rune_size s with
              | O => String (ascii_of_N 92) ("ufffd" +:+ json_body (Copy 0) s')
              | S n => String a (json_body (Copy n) s')
              end
          end
      end
  end.

Definition dquote : string := String (ascii_of_N 34) "".
Definition json_string (s : string) : string := dquote +:+ json_body (Copy 0) s +:+ dquote.

(** ** Base64 *)

Definition base64_char (n : Z) : ascii :=
  ascii_of_N (Z.to_N (if n <? 26 then 65 + n else if n <? 52 then 71 + n else if n <? 62 then n - 4
                      else if n =? 62 then 43 else 47)).

Fixpoint base64 (s : string) : string :=
  match s with
  | EmptyString => ""
  | String a EmptyString =>
      let x := Z.shiftl (code a) 4 in
      String (base64_char (Z.shiftr x 6)) (String (base64_char (Z.land x 63)) "==")
  | String a (String b EmptyString) =>
      let x := Z.shiftl (Z.lor (Z.shiftl (code a) 8) (code b)) 2 in
      String (base64_char (Z.shiftr x 12)) (String (base64_char (Z.land (Z.shiftr x 6) 63))
        (String (base64_char (Z.land x 63)) "="))
  | String a (String b (String c s')) =>
      let x := Z.lor (Z.shiftl (Z.lor (Z.shiftl (code a) 8) (code b)) 8) (code c) in
      String (base64_char (Z.shiftr x 18)) (String (base64_char (Z.land (Z.shiftr x 12) 63))
        (String (base64_char (Z.land (Z.shiftr x 6) 63)) (String (base64_char (Z.land x 63)) (base64 s'))))
  end.

(** ** Objects *)

(** An object from its encoded fields, in order. *)
Definition json_object (fields : list (string * string)) : string :=
  "{" +:+ Join ((fun kv => json_string kv.1 +:+ ":" +:+ kv.2) <$> fields) "," +:+ "}".

(** A [map[string][]byte]: the keys in byte order, the contents in base64. *)
Definition json_bytes_map (m : gmap string string) : string :=
  json_object ((fun k => (k, dquote +:+ base64 (default "" (m !! k)) +:+ dquote))
                 <$> sort_Strings (elements (dom m))).

Example json_string_ex :
  json_string ("a<" +:+ dquote +:+ String (ascii_of_N 10) "z") =
  dquote +:+ "a\u003c\" +:+ dquote +:+ "\nz" +:+ dquote.
Proof. reflexivity. Qed.

Example base64_ex : base64 "Man Ma M" = "TWFuIE1hIE0=".
Proof. reflexivity. Qed.
