(* ===== verification/JsonParse.v ===== *)
(** * Parsing and printing JSON ([encoding/json])

    The syntax [json.Unmarshal] accepts, the values it reads, and the compact form
    [json.Marshal] writes, with the laws between them.  The parser is defined on
    fuel; [json_parse_total] shows that the fuel [json_parse] gives never runs
    out, so a failure is always a syntax error. *)
From S2P Require Import Prelude GoLib GoJson.

(** ** Values *)

(** A number is kept as its literal: the type it is decoded into decides. *)
Inductive json :=
  | JNull
  | JBool (b : bool)
  | JNum (lit : string)
  | JStr (s : string)
  | JArr (l : list json)
  | JObj (fields : list (string * json)).

(** ** Lexical elements *)

Definition json_ws (a : ascii) : bool :=
  (code a =? 32) || (code a =? 9) || (code a =? 10) || (code a =? 13).
Definition skip_ws (s : string) : string := TrimLeft json_ws s.

(** [utf8.EncodeRune] of a rune that is not a surrogate. *)
Definition byte_of (z : Z) : ascii := ascii_of_N (Z.to_N z).
Definition EncodeRune (r : Z) : string :=
  if r <? 128 then String (byte_of r) ""
  else if r <? 2048 then
    String (byte_of (192 + r / 64)) (String (byte_of (128 + r mod 64)) "")
  else if r <? 65536 then
    String (byte_of (224 + r / 4096)) (String (byte_of (128 + (r / 64) mod 64))
      (String (byte_of (128 + r mod 64)) ""))
  else
    String (byte_of (240 + r / 262144)) (String (byte_of (128 + (r / 4096) mod 64))
      (String (byte_of (128 + (r / 64) mod 64)) (String (byte_of (128 + r mod 64)) ""))).

(** [unicode.ReplacementChar]. *)
Definition RuneError : Z := 65533.

Definition hex_value (a : ascii) : option Z :=
  if is_digit a then Some (code a - 48)
  else if in_range 97 102 a then Some (code a - 87)
  else if in_range 65 70 a then Some (code a - 55)
  else None.

(** The four hexadecimal digits of a [\u] escape. *)
Definition hex4 (a b c d : ascii) : option Z :=
  x ← hex_value a; y ← hex_value b; z ← hex_value c; t ← hex_value d;
  Some (4096 * x + 256 * y + 16 * z + t).

Definition is_surrogate (r : Z) : bool := (55296 <=? r) && (r <=? 57343).

(** [utf16.DecodeRune], [None] for [ReplacementChar]. *)
Definition surrogate_pair (r1 r2 : Z) : option Z :=
  if (55296 <=? r1) && (r1 <=? 56319) && (56320 <=? r2) && (r2 <=? 57343)
  then Some (65536 + (r1 - 55296) * 1024 + (r2 - 56320)) else None.

Definition backslash : ascii := ascii_of_N 92.

(** The byte a one-letter escape stands for. *)
Definition unescape (a : ascii) : option ascii :=
  let c := code a in
  if (c =? 34) || (c =? 92) || (c =? 47) then Some a
  else if c =? 98 then Some (ascii_of_N 8)
  else if c =? 102 then Some (ascii_of_N 12)
  else if c =? 110 then Some (ascii_of_N 10)
  else if c =? 114 then Some (ascii_of_N 13)
  else if c =? 116 then Some (ascii_of_N 9)
  else None.

(** Put [prefix] in front of a parsed string. *)
Definition push (prefix : string) (r : option (string * string)) : option (string * string) :=
  '(s, rest) ← r; Some (prefix +:+ s, rest).

(** The text of a string after its opening quote, up to the closing one: escapes
    are replaced, a surrogate without its partner and an invalid byte become
    U+FFFD ([keep]: bytes of the current rune still to copy). *)
Fixpoint parse_str (keep : nat) (s : string) : option (string * string) :=
  match s with
  | EmptyString => None
  | String a s1 =>
      match keep with
      | S k => push (String a "") (parse_str k s1)
      | O =>
          if code a =? 34 then Some ("", s1)
          else if code a =? 92 then
            match s1 with
            | EmptyString => None
            | String e s2 =>
                if code e =? 117 then
                  match s2 with
                  | String h1 (String h2 (String h3 (String h4 s6))) =>
                      match hex4 h1 h2 h3 h4 with
                      | None => None
                      | Some r =>
                          if is_surrogate r then
                            match s6 with
                            | String b (String u (String g1 (String g2 (String g3 (String g4 s12))))) =>
                                match (if (code b =? 92) && (code u =? 117)
                                       then r2 ← hex4 g1 g2 g3 g4; surrogate_pair r r2 else None) with
                                | Some full => push (EncodeRune full) (parse_str 0 s12)
                                | None => push (EncodeRune RuneError) (parse_str 0 s6)
                                end
                            | _ => push (EncodeRune RuneError) (parse_str 0 s6)
                            end
                          else push (EncodeRune r) (parse_str 0 s6)
                      end
                  | _ => None
                  end
                else match unescape e with
                     | Some c => push (String c "") (parse_str 0 s2)
                     | None => None
                     end
            end
          else if code a <? 32 then None
          else if code a <? 128 then push (String a "") (parse_str 0 s1)
          else match rune_size s with
               | O => push (EncodeRune RuneError) (parse_str 0 s1)
               | S n => push (String a "") (parse_str n s1)
               end
      end
  end.

(** One or more digits. *)
Definition digits1 (s : string) : option (string * string) :=
  let '(ds, r) := digit_run s in if String.eqb ds "" then None else Some (ds, r).

(** An optional sign, then a zero or digits that start with none. *)
Definition num_int (s : string) : option (string * string) :=
  let '(sign, s) := match s with
                    | String a s' => if code a =? 45 then ("-", s') else ("", s)
                    | EmptyString => ("", s)
                    end in
  match s with
  | String a s' =>
      if code a =? 48 then Some (sign +:+ "0", s')
      else '(ds, r) ← digits1 s; Some (sign +:+ ds, r)
  | EmptyString => None
  end.

(** [(\.[0-9]+)?]. *)
Definition num_frac (s : string) : option (string * string) :=
  match s with
  | String a s' => if code a =? 46 then '(ds, r) ← digits1 s'; Some ("." +:+ ds, r) else Some ("", s)
  | EmptyString => Some ("", "")
  end.

(** [([eE][+-]?[0-9]+)?]. *)
Definition num_exp (s : string) : option (string * string) :=
  match s with
  | String a s' =>
      if (code a =? 101) || (code a =? 69) then
        let '(sign, s2) := match s' with
                           | String b s2 => if (code b =? 43) || (code b =? 45) then (String b "", s2) else ("", s')
                           | EmptyString => ("", s')
                           end in
        '(ds, r) ← digits1 s2; Some (String a (sign +:+ ds), r)
      else Some ("", s)
  | EmptyString => Some ("", "")
  end.

Definition parse_num (s : string) : option (string * string) :=
  '(i, s) ← num_int s; '(f, s) ← num_frac s; '(e, s) ← num_exp s; Some (i +:+ f +:+ e, s).

(** ** The grammar *)

Inductive presult (A : Type) :=
  | POk (a : A) (rest : string)
  | PErr
  | PFuel.
Arguments POk {A}.
Arguments PErr {A}.
Arguments PFuel {A}.

Definition pbind {A B} (r : presult A) (k : A -> string -> presult B) : presult B :=
  match r with POk a rest => k a rest | PErr => PErr | PFuel => PFuel end.

Definition of_option {A} (o : option (A * string)) : presult A :=
  match o with Some (a, rest) => POk a rest | None => PErr end.

(** [true], [false] and [null]. *)
Definition parse_lit (s : string) : option (json * string) :=
  match strip_prefix "true" s with
  | Some r => Some (JBool true, r)
  | None => match strip_prefix "false" s with
            | Some r => Some (JBool false, r)
            | None => match strip_prefix "null" s with Some r => Some (JNull, r) | None => None end
            end
  end.

(** [parse_value], and what follows [[] and [,] in an array and [{] and [,] in an
    object; [depth] is how many more containers may be opened. *)
Fixpoint parse_value (fuel depth : nat) (s : string) {struct fuel} : presult json :=
  match fuel with
  | O => PFuel
  | S fuel =>
      match skip_ws s with
      | EmptyString => PErr
      | String a s' =>
          if code a =? 34 then pbind (of_option (parse_str 0 s')) (fun t r => POk (JStr t) r)
          else if code a =? 91 then
            match depth with
            | O => PErr
            | S depth =>
                match skip_ws s' with
                | String b r => if code b =? 93 then POk (JArr []) r
                                else pbind (parse_elems fuel depth s') (fun l r => POk (JArr l) r)
                | EmptyString => PErr
                end
            end
          else if code a =? 123 then
            match depth with
            | O => PErr
            | S depth =>
                match skip_ws s' with
                | String b r => if code b =? 125 then POk (JObj []) r
                                else pbind (parse_members fuel depth s') (fun l r => POk (JObj l) r)
                | EmptyString => PErr
                end
            end
          else if is_digit a || (code a =? 45) then
            pbind (of_option (parse_num (String a s'))) (fun lit r => POk (JNum lit) r)
          else of_option (parse_lit (String a s'))
      end
  end
with parse_elems (fuel depth : nat) (s : string) {struct fuel} : presult (list json) :=
  match fuel with
  | O => PFuel
  | S fuel =>
      pbind (parse_value fuel depth s) (fun v r =>
        match skip_ws r with
        | String a r' =>
            if code a =? 44 then pbind (parse_elems fuel depth r') (fun l r => POk (v :: l) r)
            else if code a =? 93 then POk [v] r' else PErr
        | EmptyString => PErr
        end)
  end
with parse_members (fuel depth : nat) (s : string) {struct fuel} : presult (list (string * json)) :=
  match fuel with
  | O => PFuel
  | S fuel =>
      match skip_ws s with
      | String q s' =>
          if code q =? 34 then
            pbind (of_option (parse_str 0 s')) (fun k r =>
              match skip_ws r with
              | String c r' =>
                  if code c =? 58 then
                    pbind (parse_value fuel depth r') (fun v r =>
                      match skip_ws r with
                      | String a r' =>
                          if code a =? 44 then
                            pbind (parse_members fuel depth r') (fun l r => POk ((k, v) :: l) r)
                          else if code a =? 125 then POk [(k, v)] r' else PErr
                      | EmptyString => PErr
                      end)
                  else PErr
              | EmptyString => PErr
              end)
          else PErr
      | EmptyString => PErr
      end
  end.

(** [maxNestingDepth]. *)
Definition maxNestingDepth : nat := Z.to_nat 10000.

Definition json_fuel (s : string) : nat := (2 * String.length s + 2)%nat.

(** A whole document, [None] for a syntax error. *)
Definition json_parse (s : string) : option json :=
  match parse_value (json_fuel s) maxNestingDepth s with
  | POk v r => if String.eqb (skip_ws r) "" then Some v else None
  | PErr | PFuel => None
  end.

(** ** Printing ([json.Marshal]: compact, in the order of the fields) *)

Fixpoint json_print (v : json) : string :=
  match v with
  | JNull => "null"
  | JBool b => if b then "true" else "false"
  | JNum lit => lit
  | JStr s => json_string s
  | JArr l => "[" +:+ Join (json_print <$> l) "," +:+ "]"
  | JObj fields => "{" +:+ Join ((fun kv => json_string kv.1 +:+ ":" +:+ json_print kv.2) <$> fields) "," +:+ "}"
  end.

Example json_parse_ex :
  json_parse (" {" +:+ dquote +:+ "a\u00e9" +:+ dquote +:+ ": [1, -2.5e3, true], " +:+ json_string "b/" +:+ ":null}") =
  Some (JObj [("a" +:+ EncodeRune 233, JArr [JNum "1"; JNum "-2.5e3"; JBool true]); ("b/", JNull)]).
Proof. vm_compute. reflexivity. Qed.

(** ** Consumption: every element takes at least one byte *)

Abbreviation slen := String.length.

Lemma skip_ws_length s : (slen (skip_ws s) <= slen s)%nat.
Proof.
  unfold skip_ws. induction s as [|a s IH]; simpl; [done|]. case_match; simpl; lia.
Qed.

Lemma push_Some p o t r : push p o = Some (t, r) -> exists t', o = Some (t', r).
Proof. destruct o as [[t' r']|]; simpl; intros; simplify_eq. eauto. Qed.

Lemma parse_str_length n keep s t r :
  (slen s <= n)%nat -> parse_str keep s = Some (t, r) -> (slen r < slen s)%nat.
Proof.
  revert keep s t r. induction n as [|n IH]; intros keep s t r Hn; destruct s as [|a s]; try done;
    [simpl in Hn; lia|]. simpl in Hn.
  assert (Hrec : forall keep' s' p, (slen s' <= slen s)%nat ->
    push p (parse_str keep' s') = Some (t, r) -> (slen r < slen (String a s))%nat).
  { intros keep' s' p Hs' [t' Ht']%push_Some. apply IH in Ht'; simpl; lia. }
  cbn [parse_str].
  destruct keep; [|by apply Hrec].
  repeat case_match; try done; try (by eapply Hrec; eauto; subst; simpl; lia).
  intros; simplify_eq; simpl; lia.
Qed.

Lemma digits1_length s ds r : digits1 s = Some (ds, r) -> (slen r < slen s)%nat.
Proof.
  unfold digits1. destruct (digit_run s) as [ds' r'] eqn:Hd. apply digit_run_spec in Hd as (-> & _ & _).
  case_match eqn:He; intros; simplify_eq. rewrite length_string_app. destruct ds; simpl; [done|lia].
Qed.

Lemma num_int_length s i r : num_int s = Some (i, r) -> (slen r < slen s)%nat.
Proof.
  unfold num_int. destruct s as [|a s]; [done|]. destruct (code a =? 45); simpl.
  - destruct s as [|b s]; [done|]. case_match; [intros; simplify_eq; simpl; lia|].
    destruct (digits1 _) as [[ds r']|] eqn:Hd; [|done]. simpl. intros; simplify_eq.
    apply digits1_length in Hd. simpl in *. lia.
  - case_match; [intros; simplify_eq; simpl; lia|].
    destruct (digits1 _) as [[ds r']|] eqn:Hd; [|done]. simpl. intros; simplify_eq.
    apply digits1_length in Hd. simpl in *. lia.
Qed.

Lemma num_frac_length s f r : num_frac s = Some (f, r) -> (slen r <= slen s)%nat.
Proof.
  unfold num_frac. destruct s as [|a s]; [by intros; simplify_eq|]. case_match; [|by intros; simplify_eq].
  destruct (digits1 s) as [[ds r']|] eqn:Hd; [|done]. simpl. intros; simplify_eq.
  apply digits1_length in Hd. simpl. lia.
Qed.

Lemma num_exp_length s e r : num_exp s = Some (e, r) -> (slen r <= slen s)%nat.
Proof.
  unfold num_exp. destruct s as [|a s]; [by intros; simplify_eq|]. case_match; [|by intros; simplify_eq].
  destruct s as [|b s]; [done|].
  destruct ((code b =? 43) || (code b =? 45)).
  - destruct (digits1 s) as [[ds r']|] eqn:Hd; [|done]. cbn. intros; simplify_eq.
    apply digits1_length in Hd. simpl. lia.
  - destruct (digits1 (String b s)) as [[ds r']|] eqn:Hd; [|done]. cbn. intros; simplify_eq.
    apply digits1_length in Hd. simpl in *. lia.
Qed.

Lemma parse_num_length s lit r : parse_num s = Some (lit, r) -> (slen r < slen s)%nat.
Proof.
  unfold parse_num. destruct (num_int s) as [[i s1]|] eqn:Hi; [|done]. simpl.
  destruct (num_frac s1) as [[f s2]|] eqn:Hf; [|done]. simpl.
  destruct (num_exp s2) as [[e s3]|] eqn:He; [|done]. simpl. intros; simplify_eq.
  apply num_int_length in Hi. apply num_frac_length in Hf. apply num_exp_length in He. lia.
Qed.

Lemma parse_lit_length s v r : parse_lit s = Some (v, r) -> (slen r < slen s)%nat.
Proof.
  assert (Hshort : forall p rest, strip_prefix p s = Some rest -> p <> "" -> (slen rest < slen s)%nat).
  { intros p rest ->%strip_prefix_Some Hp. rewrite length_string_app. destruct p; simpl; [done|lia]. }
  unfold parse_lit. destruct (strip_prefix "true" s) eqn:H1; [intros; simplify_eq; by eapply Hshort|].
  destruct (strip_prefix "false" s) eqn:H2; [intros; simplify_eq; by eapply Hshort|].
  destruct (strip_prefix "null" s) eqn:H3; intros; simplify_eq. by eapply Hshort.
Qed.

Lemma pbind_POk {A B} (x : presult A) (k : A -> string -> presult B) b rest :
  pbind x k = POk b rest -> exists a r, x = POk a r /\ k a r = POk b rest.
Proof. destruct x; simpl; intros; [eauto|done..]. Qed.

Lemma of_option_POk {A} (o : option (A * string)) a r : of_option o = POk a r -> o = Some (a, r).
Proof. destruct o as [[]|]; simpl; intros; by simplify_eq. Qed.

(** What is left after white space and one byte is shorter. *)
Lemma skip_ws_cons s a s' : skip_ws s = String a s' -> (slen s' < slen s)%nat.
Proof. intros Hs. pose proof (skip_ws_length s). rewrite Hs in *. simpl in *. lia. Qed.

Lemma parse_consumes fuel :
  (forall depth s v r, parse_value fuel depth s = POk v r -> (slen r < slen s)%nat) /\
  (forall depth s l r, parse_elems fuel depth s = POk l r -> (slen r < slen s)%nat) /\
  (forall depth s l r, parse_members fuel depth s = POk l r -> (slen r < slen s)%nat).
Proof.
  induction fuel as [|fuel (IHv & IHe & IHm)]; [done|]. split_and!.
  - intros depth s v r. cbn [parse_value]. destruct (skip_ws s) as [|a s'] eqn:Hs; [done|].
    apply skip_ws_cons in Hs as Hlen. pose proof (skip_ws_length s) as Hle. rewrite Hs in Hle.
    destruct (code a =? 34).
    { intros (t & r' & Ht%of_option_POk & [= <- <-])%pbind_POk.
      apply (parse_str_length (slen s')) in Ht; lia. }
    destruct (code a =? 91).
    { destruct depth; [done|]. destruct (skip_ws s') as [|b r'] eqn:Hs'; [done|].
      apply skip_ws_cons in Hs'. case_match; [intros; simplify_eq; lia|].
      intros (l & r'' & He%IHe & [= <- <-])%pbind_POk. lia. }
    destruct (code a =? 123).
    { destruct depth; [done|]. destruct (skip_ws s') as [|b r'] eqn:Hs'; [done|].
      apply skip_ws_cons in Hs'. case_match; [intros; simplify_eq; lia|].
      intros (l & r'' & He%IHm & [= <- <-])%pbind_POk. lia. }
    case_match.
    + intros (t & r' & Ht%of_option_POk%parse_num_length & [= <- <-])%pbind_POk. lia.
    + intros Ht%of_option_POk%parse_lit_length. lia.
  - intros depth s l r. cbn [parse_elems]. intros (v & r1 & Hv%IHv & Hk)%pbind_POk.
    destruct (skip_ws r1) as [|a r2] eqn:Hr; [done|]. apply skip_ws_cons in Hr.
    repeat case_match; simplify_eq; [|lia].
    apply pbind_POk in Hk as (l' & r3 & Hl%IHe & [= <- <-]). lia.
  - intros depth s l r. cbn [parse_members]. destruct (skip_ws s) as [|q s'] eqn:Hs; [done|].
    apply skip_ws_cons in Hs. case_match; [|done].
    intros (k & r1 & Hk%of_option_POk & Hrest)%pbind_POk. apply (parse_str_length (slen s')) in Hk; [|lia].
    destruct (skip_ws r1) as [|c r2] eqn:Hr; [done|]. apply skip_ws_cons in Hr. case_match; [|done].
    apply pbind_POk in Hrest as (v & r3 & Hv%IHv & Hrest).
    destruct (skip_ws r3) as [|a r4] eqn:Hr3; [done|]. apply skip_ws_cons in Hr3.
    repeat case_match; simplify_eq; [|lia].
    apply pbind_POk in Hrest as (l' & r5 & Hl%IHm & [= <- <-]). lia.
Qed.

Lemma pbind_PFuel {A B} (x : presult A) (k : A -> string -> presult B) :
  x <> PFuel -> (forall a r, x = POk a r -> k a r <> PFuel) -> pbind x k <> PFuel.
Proof. destruct x; simpl; auto. Qed.

Lemma of_option_PFuel {A} (o : option (A * string)) : of_option o <> PFuel.
Proof. by destruct o as [[]|]. Qed.

(** A call recurses on a text at most as long, and only through one that is
    shorter: two units of fuel per byte are enough. *)
Lemma parse_fuel_enough fuel :
  (forall depth s, (2 * slen s + 1 <= fuel)%nat -> parse_value fuel depth s <> PFuel) /\
  (forall depth s, (2 * slen s + 2 <= fuel)%nat -> parse_elems fuel depth s <> PFuel) /\
  (forall depth s, (2 * slen s + 2 <= fuel)%nat -> parse_members fuel depth s <> PFuel).
Proof.
  induction fuel as [|fuel (IHv & IHe & IHm)]; [split_and!; intros; lia|].
  destruct (parse_consumes fuel) as (Cv & Ce & Cm). split_and!.
  - intros depth s Hf. cbn [parse_value]. destruct (skip_ws s) as [|a s'] eqn:Hs; [done|].
    apply skip_ws_cons in Hs. repeat case_match; try done;
      try (apply pbind_PFuel; [apply of_option_PFuel|done]); try apply of_option_PFuel;
      (apply pbind_PFuel; [|done]); [apply IHe|apply IHm]; lia.
  - intros depth s Hf. cbn [parse_elems]. apply pbind_PFuel; [apply IHv; lia|].
    intros v r1 Hv%Cv. destruct (skip_ws r1) as [|a r2] eqn:Hr; [done|]. apply skip_ws_cons in Hr.
    repeat case_match; try done. apply pbind_PFuel; [|done]. apply IHe. lia.
  - intros depth s Hf. cbn [parse_members]. destruct (skip_ws s) as [|q s'] eqn:Hs; [done|].
    apply skip_ws_cons in Hs. case_match; [|done]. apply pbind_PFuel; [apply of_option_PFuel|].
    intros k r1 Hk%of_option_POk. apply (parse_str_length (slen s')) in Hk; [|lia].
    destruct (skip_ws r1) as [|c r2] eqn:Hr; [done|]. apply skip_ws_cons in Hr. case_match; [|done].
    apply pbind_PFuel; [apply IHv; lia|]. intros v r3 Hv%Cv.
    destruct (skip_ws r3) as [|a r4] eqn:Hr3; [done|]. apply skip_ws_cons in Hr3.
    repeat case_match; try done. apply pbind_PFuel; [|done]. apply IHm. lia.
Qed.

(** ** More fuel does not change a result *)

Definition settled {A} (x y : presult A) : Prop := x <> PFuel -> y = x.

Lemma settled_bind {A B} (x y : presult A) (k k' : A -> string -> presult B) :
  settled x y -> (forall a r, settled (k a r) (k' a r)) -> settled (pbind x k) (pbind y k').
Proof.
  unfold settled. intros Hx Hk Hne. destruct x as [a r| |]; simpl in *; [rewrite Hx by done|rewrite Hx by done|done].
  - by apply Hk.
  - done.
Qed.

Lemma settled_refl {A} (x : presult A) : settled x x.
Proof. by intros _. Qed.

Lemma parse_settled fuel fuel' :
  (fuel <= fuel')%nat ->
  (forall depth s, settled (parse_value fuel depth s) (parse_value fuel' depth s)) /\
  (forall depth s, settled (parse_elems fuel depth s) (parse_elems fuel' depth s)) /\
  (forall depth s, settled (parse_members fuel depth s) (parse_members fuel' depth s)).
Proof.
  revert fuel'. induction fuel as [|fuel IH]; intros fuel' Hle;
    [split_and!; intros depth s Hne; by destruct Hne|].
  destruct fuel' as [|fuel']; [lia|]. destruct (IH fuel' ltac:(lia)) as (IHv & IHe & IHm).
  split_and!; intros depth s; [cbn [parse_value]|cbn [parse_elems]|cbn [parse_members]].
  - repeat case_match; try apply settled_refl; (apply settled_bind; [auto|intros; apply settled_refl]).
  - apply settled_bind; [auto|]. intros v r. repeat case_match; try apply settled_refl.
    apply settled_bind; [auto|intros; apply settled_refl].
  - repeat case_match; try apply settled_refl. apply settled_bind; [apply settled_refl|].
    intros k r. repeat case_match; try apply settled_refl. apply settled_bind; [auto|]. intros v r'.
    repeat case_match; try apply settled_refl. apply settled_bind; [auto|intros; apply settled_refl].
Qed.

(** ** Strings: what is printed is read back *)

(** [utf8.ValidString]; [keep] bytes of the current rune are left. *)
Fixpoint utf8_from (keep : nat) (s : string) : bool :=
  match s with
  | EmptyString => (keep =? 0)%nat
  | String a s' =>
      match keep with
      | S k => utf8_from k s'
      | O => match rune_size s with O => false | S n => utf8_from n s' end
      end
  end.
Definition ValidString (s : string) : bool := utf8_from 0 s.

Lemma code_inj a b : code a = code b -> a = b.
Proof.
  unfold code. intros Heq. apply (f_equal Z.to_N) in Heq. rewrite !N2Z.id in Heq.
  rewrite <- (ascii_N_embedding a), <- (ascii_N_embedding b). by rewrite Heq.
Qed.

(** A rune is determined by its own bytes. *)
Lemma rune_size_bytes a s n :
  rune_size (String a s) = S n ->
  exists p t, s = p +:+ t /\ slen p = n /\ (n = 0%nat <-> code a <= 127) /\
    forall t', rune_size (String a (p +:+ t')) = S n.
Proof.
  unfold rune_size. destruct (code a <=? 127) eqn:Ha; bool_to_prop.
  { intros [= <-]. exists "", s. by split_and!. }
  destruct s as [|b s2]; [done|]. destruct (in_range 194 223 a && is_cont b) eqn:H2.
  { intros [= <-]. exists (String b ""), s2. split_and!; [done|done|split; [done|lia]|].
    intros t'. by rewrite app_cons, H2. }
  destruct s2 as [|c s3]; [done|].
  destruct (_ && is_cont c) eqn:H3.
  { intros [= <-]. exists (String b (String c "")), s3. split_and!; [done|done|split; [done|lia]|].
    intros t'. by rewrite !app_cons, H2, H3. }
  destruct s3 as [|d s4]; [done|].
  destruct (_ && is_cont d) eqn:H4; [|done].
  intros [= <-]. exists (String b (String c (String d ""))), s4. split_and!; [done|done|split; [done|lia]|].
  intros t'. by rewrite !app_cons, H2, H3, H4.
Qed.

Lemma utf8_from_app p s : utf8_from (slen p) (p +:+ s) = utf8_from 0 s.
Proof. induction p as [|a p IH]; [done|]. rewrite app_cons. simpl. done. Qed.

Lemma json_body_copy p s : json_body (Copy (slen p)) (p +:+ s) = p +:+ json_body (Copy 0) s.
Proof. induction p as [|a p IH]; [done|]. rewrite !app_cons. simpl. by rewrite IH. Qed.

Lemma parse_str_copy p s : parse_str (slen p) (p +:+ s) = push p (parse_str 0 s).
Proof.
  induction p as [|a p IH].
  - simpl. rewrite app_empty_l. by destruct (parse_str 0 s) as [[]|].
  - rewrite app_cons. cbn [slen parse_str]. rewrite IH. by destruct (parse_str 0 s) as [[]|].
Qed.

Lemma json_body_skip p s : json_body (Skip (slen p)) (p +:+ s) = json_body (Copy 0) s.
Proof. induction p as [|a p IH]; [by destruct s|]. by rewrite app_cons. Qed.

Lemma parse_escape a t :
  code a < 128 -> parse_str 0 (json_escape a +:+ t) = push (String a "") (parse_str 0 t).
Proof.
  intros Ha. destruct a as [[] [] [] [] [] [] [] []]; try (exfalso; vm_compute in Ha; done); reflexivity.
Qed.

Lemma push_push p q o : push p (push q o) = push (p +:+ q) o.
Proof. destruct o as [[]|]; simpl; [by rewrite string_app_assoc|done]. Qed.

Lemma is_line_sep_Some s c : is_line_sep s = Some c ->
  exists t, s = EncodeRune (8192 + code c - 128) +:+ t /\ (code c = 168 \/ code c = 169).
Proof.
  destruct s as [|a [|b [|c' t]]]; try done. simpl. case_match eqn:Hc; [|done]. intros [= ->].
  apply andb_true_iff in Hc as [[Ha Hb]%andb_true_iff Hc]. bool_to_prop. exists t.
  assert (a = ascii_of_N 226) as -> by by apply code_inj. assert (b = ascii_of_N 128) as -> by by apply code_inj.
  destruct Hc as [Hc|Hc]; apply Z.eqb_eq in Hc;
    [assert (c = ascii_of_N 168) as -> by by apply code_inj|assert (c = ascii_of_N 169) as -> by by apply code_inj];
    (split; [reflexivity|]); vm_compute; auto.
Qed.

Lemma EncodeRune_line_sep c :
  code c = 168 \/ code c = 169 ->
  EncodeRune (8192 + code c - 128) = String (ascii_of_N 226) (String (ascii_of_N 128) (String c "")).
Proof.
  intros [Hc|Hc]; [assert (c = ascii_of_N 168) as -> by by apply code_inj
                  |assert (c = ascii_of_N 169) as -> by by apply code_inj]; reflexivity.
Qed.

Lemma rune_size_line_sep c t :
  code c = 168 \/ code c = 169 -> rune_size (EncodeRune (8192 + code c - 128) +:+ t) = 3%nat.
Proof.
  intros Hc. rewrite (EncodeRune_line_sep c Hc), !app_cons, app_empty_l. cbn.
  unfold is_cont, in_range. by destruct Hc as [-> | ->].
Qed.

Lemma parse_line_sep c t :
  code c = 168 \/ code c = 169 ->
  parse_str 0 (String (ascii_of_N 92) ("u202" +:+ String (hex_digit (code c - 160)) t)) =
  push (EncodeRune (8192 + code c - 128)) (parse_str 0 t).
Proof. intros [-> | ->]; reflexivity. Qed.

Lemma parse_str_body n s r :
  (slen s <= n)%nat -> ValidString s = true ->
  parse_str 0 (json_body (Copy 0) s +:+ dquote +:+ r) = Some (s, r).
Proof.
  revert s. induction n as [|n IH]; intros s Hn Hs; (destruct s as [|a s]; [done|]); [simpl in Hn; lia|].
  simpl in Hn. unfold ValidString in Hs. cbn [utf8_from] in Hs.
  destruct (rune_size (String a s)) as [|m] eqn:Hm; [done|].
  destruct (rune_size_bytes a s m Hm) as (p & t & -> & <- & Hone & Hany). rewrite utf8_from_app in Hs.
  assert (Ht : parse_str 0 (json_body (Copy 0) t +:+ dquote +:+ r) = Some (t, r)).
  { apply IH; [|done]. rewrite length_string_app in Hn. lia. }
  cbn [json_body]. destruct (code a <? 128) eqn:Ha; bool_to_prop.
  - destruct p as [|b p]; [|assert (slen (String b p) = 0%nat) by (apply Hone; lia); done].
    rewrite app_empty_l, string_app_assoc, parse_escape by done. by rewrite Ht.
  - destruct (is_line_sep (String a (p +:+ t))) as [c|] eqn:Hsep.
    + apply is_line_sep_Some in Hsep as (t' & Heq & Hc). rewrite Heq in Hm.
      rewrite (rune_size_line_sep c t' Hc) in Hm. injection Hm as Hm.
      rewrite <- app_cons in Heq. apply string_app_inj in Heq as [Hap ->];
        [|rewrite (EncodeRune_line_sep c Hc); simpl; lia].
      rewrite Hm, json_body_skip.
      etransitivity; [exact (parse_line_sep c (json_body (Copy 0) t' +:+ dquote +:+ r) Hc)|].
      by rewrite Ht, <- Hap.
    + rewrite Hm, json_body_copy, app_cons, string_app_assoc. cbn [parse_str].
      assert (Hq : code a =? 34 = false) by (apply Z.eqb_neq; lia).
      assert (Hb : code a =? 92 = false) by (apply Z.eqb_neq; lia).
      assert (Hc : code a <? 32 = false) by (apply Z.ltb_ge; lia).
      assert (Hd : code a <? 128 = false) by (apply Z.ltb_ge; lia).
      rewrite Hq, Hb, Hc, Hd, Hany, parse_str_copy, Ht. done.
Qed.

Lemma parse_json_string s r :
  ValidString s = true -> exists t, json_string s +:+ r = String (ascii_of_N 34) t /\ parse_str 0 t = Some (s, r).
Proof.
  intros Hs. exists (json_body (Copy 0) s +:+ dquote +:+ r). split.
  - unfold json_string. rewrite !string_app_assoc. done.
  - by apply (parse_str_body (slen s)).
Qed.

(** ** Numbers *)

(** The text that follows does not go on the number. *)
Definition num_stop (r : string) : bool :=
  match r with
  | String a _ => negb (is_digit a || (code a =? 46) || (code a =? 101) || (code a =? 69))
  | EmptyString => true
  end.

Section num_stop.
Context (r : string) (Hr : num_stop r = true).

Lemma num_stop_digit : head_digit r = false.
Proof using Hr. destruct r as [|a t]; [done|]. simpl in *. by destruct (is_digit a). Qed.

Lemma digits1_app s ds t : digits1 s = Some (ds, t) -> digits1 (s +:+ r) = Some (ds, t +:+ r).
Proof using Hr.
  unfold digits1. destruct (digit_run s) as [ds' t'] eqn:Hd. apply digit_run_spec in Hd as (-> & Hds & Ht).
  assert (digit_run ((ds' +:+ t') +:+ r) = (ds', t' +:+ r)) as ->.
  { apply digit_run_spec. rewrite string_app_assoc. split_and!; [done..|].
    destruct t'; [apply num_stop_digit|done]. }
  case_match; intros; by simplify_eq.
Qed.

Lemma num_int_app s i t : num_int s = Some (i, t) -> num_int (s +:+ r) = Some (i, t +:+ r).
Proof using Hr.
  unfold num_int. destruct s as [|a s]; [done|]. rewrite app_cons. destruct (code a =? 45).
  - destruct s as [|b s]; [done|]. rewrite (app_cons b s r). cbv beta iota. destruct (code b =? 48); [intros [= <- <-]; done|].
    destruct (digits1 (String b s)) as [[ds t']|] eqn:Hd; [|done]. apply digits1_app in Hd.
    rewrite app_cons in Hd. rewrite Hd. cbn. by intros; simplify_eq.
  - destruct (code a =? 48); [by intros; simplify_eq|].
    destruct (digits1 (String a s)) as [[ds t']|] eqn:Hd; [|done]. apply digits1_app in Hd.
    rewrite app_cons in Hd. rewrite Hd. cbn. by intros; simplify_eq.
Qed.

Lemma num_frac_app s f t : num_frac s = Some (f, t) -> num_frac (s +:+ r) = Some (f, t +:+ r).
Proof using Hr.
  unfold num_frac. destruct s as [|a s].
  - intros; simplify_eq. rewrite app_empty_l. destruct r as [|b r']; [done|].
    simpl in Hr. apply negb_true_iff in Hr. bool_to_prop.
    destruct (Z.eqb_spec (code b) 46); [done|]. done.
  - rewrite app_cons. destruct (code a =? 46); [|by intros; simplify_eq].
    destruct (digits1 s) as [[ds t']|] eqn:Hd; [|done]. rewrite (digits1_app _ _ _ Hd). cbn.
    by intros; simplify_eq.
Qed.

Lemma num_exp_app s e t : num_exp s = Some (e, t) -> num_exp (s +:+ r) = Some (e, t +:+ r).
Proof using Hr.
  unfold num_exp. destruct s as [|a s].
  - intros; simplify_eq. rewrite app_empty_l. destruct r as [|b r']; [done|].
    simpl in Hr. apply negb_true_iff in Hr. bool_to_prop.
    destruct (Z.eqb_spec (code b) 101), (Z.eqb_spec (code b) 69); done.
  - rewrite app_cons. destruct ((code a =? 101) || (code a =? 69)); [|by intros; simplify_eq].
    destruct s as [|b s]; [done|]. rewrite (app_cons b s r). cbv beta iota.
    destruct ((code b =? 43) || (code b =? 45)).
    + destruct (digits1 s) as [[ds t']|] eqn:Hd; [|done]. rewrite (digits1_app _ _ _ Hd). cbn.
      by intros; simplify_eq.
    + destruct (digits1 (String b s)) as [[ds t']|] eqn:Hd; [|done]. apply digits1_app in Hd.
      rewrite app_cons in Hd. rewrite Hd. cbn. by intros; simplify_eq.
Qed.

Lemma parse_num_app s lit t : parse_num s = Some (lit, t) -> parse_num (s +:+ r) = Some (lit, t +:+ r).
Proof using Hr.
  unfold parse_num. destruct (num_int s) as [[i s1]|] eqn:Hi; [|done]. rewrite (num_int_app _ _ _ Hi). cbn.
  destruct (num_frac s1) as [[f s2]|] eqn:Hf; [|done]. rewrite (num_frac_app _ _ _ Hf). cbn.
  destruct (num_exp s2) as [[e s3]|] eqn:He; [|done]. rewrite (num_exp_app _ _ _ He). cbn.
  by intros; simplify_eq.
Qed.
End num_stop.

Lemma parse_num_head s lit t : parse_num s = Some (lit, t) ->
  exists a s', s = String a s' /\ (is_digit a || (code a =? 45)) = true.
Proof.
  unfold parse_num, num_int. destruct s as [|a s]; [done|]. destruct (code a =? 45) eqn:Hm.
  { intros _. exists a, s. by rewrite Hm, orb_true_r. }
  intros Hp. exists a, s. split; [done|]. apply orb_true_iff. left.
  destruct (Z.eqb_spec (code a) 48) as [Hz|]; [unfold is_digit, in_range; by rewrite Hz|].
  destruct (is_digit a) eqn:Hd; [done|]. unfold digits1 in Hp. simpl in Hp. by rewrite Hd in Hp.
Qed.

(** ** Documents: what is printed is read back *)

(** A value [Marshal] may be given: numbers are literals, strings valid UTF-8, at
    most [depth] containers nested. *)
Definition is_number (lit : string) : bool := bool_decide (parse_num lit = Some (lit, "")).

Fixpoint json_ok (depth : nat) (v : json) {struct v} : bool :=
  match v with
  | JNull | JBool _ => true
  | JNum lit => is_number lit
  | JStr s => ValidString s
  | JArr l => match depth with O => false | S d => forallb (json_ok d) l end
  | JObj fields => match depth with
                   | O => false
                   | S d => forallb (fun kv => ValidString kv.1 && json_ok d kv.2) fields
                   end
  end.

(** Induction that reaches the values of containers. *)
Lemma json_nested_ind (P : json -> Prop) :
  P JNull -> (forall b, P (JBool b)) -> (forall lit, P (JNum lit)) -> (forall s, P (JStr s)) ->
  (forall l, Forall P l -> P (JArr l)) -> (forall fields, Forall (fun kv => P kv.2) fields -> P (JObj fields)) ->
  forall v, P v.
Proof.
  intros HN HB HM HS HA HO. fix IH 1. intros [|b|lit|s|l|fields].
  - apply HN.
  - apply HB.
  - apply HM.
  - apply HS.
  - apply HA. induction l as [|x l IHl]; constructor; [apply IH|apply IHl].
  - apply HO. induction fields as [|[k x] l IHl]; constructor; [apply IH|apply IHl].
Qed.

(** The first byte of a printed value is no white space and closes nothing. *)
Definition value_head (a : ascii) : bool := negb (json_ws a || (code a =? 93) || (code a =? 125)).

Lemma digit_value_head a : (is_digit a || (code a =? 45)) = true -> value_head a = true.
Proof. destruct a as [[] [] [] [] [] [] [] []]; done. Qed.

Lemma json_print_head depth v : json_ok depth v = true ->
  exists a t, json_print v = String a t /\ value_head a = true.
Proof.
  destruct v as [|[]|lit|s|l|fields]; cbn [json_ok json_print].
  1-3: intros _; by eexists _, _.
  - intros Hn. change (is_number lit = true) in Hn.
    apply bool_decide_eq_true, parse_num_head in Hn as (a & t & -> & Ha).
    exists a, t. split; [done|]. by apply digit_value_head.
  - intros _. by eexists _, _.
  - intros _. by eexists _, _.
  - intros _. by eexists _, _.
Qed.

Lemma skip_ws_head a t : value_head a = true -> skip_ws (String a t) = String a t.
Proof. unfold skip_ws, value_head. simpl. by destruct (json_ws a). Qed.

Definition reads {A} (parse : nat -> nat -> string -> presult A) (depth : nat) (s : string) (x : A) (r : string) : Prop :=
  exists fuel, forall fuel', (fuel <= fuel')%nat -> parse fuel' depth s = POk x r.

Lemma print_reads_arr depth l r :
  Forall (fun v => forall r, num_stop r = true -> reads parse_value depth (json_print v +:+ r) v r) l ->
  l <> [] -> reads parse_elems depth (Join (json_print <$> l) "," +:+ "]" +:+ r) l r.
Proof.
  induction 1 as [|v l Hv Hl IH]; [done|]. intros _. destruct l as [|w l].
  - destruct (Hv ("]" +:+ r) eq_refl) as [f Hf]. exists (S f). intros [|f'] Hle; [lia|].
    cbn [parse_elems fmap list_fmap Join String.concat]. rewrite Hf by lia. done.
  - rewrite fmap_cons, Join_cons by done.
    destruct (IH ltac:(done)) as [f2 Hf2]. rewrite !string_app_assoc.
    destruct (Hv ("," +:+ Join (json_print <$> w :: l) "," +:+ "]" +:+ r) eq_refl) as [f1 Hf1].
    exists (S (max f1 f2)). intros [|f'] Hle; [lia|].
    cbn [parse_elems]. rewrite Hf1 by lia. cbn [pbind]. rewrite app_cons, app_empty_l.
    rewrite skip_ws_head by done. cbn [code]. change (code "," =? 44) with true. cbn iota.
    rewrite Hf2 by lia. done.
Qed.

Definition print_member (kv : string * json) : string := json_string kv.1 +:+ ":" +:+ json_print kv.2.

Lemma parse_member fuel depth k v r :
  ValidString k = true ->
  parse_members (S fuel) depth (print_member (k, v) +:+ r) =
  pbind (parse_value fuel depth (json_print v +:+ r)) (fun v r =>
    match skip_ws r with
    | String a r' =>
        if code a =? 44 then pbind (parse_members fuel depth r') (fun l r => POk ((k, v) :: l) r)
        else if code a =? 125 then POk [(k, v)] r' else PErr
    | EmptyString => PErr
    end).
Proof.
  intros Hk. unfold print_member. cbn [fst snd]. rewrite !string_app_assoc.
  destruct (parse_json_string k (":" +:+ json_print v +:+ r) Hk) as (t & -> & Ht).
  cbn [parse_members]. rewrite skip_ws_head by done. change (code (ascii_of_N 34) =? 34) with true. cbv iota.
  rewrite Ht. cbn [of_option pbind]. rewrite app_cons, app_empty_l, skip_ws_head by done.
  by change (code ":" =? 58) with true.
Qed.

Lemma print_reads_obj depth fields r :
  Forall (fun kv => ValidString kv.1 = true /\
    forall r, num_stop r = true -> reads parse_value depth (json_print kv.2 +:+ r) kv.2 r) fields ->
  fields <> [] -> reads parse_members depth (Join (print_member <$> fields) "," +:+ "}" +:+ r) fields r.
Proof.
  induction 1 as [|[k v] fields [Hk Hv] Hl IH]; [done|]. intros _. simpl in Hk, Hv. destruct fields as [|kv fields].
  - destruct (Hv ("}" +:+ r) eq_refl) as [f Hf]. exists (S f). intros [|f'] Hle; [lia|].
    cbn [fmap list_fmap Join String.concat]. rewrite parse_member, Hf by (done || lia). done.
  - rewrite fmap_cons, Join_cons by done.
    destruct (IH ltac:(done)) as [f2 Hf2]. rewrite !string_app_assoc.
    destruct (Hv ("," +:+ Join (print_member <$> kv :: fields) "," +:+ "}" +:+ r) eq_refl) as [f1 Hf1].
    exists (S (max f1 f2)). intros [|f'] Hle; [lia|].
    rewrite parse_member, Hf1 by (done || lia). cbn [pbind]. rewrite app_cons, app_empty_l.
    rewrite skip_ws_head by done. change (code "," =? 44) with true. cbv iota.
    rewrite Hf2 by lia. done.
Qed.

Lemma Join_print_head {A} (print : A -> string) x l sep r :
  (exists a t, print x = String a t /\ value_head a = true) ->
  exists a t, Join (print <$> x :: l) sep +:+ r = String a t /\ value_head a = true.
Proof.
  intros (a & t & Hx & Ha). rewrite fmap_cons. destruct l as [|y l].
  - exists a, (t +:+ r). split; [|done]. by rewrite <- app_cons, <- Hx.
  - rewrite Join_cons by done. rewrite Hx, !string_app_assoc. by eexists _, _.
Qed.

Lemma num_not_quote a :
  (is_digit a || (code a =? 45)) = true ->
  (code a =? 34) = false /\ (code a =? 91) = false /\ (code a =? 123) = false.
Proof. destruct a as [[] [] [] [] [] [] [] []]; done. Qed.

Lemma reads_arr depth s a t l r :
  s = String a t -> value_head a = true -> reads parse_elems depth s l r ->
  reads parse_value (S depth) (String "[" s) (JArr l) r.
Proof.
  intros -> Ha [f Hf]. exists (S f). intros [|f'] Hle; [lia|]. specialize (Hf f' ltac:(lia)).
  cbn [parse_value]. rewrite !skip_ws_head by done.
  change (code "[" =? 34) with false. change (code "[" =? 91) with true. cbv iota.
  assert (Hc : (code a =? 93) = false) by (unfold value_head in Ha; by destruct (code a =? 93), (json_ws a)).
  by rewrite Hc, Hf.
Qed.

Lemma reads_obj depth s a t fields r :
  s = String a t -> value_head a = true -> reads parse_members depth s fields r ->
  reads parse_value (S depth) (String "{" s) (JObj fields) r.
Proof.
  intros -> Ha [f Hf]. exists (S f). intros [|f'] Hle; [lia|]. specialize (Hf f' ltac:(lia)).
  cbn [parse_value]. rewrite !skip_ws_head by done.
  change (code "{" =? 34) with false. change (code "{" =? 91) with false.
  change (code "{" =? 123) with true. cbv iota.
  assert (Hc : (code a =? 125) = false)
    by (unfold value_head in Ha; by destruct (code a =? 125), (json_ws a), (code a =? 93)).
  by rewrite Hc, Hf.
Qed.

Lemma print_reads v : forall depth r, json_ok depth v = true -> num_stop r = true ->
  reads parse_value depth (json_print v +:+ r) v r.
Proof.
  induction v as [|b|lit|s|l IH|fields IH] using json_nested_ind; intros depth r Hok Hr.
  - exists 1%nat. by intros [|f] Hle; [lia|].
  - exists 1%nat. intros [|f] Hle; [lia|]. by destruct b.
  - exists 1%nat. intros [|f] Hle; [lia|]. apply bool_decide_eq_true in Hok.
    destruct (parse_num_head _ _ _ Hok) as (a & t & -> & Ha).
    apply (parse_num_app r Hr) in Hok. cbn [json_print]. rewrite app_cons in *. cbn [parse_value].
    rewrite skip_ws_head by by apply digit_value_head.
    destruct (num_not_quote a Ha) as (-> & -> & ->). rewrite Ha, Hok. done.
  - exists 1%nat. intros [|f] Hle; [lia|].
    destruct (parse_json_string s r Hok) as (t & Ht & Hp). cbn [json_print parse_value]. rewrite Ht.
    rewrite skip_ws_head by done. change (code (ascii_of_N 34) =? 34) with true. cbv iota. by rewrite Hp.
  - destruct depth as [|depth]; [done|]. cbn [json_ok] in Hok. destruct l as [|w l].
    { exists 1%nat. by intros [|f] Hle; [lia|]. }
    assert (Hl : Forall (fun v => forall r, num_stop r = true -> reads parse_value depth (json_print v +:+ r) v r) (w :: l)).
    { apply Forall_forall. intros x Hx r' Hr'. rewrite Forall_forall in IH. apply IH; [done| |done].
      by eapply forallb_forall in Hok; [|by apply list_elem_of_In]. }
    cbn [json_print]. rewrite !string_app_assoc, app_cons, app_empty_l.
    destruct (Join_print_head json_print w l "," ("]" +:+ r)) as (a & t & Heq & Ha).
    { apply (json_print_head depth). cbn [forallb] in Hok. by apply andb_true_iff in Hok as [Hw _]. }
    apply (reads_arr _ _ a t); [done..|]. by apply print_reads_arr.
  - destruct depth as [|depth]; [done|]. cbn [json_ok] in Hok. destruct fields as [|[k w] fields].
    { exists 1%nat. by intros [|f] Hle; [lia|]. }
    assert (Hl : Forall (fun kv => ValidString kv.1 = true /\
      forall r, num_stop r = true -> reads parse_value depth (json_print kv.2 +:+ r) kv.2 r) ((k, w) :: fields)).
    { apply Forall_forall. intros x Hx. eapply forallb_forall in Hok; [|by apply list_elem_of_In].
      apply andb_true_iff in Hok as [Hk Hv]. split; [done|]. intros r' Hr'. rewrite Forall_forall in IH.
      by apply IH. }
    cbn [json_print]. fold print_member. rewrite !string_app_assoc, app_cons, app_empty_l.
    destruct (Join_print_head print_member (k, w) fields "," ("}" +:+ r)) as (a & t & Heq & Ha); [by eexists _, _|].
    apply (reads_obj _ _ a t); [done..|]. by apply print_reads_obj.
Qed.

Lemma json_parse_fuel s fuel :
  (json_fuel s <= fuel)%nat ->
  parse_value (json_fuel s) maxNestingDepth s <> PFuel /\
  parse_value fuel maxNestingDepth s = parse_value (json_fuel s) maxNestingDepth s.
Proof.
  intros Hle. assert (Hne : parse_value (json_fuel s) maxNestingDepth s <> PFuel).
  { apply parse_fuel_enough. unfold json_fuel. lia. }
  split; [done|]. by apply (parse_settled _ _ Hle).
Qed.

Lemma json_parse_print v : json_ok maxNestingDepth v = true -> json_parse (json_print v) = Some v.
Proof.
  intros Hok. destruct (print_reads v maxNestingDepth "" Hok eq_refl) as [f Hf].
  rewrite app_empty_r in Hf. unfold json_parse.
  destruct (json_parse_fuel (json_print v) (max f (json_fuel (json_print v))) ltac:(lia)) as [_ <-].
  by rewrite Hf by lia.
Qed.

(** Parsing terminates: the fuel [json_parse] starts with (two units per byte)
    never runs out and more of it changes nothing, so every text is either a value
    or a syntax error. *)
Theorem json_parse_total (s : string) (fuel : nat) :
  (json_fuel s <= fuel)%nat ->
  parse_value (json_fuel s) maxNestingDepth s <> PFuel /\
  parse_value fuel maxNestingDepth s = parse_value (json_fuel s) maxNestingDepth s.
Proof. apply json_parse_fuel. Qed.

Lemma json_parse_total_witness :
  parse_value 1000 maxNestingDepth "[[1, {}], true" = parse_value (json_fuel "[[1, {}], true") maxNestingDepth "[[1, {}], true".
Proof. apply (json_parse_total "[[1, {}], true" 1000). vm_compute. lia. Defined.

(** What [json.Marshal] writes is read back: every value with valid UTF-8
    strings, number literals and at most 10000 nested containers, printed with all
    escapes (quotes, control bytes, HTML characters, line separators), parses to
    itself. *)
Theorem json_roundtrip (v : json) :
  json_ok maxNestingDepth v = true -> json_parse (json_print v) = Some v.
Proof. apply json_parse_print. Qed.

Lemma json_roundtrip_witness :
  json_parse (json_print (JObj [("<a>", JArr [JNum "-1.5e+7"; JStr (EncodeRune 8232 +:+ EncodeRune 128512)])])) =
  Some (JObj [("<a>", JArr [JNum "-1.5e+7"; JStr (EncodeRune 8232 +:+ EncodeRune 128512)])]).
Proof.
  apply (json_roundtrip (JObj [("<a>", JArr [JNum "-1.5e+7"; JStr (EncodeRune 8232 +:+ EncodeRune 128512)])])).
  vm_compute. reflexivity.
Defined.
