(* ===== verification/JsonDecode.v ===== *)
(** * Decoding JSON into Go values ([json.Unmarshal])

    A decoder takes the current value, as [Unmarshal] does: a null leaves most
    values alone, and a repeated key decodes into what the earlier one left.
    [None] is an [UnmarshalTypeError]; the callers drop what was decoded then. *)
From S2P Require Import Prelude GoLib GoJson JsonParse.

Definition decoder (A : Type) : Type := json -> A -> option A.

Definition dec_string : decoder string := fun j cur =>
  match j with JNull => Some cur | JStr s => Some s | _ => None end.

(** An [int]: the literal must be an integer in range. *)
Definition dec_int : decoder Z := fun j cur =>
  match j with JNull => Some cur | JNum lit => Atoi lit | _ => None end.

Definition dec_bool : decoder bool := fun j cur =>
  match j with JNull => Some cur | JBool b => Some b | _ => None end.

(** A [json.RawMessage]; nil is [None]. *)
Definition dec_raw : decoder (option json) := fun j _ => Some (Some j).

(** A pointer to an empty struct. *)
Definition dec_present : decoder bool := fun j _ =>
  match j with JNull => Some false | JObj _ => Some true | _ => None end.

(** A slice: its elements are decoded over those it had. *)
Fixpoint dec_elems {A} (dec : decoder A) (zero : A) (js : list json) (cur : list A) : option (list A) :=
  match js with
  | [] => Some []
  | j :: js' =>
      let old := default zero (head cur) in
      x ← dec j old; rest ← dec_elems dec zero js' (tail cur); Some (x :: rest)
  end.

Definition dec_slice {A} (dec : decoder A) (zero : A) : decoder (list A) := fun j cur =>
  match j with JNull => Some [] | JArr js => dec_elems dec zero js cur | _ => None end.

(** A struct: a key selects the field of that name, or else the one whose name is
    equal under case folding; other keys are skipped. *)
Definition field (A : Type) : Type := string * decoder A.

Definition find_field {A} (fields : list (field A)) (key : string) : option (field A) :=
  match list_find (fun f : field A => f.1 = key) fields with
  | Some (_, f) => Some f
  | None => snd <$> list_find (fun f : field A => fold_name f.1 = fold_name key) fields
  end.

Fixpoint dec_members {A} (fields : list (field A)) (kvs : list (string * json)) (cur : A) : option A :=
  match kvs with
  | [] => Some cur
  | (k, v) :: kvs' =>
      match find_field fields k with
      | Some f => cur ← f.2 v cur; dec_members fields kvs' cur
      | None => dec_members fields kvs' cur
      end
  end.

Definition dec_struct {A} (fields : list (field A)) : decoder A := fun j cur =>
  match j with JNull => Some cur | JObj kvs => dec_members fields kvs cur | _ => None end.

(** A field of [A] through its getter and setter. *)
Definition sub {A B} (get : A -> B) (set : B -> A -> A) (dec : decoder B) : decoder A := fun j a =>
  b ← dec j (get a); Some (set b a).

(** [json.Unmarshal] of a text into the zero value. *)
Definition Unmarshal {A} (dec : decoder A) (zero : A) (body : string) : option A :=
  j ← json_parse body; dec j zero.

(** The same of a [json.RawMessage]: a nil one is the empty text. *)
Definition Unmarshal_raw {A} (dec : decoder A) (zero : A) (raw : option json) : option A :=
  j ← raw; dec j zero.

(** ** [json.Marshal] of a map: the keys in byte order. *)
Definition json_map (m : gmap string json) : json :=
  JObj ((fun k => (k, default JNull (m !! k))) <$> sort_Strings (elements (dom m))).

Definition json_strings (l : list string) : json := JArr (JStr <$> l).

(** ** Laws *)

(** A slice of strings is read back from what was written. *)
Lemma dec_strings l : dec_slice dec_string "" (json_strings l) [] = Some l.
Proof.
  unfold json_strings, dec_slice. induction l as [|x l IH]; [done|].
  rewrite fmap_cons. cbn [dec_elems head tail default dec_string mbind option_bind]. by rewrite IH.
Qed.

(** A body that was printed decodes as the value itself. *)
Lemma Unmarshal_print {A} (dec : decoder A) zero v :
  json_ok maxNestingDepth v = true -> Unmarshal dec zero (json_print v) = dec v zero.
Proof. intros Hok. unfold Unmarshal. by rewrite json_parse_print. Qed.

Lemma json_map_singleton k v : json_map {[ k := v ]} = JObj [(k, v)].
Proof. unfold json_map. rewrite dom_singleton_L, elements_singleton. cbn. by rewrite lookup_singleton_eq. Qed.
