(* ===== verification/CacheServer.v ===== *)
(** * The HTTP server of the RuleSet cache ([internal/rulesets/cache/server.go])

    Requests are handled one by one: [handleRules] authenticates, then reads the
    cache.  [gc_tick] is one round of the garbage-collection loop [rungc].  The
    renderings of a [time.Time] depend on the local time zone and are arguments
    of the section.  [CacheLifecycle] adds the goroutines; logging is left out. *)
From S2P Require Import Prelude GoLib GoErrors GoJson RulesetCache RulesetCacheSpec TokenAuth.

Definition CacheGCInterval : Z := 5 * Minute.
Definition CacheMaxAge : Z := 24 * Hour.
Definition CacheMaxSize : Z := 100 * 1024 * 1024.

Record GarbageCollectionConfig := {
  GCInterval : Z;
  MaxAge : Z;
  MaxSize : Z
}.
#[export] Instance GarbageCollectionConfig_eq_dec : EqDecision GarbageCollectionConfig.
Proof. solve_decision. Defined.

Definition DefaultGC : GarbageCollectionConfig :=
  {| GCInterval := CacheGCInterval; MaxAge := CacheMaxAge; MaxSize := CacheMaxSize |}.

Record ruleSetCacheServer := {
  srv_cache : RuleSetCache;
  srv_auth : TokenAuthenticator;
  srv_gc : GarbageCollectionConfig
}.

Definition NewServer (c : RuleSetCache) (gc : option GarbageCollectionConfig) : ruleSetCacheServer :=
  {| srv_cache := c; srv_auth := NewTokenAuthenticator; srv_gc := default DefaultGC gc |}.

(** ** Requests and responses *)

Record Request := {
  Method : string;
  Path : string;
  (** [r.Header.Get("Authorization")], empty when absent *)
  Authorization : string
}.

Record Response := {
  StatusCode : Z;
  ContentType : string;
  Body : string
}.

Definition StatusOK : Z := 200.
Definition StatusBadRequest : Z := 400.
Definition StatusForbidden : Z := 403.
Definition StatusNotFound : Z := 404.
Definition StatusMethodNotAllowed : Z := 405.
Definition StatusInternalServerError : Z := 500.

Definition newline : string := String (ascii_of_N 10) "".

(** [http.Error]. *)
Definition http_Error (msg : string) (code : Z) : Response :=
  {| StatusCode := code; ContentType := "text/plain; charset=utf-8"; Body := msg +:+ newline |}.
Definition json_response (body : string) : Response :=
  {| StatusCode := StatusOK; ContentType := "application/json"; Body := body |}.

Record LatestResponse := {
  lr_UUID : string;
  lr_Timestamp : string
}.

Definition take_bytes (n : nat) (s : string) : string := String.substring 0 n s.
Definition drop_bytes (n : nat) (s : string) : string := String.substring n (String.length s - n) s.

Definition bearerPrefix : string := "Bearer ".

Definition extractBearerToken (r : Request) : string :=
  let auth := Authorization r in
  if (len bearerPrefix <? len auth) && EqualFold (take_bytes 7 auth) bearerPrefix
  then drop_bytes 7 auth else "".

(** ** Handlers *)

Section handlers.
(** [entry.Timestamp.Format(time.RFC3339Nano)] and [Time.MarshalJSON]. *)
Context (format_time : Z -> string) (marshal_time : Z -> gerror + string).

(** [json.NewEncoder(&buf).Encode], which ends the text with a newline. *)
Definition encode_latest (response : LatestResponse) : string :=
  json_object [("uuid", json_string (lr_UUID response));
               ("timestamp", json_string (lr_Timestamp response))] +:+ newline.

Definition encode_entry (e : RuleSetEntry) : gerror + string :=
  ts ← marshal_time (Timestamp e);
  let files := match DataFiles e with
               | Some m => if bool_decide (m = ∅) then [] else [("dataFiles", json_bytes_map m)]
               | None => []
               end in
  inr (json_object ([("uuid", json_string (UUID e)); ("timestamp", ts);
                     ("rules", json_string (Rules e))] ++ files) +:+ newline).

Definition handleLatest (s : ruleSetCacheServer) (cacheKey : string) : Response :=
  match Get (srv_cache s) cacheKey with
  | None => http_Error "RuleSet not found" StatusNotFound
  | Some entry =>
      json_response (encode_latest {| lr_UUID := UUID entry;
                                      lr_Timestamp := format_time (Timestamp entry) |})
  end.

Definition handleGetRules (s : ruleSetCacheServer) (cacheKey : string) : Response :=
  match Get (srv_cache s) cacheKey with
  | None => http_Error "RuleSet not found" StatusNotFound
  | Some entry =>
      match encode_entry entry with
      | inl _ => http_Error "Internal server error" StatusInternalServerError
      | inr buf => json_response buf
      end
  end.

(** [authenticateRequest], with the API server's answers [review]. *)
Definition authenticateRequest (review : string -> list string -> gerror + TokenReviewStatus)
    (env : auth_env) (r : Request) (cacheKey : string) (s : ruleSetCacheServer) :
    ruleSetCacheServer * (gerror + unit) :=
  let token := extractBearerToken r in
  if String.eqb token "" then (s, inl (ErrText "missing bearer token")) else
  let '(a, res) := Authenticate review env token (Audience cacheKey) (srv_auth s) in
  let s := {| srv_cache := srv_cache s; srv_auth := a; srv_gc := srv_gc s |} in
  match res with
  | inl err => (s, inl err)
  | inr res =>
      match Cut cacheKey "/" with
      | None => (s, inl (ErrText ("invalid cache key format: " +:+ cacheKey)))
      | Some (keyNS, _) =>
          if negb (String.eqb (Namespace res) keyNS) then
            (s, inl (ErrText ("service account namespace " +:+ Namespace res +:+
                              " does not match cache key namespace " +:+ keyNS)))
          else (s, inr tt)
      end
  end.

(** The cache key of a path and whether the latest metadata is asked for. *)
Definition route (path : string) : string * bool :=
  match CutSuffix path "/latest" with
  | Some stripped => (stripped, true)
  | None => (path, false)
  end.

Definition handleRules (review : string -> list string -> gerror + TokenReviewStatus)
    (env : auth_env) (r : Request) (s : ruleSetCacheServer) : ruleSetCacheServer * Response :=
  if negb (String.eqb (Method r) "GET") then (s, http_Error "Method not allowed" StatusMethodNotAllowed)
  else
    let path := TrimPrefix (Path r) "/rules/" in
    if String.eqb path "" then (s, http_Error "RuleSet key required" StatusBadRequest)
    else
      let '(cacheKey, isLatest) := route path in
      let '(s, auth) := authenticateRequest review env r cacheKey s in
      match auth with
      | inl _ => (s, http_Error "Forbidden" StatusForbidden)
      | inr _ => (s, if isLatest : bool then handleLatest s cacheKey else handleGetRules s cacheKey)
      end.
End handlers.

(** ** Garbage collection *)

(** The counters [gcPrunedEntriesTotal] (by reason) and [gcSizeLimitExceededTotal]. *)
Record gc_metrics := {
  prunedByAgeTotal : Z;
  prunedBySizeTotal : Z;
  sizeLimitExceededTotal : Z
}.

(** One tick of [rungc]: [now] and the two map iteration orders are what
    [Prune] and [PruneBySize] meet. *)
Definition gc_tick (gc : GarbageCollectionConfig) (now : Z) (order order' : list string)
    (c : RuleSetCache) (k : gc_metrics) : RuleSetCache * gc_metrics :=
  let '(c, prunedByAge) := Prune order now (MaxAge gc) c in
  let k := if 0 <? prunedByAge then
    {| prunedByAgeTotal := prunedByAgeTotal k + prunedByAge;
       prunedBySizeTotal := prunedBySizeTotal k;
       sizeLimitExceededTotal := sizeLimitExceededTotal k |} else k in
  let currentSize := TotalSize c in
  if MaxSize gc <? currentSize then
    let '(c, prunedBySize) := PruneBySize order' (MaxSize gc) c in
    let k := if 0 <? prunedBySize then
      {| prunedByAgeTotal := prunedByAgeTotal k;
         prunedBySizeTotal := prunedBySizeTotal k + prunedBySize;
         sizeLimitExceededTotal := sizeLimitExceededTotal k |} else k in
    let finalSize := TotalSize c in
    (c, if MaxSize gc <? finalSize then
      {| prunedByAgeTotal := prunedByAgeTotal k;
         prunedBySizeTotal := prunedBySizeTotal k;
         sizeLimitExceededTotal := sizeLimitExceededTotal k + 1 |} else k)
  else (c, k).

(** ** Histories of the server

    Between two requests the controllers publish and the collector prunes. *)
Record exchange := {
  x_ops : list cache_op;
  x_review : string -> list string -> gerror + TokenReviewStatus;
  x_env : auth_env;
  x_req : Request
}.

Definition publish (ops : list cache_op) (s : ruleSetCacheServer) : ruleSetCacheServer :=
  {| srv_cache := run_ops ops (srv_cache s); srv_auth := srv_auth s; srv_gc := srv_gc s |}.

Section histories.
Context (format_time : Z -> string) (marshal_time : Z -> gerror + string).

Definition exec_exchange (x : exchange) (s : ruleSetCacheServer) : ruleSetCacheServer * Response :=
  handleRules format_time marshal_time (x_review x) (x_env x) (x_req x) (publish (x_ops x) s).

Fixpoint run_exchanges (l : list exchange) (s : ruleSetCacheServer) : ruleSetCacheServer :=
  match l with [] => s | x :: l' => run_exchanges l' (exec_exchange x s).1 end.
End histories.

Definition requestKey (r : Request) : string := (route (TrimPrefix (Path r) "/rules/")).1.
Definition history_ops (l : list exchange) : list cache_op := concat (x_ops <$> l).

(** The API server accepted this token for this audience in exchange [x]. *)
Definition vouches (x : exchange) (token audience : string) (r : AuthResult) : Prop :=
  reviewed (fun t a answer => x_review x t a = answer) token audience r.

(** ** Lemmas *)

(** *** Responses *)

Section responses.
Context (format_time : Z -> string) (marshal_time : Z -> gerror + string).
Implicit Types s : ruleSetCacheServer.

Lemma authenticateRequest_cache review env r key s :
  srv_cache (authenticateRequest review env r key s).1 = srv_cache s /\
  srv_gc (authenticateRequest review env r key s).1 = srv_gc s.
Proof. unfold authenticateRequest. repeat (case_match; simplify_eq/=); done. Qed.

Lemma handleRules_cache review env r s :
  srv_cache (handleRules format_time marshal_time review env r s).1 = srv_cache s.
Proof.
  unfold handleRules. repeat case_match; simplify_eq/=; try done;
    match goal with E : authenticateRequest review env r ?k s = _ |- _ =>
      pose proof (authenticateRequest_cache review env r k s) as [Hc _]; by rewrite E in Hc end.
Qed.

(** What is served for a key once the request is authorised. *)
Definition serve (isLatest : bool) (entry : RuleSetEntry) : gerror + string :=
  if isLatest then
    inr (encode_latest {| lr_UUID := UUID entry; lr_Timestamp := format_time (Timestamp entry) |})
  else encode_entry marshal_time entry.

Lemma handleRules_ok review env r s :
  StatusCode (handleRules format_time marshal_time review env r s).2 = StatusOK <->
  Method r = "GET" /\ TrimPrefix (Path r) "/rules/" <> "" /\
  (authenticateRequest review env r (requestKey r) s).2 = inr tt /\
  exists entry body, Get (srv_cache s) (requestKey r) = Some entry /\
    serve (route (TrimPrefix (Path r) "/rules/")).2 entry = inr body /\
    (handleRules format_time marshal_time review env r s).2 = json_response body.
Proof.
  unfold handleRules, requestKey. set (path := TrimPrefix _ _).
  destruct (String.eqb_spec (Method r) "GET") as [Hm|Hm]; simpl;
    [|split; [intros Hc; discriminate Hc|by intros (? & _)]].
  destruct (String.eqb_spec path "") as [Hp|Hp]; simpl;
    [split; [intros Hc; discriminate Hc|by intros (_ & ? & _)]|].
  destruct (route path) as [key latest]; simpl.
  pose proof (authenticateRequest_cache review env r key s) as [Hc _].
  destruct (authenticateRequest review env r key s) as [s' [err|[]]]; simpl in *;
    [split; [intros Hs; discriminate Hs|by intros (_ & _ & ? & _)]|].
  unfold handleLatest, handleGetRules, serve. rewrite Hc.
  destruct (Get _ key) as [entry|].
  2: { split; [destruct latest; intros Hs; discriminate Hs|by intros (_ & _ & _ & ? & ? & ? & _)]. }
  destruct latest; [|destruct (encode_entry _ entry) eqn:He].
  - split; [eauto 10|done].
  - split; [intros Hs; discriminate Hs|]. intros (_ & _ & _ & ? & ? & ? & ? & ?). simplify_eq/=.
  - split; [eauto 10|done].
Qed.
End responses.

(** *** Histories *)

Lemma run_ops_app ops ops' c : run_ops (ops ++ ops') c = run_ops ops' (run_ops ops c).
Proof. revert c. induction ops as [|op ops IH]; intros c; simpl; auto. Qed.

Lemma run_allowed_app ops ops' c : run_allowed (ops ++ ops') c -> run_allowed ops c.
Proof. revert c. induction ops as [|op ops IH]; intros c; simpl; naive_solver. Qed.

Lemma history_ops_app l l' : history_ops (l ++ l') = history_ops l ++ history_ops l'.
Proof. unfold history_ops. by rewrite fmap_app, concat_app. Qed.

Lemma run_exchanges_cache ft mt l s :
  srv_cache (run_exchanges ft mt l s) = run_ops (history_ops l) (srv_cache s).
Proof.
  revert s. induction l as [|x l IH]; intros s; simpl; [done|].
  rewrite IH. unfold exec_exchange. rewrite handleRules_cache. simpl.
  change (history_ops (x :: l)) with (x_ops x ++ history_ops l). by rewrite run_ops_app.
Qed.

(** One call of [Authenticate]: what it caches and what it accepts stem from an
    earlier review or from its own. *)
Lemma Authenticate_backed log review env token audience a :
  cache_backed log a ->
  let '(a', res) := Authenticate review env token audience a in
  cacheTTL a' = cacheTTL a /\
  (cache_backed log a' /\
   (match res with
    | inl _ => True
    | inr r => exists now0 tok aud, (now0, tok, aud, r) ∈ log /\
        auth_key token audience = auth_key tok aud /\ t_lookup env < now0 + cacheTTL a
    end) \/
   exists r, res = inr r /\ reviewed (fun t au ans => review t au = ans) token audience r /\
     cache_backed ((t_store env, token, audience, r) :: log) a').
Proof.
  intros Hb. unfold Authenticate. set (key := auth_key token audience).
  assert (forall b, cacheTTL b = cacheTTL a -> cache_backed log b ->
    forall r, auth_review (review token [audience]) = inr r ->
    let b' := auth_store (t_store env) (t_evict env) (evict_order env) key r b in
    cacheTTL b' = cacheTTL a /\ reviewed (fun t au ans => review t au = ans) token audience r /\
     cache_backed ((t_store env, token, audience, r) :: log) b') as Hstore.
  { intros b Ht Hbb r Hr b'. unfold b'. rewrite auth_store_TTL. split; [done|].
    destruct (auth_review_inr _ _ Hr) as (status & Hs & ? & ?).
    split; [by exists status|]. apply auth_store_backed; [by constructor|by apply cache_backed_log]. }
  destruct (auth_lookup _ key a) as [r| |] eqn:Hl.
  - split; [done|]. left. split; [done|].
    destruct (auth_lookup_hit _ _ _ _ _ Hb Hl) as (n0 & t0 & a0 & ? & ? & ?). eauto 10.
  - destruct (auth_review _) as [err|r] eqn:Hr.
    + split; [apply auth_remove_TTL|]. left. split; [by apply auth_remove_backed|done].
    + destruct (Hstore (auth_remove key a) (auth_remove_TTL key a) (auth_remove_backed _ _ _ Hb) r eq_refl)
        as (? & ? & ?). eauto 10.
  - destruct (auth_review _) as [err|r] eqn:Hr; [by eauto|].
    destruct (Hstore a eq_refl Hb r eq_refl) as (? & ? & ?). eauto 10.
Qed.

(** Every logged review was made in an exchange of the history. *)
Definition log_of (hist : list exchange) (log : list (Z * string * string * AuthResult)) : Prop :=
  forall now token audience r, (now, token, audience, r) ∈ log ->
    exists x, x ∈ hist /\ now = t_store (x_env x) /\ vouches x token audience r.

Definition auth_from (hist : list exchange) (a : TokenAuthenticator) : Prop :=
  cacheTTL a = defaultAuthCacheTTL /\ exists log, log_of hist log /\ cache_backed log a.

Lemma log_of_mono hist hist' log : hist ⊆ hist' -> log_of hist log -> log_of hist' log.
Proof. intros Hs Hl now t a r Hin. destruct (Hl _ _ _ _ Hin) as (x & ? & ?). eauto. Qed.

Lemma log_of_cons hist log x token audience r :
  x ∈ hist -> vouches x token audience r -> log_of hist log ->
  log_of hist ((t_store (x_env x), token, audience, r) :: log).
Proof.
  intros Hx Hv Hl now t a r' [?|Hin]%elem_of_cons; [simplify_eq; eauto|by apply Hl].
Qed.

(** Authentication of one request, and where the acceptance comes from. *)
Lemma authenticateRequest_from x s hist :
  auth_from hist (srv_auth s) ->
  let key := requestKey (x_req x) in
  let token := extractBearerToken (x_req x) in
  let '(s', res) := authenticateRequest (x_review x) (x_env x) (x_req x) key s in
  auth_from (hist ++ [x]) (srv_auth s') /\
  (res = inr tt ->
   exists r rest y tok aud, key = Namespace r +:+ String "/" rest /\ y ∈ hist ++ [x] /\
     vouches y tok aud r /\ auth_key token (Audience key) = auth_key tok aud /\
     (y = x \/ t_lookup (x_env x) < t_store (x_env y) + defaultAuthCacheTTL)).
Proof.
  intros [Ht (log & Hl & Hb)] key token.
  assert (log_of (hist ++ [x]) log) as Hl' by (eapply log_of_mono; [|done]; set_solver).
  assert (x ∈ hist ++ [x]) as Hx by set_solver.
  unfold authenticateRequest. fold token. destruct (String.eqb_spec token "") as [Htok|Htok]; simpl.
  { split; [|by intros ?]. split; eauto. }
  pose proof (Authenticate_backed log (x_review x) (x_env x) token (Audience key) (srv_auth s) Hb) as HA.
  destruct (Authenticate _ _ _ _ _) as [a res]. destruct HA as [Hta HA].
  assert (auth_from (hist ++ [x]) a /\
    (forall r, res = inr r -> exists y tok aud, y ∈ hist ++ [x] /\ vouches y tok aud r /\
      auth_key token (Audience key) = auth_key tok aud /\
      (y = x \/ t_lookup (x_env x) < t_store (x_env y) + defaultAuthCacheTTL))) as [Hfrom Hres].
  { unfold auth_from. rewrite Hta. destruct HA as [[Hb' Hr]|(r & -> & Hrev & Hb')].
    - split; [eauto|]. intros r ->. destruct Hr as (n0 & tok & aud & Hin & Hk & Hlt).
      destruct (Hl' _ _ _ _ Hin) as (y & Hy & -> & Hv). rewrite Ht in Hlt. eauto 10.
    - split; [split; [done|eexists; split; [|exact Hb']; by apply log_of_cons]|].
      intros r' ?; simplify_eq. exists x, token, (Audience key). eauto. }
  destruct res as [err|r]; [by split|].
  destruct (Cut key "/") as [[ns rest]|] eqn:Hc; [|by split].
  destruct (String.eqb_spec (Namespace r) ns) as [Hns|]; simpl; [|by split].
  split; [done|]. intros _. destruct (Hres r eq_refl) as (y & tok & aud & ? & ? & ? & ?).
  exists r, rest, y, tok, aud. split; [|done]. apply Cut_byte in Hc as [-> _]. by rewrite Hns.
Qed.

Lemma exec_exchange_from ft mt x s hist :
  auth_from hist (srv_auth s) -> auth_from (hist ++ [x]) (srv_auth (exec_exchange ft mt x s).1).
Proof.
  intros [Ht (log & Hl & Hb)].
  assert (auth_from (hist ++ [x]) (srv_auth s)) as Hmono.
  { split; [done|]. exists log. split; [|done]. eapply log_of_mono; [|done]. set_solver. }
  unfold exec_exchange, handleRules.
  destruct (negb _); [exact Hmono|]. destruct (String.eqb _ ""); [exact Hmono|].
  destruct (route _) as [key latest] eqn:Hr.
  pose proof (authenticateRequest_from x (publish (x_ops x) s) hist) as Ha.
  unfold requestKey in Ha. rewrite Hr in Ha. simpl in Ha.
  destruct (authenticateRequest _ _ _ _ _) as [s' res].
  destruct Ha as [Ha _]; [split; eauto|]. destruct res; done.
Qed.

Lemma run_exchanges_from ft mt l s hist :
  auth_from hist (srv_auth s) -> auth_from (hist ++ l) (srv_auth (run_exchanges ft mt l s)).
Proof.
  revert s hist. induction l as [|x l IH]; intros s hist Hs; simpl; [by rewrite app_nil_r|].
  rewrite cons_middle, app_assoc. apply IH. by apply exec_exchange_from.
Qed.

Lemma NewServer_from c gc : auth_from [] (srv_auth (NewServer c gc)).
Proof.
  split; [done|]. exists []. split.
  - intros ???? Hin. by apply not_elem_of_nil in Hin.
  - intros k entry Hk. cbn in Hk. by rewrite lookup_empty in Hk.
Qed.

(** An exchange answered with 200: who is served, and what. *)
Lemma exchange_ok (format_time : Z -> string) (marshal_time : Z -> gerror + string)
    (gc : option GarbageCollectionConfig) (hist : list exchange) (x : exchange) :
  (forall y token audiences status, y ∈ hist ++ [x] ->
     x_review y token audiences = inr status -> byte_in ":" token = false) ->
  run_allowed (history_ops (hist ++ [x])) NewRuleSetCache ->
  let s := run_exchanges format_time marshal_time hist (NewServer NewRuleSetCache gc) in
  let resp := (exec_exchange format_time marshal_time x s).2 in
  let key := requestKey (x_req x) in
  let token := extractBearerToken (x_req x) in
  byte_in ":" token = false -> StatusCode resp = StatusOK ->
  Method (x_req x) = "GET" /\
  (exists y ns rest name status, key = ns +:+ String "/" rest /\ y ∈ hist ++ [x] /\
     (y = x \/ t_lookup (x_env x) < t_store (x_env y) + defaultAuthCacheTTL) /\
     x_review y token [Audience key] = inr status /\ Authenticated status = true /\
     Username status = serviceAccountPrefix +:+ ns +:+ ":" +:+ name) /\
  (exists entry body, run_spec (history_ops (hist ++ [x])) ∅ !! key = Some entry /\
     serve format_time marshal_time (route (TrimPrefix (Path (x_req x)) "/rules/")).2 entry = inr body /\
     resp = json_response body).
Proof.
  intros Hjwt Hops s resp key token Htok [Hm (_ & Hauth & entry & body & Hget & Hserve & Hresp)]%handleRules_ok.
  split; [done|]. split.
  - pose proof (authenticateRequest_from x (publish (x_ops x) s) hist) as Ha. simpl in Ha.
    destruct (authenticateRequest _ _ _ _ _) as [s' res]; simpl in Hauth; subst res.
    destruct Ha as [_ Ha].
    { apply (run_exchanges_from _ _ hist _ []), NewServer_from. }
    destruct (Ha eq_refl) as (r & rest & y & tok & aud & Hk & Hy & (status & Hst & Hau & Hu) & Heq & Hlt).
    apply auth_key_inj in Heq as [<- <-]; [|done|by eapply Hjwt].
    apply parse_username_spec in Hu as [Hu _]. eauto 15.
  - exists entry, body. split_and!; [|done|done].
    assert (srv_cache (publish (x_ops x) s) = run_ops (history_ops (hist ++ [x])) NewRuleSetCache) as Hc.
    { unfold s. simpl. rewrite run_exchanges_cache, history_ops_app, run_ops_app. simpl.
      unfold history_ops at 2. simpl. by rewrite app_nil_r. }
    rewrite Hc, Get_newest in Hget by auto using run_ops_wf, NewRuleSetCache_wf.
    by rewrite run_ops_abs in Hget by auto using NewRuleSetCache_wf.
Qed.

(** ** The properties *)

(** End-to-end guarantee of the cache server. Whatever was published,
    collected and requested before, a request answered with 200 is a GET whose
    bearer token the API server accepted, in this exchange or in one less than
    the authentication TTL earlier, for exactly the audience of the requested
    RuleSet and for a ServiceAccount of the RuleSet's namespace; and the body is
    the encoding of the revision published last for it.  (JWTs hold no colon;
    the API server accepts no other token.) *)
Theorem server_end_to_end (format_time : Z -> string) (marshal_time : Z -> gerror + string)
    (gc : option GarbageCollectionConfig) (hist : list exchange) (x : exchange) :
  (forall y token audiences status, y ∈ hist ++ [x] ->
     x_review y token audiences = inr status -> byte_in ":" token = false) ->
  run_allowed (history_ops (hist ++ [x])) NewRuleSetCache ->
  let s := run_exchanges format_time marshal_time hist (NewServer NewRuleSetCache gc) in
  let resp := (exec_exchange format_time marshal_time x s).2 in
  let key := requestKey (x_req x) in
  let token := extractBearerToken (x_req x) in
  byte_in ":" token = false -> StatusCode resp = StatusOK ->
  Method (x_req x) = "GET" /\
  (exists y ns rest name status, key = ns +:+ String "/" rest /\ y ∈ hist ++ [x] /\
     (y = x \/ t_lookup (x_env x) < t_store (x_env y) + defaultAuthCacheTTL) /\
     x_review y token [Audience key] = inr status /\ Authenticated status = true /\
     Username status = serviceAccountPrefix +:+ ns +:+ ":" +:+ name) /\
  (exists entry body, run_spec (history_ops (hist ++ [x])) ∅ !! key = Some entry /\
     serve format_time marshal_time (route (TrimPrefix (Path (x_req x)) "/rules/")).2 entry = inr body /\
     resp = json_response body).
Proof. apply exchange_ok. Qed.

Definition sample_request (path : string) : Request :=
  {| Method := "GET"; Path := path; Authorization := "bearer jwt" |}.
Definition jwt_reviewer (token : string) (_ : list string) : gerror + TokenReviewStatus :=
  if String.eqb token "jwt" then inr sample_status else inl (ErrText "invalid token").

(** A first request is reviewed by the API server; the second one meets the
    result cache. *)
Definition sample_first : exchange :=
  {| x_ops := [OpPut "u1" 1 "ns/rs" "SecRuleEngine On" None]; x_review := jwt_reviewer;
     x_env := sample_env 5; x_req := sample_request "/rules/ns/rs/latest" |}.
Definition sample_second : exchange :=
  {| x_ops := [OpPut "u2" 6 "ns/rs" "SecRuleEngine Off" None]; x_review := refusing_reviewer;
     x_env := sample_env 9; x_req := sample_request "/rules/ns/rs" |}.

Definition sample_marshal (t : Z) : gerror + string := inr (json_string (Itoa t)).

Theorem server_end_to_end_witness :
  let s := run_exchanges Itoa sample_marshal [sample_first] (NewServer NewRuleSetCache None) in
  let resp := (exec_exchange Itoa sample_marshal sample_second s).2 in
  StatusCode resp = StatusOK /\
  (exists entry body, run_spec (history_ops [sample_first; sample_second]) ∅ !! "ns/rs" = Some entry /\
     serve Itoa sample_marshal false entry = inr body /\ resp = json_response body).
Proof.
  split; [vm_compute; reflexivity|].
  apply (server_end_to_end Itoa sample_marshal None [sample_first] sample_second).
  - intros y token audiences status Hy Hr.
    apply elem_of_cons in Hy as [->|Hy]; [|apply elem_of_cons in Hy as [->|Hy]];
      [| |by apply not_elem_of_nil in Hy]; simpl in Hr.
    + unfold jwt_reviewer in Hr. destruct (String.eqb_spec token "jwt"); [by subst|done].
    + done.
  - apply (bool_decide_unpack _). vm_compute. exact I.
  - vm_compute. reflexivity.
  - vm_compute. reflexivity.
Defined.


Lemma gc_tick_cache gc now order order' c k :
  (gc_tick gc now order order' c k).1 =
    (PruneBySize order' (MaxSize gc) (Prune order now (MaxAge gc) c).1).1.
Proof.
  unfold gc_tick, TotalSize. destruct (Prune _ _ _ _) as [c1 n1]; simpl.
  destruct (Z.ltb_spec (MaxSize gc) (totalSize c1)) as [Hs|Hs].
  - by destruct (PruneBySize _ _ c1).
  - unfold PruneBySize. by rewrite (proj2 (Z.leb_le _ _) Hs).
Qed.

Lemma payload_int64 m m' : map_pruned m m' -> in_int64 (map_payload m) -> in_int64 (map_payload m').
Proof.
  intros Hp%map_pruned_payload. pose proof (map_payload_nonneg m').
  unfold in_int64, int64_min, int64_max in *. lia.
Qed.

Lemma gc_tick_alarm gc now order order' c k :
  let '(c', k') := gc_tick gc now order order' c k in
  cache_wf c' -> in_int64 (map_payload (entries c')) ->
  sizeLimitExceededTotal k' =
    sizeLimitExceededTotal k + (if MaxSize gc <? map_payload (entries c') then 1 else 0).
Proof.
  unfold gc_tick, TotalSize. destruct (Prune _ _ _ c) as [c1 n1].
  destruct (Z.ltb_spec (MaxSize gc) (totalSize c1)) as [Hs|Hs].
  - destruct (PruneBySize _ _ c1) as [c2 n2]. intros Hw Hi.
    rewrite (wf_size _ Hw), wrap64_small by done.
    destruct (MaxSize gc <? map_payload (entries c2)), (0 <? n1), (0 <? n2); simpl; lia.
  - intros Hw Hi. rewrite (wf_size _ Hw), wrap64_small in Hs by done.
    rewrite (proj2 (Z.ltb_ge _ _) Hs). destruct (0 <? n1); simpl; lia.
Qed.

Lemma Get_pruned c c' i :
  cache_wf c -> cache_wf c' -> map_pruned (entries c) (entries c') -> Get c' i = Get c i.
Proof.
  intros Hw Hw' Hp. rewrite !Get_newest by done. unfold abs_cache.
  by rewrite (map_pruned_abs _ _ (wf_entries _ Hw) Hp).
Qed.

(** One garbage-collection tick leaves every answer of [Get] unchanged,
    removes every revision older than the maximum age except the latest ones,
    ends within the size limit or with the latest revisions only, and raises
    the alarm counter exactly when the limit is still exceeded. *)
Theorem gc_tick_post (gc : GarbageCollectionConfig) (now : Z) (order order' : list string)
    (c : RuleSetCache) (k : gc_metrics) :
  cache_wf c -> iteration_of c order -> iteration_of (Prune order now (MaxAge gc) c).1 order' ->
  in_int64 (map_payload (entries c)) ->
  let c' := (gc_tick gc now order order' c k).1 in
  let k' := (gc_tick gc now order order' c k).2 in
  cache_wf c' /\
  (forall i, Get c' i = Get c i) /\
  (forall i es e, entries c' !! i = Some es -> e ∈ Entries es ->
     survives_age now (MaxAge gc) (Latest es) e) /\
  (map_payload (entries c') <= MaxSize gc \/
   forall i es, entries c' !! i = Some es -> length (Entries es) = 1%nat) /\
  (sizeLimitExceededTotal k' =
     sizeLimitExceededTotal k + (if MaxSize gc <? map_payload (entries c') then 1 else 0)).
Proof.
  intros Hw Hit Hit' Hi. simpl. pose proof (gc_tick_cache gc now order order' c k) as Hc'.
  pose proof (gc_tick_alarm gc now order order' c k) as Halarm.
  destruct (gc_tick gc now order order' c k) as [c' k']; simpl in Hc'; subst c'.
  pose proof (Prune_pruned order now (MaxAge gc) c) as Hp1.
  pose proof (Prune_wf order now (MaxAge gc) c Hw) as Hw1.
  pose proof (Prune_entries order now (MaxAge gc) c Hit) as He1.
  set (c1 := (Prune _ _ _ c).1) in *.
  pose proof (PruneBySize_pruned order' (MaxSize gc) c1) as Hp2.
  pose proof (PruneBySize_wf order' (MaxSize gc) c1 Hw1) as Hw2.
  pose proof (payload_int64 _ _ Hp1 Hi) as Hi1. pose proof (payload_int64 _ _ Hp2 Hi1) as Hi2.
  split_and!; [done| | |by apply PruneBySize_limit|by apply Halarm].
  - intros i. etrans; [by apply (Get_pruned c1)|by apply Get_pruned].
  - simpl. intros i es e Hes He. specialize (Hp2 i). rewrite Hes, He1, lookup_fmap in Hp2.
    destruct (entries c !! i) as [es0|]; simpl in Hp2; inversion Hp2 as [? ? (Hl & Hsub & _)|]; subst.
    simpl in *. rewrite Hl. pose proof (sublist_subseteq _ _ Hsub e He) as Hin.
    by apply list_elem_of_filter in Hin as [? _].
Qed.

Theorem gc_tick_post_witness :
  let c := run_ops (take 3 sample_ops) NewRuleSetCache in
  let gc := {| GCInterval := 1; MaxAge := 75; MaxSize := 3 |} in
  let k := {| prunedByAgeTotal := 0; prunedBySizeTotal := 0; sizeLimitExceededTotal := 0 |} in
  cache_wf c /\ forall i, Get (gc_tick gc 100 ["ns/a"; "ns/b"] ["ns/b"; "ns/a"] c k).1 i = Get c i.
Proof.
  intros c gc k.
  assert (cache_wf c) as Hw.
  { apply run_ops_wf; [apply (bool_decide_unpack _); vm_compute; exact I|apply NewRuleSetCache_wf]. }
  split; [exact Hw|].
  assert (iteration_of c ["ns/a"; "ns/b"]) as Ho by (apply (bool_decide_unpack _); vm_compute; exact I).
  assert (iteration_of (Prune ["ns/a"; "ns/b"] 100 (MaxAge gc) c).1 ["ns/b"; "ns/a"]) as Ho'
    by (apply (bool_decide_unpack _); vm_compute; exact I).
  assert (in_int64 (map_payload (entries c))) as Hi by (apply (bool_decide_unpack _); vm_compute; exact I).
  destruct (gc_tick_post gc 100 _ _ c k Hw Ho Ho' Hi) as (_ & Hget & _).
  exact Hget.
Defined.
