(* ===== verification/CacheLifecycle.v ===== *)
(** * The life of the cache server ([Start] and [rungc] of
    [internal/rulesets/cache/server.go])

    Three goroutines share the context, the HTTP server and a channel: the HTTP
    server's, the garbage collector's and the one that runs [Start].  A state is
    where each of them stands; an event is a step of one of them, of the
    environment or of a client.  The scheduler's choices are the events, so a run
    is a list of events. *)
From S2P Require Import Prelude GoLib GoErrors RulesetCache RulesetCacheSpec TokenAuth CacheServer.

(** ** The HTTP server that is started *)

Definition MaxHeaderSize : Z := 64 * 1024.
Definition ReadTimeout : Z := 15 * Second.
Definition WriteTimeout : Z := 15 * Second.
Definition IdleTimeout : Z := 60 * Second.
Definition GracefulShutdownTimeout : Z := 10 * Second.

Record http_server := {
  hs_Addr : string;
  hs_ReadHeaderTimeout : Z;
  hs_ReadTimeout : Z;
  hs_WriteTimeout : Z;
  hs_IdleTimeout : Z;
  hs_MaxHeaderBytes : Z
}.
Definition server_limits (addr : string) : http_server :=
  {| hs_Addr := addr; hs_ReadHeaderTimeout := 5 * Second; hs_ReadTimeout := ReadTimeout;
     hs_WriteTimeout := WriteTimeout; hs_IdleTimeout := IdleTimeout; hs_MaxHeaderBytes := MaxHeaderSize |}.

Definition NeedLeaderElection : bool := false.

(** ** States *)

(** The goroutine of [ListenAndServe]. *)
Inductive http_phase := Starting | Listening | Returned.

(** [Start]: in its [select], in [Shutdown], or returned. *)
Inductive main_phase := Selecting | ShuttingDown | Done (err : option gerror).

Record lifecycle := {
  (** [ctx.Done()] is closed *)
  lc_cancelled : bool;
  lc_gc : bool;
  lc_http : http_phase;
  (** [srv.Shutdown] was called *)
  lc_shutdown : bool;
  (** the buffered channel of [ListenAndServe]'s error *)
  lc_errChan : option gerror;
  lc_main : main_phase;
  lc_server : ruleSetCacheServer;
  lc_metrics : gc_metrics
}.

Definition set_server (s : ruleSetCacheServer) (st : lifecycle) : lifecycle :=
  {| lc_cancelled := lc_cancelled st; lc_gc := lc_gc st; lc_http := lc_http st; lc_shutdown := lc_shutdown st;
     lc_errChan := lc_errChan st; lc_main := lc_main st; lc_server := s; lc_metrics := lc_metrics st |}.

Inductive lifecycle_event :=
  (** the environment cancels the context *)
  | Cancel
  (** the collector's [select]: a tick, or the end *)
  | GcTick (now : Z) (order order' : list string)
  | GcStop
  (** the listener is open; [ListenAndServe] fails; it returns [ErrServerClosed] *)
  | HttpListens
  | HttpFails (err : gerror)
  | HttpCloses
  (** the [select] of [Start] and the return of [Shutdown] (and of [Close]) *)
  | MainCancelled
  | MainFails
  | ShutdownReturns (shutdown close : option gerror)
  (** a client's request, and the controllers' publications *)
  | Handle (x : exchange)
  | Publish (ops : list cache_op).

Section lifecycle.
Context (format_time : Z -> string) (marshal_time : Z -> gerror + string).

(** One round of the collector on the shared cache. *)
Definition tick_server (now : Z) (order order' : list string) (s : ruleSetCacheServer) (k : gc_metrics) :
    ruleSetCacheServer * gc_metrics :=
  let '(c, k) := gc_tick (srv_gc s) now order order' (srv_cache s) k in
  ({| srv_cache := c; srv_auth := srv_auth s; srv_gc := srv_gc s |}, k).

(** An event that cannot happen in a state gives [None]. *)
Definition lifecycle_step (ev : lifecycle_event) (st : lifecycle) : option lifecycle :=
  match ev with
  | Cancel =>
      Some {| lc_cancelled := true; lc_gc := lc_gc st; lc_http := lc_http st; lc_shutdown := lc_shutdown st;
              lc_errChan := lc_errChan st; lc_main := lc_main st; lc_server := lc_server st;
              lc_metrics := lc_metrics st |}
  | GcTick now order order' =>
      if lc_gc st then
        let '(s, k) := tick_server now order order' (lc_server st) (lc_metrics st) in
        Some {| lc_cancelled := lc_cancelled st; lc_gc := true; lc_http := lc_http st; lc_shutdown := lc_shutdown st;
                lc_errChan := lc_errChan st; lc_main := lc_main st; lc_server := s; lc_metrics := k |}
      else None
  | GcStop =>
      if lc_gc st && lc_cancelled st then
        Some {| lc_cancelled := true; lc_gc := false; lc_http := lc_http st; lc_shutdown := lc_shutdown st;
                lc_errChan := lc_errChan st; lc_main := lc_main st; lc_server := lc_server st;
                lc_metrics := lc_metrics st |}
      else None
  | HttpListens =>
      match lc_http st with
      | Starting =>
          if lc_shutdown st then None else
          Some {| lc_cancelled := lc_cancelled st; lc_gc := lc_gc st; lc_http := Listening; lc_shutdown := false;
                  lc_errChan := lc_errChan st; lc_main := lc_main st; lc_server := lc_server st;
                  lc_metrics := lc_metrics st |}
      | _ => None
      end
  | HttpFails err =>
      let failed :=
        Some {| lc_cancelled := lc_cancelled st; lc_gc := lc_gc st; lc_http := Returned; lc_shutdown := lc_shutdown st;
                lc_errChan := Some err; lc_main := lc_main st; lc_server := lc_server st;
                lc_metrics := lc_metrics st |} in
      match lc_http st with
      | Starting => failed
      | Listening => if lc_shutdown st then None else failed
      | Returned => None
      end
  | HttpCloses =>
      match lc_http st with
      | Returned => None
      | _ =>
          if lc_shutdown st then
            Some {| lc_cancelled := lc_cancelled st; lc_gc := lc_gc st; lc_http := Returned; lc_shutdown := true;
                    lc_errChan := lc_errChan st; lc_main := lc_main st; lc_server := lc_server st;
                    lc_metrics := lc_metrics st |}
          else None
      end
  | MainCancelled =>
      match lc_main st with
      | Selecting =>
          if lc_cancelled st then
            Some {| lc_cancelled := true; lc_gc := lc_gc st; lc_http := lc_http st; lc_shutdown := true;
                    lc_errChan := lc_errChan st; lc_main := ShuttingDown; lc_server := lc_server st;
                    lc_metrics := lc_metrics st |}
          else None
      | _ => None
      end
  | MainFails =>
      match lc_main st, lc_errChan st with
      | Selecting, Some err =>
          Some {| lc_cancelled := lc_cancelled st; lc_gc := lc_gc st; lc_http := lc_http st;
                  lc_shutdown := lc_shutdown st; lc_errChan := None; lc_main := Done (Some err);
                  lc_server := lc_server st; lc_metrics := lc_metrics st |}
      | _, _ => None
      end
  | ShutdownReturns shutdown close =>
      match lc_main st with
      | ShuttingDown =>
          Some {| lc_cancelled := lc_cancelled st; lc_gc := lc_gc st; lc_http := lc_http st;
                  lc_shutdown := lc_shutdown st; lc_errChan := lc_errChan st;
                  lc_main := Done (match shutdown with Some _ => close | None => None end);
                  lc_server := lc_server st; lc_metrics := lc_metrics st |}
      | _ => None
      end
  | Handle x =>
      match lc_http st with
      | Listening => if lc_shutdown st then None
                     else Some (set_server (exec_exchange format_time marshal_time x (lc_server st)).1 st)
      | _ => None
      end
  | Publish ops => Some (set_server (publish ops (lc_server st)) st)
  end.

Fixpoint lifecycle_run (evs : list lifecycle_event) (st : lifecycle) : option lifecycle :=
  match evs with
  | [] => Some st
  | ev :: evs' => st' ← lifecycle_step ev st; lifecycle_run evs' st'
  end.

(** [Start]: both goroutines started. *)
Definition lifecycle_start (s : ruleSetCacheServer) (k : gc_metrics) : lifecycle :=
  {| lc_cancelled := false; lc_gc := true; lc_http := Starting; lc_shutdown := false; lc_errChan := None;
     lc_main := Selecting; lc_server := s; lc_metrics := k |}.
End lifecycle.

(** ** What holds in every state of a run *)

Section runs.
Context (format_time : Z -> string) (marshal_time : Z -> gerror + string).
#[local] Abbreviation step := (lifecycle_step format_time marshal_time).
#[local] Abbreviation run := (lifecycle_run format_time marshal_time).

(** The state after the events [evs]. *)
Record lifecycle_inv (evs : list lifecycle_event) (st : lifecycle) : Prop := {
  li_gc : lc_gc st = false -> lc_cancelled st = true;
  li_shutdown : lc_shutdown st = true -> lc_cancelled st = true;
  li_selecting : lc_main st = Selecting -> lc_shutdown st = false;
  li_closing : lc_main st = ShuttingDown -> lc_shutdown st = true;
  li_closed : lc_main st = Done None -> lc_shutdown st = true;
  li_failed e : lc_main st = Done (Some e) ->
    (lc_http st = Returned /\ HttpFails e ∈ evs) \/
    (lc_shutdown st = true /\ exists d, ShutdownReturns (Some d) (Some e) ∈ evs);
  li_chan e : lc_errChan st = Some e -> lc_http st = Returned /\ HttpFails e ∈ evs;
  li_returned : lc_http st = Returned -> lc_main st = Selecting -> lc_errChan st <> None
}.

Lemma lifecycle_start_inv s k : lifecycle_inv [] (lifecycle_start s k).
Proof. by split. Qed.

Lemma lifecycle_inv_mono evs ev st : lifecycle_inv evs st -> lifecycle_inv (evs ++ [ev]) st.
Proof.
  intros []. assert (Hmem : forall e, e ∈ evs -> e ∈ evs ++ [ev]) by set_solver. split; [done..| | |done].
  - intros e He. destruct (li_failed0 e He) as [[? ?]|[? [d ?]]]; eauto.
  - intros e He. destruct (li_chan0 e He). eauto.
Qed.

Lemma lifecycle_step_inv ev evs st st' :
  ev ∈ evs -> step ev st = Some st' -> lifecycle_inv evs st -> lifecycle_inv evs st'.
Proof.
  intros Hev Hs []. destruct st. destruct ev; simpl in *; repeat case_match; simplify_eq/=; bool_to_prop; subst;
    split; simpl; intros; simplify_eq; try congruence; eauto 6;
    try (destruct (li_failed0 _ eq_refl) as [[? ?]|[? [? ?]]]; try congruence; eauto 6);
    try (destruct (li_chan0 _ eq_refl); try congruence; eauto 6);
    by specialize (li_selecting0 eq_refl).
Qed.

Lemma lifecycle_run_app evs evs' st :
  run (evs ++ evs') st = (st' ← run evs st; run evs' st').
Proof.
  revert st. induction evs as [|ev evs IH]; intros st; [done|]. cbn [app lifecycle_run].
  destruct (step ev st); [apply IH|done].
Qed.

Lemma lifecycle_run_inv evs s k st :
  run evs (lifecycle_start s k) = Some st -> lifecycle_inv evs st.
Proof.
  revert st. induction evs as [|ev evs IH] using rev_ind; intros st.
  - intros [= <-]. apply lifecycle_start_inv.
  - rewrite lifecycle_run_app. destruct (run evs _) as [st0|]; [|done]. cbn. 
    destruct (step ev st0) eqn:Hs; [|done]. intros [= <-].
    eapply lifecycle_step_inv; [|done|by apply lifecycle_inv_mono, IH]. set_solver.
Qed.

(** ** Shutting down *)

(** The steps of the three goroutines themselves. *)
Definition internal (ev : lifecycle_event) : bool :=
  match ev with
  | GcStop | HttpListens | HttpFails _ | HttpCloses | MainCancelled | MainFails | ShutdownReturns _ _ => true
  | _ => false
  end.

Definition stopped (st : lifecycle) : Prop :=
  lc_gc st = false /\ lc_http st = Returned /\ exists r, lc_main st = Done r.

(** How many steps the goroutines have left at most. *)
Definition steps_left (st : lifecycle) : nat :=
  (if lc_gc st then 1 else 0) +
  match lc_http st with Starting => 2 | Listening => 1 | Returned => 0 end +
  match lc_main st with Selecting => 2 | ShuttingDown => 1 | Done _ => 0 end.

Lemma internal_steps_left ev st st' :
  internal ev = true -> step ev st = Some st' -> (steps_left st' < steps_left st)%nat.
Proof.
  intros Hi Hs. unfold steps_left. destruct st, ev; simpl in *; try done; repeat case_match; simplify_eq/=; lia.
Qed.

Lemma internal_run_bound evs st st' :
  Forall (fun ev => internal ev = true) evs -> run evs st = Some st' -> (length evs + steps_left st' <= steps_left st)%nat.
Proof.
  intros Hi. revert st. induction Hi as [|ev evs Hev _ IH]; intros st; simpl; [intros [= <-]; lia|].
  destruct (step ev st) as [st1|] eqn:Hs; [|done]. simpl. intros Hr%IH.
  pose proof (internal_steps_left _ _ _ Hev Hs). lia.
Qed.

Lemma step_cancelled ev st st' : step ev st = Some st' -> lc_cancelled st = true -> lc_cancelled st' = true.
Proof. intros Hs Hc. destruct st, ev; simpl in *; repeat case_match; by simplify_eq/=. Qed.

Lemma run_cancelled evs st st' : run evs st = Some st' -> lc_cancelled st = true -> lc_cancelled st' = true.
Proof.
  revert st. induction evs as [|ev evs IH]; intros st; simpl; [by intros [= <-]|].
  destruct (step ev st) as [st1|] eqn:Hs; [|done]. intros Hr Hc. eapply IH; [done|]. by eapply step_cancelled.
Qed.

(** After the cancellation some goroutine can go on until all three have ended. *)
Lemma internal_progress evs st : lifecycle_inv evs st -> lc_cancelled st = true ->
  stopped st \/ exists ev st', internal ev = true /\ step ev st = Some st'.
Proof.
  intros [] Hc. destruct (lc_main st) as [| |r] eqn:Hm.
  - right. exists MainCancelled. eexists. split; [done|]. simpl. by rewrite Hm, Hc.
  - right. exists (ShutdownReturns None None). eexists. split; [done|]. simpl. by rewrite Hm.
  - destruct (lc_gc st) eqn:Hg.
    { right. exists GcStop. eexists. split; [done|]. simpl. by rewrite Hg, Hc. }
    destruct (lc_http st) eqn:Hh; [| |left; split_and!; eauto].
    all: right; exists HttpCloses; eexists; (split; [done|]); simpl; rewrite Hh.
    all: assert (Hsd : lc_shutdown st = true); [|by rewrite Hsd].
    all: destruct r as [e|]; [destruct (li_failed0 e eq_refl) as [[? ?]|[? _]]; [done|done]|auto].
Qed.

Lemma internal_termination n evs st :
  (steps_left st <= n)%nat -> lifecycle_inv evs st -> lc_cancelled st = true ->
  exists evs' st', Forall (fun ev => internal ev = true) evs' /\ run evs' st = Some st' /\ stopped st'.
Proof.
  revert evs st. induction n as [|n IH]; intros evs st Hn Hinv Hc;
    destruct (internal_progress _ _ Hinv Hc) as [Hstop|(ev & st1 & Hev & Hs)].
  1,3: by exists [], st.
  - pose proof (internal_steps_left _ _ _ Hev Hs). lia.
  - pose proof (internal_steps_left _ _ _ Hev Hs).
    destruct (IH (evs ++ [ev]) st1) as (evs' & st' & Hevs & Hr & Hstop); [lia| |by eapply step_cancelled|].
    { eapply lifecycle_step_inv; [|done|by apply lifecycle_inv_mono]. set_solver. }
    exists (ev :: evs'), st'. split; [by constructor|]. split; [|done]. simpl. by rewrite Hs.
Qed.

(** [Start] returns without an error only after its context is cancelled, and with an error only if
    [ListenAndServe] failed with it or the server had to be closed; once it returned after a cancellation, or the listener failed,
    no request is handled any more. *)
Theorem Start_returns (s : ruleSetCacheServer) (k : gc_metrics) (evs : list lifecycle_event) (st : lifecycle) (r : option gerror) :
  run evs (lifecycle_start s k) = Some st -> lc_main st = Done r ->
  match r with
  | None => lc_cancelled st = true
  | Some e => HttpFails e ∈ evs \/ (lc_cancelled st = true /\ exists d, ShutdownReturns (Some d) (Some e) ∈ evs)
  end /\
  forall x, step (Handle x) st = None.
Proof.
  intros []%lifecycle_run_inv Hm. split.
  - destruct r as [e|]; [|auto]. destruct (li_failed0 e Hm) as [[_ ?]|[? ?]]; auto.
  - intros x. simpl. destruct r as [e|].
    + destruct (li_failed0 e Hm) as [[-> _]|[-> _]]; [done|by destruct (lc_http st)].
    + rewrite (li_closed0 Hm). by destruct (lc_http st).
Qed.

End runs.

(** ** A run *)

Definition sample_server : ruleSetCacheServer := NewServer NewRuleSetCache None.
Definition sample_counters : gc_metrics :=
  {| prunedByAgeTotal := 0; prunedBySizeTotal := 0; sizeLimitExceededTotal := 0 |}.
Definition sample_life : list lifecycle_event := [HttpListens; GcTick 10 [] []; Cancel; GcTick 20 [] []; MainCancelled].

Lemma Start_returns_witness :
  exists st, lifecycle_run Itoa sample_marshal (sample_life ++ [ShutdownReturns None None])
    (lifecycle_start sample_server sample_counters) = Some st /\ lc_main st = Done None /\ lc_cancelled st = true.
Proof.
  destruct (lifecycle_run Itoa sample_marshal (sample_life ++ [ShutdownReturns None None])
    (lifecycle_start sample_server sample_counters)) as [st|] eqn:Hr; [|vm_compute in Hr; discriminate Hr].
  assert (Hm : lc_main st = Done None).
  { change (lc_main st) with (default Selecting (lc_main <$> Some st)). rewrite <- Hr. vm_compute. reflexivity. }
  exists st. split; [done|]. split; [done|]. exact (proj1 (Start_returns _ _ _ _ _ _ _ Hr Hm)).
Defined.

