(* ===== verification/CacheMetrics.v ===== *)
(** * Metrics of the cache server ([metrics.go], [metrics_use.go])

    [instrumentHandler] wraps the handler: what the wrapped handler does to its
    [ResponseWriter] is a list of calls and whether it panics.  [scrape] is what the
    gauges read from the cache.  The Prometheus
    registry is third-party code: [register] is an argument of the section on
    [RegisterUSEMetrics]. *)
From S2P Require Import Prelude GoLib GoErrors RulesetCache RulesetCacheSpec CacheServer.

(** ** The response status *)

Inductive rw_call :=
  | CallWriteHeader (code : Z)
  | CallWrite (b : string).

Record statusCapture := {
  sc_code : Z;
  sc_written : bool;
  (** the calls forwarded to the wrapped [ResponseWriter] *)
  sc_forwarded : list rw_call
}.

Definition new_statusCapture : statusCapture :=
  {| sc_code := 0; sc_written := false; sc_forwarded := [] |}.

Definition WriteHeader (code : Z) (sc : statusCapture) : statusCapture :=
  {| sc_code := if sc_written sc then sc_code sc else code;
     sc_written := true;
     sc_forwarded := sc_forwarded sc ++ [CallWriteHeader code] |}.

Definition Write (b : string) (sc : statusCapture) : statusCapture :=
  {| sc_code := if sc_written sc then sc_code sc else StatusOK;
     sc_written := true;
     sc_forwarded := sc_forwarded sc ++ [CallWrite b] |}.

Definition status (sc : statusCapture) : Z := if negb (sc_written sc) then StatusOK else sc_code sc.

Definition rw_call_on (sc : statusCapture) (c : rw_call) : statusCapture :=
  match c with CallWriteHeader code => WriteHeader code sc | CallWrite b => Write b sc end.
Definition run_calls (calls : list rw_call) (sc : statusCapture) : statusCapture :=
  fold_left rw_call_on calls sc.

(** ** Request metrics *)

Definition handlerLabel (urlPath : string) : string :=
  if negb (HasPrefix urlPath "/rules/") then "rules" else
  let path := TrimPrefix urlPath "/rules/" in
  match CutSuffix path "/latest" with Some _ => "latest" | None => "rules" end.

Abbreviation labels := (string * string * string)%type.

(** The counters [requestsTotal] and [requestDuration] (its number of
    observations) by handler, method and code, and the gauge [inFlightRequests]
    by handler. *)
Record red_metrics := {
  requestsTotal : gmap labels Z;
  requestDuration : gmap labels Z;
  inFlightRequests : gmap string Z
}.

Definition add_label {K} `{Countable K} (k : K) (n : Z) (m : gmap K Z) : gmap K Z :=
  <[k := default 0 (m !! k) + n]> m.

Definition in_flight (handler : string) (n : Z) (x : red_metrics) : red_metrics :=
  {| requestsTotal := requestsTotal x; requestDuration := requestDuration x;
     inFlightRequests := add_label handler n (inFlightRequests x) |}.
Definition observe (l : labels) (x : red_metrics) : red_metrics :=
  {| requestsTotal := add_label l 1 (requestsTotal x);
     requestDuration := add_label l 1 (requestDuration x);
     inFlightRequests := inFlightRequests x |}.

(** What the wrapped handler does: its calls, then the value it panics with. *)
Record behaviour := {
  calls : list rw_call;
  panics : option string
}.

(** [instrumentHandler]: the metrics after the request, the calls that reached
    the client's writer, and the panic passed on.  [others] is what the requests
    served meanwhile do to the metrics. *)
Definition instrumentHandler (next : Request -> behaviour) (r : Request)
    (others : red_metrics -> red_metrics) (x : red_metrics) :
    red_metrics * list rw_call * option string :=
  let handler := handlerLabel (Path r) in
  let x := others (in_flight handler 1 x) in
  let b := next r in
  let sc := run_calls (calls b) new_statusCapture in
  match panics b with
  | Some p =>
      let code := if sc_written sc then Itoa (status sc) else "500" in
      (in_flight handler (-1) (observe (handler, Method r, code) x), sc_forwarded sc, Some p)
  | None =>
      let code := Itoa (status sc) in
      (in_flight handler (-1) (observe (handler, Method r, code) x), sc_forwarded sc, None)
  end.

(** The status code a client sees for a list of calls: the first header wins, a
    write before it (or no call at all) means 200. *)
Definition sent_status (cs : list rw_call) : Z :=
  match cs with
  | CallWriteHeader code :: _ => code
  | CallWrite _ :: _ | [] => StatusOK
  end.

(** ** Registration of the cache gauges *)

Inductive collector :=
  | GaugeCacheSizeBytes | GaugeCacheInstances | GaugeCacheTotalEntries
  | GaugeCacheConfigMaxSizeBytes | GcPrunedEntriesTotal | GcSizeLimitExceededTotal.

Definition use_collectors : list collector :=
  [GaugeCacheSizeBytes; GaugeCacheInstances; GaugeCacheTotalEntries;
   GaugeCacheConfigMaxSizeBytes; GcPrunedEntriesTotal; GcSizeLimitExceededTotal].

(** The name each is registered under. *)
Definition collector_name (c : collector) : string :=
  match c with
  | GaugeCacheSizeBytes => "coraza_cache_size_bytes"
  | GaugeCacheInstances => "coraza_cache_instances"
  | GaugeCacheTotalEntries => "coraza_cache_total_entries"
  | GaugeCacheConfigMaxSizeBytes => "coraza_cache_config_max_size_bytes"
  | GcPrunedEntriesTotal => "coraza_cache_gc_pruned_entries_total"
  | GcSizeLimitExceededTotal => "coraza_cache_gc_size_limit_exceeded_total"
  end.

(** What a gauge reads from the cache and the configuration when it is scraped;
    the counters hold a value of their own. *)
Definition gauge_value (col : collector) (c : RuleSetCache) (gc : GarbageCollectionConfig) : option Z :=
  match col with
  | GaugeCacheSizeBytes => Some (float64 (TotalSize c))
  | GaugeCacheInstances => Some (float64 (Len c))
  | GaugeCacheTotalEntries => Some (float64 (TotalEntries c))
  | GaugeCacheConfigMaxSizeBytes => Some (float64 (MaxSize gc))
  | GcPrunedEntriesTotal | GcSizeLimitExceededTotal => None
  end.

(** The four values of a scrape. *)
Definition scrape (c : RuleSetCache) (gc : GarbageCollectionConfig) : list (string * Z) :=
  omap (fun col => pair (collector_name col) <$> gauge_value col c gc) use_collectors.

Definition ErrUSEMetricsRegistryConflict : gerror :=
  ErrText "USE metrics already registered for this registry with a different RuleSetCache or GarbageCollectionConfig".

(** A [*prometheus.Registry] or another [Registerer], by address. *)
Inductive Registerer :=
  | PromRegistry (addr : nat)
  | OtherRegisterer (addr : nat).

Section registration.
Context {R : Type} (register : Registerer -> collector -> R -> R * (gerror + unit)).

Record use_state := {
  registries : R;
  (** [registeredUSEMetricsByPromRegistry]: the cache's address and the configuration *)
  registeredUSEMetricsByPromRegistry : gmap nat (nat * GarbageCollectionConfig)
}.

Fixpoint registerCollectors (reg : Registerer) (l : list collector) (x : R) : R * (gerror + unit) :=
  match l with
  | [] => (x, inr tt)
  | col :: l' =>
      match register reg col x with
      | (x, inl err) => (x, inl err)
      | (x, inr _) => registerCollectors reg l' x
      end
  end.

Definition RegisterUSEMetrics (reg : Registerer) (c : nat) (gc : GarbageCollectionConfig)
    (x : use_state) : use_state * (gerror + unit) :=
  match reg with
  | PromRegistry r =>
      match registeredUSEMetricsByPromRegistry x !! r with
      | Some (prev_cache, prev_gc) =>
          if bool_decide (prev_cache = c) && bool_decide (prev_gc = gc) then (x, inr tt)
          else (x, inl (errorf_w "" ErrUSEMetricsRegistryConflict))
      | None =>
          match registerCollectors reg use_collectors (registries x) with
          | (rs, inl err) =>
              ({| registries := rs;
                  registeredUSEMetricsByPromRegistry := registeredUSEMetricsByPromRegistry x |}, inl err)
          | (rs, inr _) =>
              ({| registries := rs;
                  registeredUSEMetricsByPromRegistry :=
                    <[r := (c, gc)]> (registeredUSEMetricsByPromRegistry x) |}, inr tt)
          end
      end
  | OtherRegisterer _ =>
      let '(rs, res) := registerCollectors reg use_collectors (registries x) in
      ({| registries := rs;
          registeredUSEMetricsByPromRegistry := registeredUSEMetricsByPromRegistry x |}, res)
  end.
End registration.
Arguments use_state : clear implicits.

(** ** Lemmas *)

Lemma run_calls_spec cs :
  let sc := run_calls cs new_statusCapture in
  sc_forwarded sc = cs /\ status sc = sent_status cs /\ sc_written sc = bool_decide (cs <> []).
Proof.
  intros sc.
  enough (sc_forwarded sc = cs /\ sc_written sc = bool_decide (cs <> []) /\
    (sc_written sc = true -> sc_code sc = sent_status cs)) as (Hf & Hw & Hc).
  { split_and!; [done| |done]. unfold status. destruct (sc_written sc); [by apply Hc|].
    symmetry in Hw. apply bool_decide_eq_false in Hw. by destruct cs; [|destruct Hw]. }
  unfold sc, run_calls. induction cs as [|c cs IH] using rev_ind; [done|].
  rewrite fold_left_app. simpl. set (sc' := fold_left _ _ _) in *. destruct IH as (Hf & Hw & Hc).
  assert (bool_decide (cs ++ [c] <> []) = true) as -> by (apply bool_decide_eq_true; by destruct cs).
  assert (sc_written sc' = false -> cs = []) as Hnil.
  { intros Hf'. rewrite Hw in Hf'. apply bool_decide_eq_false in Hf'. by destruct cs; [|destruct Hf']. }
  destruct c; simpl; rewrite Hf; split_and!; try done; intros _;
    (destruct (sc_written sc'); [rewrite Hc by done|rewrite Hnil by done; done]);
    (destruct cs as [|x cs]; [by rewrite bool_decide_eq_false_2 in Hw by naive_solver|by destruct x]).
Qed.

Lemma add_label_eq {K} `{Countable K} (k : K) n (m : gmap K Z) :
  default 0 (add_label k n m !! k) = default 0 (m !! k) + n.
Proof. unfold add_label. by rewrite lookup_insert_eq. Qed.

Lemma add_label_ne {K} `{Countable K} (k k' : K) n (m : gmap K Z) :
  k <> k' -> add_label k n m !! k' = m !! k'.
Proof. intros. unfold add_label. by rewrite lookup_insert_ne. Qed.

(** ** The properties *)

(** Every request is counted exactly once, also when the handler panics:
    under the label of the endpoint [handleRules] routes it to, its method and
    the status the client sees (500 for a panic before anything was sent). The
    response and the panic pass through unchanged, and the in-flight gauge the
    request raised is lowered again. *)
Theorem instrument_request (next : Request -> behaviour) (r : Request)
    (others : red_metrics -> red_metrics) (x : red_metrics) :
  let '(x', sent, p) := instrumentHandler next r others x in
  let h := if (route (TrimPrefix (Path r) "/rules/")).2 && HasPrefix (Path r) "/rules/"
           then "latest" else "rules" in
  let code := if bool_decide (is_Some (panics (next r)) /\ calls (next r) = []) then "500"
              else Itoa (sent_status (calls (next r))) in
  let x1 := others (in_flight h 1 x) in
  sent = calls (next r) /\ p = panics (next r) /\
  default 0 (requestsTotal x' !! (h, Method r, code)) =
    default 0 (requestsTotal x1 !! (h, Method r, code)) + 1 /\
  (forall l, l <> (h, Method r, code) -> requestsTotal x' !! l = requestsTotal x1 !! l) /\
  default 0 (inFlightRequests (in_flight h 1 x) !! h) = default 0 (inFlightRequests x !! h) + 1 /\
  default 0 (inFlightRequests x' !! h) = default 0 (inFlightRequests x1 !! h) - 1.
Proof.
  unfold instrumentHandler.
  assert (handlerLabel (Path r) = if (route (TrimPrefix (Path r) "/rules/")).2 && HasPrefix (Path r) "/rules/"
           then "latest" else "rules") as <-.
  { unfold handlerLabel, route. destruct (HasPrefix _ _); simpl; [|by rewrite andb_false_r].
    by destruct (CutSuffix _ _). }
  pose proof (run_calls_spec (calls (next r))) as (Hf & Hs & Hw).
  set (sc := run_calls _ _) in *. set (h := handlerLabel (Path r)).
  destruct (panics (next r)) as [p|] eqn:Hp.
  - assert ((if sc_written sc then Itoa (status sc) else "500") =
            if bool_decide (is_Some (Some p) /\ calls (next r) = []) then "500"
            else Itoa (sent_status (calls (next r)))) as Hcode.
    { rewrite Hs, Hw. destruct (calls (next r)) as [|c cs]; [done|].
      by rewrite (bool_decide_eq_false_2 (is_Some (Some p) /\ c :: cs = [])) by naive_solver. }
    rewrite Hcode. simpl. rewrite !add_label_eq. split_and!; try done.
    intros l Hl. by apply add_label_ne.
  - rewrite (bool_decide_eq_false_2 (is_Some None /\ _)) by (by intros [[? ?] _]).
    rewrite Hs. simpl. rewrite !add_label_eq. split_and!; try done.
    intros l Hl. by apply add_label_ne.
Qed.

(** The gauges tell the truth.  In every reachable cache that holds less than
    2^53 bytes a scrape reads exactly the payload bytes, the instances, the
    revisions and the configured limit. *)
Theorem scrape_exact (ops : list cache_op) (gc : GarbageCollectionConfig) :
  run_allowed ops NewRuleSetCache ->
  let c := run_ops ops NewRuleSetCache in
  map_payload (entries c) < 2 ^ 53 -> map_count (entries c) < 2 ^ 53 -> Z.of_nat (size (entries c)) < 2 ^ 53 ->
  Z.abs (MaxSize gc) < 2 ^ 53 ->
  scrape c gc =
    [("coraza_cache_size_bytes", map_payload (entries c));
     ("coraza_cache_instances", Z.of_nat (size (entries c)));
     ("coraza_cache_total_entries", map_count (entries c));
     ("coraza_cache_config_max_size_bytes", MaxSize gc)].
Proof.
  intros Hr c Hp Hn Hi Hm. pose proof (run_ops_wf ops NewRuleSetCache Hr NewRuleSetCache_wf) as [_ Hs Hc]. fold c in Hs, Hc.
  pose proof (map_payload_nonneg (entries c)). pose proof (map_count_nonneg (entries c)).
  unfold scrape. simpl. unfold TotalSize, TotalEntries, Len.
  rewrite Hs, Hc, !wrap64_small by (unfold in_int64, int64_min, int64_max; lia).
  by rewrite !float64_small by lia.
Qed.

Theorem scrape_exact_witness :
  scrape (run_ops sample_ops NewRuleSetCache) DefaultGC =
    [("coraza_cache_size_bytes", 9); ("coraza_cache_instances", 2); ("coraza_cache_total_entries", 2);
     ("coraza_cache_config_max_size_bytes", 104857600)].
Proof.
  assert (run_allowed sample_ops NewRuleSetCache) as Hr by (apply (bool_decide_unpack _); vm_compute; exact I).
  etrans; [apply (scrape_exact sample_ops DefaultGC Hr); vm_compute; reflexivity|]. vm_compute. reflexivity.
Defined.

(** Registering the cache metrics twice. After a successful registration
    with a Prometheus registry, a call with the same cache and configuration
    succeeds and registers nothing again; any other is refused; in both cases
    no state changes. *)
Theorem RegisterUSEMetrics_idempotent {R} (register : Registerer -> collector -> R -> R * (gerror + unit))
    (addr c c' : nat) (gc gc' : GarbageCollectionConfig) (x x' : use_state R) :
  RegisterUSEMetrics register (PromRegistry addr) c gc x = (x', inr tt) ->
  RegisterUSEMetrics register (PromRegistry addr) c' gc' x' =
    (x', if bool_decide (c = c' /\ gc = gc') then inr tt
         else inl (errorf_w "" ErrUSEMetricsRegistryConflict)).
Proof.
  intros Hr. assert (registeredUSEMetricsByPromRegistry x' !! addr = Some (c, gc)) as Hx.
  { unfold RegisterUSEMetrics in Hr. destruct (registeredUSEMetricsByPromRegistry x !! addr) as [[c0 gc0]|] eqn:Ha.
    - destruct (bool_decide (c0 = c) && _) eqn:Hb; simplify_eq. bool_to_prop. by subst.
    - destruct (registerCollectors _ _ _ _) as [rs [err|u]]; simplify_eq. simpl. by rewrite lookup_insert_eq. }
  unfold RegisterUSEMetrics. rewrite Hx.
  destruct (decide (c = c')) as [->|Hc].
  - destruct (decide (gc = gc')) as [->|Hg].
    + by rewrite !bool_decide_eq_true_2.
    + rewrite (bool_decide_eq_false_2 (gc = gc')) by done.
      rewrite (bool_decide_eq_false_2 (_ /\ _)) by (by intros [_ ?]). by rewrite andb_false_r.
  - rewrite (bool_decide_eq_false_2 (c = c')) by done.
    by rewrite (bool_decide_eq_false_2 (_ /\ _)) by (by intros [? _]).
Qed.

(** A registry that records what it is given. *)
Definition sample_register (reg : Registerer) (col : collector) (x : list (Registerer * collector)) :
    list (Registerer * collector) * (gerror + unit) := ((reg, col) :: x, inr tt).

Theorem RegisterUSEMetrics_idempotent_witness :
  let x := {| registries := []; registeredUSEMetricsByPromRegistry := ∅ |} in
  let x' := (RegisterUSEMetrics sample_register (PromRegistry 1) 7 DefaultGC x).1 in
  length (registries x') = 6%nat /\
  RegisterUSEMetrics sample_register (PromRegistry 1) 7 DefaultGC x' = (x', inr tt).
Proof.
  intros x x'. split; [vm_compute; reflexivity|].
  apply (RegisterUSEMetrics_idempotent sample_register 1 7 7 DefaultGC DefaultGC x x').
  vm_compute. reflexivity.
Defined.
