(* ===== verification/ServerHandler.v ===== *)
(** * The HTTP server of the cache ([NewServer] of [server.go])

    The handler [NewServer] gives the [http.Server] (its other fields are in
    [CacheLifecycle]): [instrumentHandler] around a [ServeMux] that
    sends [/rules/] to [handleRules].  What the multiplexer answers itself, to other
    paths and to paths it redirects, is an argument. *)
From S2P Require Import Prelude GoLib GoErrors RulesetCache RulesetCacheSpec TokenAuth CacheServer CacheMetrics.

(** ** The handler *)

Definition no_metrics : red_metrics := {| requestsTotal := ∅; requestDuration := ∅; inFlightRequests := ∅ |}.

(** How a response is written: [http.Error] and the two endpoints alike. *)
Definition written (resp : Response) : list rw_call := [CallWriteHeader (StatusCode resp); CallWrite (Body resp)].

Section handler.
Context (format_time : Z -> string) (marshal_time : Z -> gerror + string).
(** What the multiplexer answers itself; [None] when it calls the pattern's handler. *)
Context (mux_own : Request -> option Response).

(** [mux.ServeHTTP]. *)
Definition mux_ServeHTTP (x : exchange) (s : ruleSetCacheServer) : ruleSetCacheServer * Response :=
  match mux_own (x_req x) with
  | Some resp => (publish (x_ops x) s, resp)
  | None => exec_exchange format_time marshal_time x s
  end.

(** [srv.Handler.ServeHTTP]: the server and its metrics after the request, and the
    calls that reach the client's writer. *)
Definition ServeHTTP (x : exchange) (s : ruleSetCacheServer) (m : red_metrics) :
    ruleSetCacheServer * red_metrics * list rw_call :=
  let '(s, resp) := mux_ServeHTTP x s in
  let '(m, sent, _) := instrumentHandler (fun _ => {| calls := written resp; panics := None |}) (x_req x) id m in
  (s, m, sent).

(** Requests one after the other: the answers, and the state at the end. *)
Fixpoint serve_all (xs : list exchange) (s : ruleSetCacheServer) (m : red_metrics) :
    ruleSetCacheServer * red_metrics * list (list rw_call) :=
  match xs with
  | [] => (s, m, [])
  | x :: xs =>
      let '(s, m, sent) := ServeHTTP x s m in
      let '(s, m, rest) := serve_all xs s m in
      (s, m, sent :: rest)
  end.

(** ** What is counted *)

(** The responses of the multiplexer, without metrics. *)
Fixpoint answer_all (xs : list exchange) (s : ruleSetCacheServer) : ruleSetCacheServer * list Response :=
  match xs with
  | [] => (s, [])
  | x :: xs => let '(s, resp) := mux_ServeHTTP x s in let '(s, rest) := answer_all xs s in (s, resp :: rest)
  end.

(** The labels of a request and its answer. *)
Definition labels_of (x : exchange) (resp : Response) : labels :=
  (handlerLabel (Path (x_req x)), Method (x_req x), Itoa (StatusCode resp)).

Definition count_labels (l : labels) (ls : list labels) : Z := Z.of_nat (length (filter (fun l' => l' = l) ls)).

Lemma count_cons l l' ls : count_labels l (l' :: ls) = (if bool_decide (l' = l) then 1 else 0) + count_labels l ls.
Proof. unfold count_labels. rewrite filter_cons. case_decide; case_bool_decide; try done; simpl; lia. Qed.

Lemma ServeHTTP_metrics x s m :
  let '(s', resp) := mux_ServeHTTP x s in
  let '(s'', m', sent) := ServeHTTP x s m in
  s'' = s' /\ sent = written resp /\
  (forall l, default 0 (requestsTotal m' !! l) = default 0 (requestsTotal m !! l) + (if bool_decide (labels_of x resp = l) then 1 else 0)) /\
  (forall l, default 0 (requestDuration m' !! l) = default 0 (requestDuration m !! l) + (if bool_decide (labels_of x resp = l) then 1 else 0)) /\
  (forall h, default 0 (inFlightRequests m' !! h) = default 0 (inFlightRequests m !! h)).
Proof.
  unfold ServeHTTP. destruct (mux_ServeHTTP x s) as [s' resp]. unfold instrumentHandler. simpl.
  split; [done|]. split; [done|]. unfold labels_of.
  assert (Hadd : forall (tot : gmap labels Z) l l', default 0 (add_label l' 1 tot !! l) = default 0 (tot !! l) + (if bool_decide (l' = l) then 1 else 0)).
  { intros tot l l'. case_bool_decide as Hl; [subst; apply add_label_eq|]. rewrite add_label_ne by done. lia. }
  split_and!; [intros l; apply Hadd..|]. intros h.
  destruct (decide (handlerLabel (Path (x_req x)) = h)) as [->|Hh].
  - rewrite !add_label_eq. lia.
  - by rewrite !add_label_ne.
Qed.

Lemma serve_all_metrics xs s m :
  let '(s', resps) := answer_all xs s in
  let '(s'', m', sents) := serve_all xs s m in
  s'' = s' /\ sents = written <$> resps /\
  (forall l, default 0 (requestsTotal m' !! l) = default 0 (requestsTotal m !! l) + count_labels l (zip_with labels_of xs resps)) /\
  (forall l, default 0 (requestDuration m' !! l) = default 0 (requestDuration m !! l) + count_labels l (zip_with labels_of xs resps)) /\
  (forall h, default 0 (inFlightRequests m' !! h) = default 0 (inFlightRequests m !! h)).
Proof.
  revert s m. induction xs as [|x xs IH]; intros s m; simpl.
  { split_and!; try done; intros l; unfold count_labels; simpl; lia. }
  pose proof (ServeHTTP_metrics x s m) as Hx.
  destruct (mux_ServeHTTP x s) as [s1 resp], (ServeHTTP x s m) as [[s1' m1] sent].
  destruct Hx as (-> & -> & Ht & Hd & Hi). specialize (IH s1 m1).
  destruct (answer_all xs s1) as [s2 resps], (serve_all xs s1 m1) as [[s2' m2] sents].
  destruct IH as (-> & -> & Ht2 & Hd2 & Hi2). simpl. split_and!; try done; intros l.
  - rewrite Ht2, Ht, count_cons. lia.
  - rewrite Hd2, Hd, count_cons. lia.
  - by rewrite Hi2, Hi.
Qed.

Lemma answer_all_length xs s : length (answer_all xs s).2 = length xs.
Proof.
  revert s. induction xs as [|x xs IH]; intros s; [done|]. simpl. destruct (mux_ServeHTTP x s) as [s1 resp].
  specialize (IH s1). destruct (answer_all xs s1) as [s2 rest]. simpl in *. by rewrite IH.
Qed.

(** C22: the request metrics are exact.  After any requests to a new server, each
    answered as the multiplexer and [handleRules] answer it, the counter of a
    handler, method and code is the number of requests to this handler with this
    method that were answered with this code, so is the number of durations
    observed, and no request is left in flight. *)
Theorem request_metrics_exact (xs : list exchange) (c : RuleSetCache) (gc : option GarbageCollectionConfig) :
  let '(s, resps) := answer_all xs (NewServer c gc) in
  let '(s', m, sents) := serve_all xs (NewServer c gc) no_metrics in
  s' = s /\ sents = written <$> resps /\ length resps = length xs /\
  forall l, default 0 (requestsTotal m !! l) = count_labels l (zip_with labels_of xs resps) /\
    default 0 (requestDuration m !! l) = count_labels l (zip_with labels_of xs resps) /\
    forall h, default 0 (inFlightRequests m !! h) = 0.
Proof.
  pose proof (serve_all_metrics xs (NewServer c gc) no_metrics) as Hm.
  pose proof (answer_all_length xs (NewServer c gc)) as Hlen.
  destruct (answer_all _ _) as [s resps], (serve_all _ _ _) as [[s' m] sents].
  destruct Hm as (? & ? & Ht & Hd & Hi). split_and!; [done..|]. intros l. split_and!.
  - by rewrite Ht.
  - by rewrite Hd.
  - intros h. by rewrite Hi.
Qed.
End handler.
