(* ===== verification/Unsupported.v ===== *)
(** * Rules unsupported by the WASM engine ([internal/rulesets/unsupported.go])

    The registry of rule IDs, the scanner that finds the IDs of active rules
    (the regular expression [\bid:['"]?(\d+)['"]?], matched by hand as Go's
    leftmost-first search does), and the message shown to the user. *)
From S2P Require Import Prelude GoLib.

(** ** The registry *)

Inductive Tier := TierIncompatible | TierRedundant.
#[export] Instance Tier_eq_dec : EqDecision Tier.
Proof. solve_decision. Defined.

Record UnsupportedRule := {
  ID : Z;
  Category : string;
  RuleTier : Tier;
  Description : string
}.
#[export] Instance UnsupportedRule_eq_dec : EqDecision UnsupportedRule.
Proof. solve_decision. Defined.

Definition mkRule (id : Z) (category : string) (tier : Tier) (desc : string) : UnsupportedRule :=
  {| ID := id; Category := category; RuleTier := tier; Description := desc |}.

Definition incompatible_rules : list UnsupportedRule :=
  [mkRule 922110 "multipart charset detection" TierIncompatible
     "multipart charset detection does not function in Envoy/Kubernetes";
   mkRule 920274 "PL4 false positives" TierIncompatible
     "PL4 false positives from Envoy :path pseudo-header population";
   mkRule 920171 "GET/HEAD body detection" TierIncompatible
     "GET/HEAD with body not detected (coraza-proxy-wasm bug)";
   mkRule 920430 "protocol version detection" TierIncompatible
     "invalid HTTP protocol version not detected (coraza-proxy-wasm bug)";
   mkRule 934120 "enclosed alphanumerics HTTP/2" TierIncompatible
     "enclosed alphanumerics not detected in HTTP/2 (coraza-proxy-wasm bug)";
   mkRule 932300 "multiphase evaluation" TierIncompatible
     "fails with multiphase evaluation enabled (Coraza bug)";
   mkRule 933120 "multiphase evaluation" TierIncompatible
     "fails with multiphase evaluation enabled (Coraza bug)"].

Definition investigated_rules : list (Z * string) :=
  [(920270, "behavioral difference — blocked at different layer");
   (921140, "behavioral difference — blocked at different layer");
   (921250, "cookie $Version detection not matching");
   (922130, "match_regex behavior difference");
   (932200, "detected by earlier rule instead of expected rule");
   (941210, "HTML entity decoding — transformation chain issue");
   (944200, "Java deserialization pattern not detected");
   (959100, "retry_once mechanism not working in environment");
   (980170, "retry_once mechanism not working in environment")].

Definition redundant_rules : list UnsupportedRule :=
  ((fun id => mkRule id "HTTP method handling" TierRedundant
      "some request patterns handled by Envoy before reaching WAF") <$> [911100; 920100; 949110]) ++
  ((fun id => mkRule id "protocol enforcement" TierRedundant
      "protocol enforcement handled by Envoy proxy layer") <$> [920181; 920210]) ++
  ((fun id => mkRule id "HTTP/2 normalization" TierRedundant
      "header normalization handled by Envoy in HTTP/2")
     <$> [920280; 920290; 920300; 920310; 920311; 920320; 920330; 920610]) ++
  ((fun id => mkRule id "header sanitization" TierRedundant
      "malicious header payloads sanitized by Envoy before reaching WAF")
     <$> [932161; 932207; 932237; 932239; 941101; 941110; 941120; 942280]).

(** Assigning the entries one after the other. *)
Definition buildRegistry : gmap Z UnsupportedRule :=
  fold_left (fun r rule => <[ID rule := rule]> r)
    (incompatible_rules ++
     ((fun entry => mkRule entry.1 "under investigation" TierIncompatible entry.2) <$> investigated_rules) ++
     redundant_rules) ∅.

Definition unsupportedRules : gmap Z UnsupportedRule := buildRegistry.

Definition ruleIDsByTier (tier : Tier) : list Z :=
  sort_Ints (fst <$> filter (fun kv => RuleTier kv.2 = tier) (map_to_list unsupportedRules)).
Definition IncompatibleRuleIDs : list Z := ruleIDsByTier TierIncompatible.
Definition RedundantRuleIDs : list Z := ruleIDsByTier TierRedundant.
Definition AllUnsupportedRuleIDs : list Z := sort_Ints (elements (dom unsupportedRules)).

(** ** The scanner *)

Definition is_comment_line (line : string) : bool :=
  match TrimSpace line with
  | EmptyString => true
  | String a _ => Ascii.eqb a "#"
  end.

(** [stripCommentLines]: every kept line is ended with a newline. *)
Definition stripCommentLines (rules : string) : string :=
  String.concat "" ((fun line => line +:+ String nl "")
    <$> filter (fun line => is_comment_line line = false) (Split rules nl)).

Definition is_quote (a : ascii) : bool := (code a =? 39) || (code a =? 34).

(** An optional quote at the head: its bytes and the rest. *)
Definition opt_quote (s : string) : string * string :=
  match s with
  | String a s' => if is_quote a then (String a "", s') else ("", s)
  | EmptyString => ("", "")
  end.

(** [id:['"]?(\d+)['"]?] at the head: the submatch and the length of the match. *)
Definition match_id (s : string) : option (string * nat) :=
  r ← strip_prefix "id:" s;
  let '(q, r) := opt_quote r in
  let '(ds, r) := digit_run r in
  let '(q', _) := opt_quote r in
  if String.eqb ds "" then None
  else Some (ds, (3 + String.length q + String.length ds + String.length q')%nat).

(** [ruleIDPattern.FindAllStringSubmatch]: [prev] tells whether the byte before
    is a word character, [skip] how many bytes of the last match are left. *)
Fixpoint find_ids (prev : bool) (skip : nat) (s : string) : list string :=
  match s with
  | EmptyString => []
  | String a s' =>
      match skip with
      | S n => find_ids (is_word a) n s'
      | O => match (if prev then None else match_id s) with
             | Some (ds, n) => ds :: find_ids (is_word a) (n - 1) s'
             | None => find_ids (is_word a) 0 s'
             end
      end
  end.

(** The loop of [CheckUnsupportedRules]: [seen] and [found], oldest first. *)
Fixpoint collect_rules (matches : list string) (seen : gset Z) (found : list UnsupportedRule) :
    list UnsupportedRule :=
  match matches with
  | [] => found
  | m :: matches' =>
      match Atoi m with
      | None => collect_rules matches' seen found
      | Some id =>
          if bool_decide (id ∈ seen) then collect_rules matches' seen found
          else match unsupportedRules !! id with
               | Some entry => collect_rules matches' ({[id]} ∪ seen) (found ++ [entry])
               | None => collect_rules matches' seen found
               end
      end
  end.

Definition rule_le (a b : UnsupportedRule) : Prop := ID a <= ID b.
#[export] Instance rule_le_dec a b : Decision (rule_le a b).
Proof. unfold rule_le. apply _. Defined.
#[export] Instance rule_le_total : Total rule_le.
Proof. intros a b. unfold rule_le. lia. Qed.
#[export] Instance rule_le_trans : Transitive rule_le.
Proof. intros a b c. unfold rule_le. lia. Qed.

(** [CheckUnsupportedRules]; a nil slice is the empty list. *)
Definition CheckUnsupportedRules (rules : string) : list UnsupportedRule :=
  merge_sort rule_le (collect_rules (find_ids false 0 (stripCommentLines rules)) ∅ []).

Definition FormatUnsupportedMessage (found : list UnsupportedRule) : string :=
  match found with
  | [] => ""
  | _ =>
      "RuleSet contains " +:+ Itoa (Z.of_nat (length found)) +:+
      " unsupported rule(s) for the current WASM engine mode:" +:+
      String.concat "" ((fun r => String nl "" +:+ "  - rule " +:+ Itoa (ID r) +:+ " (" +:+ Category r +:+
                               "): " +:+ Description r) <$> found) +:+
      String nl "" +:+ "See LIMITATIONS.md for details and mitigation options."
  end.

(** ** What the scanner finds *)

(** The text reads [id:], an optional quote, the run of digits [ds]. *)
Definition reads_id (ds s : string) : Prop :=
  exists q r, s = "id:" +:+ q +:+ ds +:+ r /\
    (q = "" \/ exists a, is_quote a = true /\ q = String a "") /\
    ds <> "" /\ all_digits ds = true /\ head_digit r = false.

(** Whether the byte before the end of [b] is a word character. *)
Fixpoint word_end (prev : bool) (b : string) : bool :=
  match b with EmptyString => prev | String a b' => word_end (is_word a) b' end.

(** The ID [ds] occurs in the text, after a word boundary. *)
Definition id_occurs (prev : bool) (ds s : string) : Prop :=
  exists b t, s = b +:+ t /\ word_end prev b = false /\ reads_id ds t.

(** ** Lemmas *)

Lemma quote_not_digit a : is_quote a = true -> is_digit a = false.
Proof.
  unfold is_quote, is_digit, in_range. intros [H|H]%orb_true_iff; bool_to_prop; rewrite H; reflexivity.
Qed.

Lemma digit_not_quote a : is_digit a = true -> is_quote a = false.
Proof. intros Hd. destruct (is_quote a) eqn:Hq; [|done]. apply quote_not_digit in Hq. congruence. Qed.

(** The optional quote before a digit is determined by the text. *)
Lemma opt_quote_app q ds r :
  (q = "" \/ exists a, is_quote a = true /\ q = String a "") -> ds <> "" -> all_digits ds = true ->
  opt_quote (q +:+ ds +:+ r) = (q, ds +:+ r).
Proof.
  intros [->|(a & Ha & ->)] Hne Hds.
  - rewrite app_empty_l. destruct ds as [|d ds]; [done|]. rewrite app_cons. simpl.
    simpl in Hds. apply andb_true_iff in Hds as [Hd _]. by rewrite digit_not_quote.
  - rewrite app_cons, app_empty_l. simpl. by rewrite Ha.
Qed.

Lemma opt_quote_inv s q r :
  opt_quote s = (q, r) -> s = q +:+ r /\ (q = "" \/ exists a, is_quote a = true /\ q = String a "").
Proof.
  destruct s as [|a s]; simpl; [intros; simplify_eq; auto|].
  destruct (is_quote a) eqn:Ha; intros; simplify_eq; [|auto].
  rewrite app_cons, app_empty_l. eauto.
Qed.

Lemma match_id_reads s ds : (exists n, match_id s = Some (ds, n)) <-> reads_id ds s.
Proof.
  unfold match_id, reads_id. split.
  - intros [n Hm]. destruct (strip_prefix "id:" s) as [r0|] eqn:Hp; simpl in Hm; [|done].
    apply strip_prefix_Some in Hp as ->.
    destruct (opt_quote r0) as [q r1] eqn:Hq. destruct (digit_run r1) as [ds' r2] eqn:Hd.
    destruct (opt_quote r2) as [q' r3]. destruct (String.eqb_spec ds' ""); simplify_eq.
    apply opt_quote_inv in Hq as [-> Hq]. apply digit_run_spec in Hd as (-> & ? & ?). eauto 10.
  - intros (q & r & -> & Hq & Hne & Hds & Hr).
    rewrite (proj2 (strip_prefix_Some "id:" _ (q +:+ ds +:+ r)) eq_refl). simpl.
    rewrite opt_quote_app by done. rewrite (proj2 (digit_run_spec (ds +:+ r) ds r) (conj eq_refl (conj Hds Hr))).
    destruct (opt_quote r). destruct (String.eqb_spec ds ""); [done|]. eauto.
Qed.

(** No [i] among the next [k] bytes: no match starts there. *)
Fixpoint no_i (k : nat) (s : string) : Prop :=
  match k, s with
  | S k', String a s' => a <> "i"%char /\ no_i k' s'
  | _, _ => True
  end.

Lemma no_i_app x k s : (forall a, byte_in a x = true -> a <> "i"%char) -> no_i k s ->
  no_i (String.length x + k) (x +:+ s).
Proof.
  intros Hx Hs. induction x as [|a x IH]; [done|]. rewrite app_cons. simpl. split.
  - apply Hx. simpl. by rewrite Ascii.eqb_refl.
  - apply IH. intros b Hb. apply Hx. simpl. by rewrite Hb, orb_true_r.
Qed.

Lemma no_i_digits ds a : all_digits ds = true -> byte_in a ds = true -> a <> "i"%char.
Proof.
  intros Hds Hb ->. induction ds as [|b ds IH]; simpl in *; [done|].
  apply andb_true_iff in Hds as [Hd Hds]. apply orb_true_iff in Hb as [Hb|Hb]; [|by apply IH].
  apply Ascii.eqb_eq in Hb as ->. done.
Qed.

Lemma no_i_quote q a : (q = "" \/ exists a, is_quote a = true /\ q = String a "") ->
  byte_in a q = true -> a <> "i"%char.
Proof.
  intros [->|(b & Hb & ->)] Ha; [done|]. simpl in Ha. rewrite orb_false_r in Ha.
  apply Ascii.eqb_eq in Ha as ->. by intros ->.
Qed.

Lemma match_id_no_i a s ds n : match_id (String a s) = Some (ds, n) -> no_i (n - 1) s.
Proof.
  unfold match_id. intros Hm.
  destruct (strip_prefix "id:" (String a s)) as [r0|] eqn:Hp; simpl in Hm; [|done].
  apply strip_prefix_Some in Hp.
  destruct (opt_quote r0) as [q r1] eqn:Hq. destruct (digit_run r1) as [ds' r2] eqn:Hd.
  destruct (opt_quote r2) as [q' r3] eqn:Hq'. destruct (String.eqb_spec ds' ""); simplify_eq.
  apply opt_quote_inv in Hq as [-> Hq]. apply digit_run_spec in Hd as (-> & Hds & _).
  apply opt_quote_inv in Hq' as [-> Hq']. rewrite !app_cons, app_empty_l in Hp. injection Hp as -> ->.
  match goal with |- no_i ?n _ =>
    replace n with (S (S (String.length q + (String.length ds + (String.length q' + 0))))) by lia end.
  split; [done|]. split; [done|].
  apply no_i_app; [by intros b; apply no_i_quote|].
  apply no_i_app; [by intros b; apply no_i_digits|].
  by apply no_i_app; [intros b; apply no_i_quote|].
Qed.

Lemma reads_id_head ds s : reads_id ds s -> exists s', s = String "i" s'.
Proof. intros (q & r & -> & _). simpl. eauto. Qed.

Lemma reads_id_unique ds ds' s : reads_id ds s -> reads_id ds' s -> ds = ds'.
Proof. intros [n H1]%match_id_reads [n' H2]%match_id_reads. congruence. Qed.

(** The matches found are the IDs that occur. *)
Lemma find_ids_spec prev k s ds : no_i k s -> ds ∈ find_ids prev k s <-> id_occurs prev ds s.
Proof.
  revert prev k. induction s as [|a s IH]; intros prev k Hk; simpl.
  { split; [by intros ?%not_elem_of_nil|]. intros (b & t & Hs & _ & Hr).
    apply reads_id_head in Hr as [s' ->]. by destruct b. }
  assert (forall k, no_i k s -> (prev = false -> ~ reads_id ds (String a s)) ->
    ds ∈ find_ids (is_word a) k s <-> id_occurs prev ds (String a s)) as Hnext.
  { intros k' Hk' Hno. rewrite IH by done. unfold id_occurs. split.
    - intros (b & t & -> & Hw & Hr). exists (String a b), t. by rewrite app_cons.
    - intros ([|a' b] & t & Hs & Hw & Hr).
      + rewrite app_empty_l in Hs. subst t. by destruct (Hno Hw).
      + rewrite app_cons in Hs. simplify_eq. eauto. }
  destruct k as [|k].
  - destruct prev.
    + by apply Hnext.
    + destruct (match_id (String a s)) as [[ds0 n]|] eqn:Hm.
      * rewrite elem_of_cons. assert (reads_id ds0 (String a s)) as Hr0 by (apply match_id_reads; eauto).
        destruct (decide (ds = ds0)) as [->|Hne].
        { split; [|by left]. intros _. exists "", (String a s). by rewrite app_empty_l. }
        rewrite <- (Hnext (n - 1)%nat); [|by eapply match_id_no_i|].
        { naive_solver. }
        intros _ Hr. by apply Hne, (reads_id_unique _ _ (String a s)).
      * apply Hnext; [done|]. intros _ Hr. apply match_id_reads in Hr as [n Hn]. congruence.
  - destruct Hk as [Ha Hk]. apply Hnext; [done|]. intros _ [s' Hs]%reads_id_head. by simplify_eq.
Qed.

(** *** Lines *)

(** A text without the byte [c] that starts [x +:+ c :: y] starts [x]. *)
Lemma app_split_byte p r x c y :
  p +:+ r = x +:+ String c y -> byte_in c p = false -> exists r', x = p +:+ r' /\ r = r' +:+ String c y.
Proof.
  revert x. induction p as [|a p IH]; intros x Heq Hp.
  - exists x. by rewrite !app_empty_l in *.
  - simpl in Hp. apply orb_false_iff in Hp as [Ha Hp]. destruct x as [|b x].
    + rewrite app_cons, app_empty_l in Heq. simplify_eq. by rewrite Ascii.eqb_refl in Ha.
    + rewrite !app_cons in Heq. simplify_eq.
      match goal with E : p +:+ r = _ |- _ => destruct (IH _ E Hp) as (r' & -> & ->) end.
      exists r'. by rewrite !app_cons.
Qed.

Lemma nl_not_in_id q ds :
  (q = "" \/ exists a, is_quote a = true /\ q = String a "") -> all_digits ds = true ->
  byte_in nl ("id:" +:+ q +:+ ds) = false.
Proof.
  intros Hq Hds. rewrite !byte_in_app. simpl. rewrite orb_false_iff. split.
  - destruct Hq as [->|(a & Ha & ->)]; [done|]. simpl. rewrite orb_false_r.
    destruct (Ascii.eqb_spec a nl) as [->|]; done.
  - destruct (byte_in nl ds) eqn:Hb; [|done]. exfalso. clear -Hds Hb.
    induction ds as [|a ds IH]; simpl in *; [done|]. apply andb_true_iff in Hds as [Ha Hds].
    apply orb_true_iff in Hb as [Hb|Hb]; [|by apply IH]. apply Ascii.eqb_eq in Hb as ->. done.
Qed.

Lemma reads_id_line ds x y : x <> "" -> reads_id ds (x +:+ String nl y) <-> reads_id ds x.
Proof.
  intros Hx. unfold reads_id. split.
  - intros (q & r & Heq & Hq & Hne & Hds & Hr).
    rewrite <- !string_app_assoc in Heq. symmetry in Heq.
    apply app_split_byte in Heq as (r' & -> & ->).
    2: { rewrite !string_app_assoc. by apply nl_not_in_id. }
    exists q, r'. rewrite !string_app_assoc. split_and!; try done. by destruct r'.
  - intros (q & r & -> & Hq & Hne & Hds & Hr). exists q, (r +:+ String nl y).
    rewrite !string_app_assoc. split_and!; try done. by destruct r.
Qed.

Lemma reads_id_nl ds s : ~ reads_id ds (String nl s).
Proof. intros [s' Hs]%reads_id_head. discriminate Hs. Qed.

Lemma reads_id_empty ds : ~ reads_id ds "".
Proof. intros [s' Hs]%reads_id_head. discriminate Hs. Qed.

Lemma id_occurs_nil prev ds : ~ id_occurs prev ds "".
Proof. intros (b & t & Hs & _ & [s' ->]%reads_id_head). by destruct b. Qed.

Lemma id_occurs_cons prev ds a s :
  id_occurs prev ds (String a s) <->
  (prev = false /\ reads_id ds (String a s)) \/ id_occurs (is_word a) ds s.
Proof.
  unfold id_occurs. split.
  - intros ([|a' b] & t & Hs & Hw & Hr).
    + rewrite app_empty_l in Hs. subst t. by left.
    + rewrite app_cons in Hs. simplify_eq. right. eauto.
  - intros [[-> Hr]|(b & t & -> & Hw & Hr)].
    + exists "", (String a s). by rewrite app_empty_l.
    + exists (String a b), t. by rewrite app_cons.
Qed.

(** A line break separates the occurrences of two texts. *)
Lemma id_occurs_line prev ds x y :
  id_occurs prev ds (x +:+ String nl y) <-> id_occurs prev ds x \/ id_occurs false ds y.
Proof.
  revert prev. induction x as [|a x IH]; intros prev.
  - rewrite app_empty_l, id_occurs_cons. pose proof (id_occurs_nil prev ds).
    pose proof (reads_id_nl ds y). change (is_word nl) with false. naive_solver.
  - rewrite app_cons, !id_occurs_cons, IH.
    change (String a (x +:+ String nl y)) with (String a x +:+ String nl y).
    rewrite reads_id_line by done. naive_solver.
Qed.

(** The IDs of the text without comments are those of its active lines. *)
Lemma id_occurs_active ds rules :
  id_occurs false ds (stripCommentLines rules) <->
  exists line, line ∈ Split rules nl /\ is_comment_line line = false /\ id_occurs false ds line.
Proof.
  unfold stripCommentLines. induction (Split rules nl) as [|line lines IH].
  - split; [by intros ?%id_occurs_nil|]. by intros (? & ?%not_elem_of_nil & _).
  - rewrite filter_cons. case_decide as Hc.
    + rewrite fmap_cons.
      assert (forall x l, String.concat "" (x :: l) = x +:+ String.concat "" l) as ->.
      { intros x [|y l]; [|done]. simpl. by rewrite app_empty_r. }
      rewrite string_app_assoc, app_cons, app_empty_l, id_occurs_line, IH.
      setoid_rewrite elem_of_cons. naive_solver.
    + rewrite IH. setoid_rewrite elem_of_cons. naive_solver.
Qed.

(** *** The registry and the loop *)

Lemma unsupportedRules_ids : map_Forall (fun id rule => ID rule = id) unsupportedRules.
Proof. apply (bool_decide_unpack _). vm_compute. exact I. Qed.

#[local] Opaque unsupportedRules.

Record collected (seen : gset Z) (found : list UnsupportedRule) : Prop := {
  co_seen id : id ∈ seen <-> id ∈ (ID <$> found);
  co_reg e : e ∈ found -> unsupportedRules !! ID e = Some e;
  co_nodup : NoDup (ID <$> found)
}.

(** Some match names the registered rule. *)
Definition named_by (matches : list string) (e : UnsupportedRule) : Prop :=
  exists m id, m ∈ matches /\ Atoi m = Some id /\ unsupportedRules !! id = Some e.

Lemma named_by_nil e : ~ named_by [] e.
Proof. by intros (m & id & []%not_elem_of_nil & _). Qed.

Lemma named_by_cons m matches e :
  named_by (m :: matches) e <->
  (exists id, Atoi m = Some id /\ unsupportedRules !! id = Some e) \/ named_by matches e.
Proof.
  unfold named_by. split.
  - intros (m' & id & [->|Hm]%elem_of_cons & ? & ?); [left|right]; eauto.
  - intros [(id & ? & ?)|(m' & id & ? & ? & ?)]; eexists _, _; (split; [|done]); by constructor.
Qed.

Lemma named_by_cons_not m matches e :
  ~ (exists id, Atoi m = Some id /\ unsupportedRules !! id = Some e) ->
  named_by (m :: matches) e <-> named_by matches e.
Proof. rewrite named_by_cons. tauto. Qed.

Lemma collected_add id entry seen found :
  collected seen found -> id ∉ seen -> unsupportedRules !! id = Some entry ->
  collected ({[id]} ∪ seen) (found ++ [entry]).
Proof.
  intros Hc Hseen Hreg. pose proof (unsupportedRules_ids _ _ Hreg) as Hid. simpl in Hid. split.
  - intros i. rewrite fmap_app, elem_of_app, <- (co_seen _ _ Hc), elem_of_union, elem_of_singleton.
    simpl. rewrite list_elem_of_singleton, Hid. tauto.
  - intros e [?|Hin]%elem_of_app; [by apply (co_reg _ _ Hc)|].
    apply list_elem_of_singleton in Hin as ->. by rewrite Hid.
  - rewrite fmap_app. apply NoDup_app. split_and!; [apply Hc| |apply NoDup_singleton].
    intros i Hi Hin. apply list_elem_of_singleton in Hin as ->.
    apply Hseen, (co_seen _ _ Hc). by rewrite <- Hid.
Qed.

Lemma collect_rules_spec matches seen found :
  collected seen found ->
  NoDup (ID <$> collect_rules matches seen found) /\
  forall e, e ∈ collect_rules matches seen found <-> e ∈ found \/ named_by matches e.
Proof.
  revert seen found. induction matches as [|m matches IH]; intros seen found Hc; simpl.
  { split; [apply Hc|]. intros e. pose proof (named_by_nil e). tauto. }
  destruct (Atoi m) as [id|] eqn:Hm.
  2: { destruct (IH _ _ Hc) as [Hn He]. split; [done|]. intros e. rewrite He.
       rewrite named_by_cons_not; [done|]. intros (? & ? & _). congruence. }
  case_bool_decide as Hseen.
  - destruct (IH _ _ Hc) as [Hn He]. split; [done|]. intros e. rewrite He, named_by_cons.
    split; [tauto|]. intros [?|[(id' & Hid & Hreg)|?]]; [tauto| |tauto]. left. rewrite Hm in Hid. simplify_eq.
    apply (co_seen _ _ Hc) in Hseen. apply list_elem_of_fmap in Hseen as (e' & -> & He').
    apply (co_reg _ _ Hc) in He' as Hr. congruence.
  - destruct (unsupportedRules !! id) as [entry|] eqn:Hreg.
    + destruct (IH _ _ (collected_add _ _ _ _ Hc Hseen Hreg)) as [Hn He].
      split; [done|]. intros e. rewrite He, elem_of_app, list_elem_of_singleton, named_by_cons.
      assert (e = entry <-> exists id', Atoi m = Some id' /\ unsupportedRules !! id' = Some e) as ->; [|tauto].
      rewrite Hm. split; [intros ->; eauto|]. intros (id' & ? & ?). simplify_eq. congruence.
    + destruct (IH _ _ Hc) as [Hn He]. split; [done|]. intros e. rewrite He.
      rewrite named_by_cons_not; [done|]. intros (id' & ? & ?). congruence.
Qed.

Lemma sorted_strict (l : list UnsupportedRule) :
  StronglySorted rule_le l -> NoDup (ID <$> l) -> StronglySorted (fun a b => ID a < ID b) l.
Proof.
  induction 1 as [|a l Hs IH Ha]; [by constructor|]. rewrite fmap_cons, NoDup_cons.
  intros [Hn Hnd]. constructor; [by apply IH|]. apply Forall_forall. intros b Hb.
  rewrite Forall_forall in Ha. specialize (Ha b Hb). unfold rule_le in Ha.
  assert (ID a <> ID b); [|lia]. intros Heq. apply Hn. rewrite Heq. by apply list_elem_of_fmap_2.
Qed.

(** ** The properties *)

(** C38: [CheckUnsupportedRules] reports exactly the registered rules whose ID
    occurs, at a word boundary and optionally quoted, on a line of the rules
    that is not a comment; each once, in increasing order of the ID. *)
Theorem CheckUnsupportedRules_exact (rules : string) :
  StronglySorted (fun a b => ID a < ID b) (CheckUnsupportedRules rules) /\
  forall e, e ∈ CheckUnsupportedRules rules <->
    exists line ds id, line ∈ Split rules nl /\ is_comment_line line = false /\
      id_occurs false ds line /\ Atoi ds = Some id /\ unsupportedRules !! id = Some e.
Proof.
  unfold CheckUnsupportedRules.
  destruct (collect_rules_spec (find_ids false 0 (stripCommentLines rules)) ∅ []) as [Hn He].
  { split; [set_solver| |constructor]. intros e []%not_elem_of_nil. }
  split.
  - apply sorted_strict; [apply (StronglySorted_merge_sort _)|]. by rewrite merge_sort_Permutation.
  - intros e. rewrite merge_sort_Permutation, He. unfold named_by. split.
    + intros [[]%not_elem_of_nil|(m & id & Hm & ? & ?)].
      apply find_ids_spec in Hm; [|done]. apply id_occurs_active in Hm as (line & ? & ? & ?). eauto 10.
    + intros (line & ds & id & ? & ? & ? & ? & ?). right. exists ds, id. split; [|done].
      apply find_ids_spec; [done|]. apply id_occurs_active. eauto.
Qed.

(** The two tiers partition the registry: the incompatible and the redundant
    rule IDs together are all unsupported IDs, each list sorted, none in both. *)
Theorem tiers_partition :
  IncompatibleRuleIDs ++ RedundantRuleIDs ≡ₚ AllUnsupportedRuleIDs /\
  Sorted Z.le AllUnsupportedRuleIDs /\ Sorted Z.le IncompatibleRuleIDs /\ Sorted Z.le RedundantRuleIDs /\
  NoDup AllUnsupportedRuleIDs /\ length AllUnsupportedRuleIDs = 37%nat.
Proof.
  split_and!; [|apply (Sorted_merge_sort _)|apply (Sorted_merge_sort _)|apply (Sorted_merge_sort _)| |];
    apply (bool_decide_unpack _); vm_compute; exact I.
Qed.
