(* ===== verification/MemFS.v ===== *)
(** * The in-memory filesystem of data files ([internal/rulesets/memfs/memfs.go])

    and [getDataFilesystem] ([internal/controller/ruleset_controller_secret_data.go]),
    which fills one from the data files of a RuleSet. *)
From S2P Require Import Prelude GoLib GoErrors.

Record memEntry := {
  contents : string;
  modTime : Z
}.

Record MemFS := { files : gmap string memEntry }.

Definition NewMemFS : MemFS := {| files := ∅ |}.

(** [WriteFile] copies the bytes; [now] is the time of the write. *)
Definition WriteFile (now : Z) (name : string) (text : string) (m : MemFS) : MemFS :=
  {| files := <[name := {| contents := text; modTime := now |}]> (files m) |}.

(** A file as [Open] returns it; its reader is at the start of the contents. *)
Record memFile := {
  f_name : string;
  f_modTime : Z;
  f_reader : string;
  f_size : Z
}.

Definition Open (m : MemFS) (name : string) : gerror + memFile :=
  match files m !! name with
  | None => inl (ErrPath "open" name ErrNotExist)
  | Some entry =>
      inr {| f_name := name; f_modTime := modTime entry; f_reader := contents entry;
             f_size := len (contents entry) |}
  end.

(** The [fs.FileInfo] methods of a file. *)
Definition Stat (f : memFile) : gerror + memFile := inr f.
Definition FileName (f : memFile) : string := f_name f.
Definition FileSize (f : memFile) : Z := f_size f.
Definition FileMode (f : memFile) : Z := 420.
Definition FileModTime (f : memFile) : Z := f_modTime f.
Definition IsDir (f : memFile) : bool := false.

(** The files are written in the order the map iteration gives. *)
Definition getDataFilesystem (now : Z) (order : list string) (dataFiles : option (gmap string string)) :
    option MemFS :=
  match dataFiles with
  | None => None
  | Some m =>
      Some (fold_left (fun mfs filename => match m !! filename with
                                           | Some text => WriteFile now filename text mfs
                                           | None => mfs
                                           end) order NewMemFS)
  end.

(** ** Lemmas *)

Lemma WriteFile_Open now name text m name' :
  Open (WriteFile now name text m) name' =
    if bool_decide (name = name')
    then inr {| f_name := name; f_modTime := now; f_reader := text; f_size := len text |}
    else Open m name'.
Proof.
  unfold Open, WriteFile. simpl. case_bool_decide as Hn.
  - subst. by rewrite lookup_insert_eq.
  - by rewrite lookup_insert_ne.
Qed.

Lemma data_filesystem_lookup now order (m : gmap string string) mfs name :
  files (fold_left (fun mfs filename => match m !! filename with
                                        | Some text => WriteFile now filename text mfs
                                        | None => mfs
                                        end) order mfs) !! name =
  if bool_decide (name ∈ order /\ is_Some (m !! name))
  then (fun text => {| contents := text; modTime := now |}) <$> m !! name
  else files mfs !! name.
Proof.
  revert mfs. induction order as [|f order IH]; intros mfs; cbn [fold_left].
  { by rewrite bool_decide_eq_false_2 by (intros [[]%not_elem_of_nil _]). }
  rewrite IH. destruct (decide (name ∈ order /\ is_Some (m !! name))) as [Hin|Hin].
  { rewrite (bool_decide_eq_true_2 _ Hin).
    rewrite bool_decide_eq_true_2 by (destruct Hin; split; [by right|done]). done. }
  rewrite (bool_decide_eq_false_2 _ Hin). destruct (decide (f = name)) as [->|Hne].
  - destruct (m !! name) as [text|] eqn:Hm.
    + rewrite bool_decide_eq_true_2 by (split; [by left|eauto]). simpl. by rewrite lookup_insert_eq.
    + by rewrite bool_decide_eq_false_2 by (intros [_ [? ?]]; congruence).
  - rewrite (bool_decide_eq_false_2 (name ∈ f :: order /\ _)).
    2: { intros [[->|?]%elem_of_cons ?]; [done|by apply Hin]. }
    destruct (m !! f); simpl; [by rewrite lookup_insert_ne|done].
Qed.

(** ** The properties *)

(** The filesystem Coraza reads from is the RuleSet's data files: opening a
    name gives exactly the contents stored under it, with their size, and a
    missing name gives a [*fs.PathError] that wraps [fs.ErrNotExist] and names
    the file; whatever the order in which the map is traversed. *)
Theorem getDataFilesystem_reads (now : Z) (order : list string) (m : gmap string string) (name : string) :
  order ≡ₚ elements (dom m) ->
  exists mfs, getDataFilesystem now order (Some m) = Some mfs /\
    match m !! name with
    | Some text => Open mfs name = inr {| f_name := name; f_modTime := now;
                                              f_reader := text; f_size := len text |}
    | None => exists err, Open mfs name = inl err /\ is_not_exist err = true /\
                as_path_error err = Some (name, ErrNotExist)
    end.
Proof.
  intros Ho. eexists. split; [done|]. unfold Open. rewrite data_filesystem_lookup.
  destruct (m !! name) as [text|] eqn:Hm.
  - rewrite bool_decide_eq_true_2; [done|]. split; [|eauto].
    rewrite Ho, elem_of_elements, elem_of_dom. eauto.
  - rewrite bool_decide_eq_false_2 by (intros [_ [? ?]]; congruence).
    simpl. rewrite lookup_empty. eauto.
Qed.

Theorem getDataFilesystem_reads_witness :
  let m := {["a.data" := "1"; "b.data" := "22"]} : gmap string string in
  ["b.data"; "a.data"] ≡ₚ elements (dom m) /\
  exists mfs, getDataFilesystem 5 ["b.data"; "a.data"] (Some m) = Some mfs /\
    Open mfs "b.data" = inr {| f_name := "b.data"; f_modTime := 5; f_reader := "22"; f_size := 2 |}.
Proof.
  intros m.
  assert (["b.data"; "a.data"] ≡ₚ elements (dom m)) as Ho by (apply (bool_decide_unpack _); vm_compute; exact I).
  split; [exact Ho|]. exact (getDataFilesystem_reads 5 ["b.data"; "a.data"] m "b.data" Ho).
Defined.
