(* ===== verification/KubeApi.v ===== *)
(** * The Kubernetes side of the controllers

    The API types of [api/v1alpha1] (the fields the controllers read), the
    objects the controllers create, and the calls they make.  The API server,
    client libraries and the Coraza engine are outside the repository: an [api]
    is any set of functions from the calls made so far and the call's arguments
    to an answer, so that answers may change between calls.  Controller code is
    written in the monad [prog]: it appends its calls to the trace and may fail
    with an error. *)
From S2P Require Import Prelude GoLib GoErrors MemFS.

Record NamespacedName := {
  nn_Namespace : string;
  nn_Name : string
}.
#[export] Instance NamespacedName_eq_dec : EqDecision NamespacedName.
Proof. solve_decision. Defined.

(** ** Conditions *)

Inductive ConditionStatus := ConditionTrue | ConditionFalse | ConditionUnknown.
#[export] Instance ConditionStatus_eq_dec : EqDecision ConditionStatus.
Proof. solve_decision. Defined.

Record Condition := {
  c_Type : string;
  c_Status : ConditionStatus;
  c_ObservedGeneration : Z;
  c_LastTransitionTime : Z;
  c_Reason : string;
  c_Message : string
}.
#[export] Instance Condition_eq_dec : EqDecision Condition.
Proof. solve_decision. Defined.

(** The functions of [apimeta] on condition lists, with what they document:
    [SetStatusCondition] finds the condition of the new one's type and gives it
    the new status, reason, message and generation. *)
Class ApiMeta := {
  FindStatusCondition : list Condition -> string -> option Condition;
  SetStatusCondition : list Condition -> Condition -> list Condition;
  RemoveStatusCondition : list Condition -> string -> list Condition;

  find_set_same l c : exists t,
    FindStatusCondition (SetStatusCondition l c) (c_Type c) =
      Some {| c_Type := c_Type c; c_Status := c_Status c;
              c_ObservedGeneration := c_ObservedGeneration c; c_LastTransitionTime := t;
              c_Reason := c_Reason c; c_Message := c_Message c |};
  find_set_other l c ty : ty <> c_Type c ->
    FindStatusCondition (SetStatusCondition l c) ty = FindStatusCondition l ty;
  find_remove_same l ty : FindStatusCondition (RemoveStatusCondition l ty) ty = None;
  find_remove_other l ty ty' : ty <> ty' ->
    FindStatusCondition (RemoveStatusCondition l ty) ty' = FindStatusCondition l ty'
}.

(** ** API types ([api/v1alpha1]) *)

Record ObjectMeta := {
  Namespace : string;
  Name : string;
  UID : string;
  Generation : Z;
  Labels : gmap string string;
  Annotations : gmap string string;
  Finalizers : list string;
  (** a zero timestamp is [None] *)
  DeletionTimestamp : option Z
}.

Record SourceReference := { src_Name : string }.
Record DataReference := { data_Name : string }.
Record RuleSetSpec := { Sources : list SourceReference; Data : list DataReference }.

Record RuleSet := {
  rs_Meta : ObjectMeta;
  rs_Spec : RuleSetSpec;
  rs_Conditions : list Condition
}.

Record RuleSource := { rsrc_Meta : ObjectMeta; rsrc_Rules : string }.
Record RuleData := { rd_Meta : ObjectMeta; rd_Files : gmap string string }.

Definition AnnotationSkipUnsupportedRulesCheck : string := "waf.k8s.coraza.io/skip-unsupported-rules-check".
Definition AnnotationSkipValidation : string := "coraza.io/validation".

(** Enumerations are strings on the wire: an object may hold any value. *)
Definition FailurePolicyFail : string := "fail".
Definition FailurePolicyAllow : string := "allow".
Definition EngineTargetTypeGateway : string := "Gateway".
Definition DriverTypeWasm : string := "wasm".
Definition MaxImageLen : Z := 1024.

Record EngineTarget := { target_Type : string; target_Name : string }.
Record WasmDriverConfig := { Image : string; ImagePullSecret : string }.
Record DriverConfig := { driver_Type : string; driver_Wasm : option WasmDriverConfig }.
Record RuleSetCacheServerConfig := { PollIntervalSeconds : Z }.

Record EngineSpec := {
  e_RuleSet : string;
  e_Target : EngineTarget;
  e_FailurePolicy : string;
  e_RuleSetCacheServer : option RuleSetCacheServerConfig;
  e_Driver : DriverConfig
}.

Record Engine := {
  e_Meta : ObjectMeta;
  e_Spec : EngineSpec;
  (** [Status.Conditions]; a nil status is [None] *)
  e_Status : option (list Condition)
}.

(** ** Objects the controllers write *)

(** [metav1.LabelSelector] (the controllers only set [MatchLabels]). *)
Record LabelSelector := { MatchLabels : gmap string string }.

Record NetworkPolicyPeer := { NamespaceSelector : LabelSelector; PeerPodSelector : LabelSelector }.
Record NetworkPolicyPort := { port_Protocol : string; port_Port : Z }.
Record NetworkPolicyIngressRule := { From : list NetworkPolicyPeer; Ports : list NetworkPolicyPort }.

Record NetworkPolicy := {
  np_Namespace : string;
  np_Name : string;
  np_GenerateName : string;
  np_ResourceVersion : string;
  np_Labels : gmap string string;
  np_PodSelector : LabelSelector;
  np_PolicyTypes : list string;
  np_Ingress : list NetworkPolicyIngressRule
}.

Record OwnerReference := {
  or_APIVersion : string;
  or_Kind : string;
  or_Name : string;
  or_UID : string;
  or_Controller : bool
}.

Record ServiceAccount := {
  sa_Namespace : string;
  sa_Name : string;
  sa_GenerateName : string;
  sa_Labels : gmap string string;
  sa_Owners : list OwnerReference
}.

(** [map[string]any] values of an unstructured object. *)
Inductive value :=
  | VString (s : string)
  | VInt (z : Z)
  | VList (l : list value)
  | VMap (fields : list (string * value)).

Record unstructured := {
  u_Group : string;
  u_Version : string;
  u_Kind : string;
  u_Name : string;
  u_Namespace : string;
  u_Labels : gmap string string;
  u_Owners : list OwnerReference;
  u_Spec : value
}.

(** A cache client token ([TokenEntry] of [engine_controller_token.go]). *)
Record TokenEntry := {
  Token : string;
  IssuedAt : Z;
  ExpiresAt : Z
}.

(** ** The trace of calls *)

(** A logged change of a tracked condition: its type, status and reason before
    and after. *)
Record transition := {
  tr_Type : string;
  tr_From : option (ConditionStatus * string);
  tr_To : option (ConditionStatus * string)
}.

Inductive effect :=
  | EffGet (kind : string) (nn : NamespacedName)
  | EffList (kind ns : string) (labels : gmap string string)
  | EffEvent (etype reason action note : string)
  | EffStatusPatch (kind : string) (nn : NamespacedName) (conds : list Condition)
  | EffTransitions (kind : string) (l : list transition)
  (** the cache operation [Put] *)
  | EffPut (key rules : string) (datafiles : option (gmap string string))
  | EffPatchFinalizers (nn : NamespacedName) (finalizers : list string)
  | EffCreatePolicy (np : NetworkPolicy)
  | EffUpdatePolicy (np : NetworkPolicy)
  | EffDeletePolicy (nn : NamespacedName)
  | EffCreateServiceAccount (sa : ServiceAccount)
  | EffCreateToken (sa : NamespacedName) (audiences : list string) (expirationSeconds : Z)
  | EffApply (u : unstructured).

(** The clock is read after any number of calls. *)
Record api := {
  now : list effect -> Z;
  IsNotFound : gerror -> bool;
  get_RuleSet : list effect -> NamespacedName -> gerror + RuleSet;
  get_RuleSource : list effect -> NamespacedName -> gerror + RuleSource;
  get_RuleData : list effect -> NamespacedName -> gerror + RuleData;
  get_Engine : list effect -> NamespacedName -> gerror + Engine;
  (** a successful patch gives the object as the server stored it *)
  patch_RuleSet_status : list effect -> RuleSet -> gerror + RuleSet;
  patch_Engine_status : list effect -> Engine -> gerror + Engine;
  patch_Engine : list effect -> Engine -> gerror + Engine;
  list_policies : list effect -> string -> gmap string string -> gerror + list NetworkPolicy;
  create_policy : list effect -> NetworkPolicy -> gerror + NetworkPolicy;
  update_policy : list effect -> NetworkPolicy -> gerror + NetworkPolicy;
  delete_policy : list effect -> NamespacedName -> option gerror;
  list_service_accounts : list effect -> string -> gmap string string -> gerror + list ServiceAccount;
  create_service_account : list effect -> ServiceAccount -> gerror + ServiceAccount;
  (** a token and its expiration *)
  create_token : list effect -> NamespacedName -> list string -> Z -> gerror + (string * Z);
  apply_object : list effect -> unstructured -> gerror + unstructured;
  (** [controllerutil.SetControllerReference] *)
  set_controller_reference : Engine -> unstructured -> gerror + unstructured;
  (** [controllerutil]'s functions on an object's finalizers *)
  ContainsFinalizer : Engine -> string -> bool;
  AddFinalizer : Engine -> string -> Engine;
  RemoveFinalizer : Engine -> string -> Engine;
  (** [metav1.LabelSelectorAsSelector] and [Selector.Matches] *)
  LabelSelectorAsSelector : LabelSelector -> gerror + (gmap string string -> bool);
  (** [List] of the Engines of a namespace *)
  list_Engines : list effect -> string -> gerror + list Engine;
  (** [validation.IsDNS1035Label]: the reasons why a name is none *)
  IsDNS1035Label : string -> list string;
  (** [coraza.NewWAF] on directives, optionally with a root filesystem *)
  NewWAF : string -> option MemFS -> option gerror
}.

(** ** Programs *)

Record world := {
  w_trace : list effect;
  (** [EngineReconciler.tokenStore] *)
  w_tokens : gmap string TokenEntry
}.

Definition prog (A : Type) : Type := world -> world * (gerror + A).

#[export] Instance prog_ret : MRet prog := fun A a w => (w, inr a).
#[export] Instance prog_bind : MBind prog := fun A B k m w =>
  match m w with (w', inl e) => (w', inl e) | (w', inr a) => k a w' end.

Definition throw {A} (e : gerror) : prog A := fun w => (w, inl e).
(** Run [m] and hand its error to the caller as a value. *)
Definition attempt {A} (m : prog A) : prog (gerror + A) := fun w => let '(w', r) := m w in (w', inr r).

Definition log_effect (e : effect) (w : world) : world :=
  {| w_trace := w_trace w ++ [e]; w_tokens := w_tokens w |}.

(** A call that the API server answers. *)
Definition call {A} (answer : list effect -> gerror + A) (e : effect) : prog A :=
  fun w => (log_effect e w, answer (w_trace w)).
(** A call without an answer. *)
Definition emit (e : effect) : prog unit := fun w => (log_effect e w, inr tt).
Definition get_tokens : prog (gmap string TokenEntry) := fun w => (w, inr (w_tokens w)).
Definition set_tokens (m : gmap string TokenEntry) : prog unit := fun w =>
  ({| w_trace := w_trace w; w_tokens := m |}, inr tt).
Definition time_now (A : api) : prog Z := fun w => (w, inr (now A (w_trace w))).

(** [ctrl.Result]. *)
Record Result := { RequeueAfter : Z }.
Definition no_requeue : Result := {| RequeueAfter := 0 |}.

(** ** Lemmas *)

Lemma prog_bind_eq {A B} (m : prog A) (k : A -> prog B) w :
  (m ≫= k) w = match m w with (w', inl e) => (w', inl e) | (w', inr a) => k a w' end.
Proof. done. Qed.

(** What a program adds to the trace. *)
Definition adds {A} (P : effect -> Prop) (m : prog A) : Prop :=
  forall w, exists l, w_trace (m w).1 = w_trace w ++ l /\ Forall P l.

Lemma adds_mono {A} (P Q : effect -> Prop) (m : prog A) :
  (forall e, P e -> Q e) -> adds P m -> adds Q m.
Proof.
  intros HPQ Hm w. destruct (Hm w) as (l & -> & Hl). exists l. split; [done|].
  by eapply Forall_impl.
Qed.

Lemma adds_ret {A} P (a : A) : adds P (mret a).
Proof. intros w. exists []. by rewrite app_nil_r. Qed.

Lemma adds_throw {A} P (e : gerror) : adds P (throw (A := A) e).
Proof. intros w. exists []. by rewrite app_nil_r. Qed.

Lemma adds_bind {A B} P (m : prog A) (k : A -> prog B) :
  adds P m -> (forall a, adds P (k a)) -> adds P (m ≫= k).
Proof.
  intros Hm Hk w. rewrite prog_bind_eq. destruct (Hm w) as (l & Hl & HP).
  destruct (m w) as [w' [e|a]]; simpl in Hl; [by exists l|].
  destruct (Hk a w') as (l' & -> & HP'). exists (l ++ l'). rewrite Hl, app_assoc.
  split; [done|]. by apply Forall_app.
Qed.

Lemma adds_attempt {A} P (m : prog A) : adds P m -> adds P (attempt m).
Proof. intros Hm w. unfold attempt. specialize (Hm w). by destruct (m w). Qed.

Lemma adds_call {A} (P : effect -> Prop) (f : list effect -> gerror + A) e : P e -> adds P (call f e).
Proof. intros He w. exists [e]. split; [done|]. by constructor. Qed.

Lemma adds_emit (P : effect -> Prop) e : P e -> adds P (emit e).
Proof. intros He w. exists [e]. split; [done|]. by constructor. Qed.

Lemma adds_now P a : adds P (time_now a).
Proof. intros w. exists []. by rewrite app_nil_r. Qed.

Lemma adds_get_tokens P : adds P get_tokens.
Proof. intros w. exists []. by rewrite app_nil_r. Qed.

Lemma adds_set_tokens P m : adds P (set_tokens m).
Proof. intros w. exists []. by rewrite app_nil_r. Qed.

#[export] Hint Resolve adds_ret adds_throw adds_bind adds_attempt adds_call adds_emit adds_now
  adds_get_tokens adds_set_tokens : operator.

(** Walk through a program that only makes calls satisfying [P]. *)
Ltac solve_adds :=
  repeat first
    [ apply adds_ret | apply adds_throw | apply adds_now | apply adds_get_tokens | apply adds_set_tokens
    | apply adds_emit | apply adds_call | apply adds_attempt
    | apply adds_bind; [|intros ?]
    | progress auto with operator
    | case_match ].

(** Postconditions: the trace before, what the program added, its result. *)
Definition post {A} (m : prog A) (Q : list effect -> list effect -> gerror + A -> Prop) : Prop :=
  forall w, exists l, w_trace (m w).1 = w_trace w ++ l /\ Q (w_trace w) l (m w).2.

Lemma post_mono {A} (m : prog A) (Q R : list effect -> list effect -> gerror + A -> Prop) :
  post m Q -> (forall tr l r, Q tr l r -> R tr l r) -> post m R.
Proof. intros Hm HQR w. destruct (Hm w) as (l & Hl & HQ). eauto. Qed.

Lemma post_bind {A B} (m : prog A) (k : A -> prog B) Q (R : A -> list effect -> list effect -> gerror + B -> Prop) :
  post m Q -> (forall a, post (k a) (R a)) ->
  post (m ≫= k) (fun tr l r =>
    (exists e, r = inl e /\ Q tr l (inl e)) \/
    (exists a l1 l2, l = l1 ++ l2 /\ Q tr l1 (inr a) /\ R a (tr ++ l1) l2 r)).
Proof.
  intros Hm Hk w. rewrite prog_bind_eq. destruct (Hm w) as (l & Hl & HQ).
  destruct (m w) as [w' [e|a]]; simpl in *; [exists l; eauto|].
  destruct (Hk a w') as (l' & Hl' & HR). exists (l ++ l'). rewrite Hl', Hl, app_assoc.
  rewrite Hl in HR. split; [done|]. right. eauto 10.
Qed.

Lemma post_adds {A} P (m : prog A) : adds P m -> post m (fun _ l _ => Forall P l).
Proof. done. Qed.

Lemma post_ret {A} (a : A) : post (mret a) (fun _ l r => l = [] /\ r = inr a).
Proof. intros w. exists []. by rewrite app_nil_r. Qed.

Lemma post_throw {A} (e : gerror) : post (throw (A := A) e) (fun _ l r => l = [] /\ r = inl e).
Proof. intros w. exists []. by rewrite app_nil_r. Qed.

Lemma post_emit e : post (emit e) (fun _ l r => l = [e] /\ r = inr tt).
Proof. intros w. by exists [e]. Qed.

Lemma post_attempt_call {A} (f : list effect -> gerror + A) e :
  post (attempt (call f e)) (fun tr l r => l = [e] /\ r = inr (f tr)).
Proof. intros w. by exists [e]. Qed.

Lemma post_now A : post (time_now A) (fun tr l r => l = [] /\ exists t, r = inr t).
Proof. intros w. exists []. rewrite app_nil_r. eauto. Qed.

(** ** A concrete instance

    Condition lists as the API machinery keeps them, and an API server that
    holds the given objects and stores what it is sent; the witnesses of the
    controllers' properties run on them. *)
Fixpoint list_find (l : list Condition) (ty : string) : option Condition :=
  match l with
  | [] => None
  | c :: l' => if String.eqb (c_Type c) ty then Some c else list_find l' ty
  end.

Fixpoint list_set (l : list Condition) (c : Condition) : list Condition :=
  match l with
  | [] => [c]
  | d :: l' =>
      if String.eqb (c_Type d) (c_Type c) then
        {| c_Type := c_Type c; c_Status := c_Status c; c_ObservedGeneration := c_ObservedGeneration c;
           c_LastTransitionTime := if bool_decide (c_Status d = c_Status c) then c_LastTransitionTime d
                                   else c_LastTransitionTime c;
           c_Reason := c_Reason c; c_Message := c_Message c |} :: l'
      else d :: list_set l' c
  end.

Definition list_remove (l : list Condition) (ty : string) : list Condition :=
  filter (fun c => c_Type c <> ty) l.

Lemma list_find_set_same l c : exists t,
  list_find (list_set l c) (c_Type c) =
    Some {| c_Type := c_Type c; c_Status := c_Status c;
            c_ObservedGeneration := c_ObservedGeneration c; c_LastTransitionTime := t;
            c_Reason := c_Reason c; c_Message := c_Message c |}.
Proof.
  induction l as [|d l [t IH]]; simpl.
  - rewrite String.eqb_refl. exists (c_LastTransitionTime c). by destruct c.
  - destruct (String.eqb (c_Type d) (c_Type c)) eqn:He; simpl.
    + rewrite String.eqb_refl. eauto.
    + rewrite He. eauto.
Qed.

Lemma list_find_set_other l c ty : ty <> c_Type c -> list_find (list_set l c) ty = list_find l ty.
Proof.
  intros Hne. assert (String.eqb (c_Type c) ty = false) as Hf by (apply String.eqb_neq; congruence).
  induction l as [|d l IH]; simpl; [by rewrite Hf|].
  destruct (String.eqb_spec (c_Type d) (c_Type c)) as [Heq|]; simpl; [by rewrite Heq, Hf|by rewrite IH].
Qed.

Lemma list_find_remove_same l ty : list_find (list_remove l ty) ty = None.
Proof.
  unfold list_remove. induction l as [|c l IH]; [done|]. rewrite filter_cons.
  case_decide as Hc; [|done]. simpl. by rewrite (proj2 (String.eqb_neq _ _) Hc).
Qed.

Lemma list_find_remove_other l ty ty' : ty <> ty' -> list_find (list_remove l ty) ty' = list_find l ty'.
Proof.
  intros Hne. unfold list_remove. induction l as [|c l IH]; [done|]. rewrite filter_cons.
  case_decide as Hc; simpl; [by rewrite IH|].
  assert (c_Type c = ty) as -> by (destruct (decide (c_Type c = ty)); [done|by destruct Hc]).
  by rewrite (proj2 (String.eqb_neq _ _) Hne).
Qed.

Definition list_ApiMeta : ApiMeta := {|
  FindStatusCondition := list_find;
  SetStatusCondition := list_set;
  RemoveStatusCondition := list_remove;
  find_set_same := list_find_set_same;
  find_set_other := list_find_set_other;
  find_remove_same := list_find_remove_same;
  find_remove_other := list_find_remove_other
|}.

Definition not_found : gerror :=
  ErrStatus {| st_code := 404; st_reason := "NotFound"; st_retryAfterSeconds := None;
               st_message := "not found" |}.

Definition with_finalizers (e : Engine) (l : list string) : Engine :=
  {| e_Meta := {| Namespace := Namespace (e_Meta e); Name := Name (e_Meta e); UID := UID (e_Meta e);
                  Generation := Generation (e_Meta e); Labels := Labels (e_Meta e);
                  Annotations := Annotations (e_Meta e); Finalizers := l;
                  DeletionTimestamp := DeletionTimestamp (e_Meta e) |};
     e_Spec := e_Spec e; e_Status := e_Status e |}.

Definition quiet_api (rulesets : list RuleSet) (sources : list RuleSource) (datas : list RuleData)
    (engines : list Engine) (waf : string -> option MemFS -> option gerror) : api :=
  let find {O} (meta : O -> ObjectMeta) (l : list O) (nn : NamespacedName) : gerror + O :=
    match filter (fun o => Namespace (meta o) = nn_Namespace nn /\ Name (meta o) = nn_Name nn) l with
    | o :: _ => inr o
    | [] => inl not_found
    end in
  {| now := fun tr => Z.of_nat (length tr);
     IsNotFound := fun e => match as_status_error e with
                            | Some st => String.eqb (st_reason st) "NotFound"
                            | None => false
                            end;
     get_RuleSet := fun _ => find rs_Meta rulesets;
     get_RuleSource := fun _ => find rsrc_Meta sources;
     get_RuleData := fun _ => find rd_Meta datas;
     get_Engine := fun _ => find e_Meta engines;
     patch_RuleSet_status := fun _ => inr;
     patch_Engine_status := fun _ => inr;
     patch_Engine := fun _ => inr;
     list_policies := fun _ _ _ => inr [];
     create_policy := fun _ => inr;
     update_policy := fun _ => inr;
     delete_policy := fun _ _ => None;
     list_service_accounts := fun _ _ _ => inr [];
     create_service_account := fun _ => inr;
     create_token := fun tr _ _ secs => inr ("jwt", Z.of_nat (length tr) + secs * Second);
     apply_object := fun _ => inr;
     set_controller_reference := fun _ => inr;
     ContainsFinalizer := fun e f => bool_decide (f ∈ Finalizers (e_Meta e));
     AddFinalizer := fun e f => with_finalizers e (Finalizers (e_Meta e) ++ [f]);
     RemoveFinalizer := fun e f => with_finalizers e (filter (fun g => g <> f) (Finalizers (e_Meta e)));
     LabelSelectorAsSelector := fun ls => inr (fun labels => bool_decide (MatchLabels ls ⊆ labels));
     list_Engines := fun _ ns => inr (filter (fun e => Namespace (e_Meta e) = ns) engines);
     IsDNS1035Label := fun name => if String.eqb name "" then ["must not be empty"] else [];
     NewWAF := waf |}.

Definition empty_world : world := {| w_trace := []; w_tokens := ∅ |}.

Definition sample_meta (ns name : string) : ObjectMeta :=
  {| Namespace := ns; Name := name; UID := "uid"; Generation := 1; Labels := ∅; Annotations := ∅;
     Finalizers := []; DeletionTimestamp := None |}.
