(* ===== verification/DeepCopy.v ===== *)
(** * The generated copies of the API types ([api/v1alpha1])

    The structs of [*_types.go] with their pointers, slices and maps, the cells
    that hold them, and [zz_generated.deepcopy.go].  A struct is declared once
    over the types of its indirect fields: with addresses it is what the heap
    holds, with the values themselves it is what that stands for ([den]).  A Go
    struct is a value: a method [DeepCopyInto] takes the struct [*in] and returns
    what it leaves in [*out], which no caller lets overlap [*in].  The methods of
    [metav1] are those of a class: they are generated in the same way. *)
From S2P Require Import Prelude GoHeap KubeApi.

(** ** The structs *)

Module Api.
Local Set Implicit Arguments.
Record TypeMeta := { Kind : string; APIVersion : string }.
Record RuleSetReference := { ref_Name : string }.
Record DriverConfig_ (W : Type) := { Type_ : string; Wasm : option W }.
Record EngineSpec_ (C D : Type) := {
  RuleSet : RuleSetReference;
  Target : EngineTarget;
  FailurePolicy : string;
  RuleSetCacheServer : option C;
  Driver : D
}.
Record EngineStatus_ (L : Type) := { es_Conditions : option L }.
Record Engine_ (OM SP ST : Type) := {
  e_TypeMeta : TypeMeta;
  e_ObjectMeta : OM;
  e_Spec : SP;
  e_Status : option ST
}.
Record EngineList_ (LM L : Type) := { el_TypeMeta : TypeMeta; el_ListMeta : LM; el_Items : option L }.
Record RuleSetSpec_ (LS LD : Type) := { Sources : option LS; Data : option LD }.
Record RuleSetStatus_ (L : Type) := { rs_Conditions : option L }.
Record RuleSet_ (OM SP ST : Type) := {
  rs_TypeMeta : TypeMeta;
  rs_ObjectMeta : OM;
  rs_Spec : SP;
  rs_Status : ST
}.
Record RuleSetList_ (LM L : Type) := { rl_TypeMeta : TypeMeta; rl_ListMeta : LM; rl_Items : option L }.
Record RuleSourceSpec := { Rules : string }.
Record RuleSource_ (OM : Type) := { src_TypeMeta : TypeMeta; src_ObjectMeta : OM; src_Spec : RuleSourceSpec }.
Record RuleSourceList_ (LM L : Type) := { sl_TypeMeta : TypeMeta; sl_ListMeta : LM; sl_Items : option L }.
Record RuleDataSpec_ (F : Type) := { Files : option F }.
Record RuleData_ (OM SP : Type) := { rd_TypeMeta : TypeMeta; rd_ObjectMeta : OM; rd_Spec : SP }.
Record RuleDataList_ (LM L : Type) := { dl_TypeMeta : TypeMeta; dl_ListMeta : LM; dl_Items : option L }.

End Api.

(** ** The cells *)

(** The metadata types of [metav1], and the cells their values may use. *)
Class MetaTypes := {
  ObjectMeta : Type;
  ListMeta : Type;
  MetaCell : Type
}.

Section cells.
Context `{MetaTypes}.

Definition DriverConfig := Api.DriverConfig_ (ptr WasmDriverConfig).
Definition EngineSpec := Api.EngineSpec_ (ptr RuleSetCacheServerConfig) DriverConfig.
Definition EngineStatus := Api.EngineStatus_ (slice Condition).
Definition Engine := Api.Engine_ ObjectMeta EngineSpec (ptr EngineStatus).
Definition EngineList := Api.EngineList_ ListMeta (slice Engine).
Definition RuleSetSpec := Api.RuleSetSpec_ (slice SourceReference) (slice DataReference).
Definition RuleSetStatus := Api.RuleSetStatus_ (slice Condition).
Definition RuleSet := Api.RuleSet_ ObjectMeta RuleSetSpec RuleSetStatus.
Definition RuleSetList := Api.RuleSetList_ ListMeta (slice RuleSet).
Definition RuleSource := Api.RuleSource_ ObjectMeta.
Definition RuleSourceList := Api.RuleSourceList_ ListMeta (slice RuleSource).
Definition RuleDataSpec := Api.RuleDataSpec_ gomap.
Definition RuleData := Api.RuleData_ ObjectMeta RuleDataSpec.
Definition RuleDataList := Api.RuleDataList_ ListMeta (slice RuleData).

(** What one cell holds: a struct, the array behind a slice, or a map. *)
Inductive cell :=
| CDataReference (x : DataReference)
| CDriverConfig (x : DriverConfig)
| CEngine (x : Engine)
| CEngineList (x : EngineList)
| CEngineSpec (x : EngineSpec)
| CEngineStatus (x : EngineStatus)
| CEngineTarget (x : EngineTarget)
| CRuleData (x : RuleData)
| CRuleDataList (x : RuleDataList)
| CRuleDataSpec (x : RuleDataSpec)
| CRuleSet (x : RuleSet)
| CRuleSetCacheServerConfig (x : RuleSetCacheServerConfig)
| CRuleSetList (x : RuleSetList)
| CRuleSetReference (x : Api.RuleSetReference)
| CRuleSetSpec (x : RuleSetSpec)
| CRuleSetStatus (x : RuleSetStatus)
| CRuleSource (x : RuleSource)
| CRuleSourceList (x : RuleSourceList)
| CRuleSourceSpec (x : Api.RuleSourceSpec)
| CSourceReference (x : SourceReference)
| CWasmDriverConfig (x : WasmDriverConfig)
| CCondition (x : Condition)
| CConditions (x : list Condition)
| CSources (x : list SourceReference)
| CData (x : list DataReference)
| CEngines (x : list Engine)
| CRuleSets (x : list RuleSet)
| CRuleSources (x : list RuleSource)
| CRuleDatas (x : list RuleData)
| CMap (x : gmap string string)
| CMeta (x : MetaCell).

#[export] Instance Stored_DataReference : Stored cell DataReference.
Proof. refine {| inj := CDataReference; prj c := match c with CDataReference x => Some x | _ => None end |}. done. Defined.
#[export] Instance Stored_DriverConfig : Stored cell DriverConfig.
Proof. refine {| inj := CDriverConfig; prj c := match c with CDriverConfig x => Some x | _ => None end |}. done. Defined.
#[export] Instance Stored_Engine : Stored cell Engine.
Proof. refine {| inj := CEngine; prj c := match c with CEngine x => Some x | _ => None end |}. done. Defined.
#[export] Instance Stored_EngineList : Stored cell EngineList.
Proof. refine {| inj := CEngineList; prj c := match c with CEngineList x => Some x | _ => None end |}. done. Defined.
#[export] Instance Stored_EngineSpec : Stored cell EngineSpec.
Proof. refine {| inj := CEngineSpec; prj c := match c with CEngineSpec x => Some x | _ => None end |}. done. Defined.
#[export] Instance Stored_EngineStatus : Stored cell EngineStatus.
Proof. refine {| inj := CEngineStatus; prj c := match c with CEngineStatus x => Some x | _ => None end |}. done. Defined.
#[export] Instance Stored_EngineTarget : Stored cell EngineTarget.
Proof. refine {| inj := CEngineTarget; prj c := match c with CEngineTarget x => Some x | _ => None end |}. done. Defined.
#[export] Instance Stored_RuleData : Stored cell RuleData.
Proof. refine {| inj := CRuleData; prj c := match c with CRuleData x => Some x | _ => None end |}. done. Defined.
#[export] Instance Stored_RuleDataList : Stored cell RuleDataList.
Proof. refine {| inj := CRuleDataList; prj c := match c with CRuleDataList x => Some x | _ => None end |}. done. Defined.
#[export] Instance Stored_RuleDataSpec : Stored cell RuleDataSpec.
Proof. refine {| inj := CRuleDataSpec; prj c := match c with CRuleDataSpec x => Some x | _ => None end |}. done. Defined.
#[export] Instance Stored_RuleSet : Stored cell RuleSet.
Proof. refine {| inj := CRuleSet; prj c := match c with CRuleSet x => Some x | _ => None end |}. done. Defined.
#[export] Instance Stored_RuleSetCacheServerConfig : Stored cell RuleSetCacheServerConfig.
Proof. refine {| inj := CRuleSetCacheServerConfig; prj c := match c with CRuleSetCacheServerConfig x => Some x | _ => None end |}. done. Defined.
#[export] Instance Stored_RuleSetList : Stored cell RuleSetList.
Proof. refine {| inj := CRuleSetList; prj c := match c with CRuleSetList x => Some x | _ => None end |}. done. Defined.
#[export] Instance Stored_RuleSetReference : Stored cell Api.RuleSetReference.
Proof. refine {| inj := CRuleSetReference; prj c := match c with CRuleSetReference x => Some x | _ => None end |}. done. Defined.
#[export] Instance Stored_RuleSetSpec : Stored cell RuleSetSpec.
Proof. refine {| inj := CRuleSetSpec; prj c := match c with CRuleSetSpec x => Some x | _ => None end |}. done. Defined.
#[export] Instance Stored_RuleSetStatus : Stored cell RuleSetStatus.
Proof. refine {| inj := CRuleSetStatus; prj c := match c with CRuleSetStatus x => Some x | _ => None end |}. done. Defined.
#[export] Instance Stored_RuleSource : Stored cell RuleSource.
Proof. refine {| inj := CRuleSource; prj c := match c with CRuleSource x => Some x | _ => None end |}. done. Defined.
#[export] Instance Stored_RuleSourceList : Stored cell RuleSourceList.
Proof. refine {| inj := CRuleSourceList; prj c := match c with CRuleSourceList x => Some x | _ => None end |}. done. Defined.
#[export] Instance Stored_RuleSourceSpec : Stored cell Api.RuleSourceSpec.
Proof. refine {| inj := CRuleSourceSpec; prj c := match c with CRuleSourceSpec x => Some x | _ => None end |}. done. Defined.
#[export] Instance Stored_SourceReference : Stored cell SourceReference.
Proof. refine {| inj := CSourceReference; prj c := match c with CSourceReference x => Some x | _ => None end |}. done. Defined.
#[export] Instance Stored_WasmDriverConfig : Stored cell WasmDriverConfig.
Proof. refine {| inj := CWasmDriverConfig; prj c := match c with CWasmDriverConfig x => Some x | _ => None end |}. done. Defined.
#[export] Instance Stored_Condition : Stored cell Condition.
Proof. refine {| inj := CCondition; prj c := match c with CCondition x => Some x | _ => None end |}. done. Defined.
#[export] Instance Stored_Conditions : Stored cell (list Condition).
Proof. refine {| inj := CConditions; prj c := match c with CConditions x => Some x | _ => None end |}. done. Defined.
#[export] Instance Stored_Sources : Stored cell (list SourceReference).
Proof. refine {| inj := CSources; prj c := match c with CSources x => Some x | _ => None end |}. done. Defined.
#[export] Instance Stored_Data : Stored cell (list DataReference).
Proof. refine {| inj := CData; prj c := match c with CData x => Some x | _ => None end |}. done. Defined.
#[export] Instance Stored_Engines : Stored cell (list Engine).
Proof. refine {| inj := CEngines; prj c := match c with CEngines x => Some x | _ => None end |}. done. Defined.
#[export] Instance Stored_RuleSets : Stored cell (list RuleSet).
Proof. refine {| inj := CRuleSets; prj c := match c with CRuleSets x => Some x | _ => None end |}. done. Defined.
#[export] Instance Stored_RuleSources : Stored cell (list RuleSource).
Proof. refine {| inj := CRuleSources; prj c := match c with CRuleSources x => Some x | _ => None end |}. done. Defined.
#[export] Instance Stored_RuleDatas : Stored cell (list RuleData).
Proof. refine {| inj := CRuleDatas; prj c := match c with CRuleDatas x => Some x | _ => None end |}. done. Defined.
#[export] Instance Stored_Map : Stored cell (gmap string string).
Proof. refine {| inj := CMap; prj c := match c with CMap x => Some x | _ => None end |}. done. Defined.
#[export] Instance Stored_Meta : Stored cell MetaCell.
Proof. refine {| inj := CMeta; prj c := match c with CMeta x => Some x | _ => None end |}. done. Defined.
End cells.

(** ** Zero values *)

#[export] Instance zero_string : Zero string := "".
#[export] Instance zero_Z : Zero Z := 0.
#[export] Instance zero_option T : Zero (option T) := None.
#[export] Instance zero_TypeMeta : Zero Api.TypeMeta := {| Api.Kind := zero; Api.APIVersion := zero |}.
#[export] Instance zero_DataReference : Zero DataReference := {| data_Name := zero |}.
#[export] Instance zero_SourceReference : Zero SourceReference := {| src_Name := zero |}.
#[export] Instance zero_EngineTarget : Zero EngineTarget := {| target_Type := zero; target_Name := zero |}.
#[export] Instance zero_RuleSetReference : Zero Api.RuleSetReference := {| Api.ref_Name := zero |}.
#[export] Instance zero_RuleSourceSpec : Zero Api.RuleSourceSpec := {| Api.Rules := zero |}.
#[export] Instance zero_WasmDriverConfig : Zero WasmDriverConfig := {| Image := zero; ImagePullSecret := zero |}.
#[export] Instance zero_RuleSetCacheServerConfig : Zero RuleSetCacheServerConfig := {| PollIntervalSeconds := zero |}.
(** The zero time is 0.  The empty status is none of the three names; no copy keeps it. *)
#[export] Instance zero_Condition : Zero Condition :=
  {| c_Type := zero; c_Status := ConditionUnknown; c_ObservedGeneration := zero;
     c_LastTransitionTime := zero; c_Reason := zero; c_Message := zero |}.
#[export] Instance zero_DriverConfig W : Zero (Api.DriverConfig_ W) := {| Api.Type_ := zero; Api.Wasm := zero |}.
#[export] Instance zero_EngineSpec C `{Zero D} : Zero (Api.EngineSpec_ C D) := {| Api.RuleSet := zero; Api.Target := zero; Api.FailurePolicy := zero; Api.RuleSetCacheServer := zero; Api.Driver := zero |}.
#[export] Instance zero_EngineStatus L : Zero (Api.EngineStatus_ L) := {| Api.es_Conditions := zero |}.
#[export] Instance zero_Engine ST `{Zero OM} `{Zero SP} : Zero (Api.Engine_ OM SP ST) := {| Api.e_TypeMeta := zero; Api.e_ObjectMeta := zero; Api.e_Spec := zero; Api.e_Status := zero |}.
#[export] Instance zero_EngineList L `{Zero LM} : Zero (Api.EngineList_ LM L) := {| Api.el_TypeMeta := zero; Api.el_ListMeta := zero; Api.el_Items := zero |}.
#[export] Instance zero_RuleSetSpec LS LD : Zero (Api.RuleSetSpec_ LS LD) := {| Api.Sources := zero; Api.Data := zero |}.
#[export] Instance zero_RuleSetStatus L : Zero (Api.RuleSetStatus_ L) := {| Api.rs_Conditions := zero |}.
#[export] Instance zero_RuleSet  `{Zero OM} `{Zero SP} `{Zero ST} : Zero (Api.RuleSet_ OM SP ST) := {| Api.rs_TypeMeta := zero; Api.rs_ObjectMeta := zero; Api.rs_Spec := zero; Api.rs_Status := zero |}.
#[export] Instance zero_RuleSetList L `{Zero LM} : Zero (Api.RuleSetList_ LM L) := {| Api.rl_TypeMeta := zero; Api.rl_ListMeta := zero; Api.rl_Items := zero |}.
#[export] Instance zero_RuleSource  `{Zero OM} : Zero (Api.RuleSource_ OM) := {| Api.src_TypeMeta := zero; Api.src_ObjectMeta := zero; Api.src_Spec := zero |}.
#[export] Instance zero_RuleSourceList L `{Zero LM} : Zero (Api.RuleSourceList_ LM L) := {| Api.sl_TypeMeta := zero; Api.sl_ListMeta := zero; Api.sl_Items := zero |}.
#[export] Instance zero_RuleDataSpec F : Zero (Api.RuleDataSpec_ F) := {| Api.Files := zero |}.
#[export] Instance zero_RuleData  `{Zero OM} `{Zero SP} : Zero (Api.RuleData_ OM SP) := {| Api.rd_TypeMeta := zero; Api.rd_ObjectMeta := zero; Api.rd_Spec := zero |}.
#[export] Instance zero_RuleDataList L `{Zero LM} : Zero (Api.RuleDataList_ LM L) := {| Api.dl_TypeMeta := zero; Api.dl_ListMeta := zero; Api.dl_Items := zero |}.

(** ** Values

    What the structs stand for. *)

(** The [DeepCopyInto] methods of [metav1] keep the promise of every generated one. *)
Class MetaOps `{MetaTypes} := {
  ObjectMetaV : Type;
  ListMetaV : Type;
  ObjectMeta_zero :: Zero ObjectMeta;
  ListMeta_zero :: Zero ListMeta;
  ObjectMeta_copyable :: DeepCopyable cell ObjectMeta ObjectMetaV;
  ListMeta_copyable :: DeepCopyable cell ListMeta ListMetaV;
  Condition_copyable :: DeepCopyable cell Condition Condition;
  Condition_flat :: Flat Condition
}.

Section copies.
Context `{MetaOps} `{MapRange}.

(** *** Structs without pointers: [*out = *in] *)

Definition DataReference_DeepCopyInto (in_ : DataReference) : mem cell DataReference := mret in_.
Definition EngineTarget_DeepCopyInto (in_ : EngineTarget) : mem cell EngineTarget := mret in_.
Definition RuleSetCacheServerConfig_DeepCopyInto (in_ : RuleSetCacheServerConfig) : mem cell RuleSetCacheServerConfig := mret in_.
Definition RuleSetReference_DeepCopyInto (in_ : Api.RuleSetReference) : mem cell Api.RuleSetReference := mret in_.
Definition RuleSourceSpec_DeepCopyInto (in_ : Api.RuleSourceSpec) : mem cell Api.RuleSourceSpec := mret in_.
Definition SourceReference_DeepCopyInto (in_ : SourceReference) : mem cell SourceReference := mret in_.
Definition WasmDriverConfig_DeepCopyInto (in_ : WasmDriverConfig) : mem cell WasmDriverConfig := mret in_.

#[export] Instance DataReference_copyable : DeepCopyable cell DataReference DataReference.
Proof. flat_copy (fun _ : heap cell => @Some DataReference) DataReference_DeepCopyInto. Defined.
#[export] Instance DataReference_flat : Flat DataReference.
Proof. by constructor. Qed.
#[export] Instance EngineTarget_copyable : DeepCopyable cell EngineTarget EngineTarget.
Proof. flat_copy (fun _ : heap cell => @Some EngineTarget) EngineTarget_DeepCopyInto. Defined.
#[export] Instance EngineTarget_flat : Flat EngineTarget.
Proof. by constructor. Qed.
#[export] Instance RuleSetCacheServerConfig_copyable : DeepCopyable cell RuleSetCacheServerConfig RuleSetCacheServerConfig.
Proof. flat_copy (fun _ : heap cell => @Some RuleSetCacheServerConfig) RuleSetCacheServerConfig_DeepCopyInto. Defined.
#[export] Instance RuleSetCacheServerConfig_flat : Flat RuleSetCacheServerConfig.
Proof. by constructor. Qed.
#[export] Instance RuleSetReference_copyable : DeepCopyable cell Api.RuleSetReference Api.RuleSetReference.
Proof. flat_copy (fun _ : heap cell => @Some Api.RuleSetReference) RuleSetReference_DeepCopyInto. Defined.
#[export] Instance RuleSetReference_flat : Flat Api.RuleSetReference.
Proof. by constructor. Qed.
#[export] Instance RuleSourceSpec_copyable : DeepCopyable cell Api.RuleSourceSpec Api.RuleSourceSpec.
Proof. flat_copy (fun _ : heap cell => @Some Api.RuleSourceSpec) RuleSourceSpec_DeepCopyInto. Defined.
#[export] Instance RuleSourceSpec_flat : Flat Api.RuleSourceSpec.
Proof. by constructor. Qed.
#[export] Instance SourceReference_copyable : DeepCopyable cell SourceReference SourceReference.
Proof. flat_copy (fun _ : heap cell => @Some SourceReference) SourceReference_DeepCopyInto. Defined.
#[export] Instance SourceReference_flat : Flat SourceReference.
Proof. by constructor. Qed.
#[export] Instance WasmDriverConfig_copyable : DeepCopyable cell WasmDriverConfig WasmDriverConfig.
Proof. flat_copy (fun _ : heap cell => @Some WasmDriverConfig) WasmDriverConfig_DeepCopyInto. Defined.
#[export] Instance WasmDriverConfig_flat : Flat WasmDriverConfig.
Proof. by constructor. Qed.

(** *** [DriverConfig] *)

Definition DriverConfigV := Api.DriverConfig_ WasmDriverConfig.

Definition den_DriverConfig (h : heap cell) (x : DriverConfig) : option DriverConfigV :=
  wasm ← den_ptr h (Api.Wasm x);
  Some {| Api.Type_ := Api.Type_ x;
          Api.Wasm := wasm |}.

Definition DriverConfig_DeepCopyInto (in_ : DriverConfig) : mem cell DriverConfig :=
  wasm ← copy_flat_pointer (Api.Wasm in_);
  mret {| Api.Type_ := Api.Type_ in_;
          Api.Wasm := wasm |}.

#[export] Instance DriverConfig_copyable : DeepCopyable cell DriverConfig DriverConfigV.
Proof. refine {| den := den_DriverConfig; DeepCopyInto := DriverConfig_DeepCopyInto |}; [abstract den_struct_mono|abstract copy_struct DriverConfig_DeepCopyInto den_DriverConfig]. Defined.

(** *** [EngineSpec] *)

Definition EngineSpecV := Api.EngineSpec_ RuleSetCacheServerConfig DriverConfigV.

Definition den_EngineSpec (h : heap cell) (x : EngineSpec) : option EngineSpecV :=
  ruleSetCacheServer ← den_ptr h (Api.RuleSetCacheServer x);
  driver ← den h (Api.Driver x);
  Some {| Api.RuleSet := Api.RuleSet x;
          Api.Target := Api.Target x;
          Api.FailurePolicy := Api.FailurePolicy x;
          Api.RuleSetCacheServer := ruleSetCacheServer;
          Api.Driver := driver |}.

Definition EngineSpec_DeepCopyInto (in_ : EngineSpec) : mem cell EngineSpec :=
  ruleSetCacheServer ← copy_flat_pointer (Api.RuleSetCacheServer in_);
  driver ← DeepCopyInto (Api.Driver in_);
  mret {| Api.RuleSet := Api.RuleSet in_;
          Api.Target := Api.Target in_;
          Api.FailurePolicy := Api.FailurePolicy in_;
          Api.RuleSetCacheServer := ruleSetCacheServer;
          Api.Driver := driver |}.

#[export] Instance EngineSpec_copyable : DeepCopyable cell EngineSpec EngineSpecV.
Proof. refine {| den := den_EngineSpec; DeepCopyInto := EngineSpec_DeepCopyInto |}; [abstract den_struct_mono|abstract copy_struct EngineSpec_DeepCopyInto den_EngineSpec]. Defined.

(** *** [EngineStatus] *)

Definition EngineStatusV := Api.EngineStatus_ (list Condition).

Definition den_EngineStatus (h : heap cell) (x : EngineStatus) : option EngineStatusV :=
  conditions ← den_slice h (Api.es_Conditions x);
  Some {| Api.es_Conditions := conditions |}.

Definition EngineStatus_DeepCopyInto (in_ : EngineStatus) : mem cell EngineStatus :=
  conditions ← copy_slice DeepCopyInto (Api.es_Conditions in_);
  mret {| Api.es_Conditions := conditions |}.

#[export] Instance EngineStatus_copyable : DeepCopyable cell EngineStatus EngineStatusV.
Proof. refine {| den := den_EngineStatus; DeepCopyInto := EngineStatus_DeepCopyInto |}; [abstract den_struct_mono|abstract copy_struct EngineStatus_DeepCopyInto den_EngineStatus]. Defined.

(** *** [Engine] *)

Definition EngineV := Api.Engine_ ObjectMetaV EngineSpecV EngineStatusV.

Definition den_Engine (h : heap cell) (x : Engine) : option EngineV :=
  objectMeta ← den h (Api.e_ObjectMeta x);
  spec ← den h (Api.e_Spec x);
  status ← den_ptr h (Api.e_Status x);
  Some {| Api.e_TypeMeta := Api.e_TypeMeta x;
          Api.e_ObjectMeta := objectMeta;
          Api.e_Spec := spec;
          Api.e_Status := status |}.

Definition Engine_DeepCopyInto (in_ : Engine) : mem cell Engine :=
  objectMeta ← DeepCopyInto (Api.e_ObjectMeta in_);
  spec ← DeepCopyInto (Api.e_Spec in_);
  status ← copy_pointer DeepCopyInto (Api.e_Status in_);
  mret {| Api.e_TypeMeta := Api.e_TypeMeta in_;
          Api.e_ObjectMeta := objectMeta;
          Api.e_Spec := spec;
          Api.e_Status := status |}.

#[export] Instance Engine_copyable : DeepCopyable cell Engine EngineV.
Proof. refine {| den := den_Engine; DeepCopyInto := Engine_DeepCopyInto |}; [abstract den_struct_mono|abstract copy_struct Engine_DeepCopyInto den_Engine]. Defined.

(** *** [EngineList] *)

Definition EngineListV := Api.EngineList_ ListMetaV (list EngineV).

Definition den_EngineList (h : heap cell) (x : EngineList) : option EngineListV :=
  listMeta ← den h (Api.el_ListMeta x);
  items ← den_slice h (Api.el_Items x);
  Some {| Api.el_TypeMeta := Api.el_TypeMeta x;
          Api.el_ListMeta := listMeta;
          Api.el_Items := items |}.

Definition EngineList_DeepCopyInto (in_ : EngineList) : mem cell EngineList :=
  listMeta ← DeepCopyInto (Api.el_ListMeta in_);
  items ← copy_slice DeepCopyInto (Api.el_Items in_);
  mret {| Api.el_TypeMeta := Api.el_TypeMeta in_;
          Api.el_ListMeta := listMeta;
          Api.el_Items := items |}.

#[export] Instance EngineList_copyable : DeepCopyable cell EngineList EngineListV.
Proof. refine {| den := den_EngineList; DeepCopyInto := EngineList_DeepCopyInto |}; [abstract den_struct_mono|abstract copy_struct EngineList_DeepCopyInto den_EngineList]. Defined.

(** *** [RuleSetSpec] *)

Definition RuleSetSpecV := Api.RuleSetSpec_ (list SourceReference) (list DataReference).

Definition den_RuleSetSpec (h : heap cell) (x : RuleSetSpec) : option RuleSetSpecV :=
  sources ← den_slice h (Api.Sources x);
  data ← den_slice h (Api.Data x);
  Some {| Api.Sources := sources;
          Api.Data := data |}.

Definition RuleSetSpec_DeepCopyInto (in_ : RuleSetSpec) : mem cell RuleSetSpec :=
  sources ← copy_flat_slice (Api.Sources in_);
  data ← copy_flat_slice (Api.Data in_);
  mret {| Api.Sources := sources;
          Api.Data := data |}.

#[export] Instance RuleSetSpec_copyable : DeepCopyable cell RuleSetSpec RuleSetSpecV.
Proof. refine {| den := den_RuleSetSpec; DeepCopyInto := RuleSetSpec_DeepCopyInto |}; [abstract den_struct_mono|abstract copy_struct RuleSetSpec_DeepCopyInto den_RuleSetSpec]. Defined.

(** *** [RuleSetStatus] *)

Definition RuleSetStatusV := Api.RuleSetStatus_ (list Condition).

Definition den_RuleSetStatus (h : heap cell) (x : RuleSetStatus) : option RuleSetStatusV :=
  conditions ← den_slice h (Api.rs_Conditions x);
  Some {| Api.rs_Conditions := conditions |}.

Definition RuleSetStatus_DeepCopyInto (in_ : RuleSetStatus) : mem cell RuleSetStatus :=
  conditions ← copy_slice DeepCopyInto (Api.rs_Conditions in_);
  mret {| Api.rs_Conditions := conditions |}.

#[export] Instance RuleSetStatus_copyable : DeepCopyable cell RuleSetStatus RuleSetStatusV.
Proof. refine {| den := den_RuleSetStatus; DeepCopyInto := RuleSetStatus_DeepCopyInto |}; [abstract den_struct_mono|abstract copy_struct RuleSetStatus_DeepCopyInto den_RuleSetStatus]. Defined.

(** *** [RuleSet] *)

Definition RuleSetV := Api.RuleSet_ ObjectMetaV RuleSetSpecV RuleSetStatusV.

Definition den_RuleSet (h : heap cell) (x : RuleSet) : option RuleSetV :=
  objectMeta ← den h (Api.rs_ObjectMeta x);
  spec ← den h (Api.rs_Spec x);
  status ← den h (Api.rs_Status x);
  Some {| Api.rs_TypeMeta := Api.rs_TypeMeta x;
          Api.rs_ObjectMeta := objectMeta;
          Api.rs_Spec := spec;
          Api.rs_Status := status |}.

Definition RuleSet_DeepCopyInto (in_ : RuleSet) : mem cell RuleSet :=
  objectMeta ← DeepCopyInto (Api.rs_ObjectMeta in_);
  spec ← DeepCopyInto (Api.rs_Spec in_);
  status ← DeepCopyInto (Api.rs_Status in_);
  mret {| Api.rs_TypeMeta := Api.rs_TypeMeta in_;
          Api.rs_ObjectMeta := objectMeta;
          Api.rs_Spec := spec;
          Api.rs_Status := status |}.

#[export] Instance RuleSet_copyable : DeepCopyable cell RuleSet RuleSetV.
Proof. refine {| den := den_RuleSet; DeepCopyInto := RuleSet_DeepCopyInto |}; [abstract den_struct_mono|abstract copy_struct RuleSet_DeepCopyInto den_RuleSet]. Defined.

(** *** [RuleSetList] *)

Definition RuleSetListV := Api.RuleSetList_ ListMetaV (list RuleSetV).

Definition den_RuleSetList (h : heap cell) (x : RuleSetList) : option RuleSetListV :=
  listMeta ← den h (Api.rl_ListMeta x);
  items ← den_slice h (Api.rl_Items x);
  Some {| Api.rl_TypeMeta := Api.rl_TypeMeta x;
          Api.rl_ListMeta := listMeta;
          Api.rl_Items := items |}.

Definition RuleSetList_DeepCopyInto (in_ : RuleSetList) : mem cell RuleSetList :=
  listMeta ← DeepCopyInto (Api.rl_ListMeta in_);
  items ← copy_slice DeepCopyInto (Api.rl_Items in_);
  mret {| Api.rl_TypeMeta := Api.rl_TypeMeta in_;
          Api.rl_ListMeta := listMeta;
          Api.rl_Items := items |}.

#[export] Instance RuleSetList_copyable : DeepCopyable cell RuleSetList RuleSetListV.
Proof. refine {| den := den_RuleSetList; DeepCopyInto := RuleSetList_DeepCopyInto |}; [abstract den_struct_mono|abstract copy_struct RuleSetList_DeepCopyInto den_RuleSetList]. Defined.

(** *** [RuleSource] *)

Definition RuleSourceV := Api.RuleSource_ ObjectMetaV.

Definition den_RuleSource (h : heap cell) (x : RuleSource) : option RuleSourceV :=
  objectMeta ← den h (Api.src_ObjectMeta x);
  Some {| Api.src_TypeMeta := Api.src_TypeMeta x;
          Api.src_ObjectMeta := objectMeta;
          Api.src_Spec := Api.src_Spec x |}.

Definition RuleSource_DeepCopyInto (in_ : RuleSource) : mem cell RuleSource :=
  objectMeta ← DeepCopyInto (Api.src_ObjectMeta in_);
  mret {| Api.src_TypeMeta := Api.src_TypeMeta in_;
          Api.src_ObjectMeta := objectMeta;
          Api.src_Spec := Api.src_Spec in_ |}.

#[export] Instance RuleSource_copyable : DeepCopyable cell RuleSource RuleSourceV.
Proof. refine {| den := den_RuleSource; DeepCopyInto := RuleSource_DeepCopyInto |}; [abstract den_struct_mono|abstract copy_struct RuleSource_DeepCopyInto den_RuleSource]. Defined.

(** *** [RuleSourceList] *)

Definition RuleSourceListV := Api.RuleSourceList_ ListMetaV (list RuleSourceV).

Definition den_RuleSourceList (h : heap cell) (x : RuleSourceList) : option RuleSourceListV :=
  listMeta ← den h (Api.sl_ListMeta x);
  items ← den_slice h (Api.sl_Items x);
  Some {| Api.sl_TypeMeta := Api.sl_TypeMeta x;
          Api.sl_ListMeta := listMeta;
          Api.sl_Items := items |}.

Definition RuleSourceList_DeepCopyInto (in_ : RuleSourceList) : mem cell RuleSourceList :=
  listMeta ← DeepCopyInto (Api.sl_ListMeta in_);
  items ← copy_slice DeepCopyInto (Api.sl_Items in_);
  mret {| Api.sl_TypeMeta := Api.sl_TypeMeta in_;
          Api.sl_ListMeta := listMeta;
          Api.sl_Items := items |}.

#[export] Instance RuleSourceList_copyable : DeepCopyable cell RuleSourceList RuleSourceListV.
Proof. refine {| den := den_RuleSourceList; DeepCopyInto := RuleSourceList_DeepCopyInto |}; [abstract den_struct_mono|abstract copy_struct RuleSourceList_DeepCopyInto den_RuleSourceList]. Defined.

(** *** [RuleDataSpec] *)

Definition RuleDataSpecV := Api.RuleDataSpec_ (gmap string string).

Definition den_RuleDataSpec (h : heap cell) (x : RuleDataSpec) : option RuleDataSpecV :=
  files ← den_map h (Api.Files x);
  Some {| Api.Files := files |}.

Definition RuleDataSpec_DeepCopyInto (in_ : RuleDataSpec) : mem cell RuleDataSpec :=
  files ← copy_map (Api.Files in_);
  mret {| Api.Files := files |}.

#[export] Instance RuleDataSpec_copyable : DeepCopyable cell RuleDataSpec RuleDataSpecV.
Proof. refine {| den := den_RuleDataSpec; DeepCopyInto := RuleDataSpec_DeepCopyInto |}; [abstract den_struct_mono|abstract copy_struct RuleDataSpec_DeepCopyInto den_RuleDataSpec]. Defined.

(** *** [RuleData] *)

Definition RuleDataV := Api.RuleData_ ObjectMetaV RuleDataSpecV.

Definition den_RuleData (h : heap cell) (x : RuleData) : option RuleDataV :=
  objectMeta ← den h (Api.rd_ObjectMeta x);
  spec ← den h (Api.rd_Spec x);
  Some {| Api.rd_TypeMeta := Api.rd_TypeMeta x;
          Api.rd_ObjectMeta := objectMeta;
          Api.rd_Spec := spec |}.

Definition RuleData_DeepCopyInto (in_ : RuleData) : mem cell RuleData :=
  objectMeta ← DeepCopyInto (Api.rd_ObjectMeta in_);
  spec ← DeepCopyInto (Api.rd_Spec in_);
  mret {| Api.rd_TypeMeta := Api.rd_TypeMeta in_;
          Api.rd_ObjectMeta := objectMeta;
          Api.rd_Spec := spec |}.

#[export] Instance RuleData_copyable : DeepCopyable cell RuleData RuleDataV.
Proof. refine {| den := den_RuleData; DeepCopyInto := RuleData_DeepCopyInto |}; [abstract den_struct_mono|abstract copy_struct RuleData_DeepCopyInto den_RuleData]. Defined.

(** *** [RuleDataList] *)

Definition RuleDataListV := Api.RuleDataList_ ListMetaV (list RuleDataV).

Definition den_RuleDataList (h : heap cell) (x : RuleDataList) : option RuleDataListV :=
  listMeta ← den h (Api.dl_ListMeta x);
  items ← den_slice h (Api.dl_Items x);
  Some {| Api.dl_TypeMeta := Api.dl_TypeMeta x;
          Api.dl_ListMeta := listMeta;
          Api.dl_Items := items |}.

Definition RuleDataList_DeepCopyInto (in_ : RuleDataList) : mem cell RuleDataList :=
  listMeta ← DeepCopyInto (Api.dl_ListMeta in_);
  items ← copy_slice DeepCopyInto (Api.dl_Items in_);
  mret {| Api.dl_TypeMeta := Api.dl_TypeMeta in_;
          Api.dl_ListMeta := listMeta;
          Api.dl_Items := items |}.

#[export] Instance RuleDataList_copyable : DeepCopyable cell RuleDataList RuleDataListV.
Proof. refine {| den := den_RuleDataList; DeepCopyInto := RuleDataList_DeepCopyInto |}; [abstract den_struct_mono|abstract copy_struct RuleDataList_DeepCopyInto den_RuleDataList]. Defined.

(** ** [DeepCopy]

    The bodies are the same for every type: nil for nil, otherwise a new struct
    filled by [DeepCopyInto]. *)

Definition DataReference_DeepCopy (in_ : option (ptr DataReference)) : mem cell (option (ptr DataReference)) :=
  copy_pointer DeepCopyInto in_.
Definition DriverConfig_DeepCopy (in_ : option (ptr DriverConfig)) : mem cell (option (ptr DriverConfig)) :=
  copy_pointer DeepCopyInto in_.
Definition Engine_DeepCopy (in_ : option (ptr Engine)) : mem cell (option (ptr Engine)) :=
  copy_pointer DeepCopyInto in_.
Definition EngineList_DeepCopy (in_ : option (ptr EngineList)) : mem cell (option (ptr EngineList)) :=
  copy_pointer DeepCopyInto in_.
Definition EngineSpec_DeepCopy (in_ : option (ptr EngineSpec)) : mem cell (option (ptr EngineSpec)) :=
  copy_pointer DeepCopyInto in_.
Definition EngineStatus_DeepCopy (in_ : option (ptr EngineStatus)) : mem cell (option (ptr EngineStatus)) :=
  copy_pointer DeepCopyInto in_.
Definition EngineTarget_DeepCopy (in_ : option (ptr EngineTarget)) : mem cell (option (ptr EngineTarget)) :=
  copy_pointer DeepCopyInto in_.
Definition RuleData_DeepCopy (in_ : option (ptr RuleData)) : mem cell (option (ptr RuleData)) :=
  copy_pointer DeepCopyInto in_.
Definition RuleDataList_DeepCopy (in_ : option (ptr RuleDataList)) : mem cell (option (ptr RuleDataList)) :=
  copy_pointer DeepCopyInto in_.
Definition RuleDataSpec_DeepCopy (in_ : option (ptr RuleDataSpec)) : mem cell (option (ptr RuleDataSpec)) :=
  copy_pointer DeepCopyInto in_.
Definition RuleSet_DeepCopy (in_ : option (ptr RuleSet)) : mem cell (option (ptr RuleSet)) :=
  copy_pointer DeepCopyInto in_.
Definition RuleSetCacheServerConfig_DeepCopy (in_ : option (ptr RuleSetCacheServerConfig)) : mem cell (option (ptr RuleSetCacheServerConfig)) :=
  copy_pointer DeepCopyInto in_.
Definition RuleSetList_DeepCopy (in_ : option (ptr RuleSetList)) : mem cell (option (ptr RuleSetList)) :=
  copy_pointer DeepCopyInto in_.
Definition RuleSetReference_DeepCopy (in_ : option (ptr Api.RuleSetReference)) : mem cell (option (ptr Api.RuleSetReference)) :=
  copy_pointer DeepCopyInto in_.
Definition RuleSetSpec_DeepCopy (in_ : option (ptr RuleSetSpec)) : mem cell (option (ptr RuleSetSpec)) :=
  copy_pointer DeepCopyInto in_.
Definition RuleSetStatus_DeepCopy (in_ : option (ptr RuleSetStatus)) : mem cell (option (ptr RuleSetStatus)) :=
  copy_pointer DeepCopyInto in_.
Definition RuleSource_DeepCopy (in_ : option (ptr RuleSource)) : mem cell (option (ptr RuleSource)) :=
  copy_pointer DeepCopyInto in_.
Definition RuleSourceList_DeepCopy (in_ : option (ptr RuleSourceList)) : mem cell (option (ptr RuleSourceList)) :=
  copy_pointer DeepCopyInto in_.
Definition RuleSourceSpec_DeepCopy (in_ : option (ptr Api.RuleSourceSpec)) : mem cell (option (ptr Api.RuleSourceSpec)) :=
  copy_pointer DeepCopyInto in_.
Definition SourceReference_DeepCopy (in_ : option (ptr SourceReference)) : mem cell (option (ptr SourceReference)) :=
  copy_pointer DeepCopyInto in_.
Definition WasmDriverConfig_DeepCopy (in_ : option (ptr WasmDriverConfig)) : mem cell (option (ptr WasmDriverConfig)) :=
  copy_pointer DeepCopyInto in_.

(** ** [DeepCopyObject]

    A [runtime.Object] is nil or holds a pointer of a kind, which may be nil itself. *)
Inductive Object :=
| OEngine (p : option (ptr Engine))
| OEngineList (p : option (ptr EngineList))
| ORuleSet (p : option (ptr RuleSet))
| ORuleSetList (p : option (ptr RuleSetList))
| ORuleSource (p : option (ptr RuleSource))
| ORuleSourceList (p : option (ptr RuleSourceList))
| ORuleData (p : option (ptr RuleData))
| ORuleDataList (p : option (ptr RuleDataList)).

Definition Engine_DeepCopyObject (in_ : option (ptr Engine)) : mem cell (option Object) :=
  c ← Engine_DeepCopy in_;
  match c with Some _ => mret (Some (OEngine c)) | None => mret None end.
Definition EngineList_DeepCopyObject (in_ : option (ptr EngineList)) : mem cell (option Object) :=
  c ← EngineList_DeepCopy in_;
  match c with Some _ => mret (Some (OEngineList c)) | None => mret None end.
Definition RuleSet_DeepCopyObject (in_ : option (ptr RuleSet)) : mem cell (option Object) :=
  c ← RuleSet_DeepCopy in_;
  match c with Some _ => mret (Some (ORuleSet c)) | None => mret None end.
Definition RuleSetList_DeepCopyObject (in_ : option (ptr RuleSetList)) : mem cell (option Object) :=
  c ← RuleSetList_DeepCopy in_;
  match c with Some _ => mret (Some (ORuleSetList c)) | None => mret None end.
Definition RuleSource_DeepCopyObject (in_ : option (ptr RuleSource)) : mem cell (option Object) :=
  c ← RuleSource_DeepCopy in_;
  match c with Some _ => mret (Some (ORuleSource c)) | None => mret None end.
Definition RuleSourceList_DeepCopyObject (in_ : option (ptr RuleSourceList)) : mem cell (option Object) :=
  c ← RuleSourceList_DeepCopy in_;
  match c with Some _ => mret (Some (ORuleSourceList c)) | None => mret None end.
Definition RuleData_DeepCopyObject (in_ : option (ptr RuleData)) : mem cell (option Object) :=
  c ← RuleData_DeepCopy in_;
  match c with Some _ => mret (Some (ORuleData c)) | None => mret None end.
Definition RuleDataList_DeepCopyObject (in_ : option (ptr RuleDataList)) : mem cell (option Object) :=
  c ← RuleDataList_DeepCopy in_;
  match c with Some _ => mret (Some (ORuleDataList c)) | None => mret None end.

(** The method of the dynamic type. *)
Definition DeepCopyObject (o : Object) : mem cell (option Object) :=
  match o with
  | OEngine p => Engine_DeepCopyObject p
  | OEngineList p => EngineList_DeepCopyObject p
  | ORuleSet p => RuleSet_DeepCopyObject p
  | ORuleSetList p => RuleSetList_DeepCopyObject p
  | ORuleSource p => RuleSource_DeepCopyObject p
  | ORuleSourceList p => RuleSourceList_DeepCopyObject p
  | ORuleData p => RuleData_DeepCopyObject p
  | ORuleDataList p => RuleDataList_DeepCopyObject p
  end.

(** *** What an object stands for *)

Inductive ObjectV :=
| VEngine (v : option EngineV)
| VEngineList (v : option EngineListV)
| VRuleSet (v : option RuleSetV)
| VRuleSetList (v : option RuleSetListV)
| VRuleSource (v : option RuleSourceV)
| VRuleSourceList (v : option RuleSourceListV)
| VRuleData (v : option RuleDataV)
| VRuleDataList (v : option RuleDataListV).

Definition den_Object (h : heap cell) (o : Object) : option ObjectV :=
  match o with
  | OEngine p => VEngine <$> den_ptr h p
  | OEngineList p => VEngineList <$> den_ptr h p
  | ORuleSet p => VRuleSet <$> den_ptr h p
  | ORuleSetList p => VRuleSetList <$> den_ptr h p
  | ORuleSource p => VRuleSource <$> den_ptr h p
  | ORuleSourceList p => VRuleSourceList <$> den_ptr h p
  | ORuleData p => VRuleData <$> den_ptr h p
  | ORuleDataList p => VRuleDataList <$> den_ptr h p
  end.

Definition is_nil (o : Object) : bool :=
  match o with
  | OEngine p => bool_decide (p = None)
  | OEngineList p => bool_decide (p = None)
  | ORuleSet p => bool_decide (p = None)
  | ORuleSetList p => bool_decide (p = None)
  | ORuleSource p => bool_decide (p = None)
  | ORuleSourceList p => bool_decide (p = None)
  | ORuleData p => bool_decide (p = None)
  | ORuleDataList p => bool_decide (p = None)
  end.
End copies.

(** ** Theorems *)

Section theorems.
Context `{MetaOps} `{MapRange}.
Implicit Types h d : heap cell.

Lemma den_ptr_Some_inv {T V} `{DeepCopyable cell T V} `{Stored cell T} d (p : option (ptr T)) (v : option V) :
  den_ptr d p = Some v -> (p = None <-> v = None).
Proof.
  destruct p as [p|]; simpl; [|naive_solver].
  destruct (peek d (addr p)) as [x|]; [|done]; simpl. destruct (den d x); naive_solver.
Qed.

(** What [DeepCopyObject] is for one kind of object. *)
Definition copies_object (o : Object) (copy : mem cell (option Object)) h (v : ObjectV) : Prop :=
  exists c h', copy h = Some (c, h') /\ h ⊆ h' /\ (c = None <-> is_nil o = true) /\
    forall c', c = Some c' -> den_Object (h' ∖ h) c' = Some v.

Lemma object_copy_ok {T V} `{DeepCopyable cell T V} `{Stored cell T} `{Zero T}
    (mk : option (ptr T) -> Object) (mkV : option V -> ObjectV) h (p : option (ptr T)) v :
  (forall d q, den_Object d (mk q) = mkV <$> den_ptr d q) ->
  (forall q, is_nil (mk q) = bool_decide (q = None)) ->
  den_Object h (mk p) = Some v ->
  copies_object (mk p)
    (c ← copy_pointer DeepCopyInto p; match c with Some _ => mret (Some (mk c)) | None => mret None end) h v.
Proof.
  intros Hden Hnil Hv. rewrite Hden in Hv. apply fmap_Some_inv in Hv as (w & Hw & <-).
  destruct (copy_pointer_ok h p w Hw) as (q & h' & E & Hs & Hq).
  pose proof (den_ptr_Some_inv _ _ _ Hw) as Hp. pose proof (den_ptr_Some_inv _ _ _ Hq) as Hqn.
  exists (match q with Some _ => Some (mk q) | None => None end), h'. split_and!.
  - unfold mbind, mem_bind. rewrite E. by destruct q.
  - done.
  - rewrite Hnil, bool_decide_eq_true. destruct q; naive_solver.
  - intros c'. destruct q; intros; simplify_eq. by rewrite Hden, Hq.
Qed.

Lemma den_Object_mono h h' o v : h ⊆ h' -> den_Object h o = Some v -> den_Object h' o = Some v.
Proof.
  intros Hs. destruct o as [p|p|p|p|p|p|p|p]; simpl; intros Ho;
    apply fmap_Some_inv in Ho as (w & Hw & <-); by rewrite (den_ptr_mono _ _ _ _ Hs Hw).
Qed.

Lemma DeepCopyObject_copies h o v : den_Object h o = Some v -> copies_object o (DeepCopyObject o) h v.
Proof.
  destruct o as [p|p|p|p|p|p|p|p]; intros Ho; [refine (object_copy_ok _ _ _ _ _ _ _ Ho)..];
    by intros.
Qed.

Definition kind (o : Object) : string :=
  match o with
  | OEngine _ => "Engine"
  | OEngineList _ => "EngineList"
  | ORuleSet _ => "RuleSet"
  | ORuleSetList _ => "RuleSetList"
  | ORuleSource _ => "RuleSource"
  | ORuleSourceList _ => "RuleSourceList"
  | ORuleData _ => "RuleData"
  | ORuleDataList _ => "RuleDataList"
  end.

Lemma den_Object_kind h h' o o' v : den_Object h o = Some v -> den_Object h' o' = Some v -> kind o = kind o'.
Proof.
  intros Hx Hy. destruct o, o'; try done; exfalso; simpl in *;
    apply fmap_Some_inv in Hx as (? & _ & <-); by apply fmap_Some_inv in Hy as (? & _ & ?).
Qed.

(** C26: type safety of [DeepCopyObject].  When every pointer, slice and map
    reachable from an object leads to a cell of its type, the copy does not
    panic; it is a nil interface exactly when the object holds a nil pointer;
    otherwise it has the object's dynamic type and every address reachable from
    it leads to a cell of its type, allocated by the copy itself. *)
Theorem DeepCopyObject_typed h o (Ho : is_Some (den_Object h o)) :
  exists c h', DeepCopyObject o h = Some (c, h') /\ h ⊆ h' /\
    match c with
    | None => is_nil o = true
    | Some c => is_nil o = false /\ kind c = kind o /\ is_Some (den_Object (h' ∖ h) c)
    end.
Proof.
  destruct Ho as [v Ho]. destruct (DeepCopyObject_copies h o v Ho) as (c & h' & E & Hs & Hn & Hc).
  exists c, h'. split_and!; [done..|]. destruct c as [c|]; [|by apply Hn].
  pose proof (Hc c eq_refl) as Hv. split_and!; [|by eapply den_Object_kind|by exists v].
  destruct (is_nil o); [|done]. by specialize (proj2 Hn eq_refl).
Qed.

(** C12: a deep copy is the object's value for good.  It stands for the value of
    the original; it still does after any change to the cells that were there
    before (the original's, in particular: conditions set in place, labels,
    items), and the original keeps its value under any change to the new cells. *)
Theorem DeepCopyObject_independent h o v c h'
  (Ho : den_Object h o = Some v) (Hc : DeepCopyObject o h = Some (Some c, h')) :
  den_Object h' c = Some v /\
  (forall h'', (forall l, l ∉ dom h -> h'' !! l = h' !! l) -> den_Object h'' c = Some v) /\
  (forall h'', (forall l, l ∈ dom h -> h'' !! l = h' !! l) -> den_Object h'' o = Some v).
Proof.
  destruct (DeepCopyObject_copies h o v Ho) as (c' & h1 & E & Hs & _ & Hv).
  rewrite E in Hc. simplify_eq. pose proof (Hv c eq_refl) as Hcv.
  assert (Hcopy : forall h'', (forall l, l ∉ dom h -> h'' !! l = h' !! l) -> den_Object h'' c = Some v).
  { intros h'' Hl. eapply den_Object_mono; [|exact Hcv]. apply map_subseteq_spec. intros l x.
    rewrite lookup_difference_Some. intros [Hx Hn]. rewrite Hl; [done|]. by apply not_elem_of_dom. }
  split_and!; [by apply Hcopy|done|].
  intros h'' Hl. eapply den_Object_mono; [|exact Ho]. apply map_subseteq_spec. intros l x Hx.
  rewrite Hl; [by eapply lookup_weaken|]. by eapply elem_of_dom_2.
Qed.
End theorems.

(** ** An instance: metadata with a name and labels *)

Module Sample.
Record Meta := { name : string; labels : option gomap }.
Record MetaV := { nameV : string; labelsV : option (gmap string string) }.

#[export] Instance types : MetaTypes := {| ObjectMeta := Meta; ListMeta := string; MetaCell := Empty_set |}.

#[export] Instance map_range : MapRange.
Proof. by refine {| range_map := map_to_list |}. Defined.

Definition den_meta (h : heap cell) (m : Meta) : option MetaV :=
  l ← den_map h (labels m); Some {| nameV := name m; labelsV := l |}.

Definition copy_meta (m : Meta) : mem cell Meta :=
  l ← copy_map (labels m); mret {| name := name m; labels := l |}.

#[export] Instance meta_copyable : DeepCopyable cell Meta MetaV.
Proof. refine {| den := den_meta; DeepCopyInto := copy_meta |}; [abstract den_struct_mono|abstract copy_struct copy_meta den_meta]. Defined.

#[export] Instance string_copyable : DeepCopyable cell string string.
Proof. flat_copy (fun _ : heap cell => @Some string) (fun x : string => mret x : mem cell string). Defined.

#[export] Instance condition_copyable : DeepCopyable cell Condition Condition.
Proof. flat_copy (fun _ : heap cell => @Some Condition) (fun x : Condition => mret x : mem cell Condition). Defined.

#[export] Instance zero_meta : Zero Meta := {| name := zero; labels := zero |}.

#[export] Instance ops : MetaOps.
Proof. refine {| ObjectMetaV := MetaV; ListMetaV := string; Condition_copyable := condition_copyable |}. by constructor. Defined.

Definition ready : Condition :=
  {| c_Type := "Ready"; c_Status := ConditionTrue; c_ObservedGeneration := 1; c_LastTransitionTime := 0;
     c_Reason := "RulesCached"; c_Message := "" |}.

(** A RuleSet with labels, two sources and a condition, at address 1. *)
Definition sample_heap : heap cell :=
  list_to_map
    [(1%positive, CRuleSet {| Api.rs_TypeMeta := zero;
                     Api.rs_ObjectMeta := {| name := "waf"; labels := Some (GoMap 2) |};
                     Api.rs_Spec := {| Api.Sources := Some (Slice 3 0 2); Api.Data := None |};
                     Api.rs_Status := {| Api.rs_Conditions := Some (Slice 4 0 1) |} |});
     (2%positive, CMap {["app" := "gateway"]});
     (3%positive, CSources [{| src_Name := "base" |}; {| src_Name := "sqli" |}]);
     (4%positive, CConditions [ready])].

Definition sample_object : Object := ORuleSet (Some (Ptr 1)).

Definition sample_value : ObjectV :=
  VRuleSet (Some {| Api.rs_TypeMeta := zero;
                    Api.rs_ObjectMeta := {| nameV := "waf"; labelsV := Some {["app" := "gateway"]} |};
                    Api.rs_Spec := {| Api.Sources := Some [{| src_Name := "base" |}; {| src_Name := "sqli" |}];
                                      Api.Data := None |};
                    Api.rs_Status := {| Api.rs_Conditions := Some [ready] |} |}).

(** Copied, the object is at address 5 and its condition at address 8. *)
Example sample_copied :
  match DeepCopyObject sample_object sample_heap with
  | Some (Some (ORuleSet (Some p)), h) => addr p = 5%positive /\ peek h 8%positive = Some [ready]
  | _ => False
  end.
Proof. by vm_compute. Qed.
End Sample.
Import Sample.

Lemma DeepCopyObject_typed_witness :
  is_Some (den_Object sample_heap sample_object) /\
  exists c h', DeepCopyObject sample_object sample_heap = Some (c, h') /\
    sample_heap ⊆ h' /\
    match c with
    | None => is_nil sample_object = true
    | Some c => is_nil sample_object = false /\ kind c = kind sample_object /\
        is_Some (den_Object (h' ∖ sample_heap) c)
    end.
Proof.
  assert (H : is_Some (den_Object sample_heap sample_object)).
  { exists sample_value. reflexivity. }
  split; [exact H|]. exact (DeepCopyObject_typed sample_heap sample_object H).
Defined.

(** The original's conditions are cleared in place; the copy still has one. *)
Lemma DeepCopyObject_independent_witness :
  exists c h', DeepCopyObject sample_object sample_heap = Some (Some c, h') /\
    den_Object (<[4%positive := CConditions []]> h') c = Some sample_value.
Proof.
  assert (H : den_Object sample_heap sample_object = Some sample_value) by reflexivity.
  destruct (DeepCopyObject_copies _ _ _ H) as ([c|] & h' & E & _ & Hn & _);
    [|by specialize (proj1 Hn eq_refl)].
  exists c, h'. split; [done|].
  apply (DeepCopyObject_independent sample_heap sample_object sample_value c h' H E).
  intros l Hl. apply lookup_insert_ne. intros <-. apply Hl. by apply (elem_of_dom_2 _ _ (CConditions [ready])).
Defined.
