(* ===== verification/Status.v ===== *)
(** * Status conditions, events and error messages ([internal/controller/utils.go])

    [StatusObject] is what the generic helpers need of a RuleSet or an Engine:
    its conditions and the patch of its status subresource. *)
From S2P Require Import Prelude GoLib GoErrors MemFS KubeApi.

Definition conditionReady : string := "Ready".
Definition conditionDegraded : string := "Degraded".
Definition conditionProgressing : string := "Progressing".

Definition trackedConditionTypes : list string := [conditionReady; conditionDegraded; conditionProgressing].

(** ** Error fields of a log line *)

Inductive field_value := FInt (z : Z) | FString (s : string).

Definition extractStatusErrorFields (err : gerror) : list (string * field_value) :=
  match as_status_error err with
  | None => []
  | Some st =>
      [("apiStatusCode", FInt (st_code st)); ("apiReason", FString (st_reason st))] ++
      match st_retryAfterSeconds st with
      | Some n => if 0 <? n then [("retryAfterSeconds", FInt n)] else []
      | None => []
      end
  end.

(** ** Conditions *)

Section conditions.
Context `{ApiMeta}.

(** [conditionSnapshot]: a tracked type without condition has no entry. *)
Definition snapshotConditions (conditions : list Condition) : gmap string Condition :=
  fold_left (fun snap ct => match FindStatusCondition conditions ct with
                            | Some c => <[ct := c]> snap
                            | None => snap
                            end) trackedConditionTypes ∅.

Definition status_reason (c : Condition) : ConditionStatus * string := (c_Status c, c_Reason c).

(** The switch of the loop: the transition of a tracked type, if any. *)
Definition condition_change (ct : string) (prev cur : option Condition) : option transition :=
  match prev, cur with
  | None, None => None
  | None, Some c => Some {| tr_Type := ct; tr_From := None; tr_To := Some (status_reason c) |}
  | Some p, None => Some {| tr_Type := ct; tr_From := Some (status_reason p); tr_To := None |}
  | Some p, Some c =>
      if bool_decide (c_Status p = c_Status c) && bool_decide (c_Reason p = c_Reason c) then None
      else Some {| tr_Type := ct; tr_From := Some (status_reason p); tr_To := Some (status_reason c) |}
  end.

Definition condition_transition (before : gmap string Condition) (after : list Condition) (ct : string) :
    option transition :=
  condition_change ct (before !! ct) (FindStatusCondition after ct).

(** The transitions [logConditionTransitions] logs, in order. *)
Definition logConditionTransitions (before : gmap string Condition) (after : list Condition) : list transition :=
  omap (condition_transition before after) trackedConditionTypes.

(** [t] is the time of the call. *)
Definition setConditionTrue (conditions : list Condition) (t generation : Z)
    (conditionType reason message : string) : list Condition :=
  SetStatusCondition conditions
    {| c_Type := conditionType; c_Status := ConditionTrue; c_ObservedGeneration := generation;
       c_LastTransitionTime := t; c_Reason := reason; c_Message := message |}.

Definition setConditionFalse (conditions : list Condition) (t generation : Z)
    (conditionType reason message : string) : list Condition :=
  SetStatusCondition conditions
    {| c_Type := conditionType; c_Status := ConditionFalse; c_ObservedGeneration := generation;
       c_LastTransitionTime := t; c_Reason := reason; c_Message := message |}.

Definition applyStatusConditionDegraded (conditions : list Condition) (t generation : Z)
    (reason message : string) : list Condition :=
  let conditions := setConditionFalse conditions t generation conditionReady reason message in
  let conditions := setConditionTrue conditions t generation conditionDegraded reason message in
  RemoveStatusCondition conditions conditionProgressing.

Definition applyStatusProgressing (conditions : list Condition) (t generation : Z)
    (reason message : string) : list Condition :=
  let conditions := setConditionFalse conditions t generation conditionReady reason message in
  setConditionTrue conditions t generation conditionProgressing reason message.

Definition applyStatusReady (conditions : list Condition) (t generation : Z)
    (reason message : string) : list Condition :=
  let conditions := setConditionTrue conditions t generation conditionReady reason message in
  let conditions := RemoveStatusCondition conditions conditionDegraded in
  RemoveStatusCondition conditions conditionProgressing.

Definition maxEventNoteBytes : Z := 1024.

Definition truncateEventNote (msg : string) : string :=
  if len msg <=? maxEventNoteBytes then msg
  else String.substring 0 (Z.to_nat (maxEventNoteBytes - 3)) msg +:+ "...".

(** *** Patching a status *)

Class StatusObject (O : Type) := {
  so_kind : string;
  so_meta : O -> ObjectMeta;
  so_conditions : O -> list Condition;
  so_with_conditions : list Condition -> O -> O;
  so_patch : api -> list effect -> O -> gerror + O;
  so_with_get o l : so_conditions (so_with_conditions l o) = l;
  so_with_meta o l : so_meta (so_with_conditions l o) = so_meta o
}.

Definition object_name (m : ObjectMeta) : NamespacedName :=
  {| nn_Namespace := Namespace m; nn_Name := Name m |}.

Section patching.
Context (A : api) {O : Type} `{StatusObject O}.

(** [Status().Patch]: the object becomes what the server answers. *)
Definition status_patch (obj : O) : prog O :=
  call (fun tr => so_patch A tr obj)
    (EffStatusPatch so_kind (object_name (so_meta obj)) (so_conditions obj)).

(** The pattern of [initializeStatus], [patchDegraded] and [patchReady] after
    the event: snapshot, apply, patch, log. *)
Definition patch_conditions (apply : list Condition -> Z -> list Condition) (obj : O) : prog O :=
  let before := snapshotConditions (so_conditions obj) in
  t ← time_now A;
  obj' ← status_patch (so_with_conditions (apply (so_conditions obj) t) obj);
  _ ← emit (EffTransitions so_kind (logConditionTransitions before (so_conditions obj')));
  mret obj'.

Definition patchDegraded (obj : O) (generation : Z) (reason message : string) : prog O :=
  _ ← emit (EffEvent "Warning" reason "Reconcile" (truncateEventNote message));
  patch_conditions (fun l t => applyStatusConditionDegraded l t generation reason message) obj.

Definition patchReady (obj : O) (generation : Z) (reason message : string) : prog O :=
  _ ← emit (EffEvent "Normal" reason "Reconcile" (truncateEventNote message));
  patch_conditions (fun l t => applyStatusReady l t generation reason message) obj.
End patching.
End conditions.

#[export] Program Instance RuleSet_status : StatusObject RuleSet := {|
  so_kind := "RuleSet";
  so_meta := rs_Meta;
  so_conditions := rs_Conditions;
  so_with_conditions l rs := {| rs_Meta := rs_Meta rs; rs_Spec := rs_Spec rs; rs_Conditions := l |};
  so_patch := patch_RuleSet_status
|}.
Solve Obligations with done.

(** The controllers make an Engine's nil status empty before they use it. *)
#[export] Program Instance Engine_status : StatusObject Engine := {|
  so_kind := "Engine";
  so_meta := e_Meta;
  so_conditions e := default [] (e_Status e);
  so_with_conditions l e := {| e_Meta := e_Meta e; e_Spec := e_Spec e; e_Status := Some l |};
  so_patch := patch_Engine_status
|}.
Solve Obligations with done.

(** ** Watches *)

(** [collectRequests]: the matching objects, in order. *)
Definition collectRequests {E : Type} (meta : E -> ObjectMeta) (match_ : E -> bool) (items : list E) :
    list NamespacedName :=
  (fun e => object_name (meta e)) <$> filter (fun e => match_ e = true) items.

(** The [UpdateFunc] of [annotationChangedPredicate]; a nil object is [None],
    and an absent annotation reads as the empty string. *)
Definition annotationChangedPredicate (key : string) (old new : option ObjectMeta) : bool :=
  match old, new with
  | Some o, Some n =>
      negb (String.eqb (default "" (Annotations o !! key)) (default "" (Annotations n !! key)))
  | _, _ => false
  end.

(** ** Server-side apply *)

Definition fieldManager : string := "coraza-kubernetes-operator".

(** [gvk.Empty()]. *)
Definition gvk_empty (u : unstructured) : bool :=
  String.eqb (u_Group u) "" && String.eqb (u_Version u) "" && String.eqb (u_Kind u) "".

Definition set_namespace (ns : string) (u : unstructured) : unstructured :=
  {| u_Group := u_Group u; u_Version := u_Version u; u_Kind := u_Kind u; u_Name := u_Name u;
     u_Namespace := ns; u_Labels := u_Labels u; u_Owners := u_Owners u; u_Spec := u_Spec u |}.

Definition serverSideApply (A : api) (desired : unstructured) : prog unstructured :=
  if gvk_empty desired then throw (ErrText "desired object must have GroupVersionKind set")
  else if String.eqb (u_Name desired) "" then throw (ErrText "desired object must have a name set")
  else
    let desired := if String.eqb (u_Namespace desired) "" then set_namespace "default" desired else desired in
    r ← attempt (call (fun tr => apply_object A tr desired) (EffApply desired));
    match r with
    | inl err => throw (errorf_w ("server-side apply " +:+ u_Kind desired +:+ " " +:+ u_Namespace desired +:+
                                  "/" +:+ u_Name desired +:+ ": ") err)
    | inr u => mret u
    end.

(** ** Error messages *)

Definition extractMissingFileBasename (err : gerror) : option string :=
  match as_path_error err with
  | Some (path, inner) => if is_not_exist inner then Some (Base path) else None
  | None => None
  end.

Definition sanitizeErrorMessage (err : gerror) : gerror :=
  match extractMissingFileBasename err with
  | Some basename => ErrText ("open " +:+ basename +:+ ": data does not exist")
  | None =>
      if is_not_exist err then ErrText "validation failed: referenced file does not exist (path redacted)"
      else err
  end.

Definition shouldSkipMissingFileError (err : gerror) (secretData : option (gmap string string)) : bool :=
  match secretData with
  | None => false
  | Some m =>
      match extractMissingFileBasename err with
      | Some basename => bool_decide (is_Some (m !! basename))
      | None => false
      end
  end.

Definition buildCacheReadyMessage (namespace name unsupportedMsg : string) : string :=
  let msg := "Successfully cached rules for " +:+ namespace +:+ "/" +:+ name in
  if negb (String.eqb unsupportedMsg "") then
    msg +:+ String (ascii_of_N 10) "" +:+ "[annotation override] " +:+ unsupportedMsg
  else msg.

(** ** Lemmas *)

Lemma conditions_distinct :
  conditionReady <> conditionDegraded /\ conditionReady <> conditionProgressing /\
  conditionDegraded <> conditionProgressing.
Proof. done. Qed.

(** *** Conditions *)

Section condition_lemmas.
Context `{ApiMeta}.

(** The condition of a type reads so, whatever its transition time. *)
Definition reads (l : list Condition) (ty : string) (st : ConditionStatus) (generation : Z)
    (reason message : string) : Prop :=
  exists t, FindStatusCondition l ty =
    Some {| c_Type := ty; c_Status := st; c_ObservedGeneration := generation;
            c_LastTransitionTime := t; c_Reason := reason; c_Message := message |}.

Lemma set_true_reads l t g ty reason message :
  reads (setConditionTrue l t g ty reason message) ty ConditionTrue g reason message.
Proof. unfold reads, setConditionTrue. apply (find_set_same l {| c_Type := ty |}). Qed.

Lemma set_false_reads l t g ty reason message :
  reads (setConditionFalse l t g ty reason message) ty ConditionFalse g reason message.
Proof. unfold reads, setConditionFalse. apply (find_set_same l {| c_Type := ty |}). Qed.

Lemma set_true_other l t g ty reason message ty' : ty' <> ty ->
  FindStatusCondition (setConditionTrue l t g ty reason message) ty' = FindStatusCondition l ty'.
Proof. intros. by apply find_set_other. Qed.

Lemma set_false_other l t g ty reason message ty' : ty' <> ty ->
  FindStatusCondition (setConditionFalse l t g ty reason message) ty' = FindStatusCondition l ty'.
Proof. intros. by apply find_set_other. Qed.

Lemma snapshot_lookup l ct : ct ∈ trackedConditionTypes -> snapshotConditions l !! ct = FindStatusCondition l ct.
Proof.
  intros Hct. unfold snapshotConditions, trackedConditionTypes in *. simpl.
  rewrite !elem_of_cons in Hct.
  destruct Hct as [-> | [-> | [-> | []%not_elem_of_nil]]];
    repeat case_match; simplify_map_eq; done.
Qed.

Lemma condition_transition_None before after ty :
  ty ∈ trackedConditionTypes ->
  condition_transition (snapshotConditions before) after ty = None <->
  status_reason <$> FindStatusCondition before ty = status_reason <$> FindStatusCondition after ty.
Proof.
  intros Hty. unfold condition_transition, condition_change. rewrite snapshot_lookup by done.
  destruct (FindStatusCondition before ty) as [p|], (FindStatusCondition after ty) as [c|]; simpl; [|done..].
  unfold status_reason. destruct (bool_decide (c_Status p = c_Status c)) eqn:Hs,
    (bool_decide (c_Reason p = c_Reason c)) eqn:Hr; simpl; bool_to_prop; split; congruence.
Qed.

Definition is_degraded (l : list Condition) (g : Z) (reason message : string) : Prop :=
  reads l conditionReady ConditionFalse g reason message /\
  reads l conditionDegraded ConditionTrue g reason message /\
  FindStatusCondition l conditionProgressing = None.

Definition is_ready (l : list Condition) (g : Z) (reason message : string) : Prop :=
  reads l conditionReady ConditionTrue g reason message /\
  FindStatusCondition l conditionDegraded = None /\
  FindStatusCondition l conditionProgressing = None.

Definition is_progressing (l : list Condition) (g : Z) (reason message : string) : Prop :=
  reads l conditionReady ConditionFalse g reason message /\
  reads l conditionProgressing ConditionTrue g reason message.

Lemma applyStatusConditionDegraded_is l t g reason message :
  is_degraded (applyStatusConditionDegraded l t g reason message) g reason message.
Proof.
  unfold is_degraded, applyStatusConditionDegraded, reads.
  rewrite find_remove_same, !find_remove_other, set_true_other by done.
  split_and!; [apply set_false_reads|apply set_true_reads|done].
Qed.

Lemma applyStatusReady_is l t g reason message :
  is_ready (applyStatusReady l t g reason message) g reason message.
Proof.
  unfold is_ready, applyStatusReady, reads.
  rewrite find_remove_same, !find_remove_other, find_remove_same by done.
  split_and!; [apply set_true_reads|done|done].
Qed.

Lemma applyStatusProgressing_is l t g reason message :
  is_progressing (applyStatusProgressing l t g reason message) g reason message.
Proof.
  unfold is_progressing, applyStatusProgressing, reads. rewrite set_true_other by done.
  split; [apply set_false_reads|apply set_true_reads].
Qed.
End condition_lemmas.

Lemma omap_nil_iff {A B} (f : A -> option B) (l : list A) : omap f l = [] <-> Forall (fun x => f x = None) l.
Proof.
  induction l as [|x l IH]; [done|]. rewrite Forall_cons, <- IH. simpl.
  destruct (f x); naive_solver.
Qed.

(** *** The calls of a patch *)

Section patch_lemmas.
Context `{ApiMeta} (A : api) {O : Type} `{StatusObject O}.

(** What a status patch does: one call with the new conditions, and on success
    one log entry. *)
Lemma patch_conditions_run apply (obj : O) w :
  let obj1 := so_with_conditions (apply (so_conditions obj) (now A (w_trace w))) obj in
  let call := EffStatusPatch so_kind (object_name (so_meta obj)) (so_conditions obj1) in
  match so_patch A (w_trace w) obj1 with
  | inl e => patch_conditions A apply obj w = (log_effect call w, inl e)
  | inr obj2 => patch_conditions A apply obj w =
      (log_effect (EffTransitions so_kind
         (logConditionTransitions (snapshotConditions (so_conditions obj)) (so_conditions obj2)))
         (log_effect call w), inr obj2)
  end.
Proof.
  simpl. unfold patch_conditions. rewrite prog_bind_eq. simpl. rewrite prog_bind_eq.
  unfold status_patch, KubeApi.call. rewrite so_with_meta. by destruct (so_patch _ _ _).
Qed.

Lemma adds_patch_conditions P apply (obj : O) :
  (forall k nn l, P (EffStatusPatch k nn l)) -> (forall k l, P (EffTransitions k l)) ->
  adds P (patch_conditions A apply obj).
Proof. intros. unfold patch_conditions, status_patch. solve_adds. Qed.

Lemma adds_patchDegraded P (obj : O) g reason message :
  (forall k nn l, P (EffStatusPatch k nn l)) -> (forall k l, P (EffTransitions k l)) ->
  (forall ty r a n, P (EffEvent ty r a n)) -> adds P (patchDegraded A obj g reason message).
Proof. intros. unfold patchDegraded. apply adds_bind; [by apply adds_emit|]. intros _. by apply adds_patch_conditions. Qed.

Lemma adds_patchReady P (obj : O) g reason message :
  (forall k nn l, P (EffStatusPatch k nn l)) -> (forall k l, P (EffTransitions k l)) ->
  (forall ty r a n, P (EffEvent ty r a n)) -> adds P (patchReady A obj g reason message).
Proof. intros. unfold patchReady. apply adds_bind; [by apply adds_emit|]. intros _. by apply adds_patch_conditions. Qed.
End patch_lemmas.

(** The conditions of the last status patch of a trace. *)
Definition last_status (tr : list effect) : option (list Condition) :=
  fold_left (fun acc e => match e with EffStatusPatch _ _ l => Some l | _ => acc end) tr None.

Lemma last_status_app tr l conds : last_status l = Some conds -> last_status (tr ++ l) = Some conds.
Proof.
  unfold last_status. rewrite fold_left_app. generalize (fold_left (fun acc e =>
    match e with EffStatusPatch _ _ l0 => Some l0 | _ => acc end) tr None) as acc.
  intros acc. assert (forall l (a b : option (list Condition)),
    fold_left (fun acc e => match e with EffStatusPatch _ _ l0 => Some l0 | _ => acc end) l a = b ->
    b = a \/ forall a', fold_left (fun acc e => match e with EffStatusPatch _ _ l0 => Some l0 | _ => acc end) l a' = b)
    as Hgen.
  { clear. intros l. induction l as [|e l IH]; intros a b Hb; simpl in *; [by left|].
    destruct e; try (destruct (IH _ _ Hb) as [->|Hr]; [by left|by right]).
    destruct (IH _ _ Hb) as [->|Hr]; [right; intros a'; exact Hb|by right]. }
  intros Hl. destruct (Hgen l None (Some conds) Hl) as [?|Hr]; [done|apply Hr].
Qed.

(** *** Paths *)


Lemma Base_no_slash path : Base path = "/" \/ byte_in "/" (Base path) = false.
Proof.
  unfold Base. destruct (String.eqb path ""); [by right|].
  destruct (List.last (Split (TrimRight is_slash path) "/") "") as [|a s] eqn:Hl; [by left|].
  right. pose proof (Split_no_sep (TrimRight is_slash path) "/") as Hf.
  rewrite <- Hl. destruct (Split _ _) as [|x l] eqn:Hs; [done|].
  rewrite Forall_forall in Hf. apply Hf.
  destruct (exists_last (l := x :: l)) as (l' & y & ->); [done|].
  rewrite List.last_last. apply elem_of_app. right. by constructor.
Qed.

(** ** The properties *)

(** The three status modes exclude each other. Ready means Ready=True and
    neither Degraded nor Progressing; Degraded means Ready=False, Degraded=True
    and not Progressing; starting to reconcile means Ready=False and
    Progressing=True; each with the given reason, message and generation, and
    no condition of another type is touched. *)
Theorem status_modes `{ApiMeta} (l : list Condition) (t g : Z) (reason message : string) :
  let ready := applyStatusReady l t g reason message in
  let degraded := applyStatusConditionDegraded l t g reason message in
  let progressing := applyStatusProgressing l t g reason message in
  is_ready ready g reason message /\ is_degraded degraded g reason message /\
  is_progressing progressing g reason message /\
  FindStatusCondition progressing conditionDegraded = FindStatusCondition l conditionDegraded /\
  (forall ty, ty ∉ trackedConditionTypes ->
     FindStatusCondition ready ty = FindStatusCondition l ty /\
     FindStatusCondition degraded ty = FindStatusCondition l ty /\
     FindStatusCondition progressing ty = FindStatusCondition l ty).
Proof.
  split_and!; [apply applyStatusReady_is|apply applyStatusConditionDegraded_is
    |apply applyStatusProgressing_is| |].
  - unfold applyStatusProgressing. by rewrite set_true_other, set_false_other.
  - intros ty Hty. unfold trackedConditionTypes in Hty. rewrite !not_elem_of_cons in Hty.
    destruct Hty as (Hr & Hd & Hp & _).
    unfold applyStatusReady, applyStatusConditionDegraded, applyStatusProgressing.
    rewrite !find_remove_other, !set_true_other, !set_false_other by done. done.
Qed.

(** A status change is logged exactly when it is one: a patch logs nothing
    if and only if every tracked condition kept its status and reason. *)
Theorem transitions_logged `{ApiMeta} (before after : list Condition) :
  logConditionTransitions (snapshotConditions before) after = [] <->
  forall ty, ty ∈ trackedConditionTypes ->
    status_reason <$> FindStatusCondition before ty = status_reason <$> FindStatusCondition after ty.
Proof.
  unfold logConditionTransitions. rewrite omap_nil_iff, Forall_forall.
  split; intros Hn ty Hty; specialize (Hn ty Hty); by apply condition_transition_None.
Qed.

(** Sanitising a missing-file error discloses no path: the text holds no
    slash (except for the file name "/" itself), whatever error the engine made;
    every other error passes through unchanged. *)
Theorem sanitize_no_path (err : gerror) :
  if is_not_exist err
  then error_text (sanitizeErrorMessage err) = "open /: data does not exist" \/
       byte_in "/" (error_text (sanitizeErrorMessage err)) = false
  else sanitizeErrorMessage err = err.
Proof.
  unfold sanitizeErrorMessage, extractMissingFileBasename.
  destruct (as_path_error err) as [[path inner]|] eqn:Hp.
  - destruct (is_not_exist inner) eqn:Hi.
    + rewrite (as_path_error_not_exist _ _ _ Hp Hi).
      destruct (Base_no_slash path) as [Hb|Hb]; cbn [error_text]; [rewrite Hb; by left|right].
      rewrite !byte_in_app, Hb. reflexivity.
    + destruct (is_not_exist err); [by right|done].
  - destruct (is_not_exist err); [by right|done].
Qed.

(** An event note fits the limit of the events API, a message within the
    limit is unchanged, and a longer one keeps its first 1021 bytes; but the cut
    counts bytes, so it can split a character: the note is then not valid UTF-8
    although the message was. *)
Theorem truncateEventNote_bounds :
  (forall msg, len (truncateEventNote msg) <= maxEventNoteBytes /\
     (len msg <= maxEventNoteBytes -> truncateEventNote msg = msg)) /\
  (exists msg, ToValidUTF8 msg = msg /\ ToValidUTF8 (truncateEventNote msg) <> truncateEventNote msg).
Proof.
  split.
  - intros msg. unfold truncateEventNote. destruct (Z.leb_spec (len msg) maxEventNoteBytes) as [Hl|Hl].
    + split; [done|done].
    + split; [|lia]. rewrite len_app.
      assert (forall n s, len (String.substring 0 n s) <= Z.of_nat n) as Hsub.
      { intros n. unfold len. induction n as [|n IH]; intros [|a s]; simpl; try lia.
        specialize (IH s). lia. }
      specialize (Hsub (Z.to_nat (maxEventNoteBytes - 3)) msg). unfold maxEventNoteBytes in *.
      change (len "...") with 3. lia.
  - exists (Repeat "—" 400). split; vm_compute; [reflexivity|]. intros Heq. discriminate Heq.
Qed.
