(* ===== verification/StatusMem.v ===== *)
(** * Status patches in memory ([internal/controller/utils.go])

    [Status] treats conditions as values.  The code keeps them in memory that is
    shared: [apimeta.FindStatusCondition] answers with a pointer into the array,
    [SetStatusCondition] writes through that pointer, and the object the patch is
    computed from must not change with them.  Here the helpers run on the heap;
    the theorem at the end says that what they send and log is what [Status] says. *)
From S2P Require Import Prelude GoHeap KubeApi DeepCopy Status.
Import DeepCopy.Sample.

(** [&ruleset.Status.Conditions] and [&engine.Status.Conditions]. *)
Inductive conditions_ptr `{MetaTypes} :=
| RuleSetConditions (p : ptr RuleSet)
| EngineConditions (p : ptr EngineStatus).

Section memory.
Context `{MetaOps} `{MapRange}.
Implicit Types h : heap cell.

(** The list a slice of conditions holds; nil holds none. *)
Definition conditions_at h (s : option (slice Condition)) : option (list Condition) :=
  default [] <$> den_slice h s.

Definition load_conditions (conditions : conditions_ptr) : mem cell (option (slice Condition)) :=
  match conditions with
  | RuleSetConditions p => ruleset ← load p; mret (Api.rs_Conditions (Api.rs_Status ruleset))
  | EngineConditions p => status ← load p; mret (Api.es_Conditions status)
  end.

Definition store_conditions (conditions : conditions_ptr) (s : option (slice Condition)) : mem cell () :=
  match conditions with
  | RuleSetConditions p =>
      rs ← load p;
      store p {| Api.rs_TypeMeta := Api.rs_TypeMeta rs; Api.rs_ObjectMeta := Api.rs_ObjectMeta rs;
                 Api.rs_Spec := Api.rs_Spec rs; Api.rs_Status := {| Api.rs_Conditions := s |} |}
  | EngineConditions p => _ ← load p; store p {| Api.es_Conditions := s |}
  end.

(** The cells [h] and [h'] both have, except the array of [s], are the same in
    both; no cell is lost, and [s'] is in that array, in one that was not there, or nil. *)
Definition touches h (s : option (slice Condition)) h' (s' : option (slice Condition)) : Prop :=
  (forall a, is_Some (h !! a) -> Some a <> s_arr <$> s -> h' !! a = h !! a) /\
  (forall a, Some a = s_arr <$> s' -> Some a = s_arr <$> s \/ h !! a = None) /\
  (forall a, is_Some (h !! a) -> is_Some (h' !! a)).

(** [apimeta] on the slice of conditions: what it does to the list is [ApiMeta]'s,
    and it writes nowhere but in the array or in a new one.  The pointer
    [FindStatusCondition] answers with is an array and an index. *)
Class ApiMetaMem `{ApiMeta} := {
  FindStatusCondition_mem : option (slice Condition) -> string -> mem cell (option (loc * nat));
  SetStatusCondition_mem : option (slice Condition) -> Condition -> mem cell (option (slice Condition));
  RemoveStatusCondition_mem : option (slice Condition) -> string -> mem cell (option (slice Condition));

  find_mem h s l ty : conditions_at h s = Some l ->
    exists r, FindStatusCondition_mem s ty h = Some (r, h) /\
      match r with
      | None => FindStatusCondition l ty = None
      | Some (a, i) => exists xs c, peek h a = Some xs /\ xs !! i = Some c /\ FindStatusCondition l ty = Some c
      end;
  set_mem h s l c : conditions_at h s = Some l ->
    exists s' h', SetStatusCondition_mem s c h = Some (s', h') /\
      conditions_at h' s' = Some (SetStatusCondition l c) /\ touches h s h' s';
  remove_mem h s l ty : conditions_at h s = Some l ->
    exists s' h', RemoveStatusCondition_mem s ty h = Some (s', h') /\
      conditions_at h' s' = Some (RemoveStatusCondition l ty) /\ touches h s h' s'
}.

Context `{ApiMetaMem}.

(** [*p] for a pointer into an array. *)
Definition load_element (p : loc * nat) : mem cell Condition :=
  xs ← read (T := list Condition) (p.1);
  match xs !! p.2 with Some c => mret c | None => panic end.

(** [snapshotConditions]: [cpy := *c; snap[ct] = &cpy]. *)
Fixpoint snapshot_types (s : option (slice Condition)) (types : list string) (snap : gmap string (ptr Condition)) :
    mem cell (gmap string (ptr Condition)) :=
  match types with
  | [] => mret snap
  | ct :: types =>
      c ← FindStatusCondition_mem s ct;
      match c with
      | None => snapshot_types s types snap
      | Some c =>
          cpy ← load_element c;
          p ← alloc cpy;
          snapshot_types s types (<[ct := Ptr p]> snap)
      end
  end.

Definition snapshotConditions_mem (conditions : conditions_ptr) : mem cell (gmap string (ptr Condition)) :=
  s ← load_conditions conditions;
  snapshot_types s trackedConditionTypes ∅.

(** A pointer read, if there is one. *)
Definition load_prev (p : option (ptr Condition)) : mem cell (option Condition) :=
  match p with Some p => c ← load p; mret (Some c) | None => mret None end.

Definition load_cur (p : option (loc * nat)) : mem cell (option Condition) :=
  match p with Some p => c ← load_element p; mret (Some c) | None => mret None end.

Fixpoint transitions_types (before : gmap string (ptr Condition)) (s : option (slice Condition)) (types : list string) :
    mem cell (list transition) :=
  match types with
  | [] => mret []
  | ct :: types =>
      prev ← load_prev (before !! ct);
      c ← FindStatusCondition_mem s ct;
      cur ← load_cur c;
      rest ← transitions_types before s types;
      mret (option_list (condition_change ct prev cur) ++ rest)
  end.

Definition logConditionTransitions_mem (before : gmap string (ptr Condition)) (after : conditions_ptr) :
    mem cell (list transition) :=
  s ← load_conditions after;
  transitions_types before s trackedConditionTypes.

Definition set_condition (st : ConditionStatus) (conditions : conditions_ptr) (t generation : Z)
    (conditionType reason message : string) : mem cell () :=
  s ← load_conditions conditions;
  s' ← SetStatusCondition_mem s
         {| c_Type := conditionType; c_Status := st; c_ObservedGeneration := generation;
            c_LastTransitionTime := t; c_Reason := reason; c_Message := message |};
  store_conditions conditions s'.

Definition setConditionTrue_mem := set_condition ConditionTrue.
Definition setConditionFalse_mem := set_condition ConditionFalse.

Definition remove_condition (conditions : conditions_ptr) (conditionType : string) : mem cell () :=
  s ← load_conditions conditions;
  s' ← RemoveStatusCondition_mem s conditionType;
  store_conditions conditions s'.

Definition applyStatusConditionDegraded_mem (conditions : conditions_ptr) (t generation : Z)
    (reason message : string) : mem cell () :=
  _ ← setConditionFalse_mem conditions t generation conditionReady reason message;
  _ ← setConditionTrue_mem conditions t generation conditionDegraded reason message;
  remove_condition conditions conditionProgressing.

Definition applyStatusProgressing_mem (conditions : conditions_ptr) (t generation : Z)
    (reason message : string) : mem cell () :=
  _ ← setConditionFalse_mem conditions t generation conditionReady reason message;
  setConditionTrue_mem conditions t generation conditionProgressing reason message.

Definition applyStatusReady_mem (conditions : conditions_ptr) (t generation : Z)
    (reason message : string) : mem cell () :=
  _ ← setConditionTrue_mem conditions t generation conditionReady reason message;
  _ ← remove_condition conditions conditionDegraded;
  remove_condition conditions conditionProgressing.

(** What [patchDegraded], [patchReady] and [initializeStatus] do around
    [Status().Patch], which [patch_call] is: copy the object for the patch,
    snapshot, apply, patch, log.  The assertion on the copy's type panics on a
    nil interface. *)
Definition patch_conditions_mem (patch_call : Object -> Object -> mem cell (option GoErrors.gerror))
    (apply : conditions_ptr -> mem cell ()) (obj : Object) (conditions : conditions_ptr) :
    mem cell (GoErrors.gerror + list transition) :=
  copy ← DeepCopyObject obj;
  match copy with
  | None => panic
  | Some base =>
      before ← snapshotConditions_mem conditions;
      _ ← apply conditions;
      err ← patch_call obj base;
      match err with
      | Some e => mret (inl e)
      | None => trs ← logConditionTransitions_mem before conditions; mret (inr trs)
      end
  end.

(** The three updates, in memory and on the list. *)
Inductive update := Degraded | Progressing | Ready.

Definition apply_mem (u : update) (t generation : Z) (reason message : string) (conditions : conditions_ptr) :
    mem cell () :=
  match u with
  | Degraded => applyStatusConditionDegraded_mem conditions t generation reason message
  | Progressing => applyStatusProgressing_mem conditions t generation reason message
  | Ready => applyStatusReady_mem conditions t generation reason message
  end.

Definition apply_list (u : update) (l : list Condition) (t generation : Z) (reason message : string) :
    list Condition :=
  match u with
  | Degraded => applyStatusConditionDegraded l t generation reason message
  | Progressing => applyStatusProgressing l t generation reason message
  | Ready => applyStatusReady l t generation reason message
  end.

(** ** Lemmas *)

Definition struct_addr (conditions : conditions_ptr) : loc :=
  match conditions with RuleSetConditions p => addr p | EngineConditions p => addr p end.

(** The pointer leads to the slice [s], which holds [l]. *)
Definition holds h (conditions : conditions_ptr) (s : option (slice Condition)) (l : list Condition) : Prop :=
  load_conditions conditions h = Some (s, h) /\ conditions_at h s = Some l.

Lemma conditions_at_peek h h' s l :
  (forall a, Some a = s_arr <$> s -> peek (T := list Condition) h' a = peek h a) ->
  conditions_at h s = Some l -> conditions_at h' s = Some l.
Proof.
  destruct s as [s|]; [|done]. intros Ha. unfold conditions_at; simpl. rewrite (Ha (s_arr s)) by done.
  destruct (peek h (s_arr s)) as [xs|]; [|done]; simpl. case_bool_decide; [|done].
  by rewrite !mapM_den_flat.
Qed.

(** A slice that holds a list is nil or has an array. *)
Lemma conditions_at_array h s l a : conditions_at h s = Some l -> Some a = s_arr <$> s ->
  exists xs, h !! a = Some (CConditions xs).
Proof.
  destruct s as [s|]; [|done]. unfold conditions_at; simpl. intros Hc [= ->].
  unfold peek in Hc. destruct (h !! s_arr s) as [c|] eqn:E; [|done]. destruct c; try done. by eexists.
Qed.

(** The struct is not an array. *)
Lemma load_conditions_struct h conditions s : load_conditions conditions h = Some (s, h) ->
  is_Some (h !! struct_addr conditions) /\ forall xs, h !! struct_addr conditions <> Some (CConditions xs).
Proof.
  destruct conditions as [p|p]; unfold load_conditions, load, read, mbind, mem_bind, mret, mem_ret, peek; simpl;
    destruct (h !! addr p) as [[]|]; try done; by split.
Qed.

Lemma load_conditions_same h h' conditions s :
  h' !! struct_addr conditions = h !! struct_addr conditions ->
  load_conditions conditions h = Some (s, h) -> load_conditions conditions h' = Some (s, h').
Proof.
  destruct conditions as [p|p]; unfold load_conditions, load, read, mbind, mem_bind, mret, mem_ret, peek; simpl; intros ->;
    destruct (h !! addr p) as [c|]; simpl; try done; destruct c; simpl; try done; intros; by simplify_eq/=.
Qed.

(** The conditions went from [s] to [s']: only the struct and the array of [s]
    may have changed, and the array of [s'] is that one or new. *)
Definition evolves h (conditions : conditions_ptr) (s : option (slice Condition)) h' (s' : option (slice Condition)) : Prop :=
  (forall a, is_Some (h !! a) -> a <> struct_addr conditions -> Some a <> s_arr <$> s -> h' !! a = h !! a) /\
  (forall a, Some a = s_arr <$> s' -> Some a = s_arr <$> s \/ h !! a = None) /\
  (forall a, is_Some (h !! a) -> is_Some (h' !! a)).

Lemma store_ok h conditions s s0 l : load_conditions conditions h = Some (s0, h) -> conditions_at h s = Some l ->
  exists h', store_conditions conditions s h = Some ((), h') /\ holds h' conditions s l /\
    (forall a, a <> struct_addr conditions -> h' !! a = h !! a) /\ is_Some (h' !! struct_addr conditions).
Proof.
  intros Hl Hs. destruct (load_conditions_struct _ _ _ Hl) as [_ Hne].
  assert (exists h', store_conditions conditions s h = Some ((), h') /\
    load_conditions conditions h' = Some (s, h') /\
    (forall a, a <> struct_addr conditions -> h' !! a = h !! a) /\ is_Some (h' !! struct_addr conditions))
    as (h' & E & Hl' & Ha & Hp).
  { destruct conditions as [p|p]; unfold store_conditions, load_conditions, load, store, write, read, peek,
      mbind, mem_bind, mret, mem_ret in *; simpl in *;
      (destruct (h !! addr p) as [c|] eqn:E; simpl in *; [|done]); destruct c; try done; simpl;
      rewrite E; simpl; eexists; (split; [reflexivity|]); rewrite !lookup_insert_eq; simpl;
      (split; [done|]); (split; [intros a Hn; by rewrite lookup_insert_ne|by eexists]). }
  exists h'. split_and!; [done| |done|done]. split; [done|].
  eapply conditions_at_peek; [|exact Hs]. intros a Ha2.
  destruct (conditions_at_array _ _ _ _ Hs Ha2) as [xs Hx].
  unfold peek. rewrite Ha; [done|]. intros ->. by eapply Hne.
Qed.

Lemma evolves_trans h0 h1 h2 conditions s0 s1 s2 :
  evolves h0 conditions s0 h1 s1 -> evolves h1 conditions s1 h2 s2 -> evolves h0 conditions s0 h2 s2.
Proof.
  intros (B1 & A1 & D1) (B2 & A2 & D2). split_and!; [|intros a Ha|by auto].
  - intros a Ha Hs Hn. rewrite B2; [by apply B1|by auto|done|].
    intros E. destruct (A1 _ E) as [?|Hf]; [done|]. rewrite Hf in Ha. by destruct Ha.
  - destruct (A2 _ Ha) as [E|Hn]; [by apply A1|]. right.
    destruct (h0 !! a) eqn:E; [|done]. destruct (D1 a) as [? ?]; [by eexists|congruence].
Qed.

(** Both updates of a slice: load, call [apimeta], store. *)
Lemma change_ok (f : option (slice Condition) -> mem cell (option (slice Condition))) (g : list Condition -> list Condition)
    h conditions s l :
  (forall h s l, conditions_at h s = Some l ->
     exists s' h', f s h = Some (s', h') /\ conditions_at h' s' = Some (g l) /\ touches h s h' s') ->
  holds h conditions s l ->
  exists s' h', (s ← load_conditions conditions; s' ← f s; store_conditions conditions s') h = Some ((), h') /\
    holds h' conditions s' (g l) /\ evolves h conditions s h' s'.
Proof.
  intros Hf [Hl Hc]. destruct (Hf h s l Hc) as (s' & h1 & E & Hc1 & Ht & Hn & Hd).
  destruct (load_conditions_struct _ _ _ Hl) as [Hp Hne].
  assert (Hsame : h1 !! struct_addr conditions = h !! struct_addr conditions).
  { apply Ht; [done|]. intros Ha. destruct (conditions_at_array _ _ _ _ Hc Ha) as [xs Hx]. by eapply Hne. }
  destruct (store_ok h1 conditions s' s (g l)) as (h2 & E2 & Hh & Ha & Hp2);
    [by eapply load_conditions_same|done|].
  exists s', h2. split_and!; [|done|split_and!].
  - unfold mbind, mem_bind. by rewrite Hl, E.
  - intros a Hx Hs Hna. rewrite Ha by done. by apply Ht.
  - done.
  - intros a Hx. destruct (decide (a = struct_addr conditions)) as [->|Hs]; [done|]. rewrite Ha by done. by apply Hd.
Qed.

(** [m] changes the conditions as [g] changes the list. *)
Definition changes (m : mem cell ()) (conditions : conditions_ptr) (g : list Condition -> list Condition) : Prop :=
  forall h s l, holds h conditions s l ->
    exists s' h', m h = Some ((), h') /\ holds h' conditions s' (g l) /\ evolves h conditions s h' s'.

Lemma changes_bind m m' conditions g g' :
  changes m conditions g -> changes m' conditions g' -> changes (_ ← m; m') conditions (fun l => g' (g l)).
Proof.
  intros Hm Hm' h s l Hl. destruct (Hm h s l Hl) as (s1 & h1 & E1 & Hl1 & Hv1).
  destruct (Hm' h1 s1 _ Hl1) as (s2 & h2 & E2 & Hl2 & Hv2).
  exists s2, h2. split_and!; [|done|by eapply evolves_trans]. unfold mbind, mem_bind. by rewrite E1.
Qed.

Lemma set_condition_ok st conditions t generation ty reason message :
  changes (set_condition st conditions t generation ty reason message) conditions
    (fun l => SetStatusCondition l
      {| c_Type := ty; c_Status := st; c_ObservedGeneration := generation;
         c_LastTransitionTime := t; c_Reason := reason; c_Message := message |}).
Proof. intros h s l Hl. eapply (change_ok _ (fun l => SetStatusCondition l _)); [|done]. intros. by apply set_mem. Qed.

Lemma remove_condition_ok conditions ty :
  changes (remove_condition conditions ty) conditions (fun l => RemoveStatusCondition l ty).
Proof. intros h s l Hl. eapply (change_ok _ (fun l => RemoveStatusCondition l _)); [|done]. intros. by apply remove_mem. Qed.

Lemma apply_ok u t generation reason message conditions :
  changes (apply_mem u t generation reason message conditions) conditions
    (fun l => apply_list u l t generation reason message).
Proof.
  destruct u; simpl.
  - eapply (changes_bind _ _ _ _ (fun l => RemoveStatusCondition (setConditionTrue l _ _ _ _ _) _));
      [apply set_condition_ok|]. eapply (changes_bind _ _ _ _ (fun l => RemoveStatusCondition l _));
      [apply set_condition_ok|apply remove_condition_ok].
  - eapply (changes_bind _ _ _ _ (fun l => setConditionTrue l _ _ _ _ _)); apply set_condition_ok.
  - eapply (changes_bind _ _ _ _ (fun l => RemoveStatusCondition (RemoveStatusCondition l _) _));
      [apply set_condition_ok|]. eapply (changes_bind _ _ _ _ (fun l => RemoveStatusCondition l _));
      apply remove_condition_ok.
Qed.

(** *** The snapshot and what is logged from it *)

(** The cells of [d] hold the condition of type [ct] as [l] has it. *)
Definition snapshot_of (d : heap cell) (snap : gmap string (ptr Condition)) (l : list Condition) (ct : string) : Prop :=
  match snap !! ct with
  | Some p => exists c, d !! addr p = Some (CCondition c) /\ FindStatusCondition l ct = Some c
  | None => FindStatusCondition l ct = None
  end.

Lemma snapshot_of_mono d d' snap l ct : d ⊆ d' -> snapshot_of d snap l ct -> snapshot_of d' snap l ct.
Proof.
  unfold snapshot_of. intros Hs. destruct (snap !! ct) as [p|]; [|done]. intros (c & Hc & Hf).
  exists c. split; [by eapply lookup_weaken|done].
Qed.

Lemma snapshot_types_ok h0 s l (Hs : conditions_at h0 s = Some l) types : NoDup types ->
  forall snap h, h0 ⊆ h -> (forall ct, ct ∈ types -> snap !! ct = None) ->
  exists snap' h', snapshot_types s types snap h = Some (snap', h') /\ h ⊆ h' /\
    (forall ct, ct ∈ types -> snapshot_of (h' ∖ h) snap' l ct) /\
    (forall ct, ct ∉ types -> snap' !! ct = snap !! ct).
Proof.
  induction 1 as [|ct types Hct Hnd IH]; intros snap h Hh Hnone.
  { exists snap, h. split_and!; [done|done| |done]. intros ct Hct. by apply not_elem_of_nil in Hct. }
  assert (Hsh : conditions_at h s = Some l).
  { unfold conditions_at in *. apply fmap_Some_inv in Hs as (v & Hv & Hd).
    by rewrite (den_slice_mono _ _ _ _ Hh Hv), <- Hd. }
  destruct (find_mem h s l ct Hsh) as (r & Er & Hr). simpl.
  destruct r as [[a i]|].
  - destruct Hr as (xs & c & Ha & Hi & Hf).
    set (q := next_loc h). set (h1 := <[q := CCondition c]> h).
    assert (Hq : h !! q = None) by apply next_loc_None.
    assert (Hs1 : h ⊆ h1) by by apply insert_subseteq.
    destruct (IH (<[ct := Ptr q]> snap) h1) as (snap' & h' & E & Hs' & Hin & Hout).
    { by etrans. }
    { intros ct' Hct'. rewrite lookup_insert_ne by set_solver. apply Hnone. by right. }
    exists snap', h'. split_and!; [| |intros ct' Hct'|].
    + unfold mbind, mem_bind. rewrite Er. unfold load_element, read, mbind, mem_bind, alloc; simpl.
      rewrite Ha, Hi; simpl. exact E.
    + by etrans.
    + destruct (decide (ct' = ct)) as [->|Hne].
      * unfold snapshot_of. rewrite Hout by done. rewrite lookup_insert_eq. exists c. split; [|done]. simpl.
        apply lookup_difference_Some. split; [|done]. eapply lookup_weaken; [|exact Hs'].
        unfold h1. apply lookup_insert_eq.
      * apply elem_of_cons in Hct' as [?|Hct']; [done|].
        eapply snapshot_of_mono; [|by apply Hin]. by apply diff_subseteq.
    + intros ct' Hct'. apply not_elem_of_cons in Hct' as [??]. rewrite Hout by done. by apply lookup_insert_ne.
  - destruct (IH snap h) as (snap' & h' & E & Hs' & Hin & Hout); [done| |].
    { intros ct' Hct'. apply Hnone. by right. }
    exists snap', h'. split_and!; [|done|intros ct' Hct'|].
    + unfold mbind, mem_bind. by rewrite Er.
    + apply elem_of_cons in Hct' as [->|Hct']; [|by apply Hin].
      unfold snapshot_of. rewrite Hout by done. by rewrite Hnone by left.
    + intros ct' Hct'. apply not_elem_of_cons in Hct' as [??]. by apply Hout.
Qed.

Lemma snapshotConditions_ok h conditions s l : holds h conditions s l ->
  exists snap h', snapshotConditions_mem conditions h = Some (snap, h') /\ h ⊆ h' /\
    forall ct, ct ∈ trackedConditionTypes -> snapshot_of (h' ∖ h) snap l ct.
Proof.
  intros [Hl Hc]. destruct (snapshot_types_ok h s l Hc trackedConditionTypes) with (snap := ∅ : gmap string (ptr Condition)) (h := h)
    as (snap & h' & E & Hs & Hin & _); [|done|done|].
  { unfold trackedConditionTypes. repeat (constructor; [set_solver|]). constructor. }
  exists snap, h'. split_and!; [|done|done]. unfold snapshotConditions_mem, mbind, mem_bind. by rewrite Hl.
Qed.

Lemma transitions_types_ok h before s l l2 types : conditions_at h s = Some l2 ->
  (forall ct, ct ∈ types -> ct ∈ trackedConditionTypes) ->
  (forall ct, ct ∈ trackedConditionTypes -> snapshot_of h before l ct) ->
  transitions_types before s types h =
    Some (omap (condition_transition (snapshotConditions l) l2) types, h).
Proof.
  intros Hs Htr Hsn. induction types as [|ct types IH]; [done|]. simpl.
  assert (Hct : ct ∈ trackedConditionTypes) by (apply Htr; by left).
  assert (Hprev : load_prev (before !! ct) h = Some (FindStatusCondition l ct, h)).
  { specialize (Hsn ct Hct). unfold snapshot_of in Hsn. destruct (before !! ct) as [p|]; simpl.
    - destruct Hsn as (c & Hc & Hf). unfold load, read, peek, mbind, mem_bind, mret, mem_ret; simpl.
      by rewrite Hc, Hf.
    - by rewrite Hsn. }
  destruct (find_mem h s l2 ct Hs) as (r & Er & Hr).
  assert (Hcur : load_cur r h = Some (FindStatusCondition l2 ct, h)).
  { destruct r as [[a i]|]; simpl; [|by rewrite Hr]. destruct Hr as (xs & c & Ha & Hi & Hf).
    unfold load_element, read, mbind, mem_bind, mret, mem_ret; simpl. by rewrite Ha, Hi, Hf. }
  unfold mbind at 1, mem_bind at 1. rewrite Hprev. unfold mbind at 1, mem_bind at 1. rewrite Er.
  unfold mbind at 1, mem_bind at 1. rewrite Hcur. unfold mbind at 1, mem_bind at 1.
  rewrite IH by (intros; apply Htr; by right). unfold mret, mem_ret. unfold condition_transition at 2.
  rewrite snapshot_lookup by done. by destruct (condition_change ct _ _).
Qed.

Lemma logConditionTransitions_ok h before conditions s l l2 : holds h conditions s l2 ->
  (forall ct, ct ∈ trackedConditionTypes -> snapshot_of h before l ct) ->
  logConditionTransitions_mem before conditions h =
    Some (logConditionTransitions (snapshotConditions l) l2, h).
Proof.
  intros [Hl Hc] Hsn. unfold logConditionTransitions_mem, mbind, mem_bind. rewrite Hl.
  by apply transitions_types_ok.
Qed.

(** What an update leaves alone: cells that were not the struct nor the array. *)
Lemma evolves_keeps h h1 conditions s h2 s2 d :
  evolves h1 conditions s h2 s2 -> h ⊆ h1 -> d ⊆ h1 -> (forall a, is_Some (d !! a) -> h !! a = None) ->
  is_Some (h !! struct_addr conditions) -> (forall a, Some a = s_arr <$> s -> is_Some (h !! a)) -> d ⊆ h2.
Proof.
  intros (Hv & _ & _) Hh Hd Hnew Hst Har. apply map_subseteq_spec. intros a c Ha.
  assert (Hn : h !! a = None) by (apply Hnew; by eexists).
  assert (Ha1 : h1 !! a = Some c) by by eapply lookup_weaken.
  rewrite Hv; [done|by eexists| |].
  - intros ->. rewrite Hn in Hst. by destruct Hst.
  - intros E. specialize (Har a E). rewrite Hn in Har. by destruct Har.
Qed.

(** A slice or a struct keeps its conditions in a larger heap. *)
Lemma holds_mono h h' conditions s l : h ⊆ h' -> holds h conditions s l -> holds h' conditions s l.
Proof.
  intros Hs [Hl Hc]. split.
  - eapply load_conditions_same; [|exact Hl]. destruct (load_conditions_struct _ _ _ Hl) as [[c Hx] _].
    rewrite Hx. by eapply lookup_weaken.
  - unfold conditions_at in *. apply fmap_Some_inv in Hc as (w & Hw & Hd).
    by rewrite (den_slice_mono _ _ _ _ Hs Hw), <- Hd.
Qed.

Lemma diff_new (h h' : heap cell) a : is_Some ((h' ∖ h) !! a) -> h !! a = None.
Proof. intros [c Hx]. by apply lookup_difference_Some in Hx as [_ ?]. Qed.

Lemma diff_sub (h h' : heap cell) : h' ∖ h ⊆ h'.
Proof. apply map_subseteq_spec. intros a c Hx. by apply lookup_difference_Some in Hx as [? _]. Qed.

(** The state in which the patch is called: the base, the snapshot and the
    updated conditions. *)
Definition ready_to_patch h v conditions (s : option (slice Condition)) l (l' : list Condition) base snap h1 s1 : Prop :=
  den_Object h1 base = Some v /\ holds h1 conditions s1 l' /\
  (forall a, is_Some (h !! a) -> a <> struct_addr conditions -> Some a <> s_arr <$> s -> h1 !! a = h !! a) /\
  (exists d, d ⊆ h1 /\ (forall a, is_Some (d !! a) -> h !! a = None) /\
     forall ct, ct ∈ trackedConditionTypes -> snapshot_of d snap l ct).

Lemma prepare_ok u t generation reason message h obj v conditions s l :
  den_Object h obj = Some v -> is_nil obj = false -> holds h conditions s l ->
  exists base snap h1 s1,
    ready_to_patch h v conditions s l (apply_list u l t generation reason message) base snap h1 s1 /\
    forall patch_call,
    patch_conditions_mem patch_call (apply_mem u t generation reason message) obj conditions h =
      (err ← patch_call obj base;
       match err with
       | Some e => mret (inl e)
       | None => trs ← logConditionTransitions_mem snap conditions; mret (inr trs)
       end) h1.
Proof.
  intros Ho Hn Hl.
  destruct (DeepCopyObject_copies h obj v Ho) as ([base|] & hd & Ed & Hsd & Hnil & Hbase);
    [|by rewrite (proj1 Hnil eq_refl) in Hn].
  specialize (Hbase base eq_refl).
  destruct (snapshotConditions_ok hd conditions s l) as (snap & hs & Es & Hss & Hsnap);
    [by eapply holds_mono|].
  assert (Hhs : h ⊆ hs) by by etrans.
  destruct (apply_ok u t generation reason message conditions hs s l) as (s1 & h1 & Ea & Hl1 & Hev);
    [by eapply holds_mono|].
  destruct Hl as [Hl Hc]. destruct (load_conditions_struct _ _ _ Hl) as [Hst _].
  assert (Hkeep : forall d, d ⊆ hs -> (forall a, is_Some (d !! a) -> h !! a = None) -> d ⊆ h1).
  { intros d Hd Hnew. apply (evolves_keeps h hs conditions s h1 s1); try done.
    intros a Ha. destruct (conditions_at_array _ _ _ _ Hc Ha) as [xs ->]. by eexists. }
  exists base, snap, h1, s1. split; [split_and!|].
  - eapply den_Object_mono; [|exact Hbase]. apply Hkeep; [etrans; [apply diff_sub|done]|apply diff_new].
  - done.
  - intros a [c Hx] Ha Hb. destruct Hev as [Hev _]. rewrite Hev; [|by eexists; eapply lookup_weaken|done|done].
    rewrite Hx. by eapply lookup_weaken.
  - exists (hs ∖ hd). split_and!; [apply Hkeep; [apply diff_sub|]| |done]; intros a Hx%diff_new;
      (destruct (h !! a) eqn:E; [|done]); by rewrite (lookup_weaken _ _ _ _ E Hsd) in Hx.
  - intros patch_call. unfold patch_conditions_mem. unfold mbind at 1, mem_bind at 1. rewrite Ed.
    unfold mbind at 1, mem_bind at 1. rewrite Es. unfold mbind at 1, mem_bind at 1. by rewrite Ea.
Qed.

(** C13: status patches in shared memory are the value-level ones.  For an object
    that is not nil, whatever the update, the patch is called with the object as
    updated and with a base that stands for the object as it was: the writes
    through the condition pointers do not reach it.  If the call leaves the cells
    allocated since the start alone, apart from the conditions, then what is logged
    are the transitions from the conditions the object had to those it has after
    the call. *)
Theorem patch_conditions_in_memory patch_call u t generation reason message h obj v conditions s l
  (Ho : den_Object h obj = Some v) (Hn : is_nil obj = false) (Hl : holds h conditions s l) :
  exists base h1 s1, den_Object h1 base = Some v /\
    holds h1 conditions s1 (apply_list u l t generation reason message) /\
    (forall a, is_Some (h !! a) -> a <> struct_addr conditions -> Some a <> s_arr <$> s -> h1 !! a = h !! a) /\
    match patch_call obj base h1 with
    | None => patch_conditions_mem patch_call (apply_mem u t generation reason message) obj conditions h = None
    | Some (Some e, h2) =>
        patch_conditions_mem patch_call (apply_mem u t generation reason message) obj conditions h = Some (inl e, h2)
    | Some (None, h2) => forall s2 l2, holds h2 conditions s2 l2 ->
        (forall a, is_Some (h1 !! a) -> h !! a = None -> Some a <> s_arr <$> s1 -> h2 !! a = h1 !! a) ->
        patch_conditions_mem patch_call (apply_mem u t generation reason message) obj conditions h =
          Some (inr (logConditionTransitions (snapshotConditions l) l2), h2)
    end.
Proof.
  destruct (prepare_ok u t generation reason message h obj v conditions s l Ho Hn Hl)
    as (base & snap & h1 & s1 & (Hbase & Hl1 & Hfr & d & Hd & Hnew & Hsnap) & E).
  exists base, h1, s1. split_and!; [done..|]. rewrite E. unfold mbind, mem_bind.
  destruct (patch_call obj base h1) as [[[e|] h2]|]; [done| |done]. intros s2 l2 Hl2 Hpc.
  rewrite (logConditionTransitions_ok h2 snap conditions s2 l l2 Hl2); [done|].
  intros ct Hct. specialize (Hsnap ct Hct). unfold snapshot_of in *.
  destruct (snap !! ct) as [q|]; [|done]. destruct Hsnap as (c & Hq & Hf). exists c. split; [|done].
  assert (Hq1 : h1 !! addr q = Some (CCondition c)) by by eapply lookup_weaken.
  rewrite Hpc; [done|by eexists|apply Hnew; by eexists|].
  intros Ha. destruct Hl1 as [_ Hc1]. destruct (conditions_at_array _ _ _ _ Hc1 Ha) as [xs Hx]. congruence.
Qed.
End memory.

(** ** [apimeta] in place

    An implementation of the class: a condition of the type is overwritten where
    it is, a new one goes to a new array, and removal makes a new array. *)

Fixpoint find_index (l : list Condition) (ty : string) : option nat :=
  match l with
  | [] => None
  | c :: l => if String.eqb (c_Type c) ty then Some O else S <$> find_index l ty
  end.

Lemma find_index_ok l ty :
  match find_index l ty with
  | Some i => exists c, l !! i = Some c /\ list_find l ty = Some c
  | None => list_find l ty = None
  end.
Proof.
  induction l as [|c l IH]; [done|]. simpl. destruct (String.eqb (c_Type c) ty); [by exists c|].
  destruct (find_index l ty); done.
Qed.

(** Overwriting keeps the length. *)
Lemma list_set_length l c i : find_index l (c_Type c) = Some i -> length (list_set l c) = length l.
Proof.
  revert i. induction l as [|d l IH]; intros i; [done|]. simpl.
  destruct (String.eqb (c_Type d) (c_Type c)); [done|]. simpl.
  destruct (find_index l (c_Type c)) as [j|]; [|done]. intros _. by rewrite (IH j).
Qed.

Section in_place.
Context `{MetaOps}.
Implicit Types h : heap cell.

Definition new_conditions (l : list Condition) : mem cell (option (slice Condition)) :=
  a ← alloc l; mret (Some (Slice a 0 (length l))).

Definition read_conditions (s : option (slice Condition)) : mem cell (list Condition) :=
  match s with None => mret [] | Some s => xs ← read (s_arr s); mret (window s xs) end.

Definition find_in_place (s : option (slice Condition)) (ty : string) : mem cell (option (loc * nat)) :=
  l ← read_conditions s;
  match s, find_index l ty with
  | Some s, Some i => mret (Some (s_arr s, (s_off s + i)%nat))
  | _, _ => mret None
  end.

Definition set_in_place (s : option (slice Condition)) (c : Condition) : mem cell (option (slice Condition)) :=
  l ← read_conditions s;
  match s, find_index l (c_Type c) with
  | Some s, Some _ =>
      xs ← read (s_arr s);
      _ ← write (s_arr s) (take (s_off s) xs ++ list_set l c ++ drop (s_off s + s_len s) xs);
      mret (Some s)
  | _, _ => new_conditions (list_set l c)
  end.

Definition remove_in_place (s : option (slice Condition)) (ty : string) : mem cell (option (slice Condition)) :=
  l ← read_conditions s; new_conditions (list_remove l ty).

Lemma conditions_at_iff h (s : slice Condition) l :
  conditions_at h (Some s) = Some l <->
  exists xs, peek h (s_arr s) = Some xs /\ (s_off s + s_len s <= length xs)%nat /\ window s xs = l.
Proof.
  unfold conditions_at, den_slice. destruct (peek h (s_arr s)) as [xs|]; cbn; [|naive_solver].
  case_bool_decide; [rewrite mapM_den_flat; cbn|]; naive_solver.
Qed.

Lemma read_conditions_ok h s l : conditions_at h s = Some l -> read_conditions s h = Some (l, h).
Proof.
  destruct s as [s|]; [|by intros [= <-]]. intros (xs & Hx & _ & <-)%conditions_at_iff.
  unfold read_conditions, read, mbind, mem_bind. by rewrite Hx.
Qed.

Lemma new_conditions_ok h s l l' : conditions_at h s = Some l' ->
  exists s' h', new_conditions l h = Some (s', h') /\ conditions_at h' s' = Some l /\ touches h s h' s'.
Proof.
  intros _. unfold new_conditions, alloc, mbind, mem_bind, mret, mem_ret. set (a := next_loc h).
  assert (Ha : h !! a = None) by apply next_loc_None.
  eexists _, _. split; [done|]. split; [|split_and!].
  - apply conditions_at_iff. exists l. cbn [s_arr s_off s_len]. split_and!; [apply peek_insert|done|].
    unfold window; simpl. by rewrite drop_0, firstn_all.
  - intros b [c Hb] _. rewrite lookup_insert_ne; [done|]. congruence.
  - intros b [= ->]. by right.
  - intros b [c Hb]. rewrite lookup_insert_ne by congruence. by exists c.
Qed.

(** The slice of the original, over an array with another middle. *)
Lemma conditions_at_write h s xs l :
  peek h (s_arr s) = Some xs -> (s_off s + s_len s <= length xs)%nat -> length l = s_len s ->
  conditions_at (<[s_arr s := inj (take (s_off s) xs ++ l ++ drop (s_off s + s_len s) xs)]> h) (Some s) = Some l.
Proof.
  intros Hx Hlen Hl. apply conditions_at_iff. eexists. split_and!; [apply peek_insert| |].
  { rewrite !length_app, length_take, length_drop. lia. }
  unfold window; simpl. rewrite drop_app_length' by (rewrite length_take; lia). by rewrite take_app_length' by lia.
Qed.

Lemma find_in_place_ok h s l ty : conditions_at h s = Some l ->
  exists r, find_in_place s ty h = Some (r, h) /\
    match r with
    | None => list_find l ty = None
    | Some (a, i) => exists xs c, peek h a = Some xs /\ xs !! i = Some c /\ list_find l ty = Some c
    end.
Proof.
  intros Hc. unfold find_in_place, mbind, mem_bind. rewrite (read_conditions_ok _ _ _ Hc).
  pose proof (find_index_ok l ty) as Hi. destruct s as [s|]; [|by injection Hc as <-; exists None].
  destruct (find_index l ty) as [i|]; [|by exists None].
  apply conditions_at_iff in Hc as (xs & Hx & _ & <-). destruct Hi as (c & Hi & Hf).
  eexists. split; [done|]. exists xs, c. split_and!; [done| |done].
  unfold window in Hi. apply lookup_take_Some in Hi as [Hi _]. by rewrite lookup_drop in Hi.
Qed.

Lemma set_in_place_ok h s l c : conditions_at h s = Some l ->
  exists s' h', set_in_place s c h = Some (s', h') /\
    conditions_at h' s' = Some (list_set l c) /\ touches h s h' s'.
Proof.
  intros Hc. unfold set_in_place. unfold mbind at 1, mem_bind at 1. rewrite (read_conditions_ok _ _ _ Hc).
  destruct s as [s|]; [|by eapply new_conditions_ok].
  destruct (find_index l (c_Type c)) as [i|] eqn:Hi; [|by eapply new_conditions_ok].
  apply conditions_at_iff in Hc as (xs & Hx & Hlen & Hw).
  assert (Hl : length (list_set l c) = s_len s).
  { rewrite (list_set_length l c i Hi), <- Hw. unfold window. rewrite length_take, length_drop. lia. }
  pose proof (conditions_at_write h s xs (list_set l c) Hx Hlen Hl) as Hat.
  eexists _, _. split; [|split; [exact Hat|split_and!]].
  - unfold read, write, mbind, mem_bind, mret, mem_ret. by rewrite Hx, Hx.
  - intros a _ Hn. apply lookup_insert_ne. simpl in Hn. congruence.
  - intros a Ha. by left.
  - intros a Ha. destruct (decide (a = s_arr s)) as [->|]; [rewrite lookup_insert_eq; by eexists|].
    by rewrite lookup_insert_ne.
Qed.

Definition in_place : @ApiMetaMem _ _ list_ApiMeta.
Proof.
  refine (@Build_ApiMetaMem _ _ list_ApiMeta find_in_place set_in_place remove_in_place
            find_in_place_ok set_in_place_ok _).
  abstract (intros h s l ty Hc; unfold remove_in_place, mbind, mem_bind; rewrite (read_conditions_ok _ _ _ Hc);
    by eapply new_conditions_ok).
Defined.
End in_place.

(** The RuleSet of [DeepCopy.Sample] becomes degraded; the server answers with
    what it was sent. *)
Lemma patch_conditions_in_memory_witness :
  let A := list_ApiMeta in let M := in_place in
  exists h2, patch_conditions_mem (fun _ _ h => Some (None, h)) (apply_mem Degraded 7 2 "InvalidRuleSet" "bad rule")
      Sample.sample_object (RuleSetConditions (Ptr 1)) Sample.sample_heap =
    Some (inr [{| tr_Type := "Ready"; tr_From := Some (ConditionTrue, "RulesCached");
                  tr_To := Some (ConditionFalse, "InvalidRuleSet") |};
               {| tr_Type := "Degraded"; tr_From := None; tr_To := Some (ConditionTrue, "InvalidRuleSet") |}], h2).
Proof.
  intros A M.
  assert (Hd : den_Object Sample.sample_heap Sample.sample_object = Some Sample.sample_value) by reflexivity.
  assert (Hl : holds Sample.sample_heap (RuleSetConditions (Ptr 1)) (Some (Slice 4 0 1)) [Sample.ready])
    by (split; reflexivity).
  destruct (patch_conditions_in_memory (fun _ _ h => Some (None, h)) Degraded 7 2 "InvalidRuleSet" "bad rule"
              Sample.sample_heap Sample.sample_object Sample.sample_value _ _ _ Hd eq_refl Hl)
    as (base & h1 & s1 & _ & Hl1 & _ & Hp).
  exists h1. rewrite (Hp s1 _ Hl1) by done. reflexivity.
Defined.
