(* ===== verification/Logging.v ===== *)
(** * Structured log lines of the controllers ([internal/controller/utils.go])

    What [logInfo], [logDebug], [logError], [logAPIError] and
    [logConditionTransitions] hand to the logger: a level or an error, the
    message, and the arguments, which the logger reads as keys and values in
    turn. *)
From S2P Require Import Prelude GoLib GoErrors KubeApi Status.

Definition debugLevel : Z := 1.

Inductive severity := Info (level : Z) | Error (err : gerror).

(** A call of the logger: the arguments are strings and integers. *)
Record log_line := {
  ll_severity : severity;
  ll_msg : string;
  ll_args : list field_value
}.

(** The arguments every line starts with. *)
Definition request_args (req : NamespacedName) : list field_value :=
  [FString "namespace"; FString (nn_Namespace req); FString "name"; FString (nn_Name req)].

Definition kind_msg (kind msg : string) : string := kind +:+ ": " +:+ msg.

Definition logInfo (req : NamespacedName) (kind msg : string) (keysAndValues : list field_value) : log_line :=
  {| ll_severity := Info 0; ll_msg := kind_msg kind msg; ll_args := request_args req ++ keysAndValues |}.

Definition logDebug (req : NamespacedName) (kind msg : string) (keysAndValues : list field_value) : log_line :=
  {| ll_severity := Info debugLevel; ll_msg := kind_msg kind msg; ll_args := request_args req ++ keysAndValues |}.

Definition logError (req : NamespacedName) (kind : string) (err : gerror) (msg : string)
    (keysAndValues : list field_value) : log_line :=
  {| ll_severity := Error err; ll_msg := kind_msg kind msg; ll_args := request_args req ++ keysAndValues |}.

(** [extractStatusErrorFields] as the flat list it returns. *)
Definition status_error_args (err : gerror) : list field_value :=
  flat_map (fun f => [FString f.1; f.2]) (extractStatusErrorFields err).

(** [obj] is the resource version of the object, [None] for a nil object. *)
Definition logAPIError (req : NamespacedName) (kind : string) (err : gerror) (msg : string)
    (obj : option string) (extra : list field_value) : list log_line :=
  let odd := negb (Nat.even (length extra)) in
  let warning :=
    if odd then
      [logDebug req kind "logAPIError called with odd number of extra key-value arguments; dropping trailing orphan" []]
    else [] in
  let extra := if odd then take (length extra - 1) extra else extra in
  let version :=
    match obj with
    | Some rv => if String.eqb rv "" then [] else [FString "resourceVersion"; FString rv]
    | None => []
    end in
  warning ++ [logError req kind err msg (extra ++ version ++ status_error_args err)].

Definition status_text (s : ConditionStatus) : string :=
  match s with ConditionTrue => "True" | ConditionFalse => "False" | ConditionUnknown => "Unknown" end.

(** The line of one transition. *)
Definition transition_line (req : NamespacedName) (kind : string) (t : transition) : option log_line :=
  match tr_From t, tr_To t with
  | None, Some (st, reason) =>
      Some (logInfo req kind "Condition set"
        [FString "condition"; FString (tr_Type t); FString "fromStatus"; FString "";
         FString "toStatus"; FString (status_text st); FString "reason"; FString reason])
  | Some (st, _), None =>
      Some (logInfo req kind "Condition removed"
        [FString "condition"; FString (tr_Type t); FString "fromStatus"; FString (status_text st);
         FString "toStatus"; FString ""])
  | Some (st, _), Some (st', reason) =>
      Some (logInfo req kind "Condition changed"
        [FString "condition"; FString (tr_Type t); FString "fromStatus"; FString (status_text st);
         FString "toStatus"; FString (status_text st'); FString "reason"; FString reason])
  | None, None => None
  end.

Definition transition_lines (req : NamespacedName) (kind : string) (ts : list transition) : list log_line :=
  omap (transition_line req kind) ts.

(** ** Lemmas *)

(** The arguments pair up: the logger would report a key without a value. *)
Definition paired (l : log_line) : Prop := Nat.even (length (ll_args l)) = true.

(** The request comes first. *)
Definition about (req : NamespacedName) (l : log_line) : Prop :=
  take 4 (ll_args l) = request_args req.

Lemma status_error_args_even err : Nat.even (length (status_error_args err)) = true.
Proof.
  unfold status_error_args. induction (extractStatusErrorFields err) as [|f l IH]; [done|]. simpl.
  by rewrite IH.
Qed.

(** Whatever it is given, [logAPIError] logs lines about the request whose
    arguments pair up: a trailing key is dropped, and reported. *)
Lemma logAPIError_paired req kind err msg obj extra :
  Forall (fun l => paired l /\ about req l) (logAPIError req kind err msg obj extra) /\
  length (logAPIError req kind err msg obj extra) = (if Nat.even (length extra) then 1 else 2)%nat.
Proof.
  unfold logAPIError. set (extra' := if negb _ then take _ extra else extra).
  assert (He : Nat.even (length extra') = true).
  { unfold extra'. destruct (Nat.even (length extra)) eqn:E; simpl; [done|].
    rewrite length_take_le by lia. destruct extra as [|x extra]; [done|].
    cbn [length] in *. rewrite Nat.even_succ, <- Nat.negb_even, negb_false_iff in E.
    by replace (S (length extra) - 1)%nat with (length extra) by lia. }
  split.
  - apply Forall_app. split; [by destruct (negb _); repeat constructor|]. repeat constructor.
    unfold paired; simpl. rewrite !length_app, !Nat.even_add, He, status_error_args_even.
    destruct obj as [rv|]; [|done]. by destruct (String.eqb rv "").
  - rewrite length_app. by destruct (Nat.even (length extra)).
Qed.

(** A transition has a side, and is logged. *)
Lemma transition_line_ok req kind t : tr_From t <> None \/ tr_To t <> None ->
  exists l, transition_line req kind t = Some l /\ paired l /\ about req l.
Proof.
  unfold transition_line. destruct (tr_From t) as [[]|], (tr_To t) as [[]|]; intros Ht;
    try (eexists; split; [reflexivity|by split]). by destruct Ht.
Qed.

Lemma condition_change_side ct prev cur t : condition_change ct prev cur = Some t ->
  tr_From t <> None \/ tr_To t <> None.
Proof.
  unfold condition_change. destruct prev, cur; intros; repeat case_match; simplify_eq/=; (by left) || by right.
Qed.

(** Every transition is logged, in order. *)
Lemma transition_lines_all `{ApiMeta} req kind before after :
  let ts := logConditionTransitions before after in
  Forall2 (fun t l => transition_line req kind t = Some l /\ paired l /\ about req l) ts (transition_lines req kind ts).
Proof.
  intros ts. assert (Hts : Forall (fun t => tr_From t <> None \/ tr_To t <> None) ts).
  { apply Forall_forall. intros t (ct & _ & Ht)%list_elem_of_omap. by eapply condition_change_side. }
  unfold transition_lines. induction Hts as [|t ts' Ht _ IH]; [constructor|].
  destruct (transition_line_ok req kind t Ht) as (l & Hl & Hp). simpl. rewrite Hl. by constructor.
Qed.
