(* ===== verification/RuleSetController.v ===== *)
(** * The RuleSet controller ([internal/controller/ruleset_controller*.go])

    [Reconcile] loads the RuleData and RuleSource objects a RuleSet refers to,
    validates the aggregated rules with Coraza, rejects rules the WASM engine
    does not support, and stores the result in the cache.  It is written in the
    monad of [KubeApi], step for step as the source. *)
From S2P Require Import Prelude GoLib GoErrors RulesetCache RulesetCacheSpec MemFS Unsupported KubeApi Status.

(** The [done] flag of the loading functions. *)
Inductive outcome (A : Type) := Done | Continue (a : A).
Arguments Done {A}.
Arguments Continue {A} a.

Record ruleFragment := {
  frag_name : string;
  frag_rules : string;
  frag_skipValidation : bool
}.

Section controller.
Context `{ApiMeta} (A : api).
(** The order in which a map of data files is traversed. *)
Context (range_order : gmap string string -> list string).

Definition ruleset_key (rs : RuleSet) : string := Namespace (rs_Meta rs) +:+ "/" +:+ Name (rs_Meta rs).
Definition in_namespace_of (rs : RuleSet) (name : string) : NamespacedName :=
  {| nn_Namespace := Namespace (rs_Meta rs); nn_Name := name |}.

Definition initializeStatus (rs : RuleSet) : prog RuleSet :=
  match FindStatusCondition (rs_Conditions rs) conditionReady with
  | Some _ => mret rs
  | None => patch_conditions A (fun l t =>
      applyStatusProgressing l t (Generation (rs_Meta rs)) "Reconciling" "Starting reconciliation") rs
  end.

Definition degrade (rs : RuleSet) (reason message : string) : prog RuleSet :=
  patchDegraded A rs (Generation (rs_Meta rs)) reason message.

(** ** Data loading *)

(** The loop of [loadData]; the files of the last reference win. *)
Fixpoint loadData_loop (rs : RuleSet) (refs : list DataReference) (dataFiles : gmap string string) :
    prog (outcome (option (gmap string string))) :=
  match refs with
  | [] => mret (Continue (Some dataFiles))
  | ref :: refs' =>
      let nn := in_namespace_of rs (data_Name ref) in
      r ← attempt (call (fun tr => get_RuleData A tr nn) (EffGet "RuleData" nn));
      match r with
      | inl err =>
          if IsNotFound A err then
            _ ← degrade rs "RuleDataNotFound" ("Referenced RuleData " +:+ data_Name ref +:+ " does not exist");
            mret Done
          else
            _ ← degrade rs "RuleDataAccessError"
                  ("Failed to access RuleData " +:+ data_Name ref +:+ ": " +:+ error_text err);
            throw err
      | inr rd => loadData_loop rs refs' (rd_Files rd ∪ dataFiles)
      end
  end.

Definition loadData (rs : RuleSet) : prog (outcome (option (gmap string string))) :=
  match Data (rs_Spec rs) with
  | [] => mret (Continue None)
  | refs => loadData_loop rs refs ∅
  end.

(** ** Source loading *)

Fixpoint loadSources_loop (rs : RuleSet) (refs : list SourceReference) (ruleFragments : list ruleFragment) :
    prog (outcome (list ruleFragment)) :=
  match refs with
  | [] => mret (Continue ruleFragments)
  | src :: refs' =>
      let nn := in_namespace_of rs (src_Name src) in
      r ← attempt (call (fun tr => get_RuleSource A tr nn) (EffGet "RuleSource" nn));
      match r with
      | inl err =>
          if IsNotFound A err then
            _ ← degrade rs "RuleSourceNotFound" ("Referenced RuleSource " +:+ src_Name src +:+ " does not exist");
            mret Done
          else
            _ ← degrade rs "RuleSourceAccessError"
                  ("Failed to access RuleSource " +:+ src_Name src +:+ ": " +:+ error_text err);
            throw err
      | inr s =>
          let skipValidation :=
            String.eqb (default "" (Annotations (rsrc_Meta s) !! AnnotationSkipValidation)) "false" in
          loadSources_loop rs refs'
            (ruleFragments ++ [{| frag_name := src_Name src; frag_rules := rsrc_Rules s;
                                  frag_skipValidation := skipValidation |}])
      end
  end.

Definition validateRuleSourceRules (data ruleSourceName : string) (dataFiles : option (gmap string string)) :
    option gerror :=
  match NewWAF A data None with
  | None => None
  | Some err =>
      if shouldSkipMissingFileError err dataFiles then None
      else Some (errorf_w ("RuleSource " +:+ ruleSourceName +:+ " doesn't contain valid rules: ")
                   (sanitizeErrorMessage err))
  end.

(** The validating loop of [loadSources]: the rules and errors so far. *)
Fixpoint aggregate_loop (dataMap : option (gmap string string)) (frags : list ruleFragment)
    (aggregatedRules : string) (aggregatedErrors : list gerror) : string * list gerror :=
  match frags with
  | [] => (aggregatedRules, aggregatedErrors)
  | frag :: frags' =>
      let aggregatedErrors :=
        if negb (frag_skipValidation frag) then
          match validateRuleSourceRules (frag_rules frag) (frag_name frag) dataMap with
          | Some err => aggregatedErrors ++ [err]
          | None => aggregatedErrors
          end
        else aggregatedErrors in
      let aggregatedRules := aggregatedRules +:+ frag_rules frag in
      let aggregatedRules :=
        match frags' with [] => aggregatedRules | _ => aggregatedRules +:+ String nl "" end in
      aggregate_loop dataMap frags' aggregatedRules aggregatedErrors
  end.

Definition loadSources (rs : RuleSet) (dataFiles : option (gmap string string)) :
    prog (outcome (string * list gerror)) :=
  r ← loadSources_loop rs (Sources (rs_Spec rs)) [];
  match r with
  | Done => mret Done
  | Continue ruleFragments =>
      let dataMap := match dataFiles with
                     | Some m => if bool_decide (m = ∅) then None else Some m
                     | None => None
                     end in
      mret (Continue (aggregate_loop dataMap ruleFragments "" []))
  end.

(** ** Validation *)

(** One event per source error; the message collects them. *)
Fixpoint report_source_errors (errs : list gerror) (msg : string) : prog string :=
  match errs with
  | [] => mret msg
  | srcErr :: errs' =>
      _ ← emit (EffEvent "Warning" "InvalidRuleSource" "Reconcile" (truncateEventNote (error_text srcErr)));
      report_source_errors errs' (msg +:+ String nl "" +:+ error_text srcErr)
  end.

Definition validateAggregatedRules (rs : RuleSet) (rules : string) (root : option MemFS)
    (aggregatedErrors : list gerror) : prog unit :=
  match NewWAF A rules root with
  | None => mret tt
  | Some err =>
      msg ← report_source_errors aggregatedErrors
              ("Ruleset is invalid" +:+ String nl "" +:+ error_text (sanitizeErrorMessage err));
      _ ← degrade rs "InvalidRuleSet" msg;
      throw (sanitizeErrorMessage err)
  end.

Definition rejectUnsupportedRules (rs : RuleSet) (rules : string) : prog (bool * string) :=
  match CheckUnsupportedRules rules with
  | [] => mret (false, "")
  | unsupported =>
      let msg := FormatUnsupportedMessage unsupported in
      if String.eqb (default "" (Annotations (rs_Meta rs) !! AnnotationSkipUnsupportedRulesCheck)) "true" then
        _ ← emit (EffEvent "Warning" "UnsupportedRules" "Reconcile" (truncateEventNote msg));
        mret (false, msg)
      else
        _ ← degrade rs "UnsupportedRules" msg;
        mret (true, "")
  end.

(** ** Caching *)

Definition cacheRules (rs : RuleSet) (aggregatedRules : string)
    (dataFiles : option (gmap string string)) (unsupportedMsg : string) : prog Result :=
  _ ← emit (EffPut (ruleset_key rs) aggregatedRules dataFiles);
  _ ← patchReady A rs (Generation (rs_Meta rs)) "RulesCached"
        (buildCacheReadyMessage (Namespace (rs_Meta rs)) (Name (rs_Meta rs)) unsupportedMsg);
  mret no_requeue.

(** ** Reconcile *)

(** What follows the loading of the data files and the sources. *)
Definition validate_and_cache (rs : RuleSet) (dataFiles : option (gmap string string))
    (aggregatedRules : string) (aggregatedErrors : list gerror) : prog Result :=
  t ← time_now A;
  let fsRules := getDataFilesystem t (range_order (default ∅ dataFiles)) dataFiles in
  _ ← validateAggregatedRules rs aggregatedRules fsRules aggregatedErrors;
  r ← rejectUnsupportedRules rs aggregatedRules;
  if r.1 : bool then mret no_requeue
  else cacheRules rs aggregatedRules dataFiles r.2.

Definition Reconcile (req : NamespacedName) : prog Result :=
  r ← attempt (call (fun tr => get_RuleSet A tr req) (EffGet "RuleSet" req));
  match r with
  | inl err => if IsNotFound A err then mret no_requeue else throw err
  | inr rs =>
      rs ← initializeStatus rs;
      d ← loadData rs;
      match d with
      | Done => mret no_requeue
      | Continue dataFiles =>
          s ← loadSources rs dataFiles;
          match s with
          | Done => mret no_requeue
          | Continue (aggregatedRules, aggregatedErrors) =>
              validate_and_cache rs dataFiles aggregatedRules aggregatedErrors
          end
      end
  end.

(** ** Watches *)

(** The field indexes of [SetupWithManager]. *)
Definition sources_index (rs : RuleSet) : list string := src_Name <$> Sources (rs_Spec rs).
Definition data_index (rs : RuleSet) : list string := data_Name <$> Data (rs_Spec rs).

(** [findRuleSetsBy]: the API server answers a list by namespace and index
    value with the matching RuleSets. *)
Definition findRuleSetsBy (list_RuleSets : string -> string -> string -> gerror + list RuleSet)
    (namespace indexKey indexValue : string) : list NamespacedName :=
  match list_RuleSets namespace indexKey indexValue with
  | inl _ => []
  | inr items => collectRequests rs_Meta (fun _ => true) items
  end.

Definition findRuleSetsForRuleSource (list_RuleSets : string -> string -> string -> gerror + list RuleSet)
    (ruleSource : ObjectMeta) : list NamespacedName :=
  findRuleSetsBy list_RuleSets (Namespace ruleSource) "spec.sources.name" (Name ruleSource).
Definition findRuleSetsForRuleData (list_RuleSets : string -> string -> string -> gerror + list RuleSet)
    (ruleData : ObjectMeta) : list NamespacedName :=
  findRuleSetsBy list_RuleSets (Namespace ruleData) "spec.data.name" (Name ruleData).
End controller.

(** ** Lemmas *)

(** *** Aggregation *)

Section aggregation.
Context `{ApiMeta} (A : api).

(** The error a fragment contributes. *)
Definition frag_error (dataMap : option (gmap string string)) (frag : ruleFragment) : option gerror :=
  if frag_skipValidation frag then None
  else validateRuleSourceRules A (frag_rules frag) (frag_name frag) dataMap.

Lemma aggregate_loop_acc dataMap frags rules errs :
  aggregate_loop A dataMap frags rules errs =
    (rules +:+ Join (frag_rules <$> frags) (String nl ""), errs ++ omap (frag_error dataMap) frags).
Proof.
  revert rules errs. induction frags as [|frag frags IH]; intros rules errs; simpl.
  { by rewrite app_empty_r, app_nil_r. }
  rewrite IH. f_equal.
  - destruct frags as [|frag' frags]; simpl.
    + by rewrite app_empty_r.
    + by rewrite !string_app_assoc.
  - unfold frag_error. destruct (frag_skipValidation frag); simpl; [done|].
    destruct (validateRuleSourceRules _ _ _ _); [by rewrite <- app_assoc|done].
Qed.
End aggregation.

(** *** Which calls store rules *)

Definition is_put (e : effect) : bool := match e with EffPut _ _ _ => true | _ => false end.
Definition no_put (e : effect) : Prop := is_put e = false.

Section calls.
Context `{ApiMeta} (A : api) (range_order : gmap string string -> list string).

Lemma degrade_no_put rs reason message : adds no_put (degrade A rs reason message).
Proof. by apply adds_patchDegraded. Qed.

Lemma initializeStatus_no_put rs : adds no_put (initializeStatus A rs).
Proof. unfold initializeStatus. case_match; [apply adds_ret|by apply adds_patch_conditions]. Qed.
#[local] Hint Resolve degrade_no_put : operator.

(** A RuleSource or RuleData the API server gave for a reference. *)
Definition fetched_source (rs : RuleSet) (ref : SourceReference) (frag : ruleFragment) : Prop :=
  exists tr s, get_RuleSource A tr (in_namespace_of rs (src_Name ref)) = inr s /\
    frag_name frag = src_Name ref /\ frag_rules frag = rsrc_Rules s.
Definition fetched_data (rs : RuleSet) (ref : DataReference) (rd : RuleData) : Prop :=
  exists tr, get_RuleData A tr (in_namespace_of rs (data_Name ref)) = inr rd.

(** The merged data files: the last listed object wins. *)
Definition merge_data (acc : gmap string string) (rds : list RuleData) : gmap string string :=
  fold_left (fun acc rd => rd_Files rd ∪ acc) rds acc.

(** The branches that fail to get an object store nothing. *)
Lemma fail_branch_no_put {B} (rs : RuleSet) err r1 m1 r2 m2 (Q : gerror + outcome B -> Prop) :
  (forall e, Q (inl e)) -> Q (inr Done) ->
  post (if IsNotFound A err then _ ← degrade A rs r1 m1; mret Done
        else _ ← degrade A rs r2 m2; throw err)
    (fun _ l r => Forall no_put l /\ Q r).
Proof.
  intros He Hd. destruct (IsNotFound A err).
  - eapply post_mono; [apply post_bind; [apply post_adds, degrade_no_put|intros; apply post_ret]|].
    intros tr l r [(e & -> & ?)|(a & l1 & l2 & -> & ? & -> & ->)]; [by split|].
    rewrite app_nil_r. by split.
  - eapply post_mono; [apply post_bind; [apply post_adds, degrade_no_put|intros; apply post_throw]|].
    intros tr l r [(e & -> & ?)|(a & l1 & l2 & -> & ? & -> & ->)]; [by split|].
    rewrite app_nil_r. by split.
Qed.

Lemma loadData_loop_post rs refs acc :
  post (loadData_loop A rs refs acc) (fun _ l r => Forall no_put l /\
    forall df, r = inr (Continue df) ->
      exists rds, Forall2 (fetched_data rs) refs rds /\ df = Some (merge_data acc rds)).
Proof.
  revert acc. induction refs as [|ref refs IH]; intros acc; simpl.
  { eapply post_mono; [apply post_ret|]. intros tr l r [-> ->]. split; [done|]. intros df ?. simplify_eq.
    exists []. by split; [constructor|]. }
  eapply post_mono.
  { eapply (post_bind _ _ _ (fun a _ l r => Forall no_put l /\ forall df, r = inr (Continue df) ->
      exists rd rds, a = inr rd /\ Forall2 (fetched_data rs) refs rds /\
        df = Some (merge_data acc (rd :: rds)))); [apply post_attempt_call|].
    intros [err|rd].
    - apply (fail_branch_no_put _ _ _ _ _ _ (fun r => forall df, r = inr (Continue df) -> _)); done.
    - eapply post_mono; [apply IH|]. intros tr l r [? Hr]. split; [done|]. intros df Hdf.
      destruct (Hr df Hdf) as (rds & ? & ->). exists rd, rds. done. }
  intros tr l r [(e & -> & [-> ?])|(a & l1 & l2 & -> & [-> ?] & Hl & Hr)]; [done|]. simplify_eq.
  split; [by constructor|]. intros df Hdf. destruct (Hr df Hdf) as (rd & rds & Ha & ? & ->).
  exists (rd :: rds). split; [|done]. constructor; [|done]. by eexists.
Qed.

Lemma loadSources_loop_post rs refs acc :
  post (loadSources_loop A rs refs acc) (fun _ l r => Forall no_put l /\
    forall frags, r = inr (Continue frags) ->
      exists frags', Forall2 (fetched_source rs) refs frags' /\ frags = acc ++ frags').
Proof.
  revert acc. induction refs as [|ref refs IH]; intros acc; simpl.
  { eapply post_mono; [apply post_ret|]. intros tr l r [-> ->]. split; [done|]. intros df ?. simplify_eq.
    exists []. split; [constructor|by rewrite app_nil_r]. }
  eapply post_mono.
  { eapply (post_bind _ _ _ (fun a _ l r => Forall no_put l /\ forall frags, r = inr (Continue frags) ->
      exists s b frags', a = inr s /\ Forall2 (fetched_source rs) refs frags' /\
        frags = acc ++ {| frag_name := src_Name ref; frag_rules := rsrc_Rules s;
                          frag_skipValidation := b |} :: frags')); [apply post_attempt_call|].
    intros [err|s].
    - apply (fail_branch_no_put _ _ _ _ _ _ (fun r => forall frags, r = inr (Continue frags) -> _)); done.
    - eapply post_mono; [apply IH|]. intros tr l r [? Hr]. split; [done|]. intros frags Hf.
      destruct (Hr frags Hf) as (frags' & ? & ->). eexists s, _, frags'. by rewrite <- app_assoc. }
  intros tr l r [(e & -> & [-> ?])|(a & l1 & l2 & -> & [-> ?] & Hl & Hr)]; [done|]. simplify_eq.
  split; [by constructor|]. intros frags Hf. destruct (Hr frags Hf) as (s & b & frags' & Ha & ? & ->).
  eexists (_ :: frags'). split; [|done]. constructor; [|done]. eexists _, s. done.
Qed.
End calls.

Section reconcile.
Context `{ApiMeta} (A : api) (range_order : gmap string string -> list string).

Lemma loadData_post rs :
  post (loadData A rs) (fun _ l r => Forall no_put l /\
    forall df, r = inr (Continue df) ->
      exists rds, Forall2 (fetched_data A rs) (Data (rs_Spec rs)) rds /\
        df = match rds with [] => None | _ => Some (merge_data ∅ rds) end).
Proof.
  unfold loadData. destruct (Data (rs_Spec rs)) as [|ref refs].
  - eapply post_mono; [apply post_ret|]. intros tr l r [-> ->]. split; [done|]. intros df ?. simplify_eq.
    exists []. by split; [constructor|].
  - eapply post_mono; [apply loadData_loop_post|]. intros tr l r [? Hr]. split; [done|].
    intros df Hdf. destruct (Hr df Hdf) as (rds & Hf & ->). exists rds. split; [done|].
    by inversion Hf.
Qed.

Lemma loadSources_post rs df :
  post (loadSources A rs df) (fun _ l r => Forall no_put l /\
    forall rules errs, r = inr (Continue (rules, errs)) ->
      exists frags, Forall2 (fetched_source A rs) (Sources (rs_Spec rs)) frags /\
        rules = Join (frag_rules <$> frags) (String nl "")).
Proof.
  unfold loadSources. eapply post_mono.
  { eapply (post_bind _ _ _ (fun a _ l r => Forall no_put l /\
      forall rules errs, r = inr (Continue (rules, errs)) ->
        exists frags, a = Continue frags /\ rules = Join (frag_rules <$> frags) (String nl "")));
      [apply loadSources_loop_post|].
    intros [|frags]; (eapply post_mono; [apply post_ret|]); intros tr l r [-> ->]; (split; [done|]);
      intros rules errs ?; simplify_eq.
    exists frags. split; [done|]. rewrite aggregate_loop_acc in *. by simplify_eq. }
  intros tr l r [(e & -> & [? ?])|(a & l1 & l2 & -> & [? Ha] & ? & Hr)]; [done|].
  split; [by apply Forall_app|]. intros rules errs Heq.
  destruct (Hr _ _ Heq) as (frags & -> & ->). destruct (Ha frags eq_refl) as (frags' & ? & ->). eauto.
Qed.

(** The rules were accepted: Coraza compiles them with the data files, and they
    hold no unsupported rule unless the RuleSet overrides the check. *)
Definition accepted (rs : RuleSet) (rules : string) (df : option (gmap string string)) : Prop :=
  (exists t, NewWAF A rules (getDataFilesystem t (range_order (default ∅ df)) df) = None) /\
  (CheckUnsupportedRules rules = [] \/
   Annotations (rs_Meta rs) !! AnnotationSkipUnsupportedRulesCheck = Some "true").

(** Nothing is stored, or the accepted rules are, once; then only the Ready
    status is reported. *)
Definition stores (rs : RuleSet) (rules : string) (df : option (gmap string string))
    (l : list effect) : Prop :=
  exists l1 l2, l = l1 ++ EffPut (ruleset_key rs) rules df :: l2 /\
    Forall no_put l1 /\ Forall no_put l2 /\ accepted rs rules df /\
    exists note, head l2 = Some (EffEvent "Normal" "RulesCached" "Reconcile" note).

Lemma report_source_errors_no_put errs msg : adds no_put (report_source_errors errs msg).
Proof. revert msg. induction errs as [|e errs IH]; intros msg; simpl; solve_adds; done. Qed.

Lemma validateAggregatedRules_post rs rules root errs :
  post (validateAggregatedRules A rs rules root errs) (fun _ l r => Forall no_put l /\
    (r = inr tt -> NewWAF A rules root = None)).
Proof.
  unfold validateAggregatedRules. destruct (NewWAF A rules root) as [err|].
  - eapply post_mono.
    { eapply post_bind; [apply post_adds, report_source_errors_no_put|]. intros msg.
      eapply post_bind; [apply post_adds, (degrade_no_put A)|]. intros ?. apply post_throw. }
    intros tr l r [(e & -> & ?)|(msg & l1 & l2 & -> & ? & [(e & -> & ?)|(a & l3 & l4 & -> & ? & -> & ->)])].
    + by split.
    + split; [by apply Forall_app|done].
    + rewrite app_nil_r. split; [by apply Forall_app|done].
  - eapply post_mono; [apply post_ret|]. intros tr l r [-> ->]. done.
Qed.

Lemma rejectUnsupportedRules_post rs rules :
  post (rejectUnsupportedRules A rs rules) (fun _ l r => Forall no_put l /\
    forall msg, r = inr (false, msg) -> CheckUnsupportedRules rules = [] \/
      Annotations (rs_Meta rs) !! AnnotationSkipUnsupportedRulesCheck = Some "true").
Proof.
  unfold rejectUnsupportedRules. destruct (CheckUnsupportedRules rules) as [|u us].
  { eapply post_mono; [apply post_ret|]. intros tr l r [-> ->]. auto. }
  destruct (String.eqb_spec (default "" (Annotations (rs_Meta rs) !! AnnotationSkipUnsupportedRulesCheck)) "true")
    as [Ha|Ha].
  - eapply post_mono; [eapply post_bind; [apply post_emit|intros; apply post_ret]|].
    intros tr l r [(e & -> & -> & ?)|(a & l1 & l2 & -> & [-> ?] & -> & ->)]; [done|].
    split; [by repeat constructor|]. intros msg _. right.
    destruct (Annotations _ !! _); simpl in Ha; congruence.
  - eapply post_mono; [eapply post_bind; [apply post_adds, (degrade_no_put A)|intros; apply post_ret]|].
    intros tr l r [(e & -> & ?)|(a & l1 & l2 & -> & ? & -> & ->)]; [by split|].
    rewrite app_nil_r. by split.
Qed.

Lemma cacheRules_post rs rules df msg :
  post (cacheRules A rs rules df msg) (fun _ l r => exists l2,
    l = EffPut (ruleset_key rs) rules df :: l2 /\ Forall no_put l2 /\
    exists note, head l2 = Some (EffEvent "Normal" "RulesCached" "Reconcile" note)).
Proof.
  unfold cacheRules, patchReady. eapply post_mono.
  { eapply post_bind; [apply post_emit|]. intros ?.
    eapply post_bind; [|intros; apply post_ret].
    eapply post_bind; [apply post_emit|]. intros ?.
    apply post_adds. by apply (adds_patch_conditions A no_put). }
  intros tr l r [(e & -> & _ & ?)|(a & l1 & l2 & -> & [-> _] & Hr)]; [done|].
  exists l2. split; [done|].
  destruct Hr as [(e & -> & [(e' & ? & -> & ?)|(a1 & l3 & l4 & -> & [-> _] & ?)])
                 |(a1 & l3 & l4 & -> & [(e' & ? & -> & ?)|(a2 & l5 & l6 & -> & [-> _] & ?)] & -> & ->)];
    try done; rewrite ?app_nil_r; simpl; (split; [by constructor|eauto]).
Qed.

Lemma validate_and_cache_post rs df rules errs :
  post (validate_and_cache A range_order rs df rules errs) (fun _ l r => Forall no_put l \/ stores rs rules df l).
Proof.
  unfold validate_and_cache. eapply post_mono.
  { eapply (post_bind _ _ _ (fun _ _ l _ => Forall no_put l \/ stores rs rules df l)); [apply post_now|]. intros t.
    set (fs := getDataFilesystem t _ df). eapply post_mono.
    { eapply post_bind; [apply validateAggregatedRules_post|]. intros ?.
      eapply post_bind; [apply rejectUnsupportedRules_post|].
      intros x. instantiate (1 := fun x _ l r => (x.1 = false -> _ l) /\ (x.1 = true -> l = [])).
      instantiate (1 := fun l => exists l2, l = EffPut (ruleset_key rs) rules df :: l2 /\ Forall no_put l2 /\
         exists note, head l2 = Some (EffEvent "Normal" "RulesCached" "Reconcile" note)).
      destruct x as [[|] msg]; simpl.
      - eapply post_mono; [apply post_ret|]. intros tr l r [-> ->]. split; [intros Hf; discriminate Hf|done].
      - eapply post_mono; [apply cacheRules_post|]. intros tr l r Hl. split; [done|intros Hf; discriminate Hf]. }
    intros tr l r [(e & -> & [? _])|(a & l1 & l2 & -> & [Hl1 Hw] & Hr)]; [by left|].
    destruct Hr as [(e & -> & [? _])|(x & l3 & l4 & -> & [Hl3 Hx] & Hf & Ht)]; [left; by apply Forall_app|].
    destruct x as [[|] msg]; simpl in *.
    - left. rewrite (Ht eq_refl), app_nil_r. by apply Forall_app.
    - right. destruct (Hf eq_refl) as (l5 & -> & Hl5 & Hnote). exists (l1 ++ l3), l5.
      rewrite <- app_assoc. destruct a. split_and!; try done; [by apply Forall_app|].
      split; [exists t; by apply Hw|by eapply Hx]. }
  intros tr l r [(e & -> & _ & ? & ?)|(t & l1 & l2 & -> & [-> _] & Hl)]; [done|]. exact Hl.
Qed.

(** What a reconciliation may store: the rules of the referenced RuleSources in
    the order listed, with the files of the referenced RuleData objects. *)
Definition stores_sources (l : list effect) : Prop :=
  exists rs rds frags,
    Forall2 (fetched_data A rs) (Data (rs_Spec rs)) rds /\
    Forall2 (fetched_source A rs) (Sources (rs_Spec rs)) frags /\
    stores rs (Join (frag_rules <$> frags) (String nl ""))
      (match rds with [] => None | _ => Some (merge_data ∅ rds) end) l.

Lemma stores_app rs rules df l l' : Forall no_put l -> stores rs rules df l' -> stores rs rules df (l ++ l').
Proof.
  intros Hl (l1 & l2 & -> & ? & ? & ? & ?). exists (l ++ l1), l2. rewrite <- app_assoc.
  split_and!; try done. by apply Forall_app.
Qed.

Lemma stores_sources_app l l' : Forall no_put l -> stores_sources l' -> stores_sources (l ++ l').
Proof. intros Hl (rs & rds & frags & ? & ? & ?). exists rs, rds, frags. split_and!; try done. by apply stores_app. Qed.

Definition puts_only_sources (l : list effect) : Prop := Forall no_put l \/ stores_sources l.

Lemma puts_only_app l l' : Forall no_put l -> puts_only_sources l' -> puts_only_sources (l ++ l').
Proof. intros Hl [Hl'|Hl']; [left; by apply Forall_app|right; by apply stores_sources_app]. Qed.

(** The part of [Reconcile] that follows the initial status. *)
Lemma load_and_cache_post rs :
  post (d ← loadData A rs;
        match d with
        | Done => mret no_requeue
        | Continue dataFiles =>
            s ← loadSources A rs dataFiles;
            match s with
            | Done => mret no_requeue
            | Continue (rules, errs) => validate_and_cache A range_order rs dataFiles rules errs
            end
        end) (fun _ l _ => puts_only_sources l).
Proof.
  eapply post_mono.
  { eapply (post_bind _ _ _ (fun d _ l _ => Forall no_put l \/
      exists df frags, d = Continue df /\ Forall2 (fetched_source A rs) (Sources (rs_Spec rs)) frags /\
        stores rs (Join (frag_rules <$> frags) (String nl "")) df l)); [apply loadData_post|].
    intros [|df]; [eapply post_mono; [apply post_ret|]; intros tr l r [-> _]; by left|].
    eapply post_mono.
    { eapply (post_bind _ _ _ (fun s _ l _ => Forall no_put l \/
        exists rules errs, s = Continue (rules, errs) /\ stores rs rules df l)); [apply loadSources_post|].
      intros [|[rules errs]]; [eapply post_mono; [apply post_ret|]; intros tr l r [-> _]; by left|].
      eapply post_mono; [apply validate_and_cache_post|]. intros tr l r [?|?]; [by left|right; eauto]. }
    intros tr l r [(e & -> & ? & _)|(s & l1 & l2 & -> & [Hl1 Hs] & [?|(rules & errs & -> & Hst)])];
      [by left|left; by apply Forall_app|].
    right. destruct (Hs _ _ eq_refl) as (frags & ? & ->). exists df, frags. split_and!; try done.
    by apply stores_app. }
  intros tr l r [(e & -> & ? & _)|(d & l1 & l2 & -> & [Hl1 Hd] & Hl2)]; [by left|].
  apply puts_only_app; [done|]. destruct Hl2 as [?|(df & frags & -> & ? & ?)]; [by left|right].
  destruct (Hd _ eq_refl) as (rds & ? & ->). by exists rs, rds, frags.
Qed.

Lemma Reconcile_post req : post (Reconcile A range_order req) (fun _ l _ => puts_only_sources l).
Proof.
  unfold Reconcile. eapply post_mono.
  { eapply (post_bind _ _ _ (fun _ _ l _ => puts_only_sources l)); [apply post_attempt_call|].
    intros [err|rs].
    - destruct (IsNotFound A err);
        [eapply post_mono; [apply post_ret|]|eapply post_mono; [apply post_throw|]];
        intros tr l r [-> _]; by left.
    - eapply post_mono.
      { eapply (post_bind _ _ _ (fun _ _ l _ => puts_only_sources l));
          [apply post_adds, (initializeStatus_no_put A)|apply load_and_cache_post]. }
      intros tr l r [(e & -> & ?)|(a & l1 & l2 & -> & ? & ?)]; [by left|by apply puts_only_app]. }
  intros tr l r [(e & -> & -> & _)|(a & l1 & l2 & -> & [-> _] & ?)]; [by left; repeat constructor|].
  apply puts_only_app; [by repeat constructor|done].
Qed.
End reconcile.

(** ** The cache behind the controller

    The cache operations a trace performs; [stamp] gives each its UUID and time. *)
Section cached.
Context `{ApiMeta} (A : api) (range_order : gmap string string -> list string).

Fixpoint reconcile_all (reqs : list NamespacedName) (w : world) : world :=
  match reqs with
  | [] => w
  | req :: reqs' => reconcile_all reqs' (Reconcile A range_order req w).1
  end.

(** Every stored rule set of the trace was accepted. *)
Definition all_accepted (tr : list effect) : Prop :=
  forall key rules df, EffPut key rules df ∈ tr -> exists rs, key = ruleset_key rs /\ accepted A range_order rs rules df.

Lemma puts_accepted l : puts_only_sources A range_order l -> all_accepted l.
Proof.
  intros Hl key rules df Hin. destruct Hl as [Hl|(rs & rds & frags & _ & _ & l1 & l2 & -> & H1 & H2 & Hacc & _)].
  - rewrite Forall_forall in Hl. by specialize (Hl _ Hin).
  - apply elem_of_app in Hin as [Hin|[Hin|Hin]%elem_of_cons].
    + rewrite Forall_forall in H1. by specialize (H1 _ Hin).
    + simplify_eq. eauto.
    + rewrite Forall_forall in H2. by specialize (H2 _ Hin).
Qed.

Lemma all_accepted_app l l' : all_accepted l -> all_accepted l' -> all_accepted (l ++ l').
Proof. intros Hl Hl' key rules df [Hin|Hin]%elem_of_app; eauto. Qed.

Lemma reconcile_all_accepted reqs w :
  all_accepted (w_trace w) -> all_accepted (w_trace (reconcile_all reqs w)).
Proof.
  revert w. induction reqs as [|req reqs IH]; intros w Hw; [done|]. apply IH.
  destruct (Reconcile_post A range_order req w) as (l & -> & Hl).
  apply all_accepted_app; [done|]. by apply puts_accepted.
Qed.
End cached.

(** *** The outcome of a validation *)

Section outcomes.
Context `{ApiMeta} (A : api) (range_order : gmap string string -> list string).
Context (Hpatch : forall tr o, patch_RuleSet_status A tr o = inr o).

Lemma degrade_run rs reason message w :
  exists rs' l, degrade A rs reason message w = ({| w_trace := w_trace w ++ l; w_tokens := w_tokens w |}, inr rs') /\
    Forall no_put l /\ exists conds, last_status l = Some conds /\
    is_degraded conds (Generation (rs_Meta rs)) reason message.
Proof.
  unfold degrade, patchDegraded. rewrite prog_bind_eq. simpl.
  match goal with |- context [patch_conditions A ?ap rs ?w'] =>
    pose proof (patch_conditions_run A ap rs w') as Hrun end.
  simpl in Hrun. rewrite Hpatch in Hrun. rewrite Hrun. unfold log_effect. simpl.
  eexists _, [_; _; _]. rewrite <- !app_assoc. simpl. split; [reflexivity|].
  split; [by repeat constructor|]. eexists. split; [reflexivity|]. apply applyStatusConditionDegraded_is.
Qed.

Lemma patchReady_run (rs : RuleSet) g reason message w :
  exists rs' l, patchReady A rs g reason message w = ({| w_trace := w_trace w ++ l; w_tokens := w_tokens w |}, inr rs') /\
    Forall no_put l /\ exists conds, last_status l = Some conds /\ is_ready conds g reason message.
Proof.
  unfold patchReady. rewrite prog_bind_eq. simpl.
  match goal with |- context [patch_conditions A ?ap rs ?w'] =>
    pose proof (patch_conditions_run A ap rs w') as Hrun end.
  simpl in Hrun. rewrite Hpatch in Hrun. rewrite Hrun. unfold log_effect. simpl.
  eexists _, [_; _; _]. rewrite <- !app_assoc. simpl. split; [reflexivity|].
  split; [by repeat constructor|]. eexists. split; [reflexivity|]. apply applyStatusReady_is.
Qed.

(** The message built from the errors of the sources. *)
Definition errors_message (errs : list gerror) (msg : string) : string :=
  fold_left (fun msg e => msg +:+ String nl "" +:+ error_text e) errs msg.

Lemma report_source_errors_run errs msg w :
  exists l, report_source_errors errs msg w =
    ({| w_trace := w_trace w ++ l; w_tokens := w_tokens w |}, inr (errors_message errs msg)) /\ Forall no_put l.
Proof.
  revert msg w. induction errs as [|e errs IH]; intros msg w; simpl.
  - exists []. rewrite app_nil_r. by destruct w.
  - rewrite prog_bind_eq. simpl. destruct (IH (msg +:+ String nl "" +:+ error_text e)
      (log_effect (EffEvent "Warning" "InvalidRuleSource" "Reconcile" (truncateEventNote (error_text e))) w))
      as (l & -> & Hl).
    eexists (_ :: l). simpl. rewrite <- app_assoc. split; [reflexivity|]. by constructor.
Qed.

(** The world after a degraded, or a stored and ready, reconciliation. *)
Definition degraded_run {B} (rs : RuleSet) (reason message : string) (w : world)
    (r : world * (gerror + B)) (res : gerror + B) : Prop :=
  r.2 = res /\ exists l conds, w_trace r.1 = w_trace w ++ l /\ Forall no_put l /\
    last_status l = Some conds /\ is_degraded conds (Generation (rs_Meta rs)) reason message.

Definition ready_run (rs : RuleSet) (rules : string) (df : option (gmap string string)) (message : string)
    (w : world) (r : world * (gerror + Result)) : Prop :=
  r.2 = inr no_requeue /\ exists l l' conds,
    w_trace r.1 = w_trace w ++ l ++ EffPut (ruleset_key rs) rules df :: l' /\
    Forall no_put l /\ Forall no_put l' /\
    last_status l' = Some conds /\ is_ready conds (Generation (rs_Meta rs)) "RulesCached" message.

Lemma validateAggregatedRules_invalid rs rules root errs err w :
  NewWAF A rules root = Some err ->
  exists l conds, validateAggregatedRules A rs rules root errs w =
    ({| w_trace := w_trace w ++ l; w_tokens := w_tokens w |}, inl (sanitizeErrorMessage err)) /\
    Forall no_put l /\ last_status l = Some conds /\
    is_degraded conds (Generation (rs_Meta rs)) "InvalidRuleSet"
      (errors_message errs ("Ruleset is invalid" +:+ String nl "" +:+ error_text (sanitizeErrorMessage err))).
Proof.
  intros Hw. unfold validateAggregatedRules. rewrite Hw, prog_bind_eq.
  destruct (report_source_errors_run errs
    ("Ruleset is invalid" +:+ String nl "" +:+ error_text (sanitizeErrorMessage err)) w) as (l & -> & Hl).
  rewrite prog_bind_eq.
  match goal with |- context [degrade A rs ?reason ?m ?w'] =>
    destruct (degrade_run rs reason m w') as (rs' & l' & -> & Hl' & conds & Hc & Hd) end.
  simpl. rewrite <- app_assoc. exists (l ++ l'), conds. split; [done|].
  split; [by apply Forall_app|]. split; [by apply last_status_app|done].
Qed.

Lemma cacheRules_run rs rules df msg w :
  ready_run rs rules df (buildCacheReadyMessage (Namespace (rs_Meta rs)) (Name (rs_Meta rs)) msg) w
    (cacheRules A rs rules df msg w).
Proof.
  unfold cacheRules. rewrite prog_bind_eq. simpl. rewrite prog_bind_eq.
  match goal with |- context [patchReady A rs ?g ?reason ?m ?w'] =>
    destruct (patchReady_run rs g reason m w') as (rs' & l' & -> & Hl' & conds & Hc & Hd) end.
  split; [done|]. simpl. exists [], l', conds. simpl. by rewrite <- app_assoc.
Qed.

Lemma ready_run_after rs rules df message w l r :
  Forall no_put l ->
  ready_run rs rules df message {| w_trace := w_trace w ++ l; w_tokens := w_tokens w |} r ->
  ready_run rs rules df message w r.
Proof.
  intros Hl (Hr & l1 & l2 & conds & Ht & H1 & H2 & Hc & Hd). split; [done|]. exists (l ++ l1), l2, conds.
  simpl in Ht. rewrite Ht, <- !app_assoc. split; [done|]. split; [by apply Forall_app|done].
Qed.
End outcomes.

(** *** The stored revisions *)

(** The cache operations of a trace; [stamp n] is the UUID and the time the
    [n]-th one gets. *)
Fixpoint cache_ops (stamp : nat -> string * Z) (n : nat) (tr : list effect) : list cache_op :=
  match tr with
  | [] => []
  | EffPut key rules df :: tr' =>
      OpPut (stamp n).1 (stamp n).2 key rules df :: cache_ops stamp (S n) tr'
  | _ :: tr' => cache_ops stamp n tr'
  end.

(** Every revision of every instance satisfies [P]. *)
Definition all_entries (P : string -> RuleSetEntry -> Prop) (c : RuleSetCache) : Prop :=
  forall i es e, entries c !! i = Some es -> e ∈ Entries es -> P i e.

Lemma find_entry_elem u l e : find_entry u l = Some e -> e ∈ l.
Proof.
  induction l as [|d l IH]; simpl; [done|]. destruct (String.eqb (UUID d) u); intros; simplify_eq; set_solver.
Qed.

Lemma Get_entry P c i e :
  all_entries P c -> Get c i = Some e -> exists e0, P i e0 /\ Rules e = Rules e0 /\ DataFiles e = DataFiles e0.
Proof.
  unfold Get. intros Hall Hg. destruct (entries c !! i) as [es|] eqn:Hes; [|done].
  destruct (0 <? Z.of_nat (length (Entries es))); [|done].
  destruct (find_entry (Latest es) (Entries es)) as [e0|] eqn:Hf; [|done]. simplify_eq.
  exists e0. split; [|by rewrite clone_DataFiles_id]. eapply Hall; [done|]. by eapply find_entry_elem.
Qed.

Lemma Put_all_entries P uuid t inst rules df c :
  all_entries P c -> P inst (newEntry uuid t rules df) -> all_entries P (Put uuid t inst rules df c).
Proof.
  intros Hall Hnew i es e Hes He. unfold Put in Hes. simpl in Hes.
  destruct (entries c !! inst) as [es0|] eqn:He0.
  - apply lookup_insert_Some in Hes as [[-> <-]|[_ Hes]]; [|by eapply Hall].
    simpl in He. apply elem_of_app in He as [He|He]; [by eapply Hall|].
    apply list_elem_of_singleton in He as ->. done.
  - apply lookup_insert_Some in Hes as [[-> <-]|[_ Hes]]; [|by eapply Hall].
    simpl in He. apply list_elem_of_singleton in He as ->. done.
Qed.

Lemma cache_ops_all_entries P stamp n tr c :
  all_entries P c ->
  (forall key rules df uuid t, EffPut key rules df ∈ tr -> P key (newEntry uuid t rules df)) ->
  all_entries P (run_ops (cache_ops stamp n tr) c).
Proof.
  revert n c. induction tr as [|e tr IH]; intros n c Hc Hp; [done|].
  assert (forall key rules df uuid t, EffPut key rules df ∈ tr -> P key (newEntry uuid t rules df)) as Hp'.
  { intros. apply Hp. by constructor. }
  destruct e; try by apply IH. simpl. apply IH; [|done].
  apply Put_all_entries; [done|]. apply Hp. by constructor.
Qed.

(** ** The properties *)


(** What the cache serves was validated. After any sequence of
    reconciliations, whatever revision [Get] returns for an instance holds rules
    and files that Coraza accepted for the RuleSet of that name. *)
Theorem served_rules_validated `{ApiMeta} (A : api) (range_order : gmap string string -> list string)
    (reqs : list NamespacedName) (stamp : nat -> string * Z) (i : string) (e : RuleSetEntry) :
  let tr := w_trace (reconcile_all A range_order reqs empty_world) in
  Get (run_ops (cache_ops stamp 0 tr) NewRuleSetCache) i = Some e ->
  exists rs df, i = ruleset_key rs /\ accepted A range_order rs (Rules e) df /\
    DataFiles e = match df with Some m => if bool_decide (m = ∅) then None else Some m | None => None end.
Proof.
  intros tr Hg.
  assert (all_accepted A range_order tr) as Hacc.
  { apply reconcile_all_accepted. intros ??? []%not_elem_of_nil. }
  set (P := fun key e0 => exists rs df, key = ruleset_key rs /\ accepted A range_order rs (Rules e0) df /\
    DataFiles e0 = match df with Some m => if bool_decide (m = ∅) then None else Some m | None => None end).
  apply (Get_entry P) in Hg as (e0 & (rs & df & Hk & Ha & Hd) & -> & ->); [by exists rs, df|].
  apply cache_ops_all_entries.
  - intros j es d Hj. simpl in Hj. by rewrite lookup_empty in Hj.
  - intros key rules df uuid t Hin. destruct (Hacc _ _ _ Hin) as (rs & Hk & Ha).
    exists rs, df. split_and!; [done|done|]. simpl. destruct df as [m|]; [|done].
    by rewrite cloneDataFiles_id.
Qed.

Definition sample_ruleset : RuleSet :=
  {| rs_Meta := sample_meta "ns" "rs";
     rs_Spec := {| Sources := [{| src_Name := "a" |}; {| src_Name := "b" |}];
                   Data := [{| data_Name := "d" |}] |};
     rs_Conditions := [] |}.

(** An engine that accepts every directive list except ["bad"]. *)
Definition sample_waf (rules : string) (_ : option MemFS) : option gerror :=
  if String.eqb rules "bad" then Some (ErrText "syntax error") else None.

Definition sample_cluster : api :=
  quiet_api [sample_ruleset]
    [{| rsrc_Meta := sample_meta "ns" "a"; rsrc_Rules := "SecRuleEngine On" |};
     {| rsrc_Meta := sample_meta "ns" "b"; rsrc_Rules := "SecAction id:1" |}]
    [{| rd_Meta := sample_meta "ns" "d"; rd_Files := {["ips.data" := "10.0.0.1"]} |}] [] sample_waf.

Definition sample_order (m : gmap string string) : list string := elements (dom m).

Theorem served_rules_validated_witness :
  let tr := w_trace (reconcile_all (H := list_ApiMeta) sample_cluster sample_order
                       [object_name (rs_Meta sample_ruleset)] empty_world) in
  exists e, Get (run_ops (cache_ops (fun _ => ("u", 0)) 0 tr) NewRuleSetCache) "ns/rs" = Some e /\
    Rules e = "SecRuleEngine On" +:+ String nl "" +:+ "SecAction id:1" /\
    exists rs df, "ns/rs" = ruleset_key rs /\ accepted sample_cluster sample_order rs (Rules e) df /\
      DataFiles e = match df with Some m => if bool_decide (m = ∅) then None else Some m | None => None end.
Proof.
  intros tr. eexists. split; [vm_compute; reflexivity|]. split; [reflexivity|].
  apply (served_rules_validated (H := list_ApiMeta) sample_cluster sample_order
    [object_name (rs_Meta sample_ruleset)] (fun _ => ("u", 0)) "ns/rs").
  vm_compute. reflexivity.
Defined.

(** C18: The outcome of validation, branch by branch, when status patches
    succeed. Rules Coraza refuses: the sanitised error is returned, the status
    is Degraded/InvalidRuleSet and lists the errors of the sources. Unsupported
    rules without the override: no error, Degraded/UnsupportedRules with the
    list. Otherwise the rules are stored and the status is Ready, naming the
    unsupported rules when the override is on. Nothing is stored in the first
    two cases. *)
Theorem validate_and_cache_outcomes `{ApiMeta} (A : api) (range_order : gmap string string -> list string)
    (Hpatch : forall tr o, patch_RuleSet_status A tr o = inr o)
    (rs : RuleSet) (df : option (gmap string string)) (rules : string) (errs : list gerror) (w : world) :
  let r := validate_and_cache A range_order rs df rules errs w in
  let root := getDataFilesystem (now A (w_trace w)) (range_order (default ∅ df)) df in
  let ready msg := buildCacheReadyMessage (Namespace (rs_Meta rs)) (Name (rs_Meta rs)) msg in
  match NewWAF A rules root, CheckUnsupportedRules rules with
  | Some err, _ =>
      degraded_run rs "InvalidRuleSet"
        (errors_message errs ("Ruleset is invalid" +:+ String nl "" +:+ error_text (sanitizeErrorMessage err)))
        w r (inl (sanitizeErrorMessage err))
  | None, [] => ready_run rs rules df (ready "") w r
  | None, unsupported =>
      if bool_decide (Annotations (rs_Meta rs) !! AnnotationSkipUnsupportedRulesCheck = Some "true")
      then ready_run rs rules df (ready (FormatUnsupportedMessage unsupported)) w r
      else degraded_run rs "UnsupportedRules" (FormatUnsupportedMessage unsupported) w r (inr no_requeue)
  end.
Proof.
  intros r root ready.
  assert (r = ((_ ← validateAggregatedRules A rs rules root errs; x ← rejectUnsupportedRules A rs rules;
    if x.1 : bool then mret no_requeue else cacheRules A rs rules df x.2) w)) as -> by reflexivity.
  rewrite prog_bind_eq. destruct (NewWAF A rules root) as [err|] eqn:Hwaf.
  { destruct (validateAggregatedRules_invalid A Hpatch rs rules root errs err w Hwaf) as (l & conds & -> & ?).
    split; [done|]. exists l, conds. done. }
  assert (validateAggregatedRules A rs rules root errs w = (w, inr tt)) as ->
    by (unfold validateAggregatedRules; by rewrite Hwaf).
  rewrite prog_bind_eq. unfold rejectUnsupportedRules.
  destruct (CheckUnsupportedRules rules) as [|u us]; [apply (cacheRules_run A Hpatch)|].
  set (msg := FormatUnsupportedMessage (u :: us)).
  case_bool_decide as Ha.
  - rewrite Ha. eapply ready_run_after; [|apply (cacheRules_run A Hpatch)].
    by repeat constructor.
  - destruct (String.eqb_spec (default "" (Annotations (rs_Meta rs) !! AnnotationSkipUnsupportedRulesCheck)) "true")
      as [He|He].
    { exfalso. apply Ha. destruct (Annotations _ !! _); simpl in He; congruence. }
    rewrite prog_bind_eq.
    match goal with |- context [degrade A rs ?reason ?m ?w'] =>
      destruct (degrade_run A Hpatch rs reason m w') as (rs' & l' & -> & Hl' & conds & Hc & Hd) end.
    split; [done|]. exists l', conds. done.
Qed.

Theorem validate_and_cache_outcomes_witness :
  let r := validate_and_cache (H := list_ApiMeta) sample_cluster sample_order sample_ruleset None "bad" []
             empty_world in
  r.2 = inl (ErrText "syntax error") /\ exists l conds, w_trace r.1 = [] ++ l /\ Forall no_put l /\
    last_status l = Some conds /\
    is_degraded (H := list_ApiMeta) conds 1 "InvalidRuleSet"
      ("Ruleset is invalid" +:+ String nl "" +:+ "syntax error").
Proof.
  exact (validate_and_cache_outcomes (H := list_ApiMeta) sample_cluster sample_order
    (fun tr o => eq_refl) sample_ruleset None "bad" [] empty_world).
Defined.

(** Aggregation. The rules are the sources' texts joined by line breaks in
    order, none dropped, also those that do not validate or skip validation; the
    errors are those of the fragments that do not skip validation, in order. *)
Theorem aggregation_exact `{ApiMeta} (A : api) (dataMap : option (gmap string string)) (frags : list ruleFragment) :
  aggregate_loop A dataMap frags "" [] =
    (Join (frag_rules <$> frags) (String nl ""), omap (frag_error A dataMap) frags).
Proof. by rewrite aggregate_loop_acc. Qed.
