(* ===== verification/EngineNetwork.v ===== *)
(** * Engine targets and their NetworkPolicies

    [engine_controller_target.go], [engine_controller_utils.go],
    [engine_controller_map_funcs.go] and [engine_controller_network_policy.go]:
    the selector an Engine's target gives, the objects it maps watch events to,
    and the NetworkPolicy that lets the target's pods reach the cache server. *)
From S2P Require Import Prelude GoLib GoErrors MemFS KubeApi Status.

(** The configuration of [EngineReconciler]; its token store is in [world]. *)
Record EngineReconciler := {
  ruleSetCacheServerCluster : string;
  istioRevision : string;
  defaultWasmImage : string;
  operatorNamespace : string
}.

Definition gatewayNameLabel : string := "gateway.networking.k8s.io/gateway-name".
Definition DefaultRuleSetCacheServerPort : Z := 18080.
Definition networkPolicyFinalizer : string := "waf.k8s.coraza.io/network-policy-cleanup".
Definition NetworkPolicyGenerateName : string := "coraza-cache-".
Definition operatorPodLabelKey : string := "control-plane".
Definition operatorPodLabelValue : string := "coraza-controller-manager".
Definition networkPolicyEngineLabelName : string := "waf.k8s.coraza.io/engine-name".
Definition networkPolicyEngineLabelNamespace : string := "waf.k8s.coraza.io/engine-namespace".

Section network.
Context (A : api) (r : EngineReconciler).

(** ** Targets *)

(** A nil Engine is [None]. *)
Definition hasGatewayTarget (engine : option Engine) : bool :=
  match engine with
  | None => false
  | Some e => String.eqb (target_Type (e_Target (e_Spec e))) EngineTargetTypeGateway &&
              negb (String.eqb (target_Name (e_Target (e_Spec e))) "")
  end.

Definition targetLabelSelector (engine : option Engine) : option LabelSelector :=
  match engine with
  | None => None
  | Some e =>
      if String.eqb (target_Type (e_Target (e_Spec e))) EngineTargetTypeGateway then
        let name := target_Name (e_Target (e_Spec e)) in
        if String.eqb name "" || (0 <? Z.of_nat (length (IsDNS1035Label A name))) then None
        else Some {| MatchLabels := {[gatewayNameLabel := name]} |}
      else None
  end.

Definition engineMatchesLabels (engine : option Engine) (podLabels : gmap string string) : bool :=
  match targetLabelSelector engine with
  | None => false
  | Some ws => match LabelSelectorAsSelector A ws with
               | inl _ => false
               | inr matches => matches podLabels
               end
  end.

(** ** Watch mapping *)

(** The Engines of a namespace that match, as requests; nothing when the list
    fails. *)
Definition findEngines (ns : string) (match_ : Engine -> bool) : prog (list NamespacedName) :=
  l ← attempt (call (fun tr => list_Engines A tr ns) (EffList "Engine" ns ∅));
  match l with
  | inl _ => mret []
  | inr items => mret (collectRequests e_Meta match_ items)
  end.

Definition findEnginesForRuleSet (ruleSet : ObjectMeta) : prog (list NamespacedName) :=
  findEngines (Namespace ruleSet) (fun e => String.eqb (e_RuleSet (e_Spec e)) (Name ruleSet)).

Definition findEnginesForGateway (gateway : ObjectMeta) : prog (list NamespacedName) :=
  findEngines (Namespace gateway)
    (fun e => hasGatewayTarget (Some e) && String.eqb (target_Name (e_Target (e_Spec e))) (Name gateway)).

Definition findEnginesForPod (pod : ObjectMeta) : prog (list NamespacedName) :=
  findEngines (Namespace pod) (fun e => engineMatchesLabels (Some e) (Labels pod)).

Definition findEnginesForNetworkPolicy (labels : gmap string string) : list NamespacedName :=
  let name := default "" (labels !! networkPolicyEngineLabelName) in
  let ns := default "" (labels !! networkPolicyEngineLabelNamespace) in
  if String.eqb name "" || String.eqb ns "" then []
  else [{| nn_Namespace := ns; nn_Name := name |}].

(** ** Building and applying the policy *)

Definition engineNetworkPolicyLabels (engineNamespace engineName : string) : gmap string string :=
  <[networkPolicyEngineLabelName := engineName]>
    {[networkPolicyEngineLabelNamespace := engineNamespace]}.

Definition findNetworkPolicyForEngine (engineNamespace engineName : string) : prog (option NetworkPolicy) :=
  let labels := engineNetworkPolicyLabels engineNamespace engineName in
  l ← attempt (call (fun tr => list_policies A tr (operatorNamespace r) labels)
                 (EffList "NetworkPolicy" (operatorNamespace r) labels));
  match l with
  | inl err => throw (errorf_w "list NetworkPolicies: " err)
  | inr items => mret (head items)
  end.

Definition buildNetworkPolicy (engine : Engine) : NetworkPolicy :=
  let podSelector := default {| MatchLabels := ∅ |} (targetLabelSelector (Some engine)) in
  {| np_Namespace := operatorNamespace r;
     np_Name := "";
     np_GenerateName := NetworkPolicyGenerateName;
     np_ResourceVersion := "";
     np_Labels := <["app.kubernetes.io/managed-by" := "coraza-kubernetes-operator"]>
                    (engineNetworkPolicyLabels (Namespace (e_Meta engine)) (Name (e_Meta engine)));
     np_PodSelector := {| MatchLabels := {[operatorPodLabelKey := operatorPodLabelValue]} |};
     np_PolicyTypes := ["Ingress"];
     np_Ingress :=
       [{| From := [{| NamespaceSelector :=
                         {| MatchLabels := {["kubernetes.io/metadata.name" := Namespace (e_Meta engine)]} |};
                       PeerPodSelector := podSelector |}];
           Ports := [{| port_Protocol := "TCP"; port_Port := DefaultRuleSetCacheServerPort |}] |}] |}.

(** The desired policy under the name and version of the existing one. *)
Definition update_of (desired existing : NetworkPolicy) : NetworkPolicy :=
  {| np_Namespace := np_Namespace desired; np_Name := np_Name existing; np_GenerateName := "";
     np_ResourceVersion := np_ResourceVersion existing; np_Labels := np_Labels desired;
     np_PodSelector := np_PodSelector desired; np_PolicyTypes := np_PolicyTypes desired;
     np_Ingress := np_Ingress desired |}.

Definition applyNetworkPolicy (engine : Engine) : prog unit :=
  match targetLabelSelector (Some engine) with
  | None => throw (ErrText "cannot derive a valid workload selector from spec.target: ensure target type and name are set")
  | Some ws =>
      if bool_decide (MatchLabels ws = ∅) then
        throw (ErrText "cannot derive a valid workload selector from spec.target: ensure target type and name are set")
      else
        existing ← findNetworkPolicyForEngine (Namespace (e_Meta engine)) (Name (e_Meta engine));
        let desired := buildNetworkPolicy engine in
        match existing with
        | Some e =>
            let desired := update_of desired e in
            _ ← call (fun tr => update_policy A tr desired) (EffUpdatePolicy desired); mret tt
        | None => _ ← call (fun tr => create_policy A tr desired) (EffCreatePolicy desired); mret tt
        end
  end.

(** The loop of [cleanupNetworkPolicy]; a policy already gone is no error. *)
Fixpoint delete_policies (items : list NetworkPolicy) : prog unit :=
  match items with
  | [] => mret tt
  | np :: items' =>
      let nn := {| nn_Namespace := np_Namespace np; nn_Name := np_Name np |} in
      d ← attempt (call (fun tr => match delete_policy A tr nn with Some err => inl err | None => inr tt end)
                     (EffDeletePolicy nn));
      match d with
      | inl err => if IsNotFound A err then delete_policies items' else throw err
      | inr _ => delete_policies items'
      end
  end.

Definition cleanupNetworkPolicy (req : NamespacedName) : prog unit :=
  let labels := engineNetworkPolicyLabels (nn_Namespace req) (nn_Name req) in
  items ← call (fun tr => list_policies A tr (operatorNamespace r) labels)
            (EffList "NetworkPolicy" (operatorNamespace r) labels);
  delete_policies items.

(** ** Finalizer *)

Definition patch_finalizers (engine : Engine) : prog Engine :=
  call (fun tr => patch_Engine A tr engine)
    (EffPatchFinalizers (object_name (e_Meta engine)) (Finalizers (e_Meta engine))).

(** The Engine as patched, when the finalizer was missing. *)
Definition ensureNetworkPolicyFinalizer (engine : Engine) : prog bool :=
  if ContainsFinalizer A engine networkPolicyFinalizer then mret false
  else _ ← patch_finalizers (AddFinalizer A engine networkPolicyFinalizer); mret true.

Definition handleNetworkPolicyDeletion (req : NamespacedName) (engine : Engine) : prog bool :=
  match DeletionTimestamp (e_Meta engine) with
  | None => mret false
  | Some _ =>
      if negb (ContainsFinalizer A engine networkPolicyFinalizer) then mret true
      else
        _ ← cleanupNetworkPolicy req;
        _ ← patch_finalizers (RemoveFinalizer A engine networkPolicyFinalizer);
        mret true
  end.
End network.

(** ** What a NetworkPolicy admits

    The meaning of an ingress policy: a connection is admitted when a rule has a
    peer whose two selectors match the labels of the client's namespace and pod,
    and a port entry for it. *)
Definition selects (ls : LabelSelector) (labels : gmap string string) : Prop := MatchLabels ls ⊆ labels.

Definition admits (np : NetworkPolicy) (nsLabels podLabels : gmap string string)
    (protocol : string) (port : Z) : Prop :=
  Exists (fun rule =>
    Exists (fun peer => selects (NamespaceSelector peer) nsLabels /\ selects (PeerPodSelector peer) podLabels)
      (From rule) /\
    Exists (fun p => port_Protocol p = protocol /\ port_Port p = port) (Ports rule)) (np_Ingress np).

(** ** Lemmas *)

Lemma singleton_subseteq_labels (k v : string) (m : gmap string string) : {[k := v]} ⊆ m <-> m !! k = Some v.
Proof. apply map_singleton_subseteq_l. Qed.

Lemma targetLabelSelector_Some A e ws :
  targetLabelSelector A (Some e) = Some ws <->
  ws = {| MatchLabels := {[gatewayNameLabel := target_Name (e_Target (e_Spec e))]} |} /\
  target_Type (e_Target (e_Spec e)) = EngineTargetTypeGateway /\
  target_Name (e_Target (e_Spec e)) <> "" /\ IsDNS1035Label A (target_Name (e_Target (e_Spec e))) = [].
Proof.
  unfold targetLabelSelector.
  destruct (String.eqb_spec (target_Type (e_Target (e_Spec e))) EngineTargetTypeGateway); [|naive_solver].
  destruct (String.eqb_spec (target_Name (e_Target (e_Spec e))) ""); simpl; [naive_solver|].
  destruct (IsDNS1035Label A _) as [|x l]; simpl; [naive_solver|]. naive_solver.
Qed.

Lemma admits_build A r e ws nsLabels podLabels protocol port :
  targetLabelSelector A (Some e) = Some ws ->
  admits (buildNetworkPolicy A r e) nsLabels podLabels protocol port <->
  nsLabels !! "kubernetes.io/metadata.name" = Some (Namespace (e_Meta e)) /\
  podLabels !! gatewayNameLabel = Some (target_Name (e_Target (e_Spec e))) /\
  protocol = "TCP" /\ port = DefaultRuleSetCacheServerPort.
Proof.
  intros Hws. unfold admits, buildNetworkPolicy, selects. rewrite Hws.
  apply targetLabelSelector_Some in Hws as (-> & _).
  cbn [np_Ingress default from_option id]. rewrite !Exists_cons, !Exists_nil.
  cbn [From Ports]. rewrite !Exists_cons, !Exists_nil.
  cbn [NamespaceSelector PeerPodSelector MatchLabels port_Protocol port_Port].
  rewrite !singleton_subseteq_labels. naive_solver.
Qed.

(** The policies a program writes. *)
Definition writes_policy (P : NetworkPolicy -> Prop) (e : effect) : Prop :=
  match e with EffCreatePolicy np | EffUpdatePolicy np => P np | _ => True end.

Lemma update_of_admits desired existing : forall nsLabels podLabels protocol port,
  admits (update_of desired existing) nsLabels podLabels protocol port <->
  admits desired nsLabels podLabels protocol port.
Proof. done. Qed.

(** The policies written for an Engine: its labels, and nobody but the pods of
    its Gateway admitted. *)
Definition policy_of (A : api) (r : EngineReconciler) (e : Engine) (np : NetworkPolicy) : Prop :=
  is_Some (targetLabelSelector A (Some e)) /\ np_Namespace np = operatorNamespace r /\
  np_PodSelector np = {| MatchLabels := {[operatorPodLabelKey := operatorPodLabelValue]} |} /\
  findEnginesForNetworkPolicy (np_Labels np) =
    findEnginesForNetworkPolicy (engineNetworkPolicyLabels (Namespace (e_Meta e)) (Name (e_Meta e))) /\
  forall nsLabels podLabels protocol port,
    admits np nsLabels podLabels protocol port <->
    nsLabels !! "kubernetes.io/metadata.name" = Some (Namespace (e_Meta e)) /\
    podLabels !! gatewayNameLabel = Some (target_Name (e_Target (e_Spec e))) /\
    protocol = "TCP" /\ port = DefaultRuleSetCacheServerPort.

Lemma build_policy_of A r e ws :
  targetLabelSelector A (Some e) = Some ws -> policy_of A r e (buildNetworkPolicy A r e).
Proof.
  intros Hws. split_and!; [by eauto|done|done| |by intros; eapply admits_build].
  unfold findEnginesForNetworkPolicy. simpl. by rewrite !lookup_insert_ne by done.
Qed.

Lemma update_policy_of A r e ws existing :
  targetLabelSelector A (Some e) = Some ws -> policy_of A r e (update_of (buildNetworkPolicy A r e) existing).
Proof. intros Hws. destruct (build_policy_of A r e ws Hws) as (? & ? & ? & ? & ?). done. Qed.

Lemma findNetworkPolicyForEngine_adds A r ns name P :
  (forall k n l, P (EffList k n l)) -> adds P (findNetworkPolicyForEngine A r ns name).
Proof. intros. unfold findNetworkPolicyForEngine. solve_adds. Qed.

(** A successful application wrote one policy of the Engine. *)
Lemma applyNetworkPolicy_post A r e :
  post (applyNetworkPolicy A r e) (fun _ l res =>
    Forall (writes_policy (policy_of A r e)) l /\
    (res = inr tt -> exists np, policy_of A r e np /\ (EffCreatePolicy np ∈ l \/ EffUpdatePolicy np ∈ l))).
Proof.
  unfold applyNetworkPolicy. destruct (targetLabelSelector A (Some e)) as [ws|] eqn:Hws.
  2: { eapply post_mono; [apply post_throw|]. intros tr l res [-> ->]; (split; [constructor|done]). }
  case_bool_decide; [eapply post_mono; [apply post_throw|]; intros tr l res [-> ->]; (split; [constructor|done])|].
  eapply post_mono.
  { eapply (post_bind _ _ _ (fun _ _ l res => Forall (writes_policy (policy_of A r e)) l /\
      (res = inr tt -> exists np, policy_of A r e np /\ (EffCreatePolicy np ∈ l \/ EffUpdatePolicy np ∈ l))));
      [apply post_adds, (findNetworkPolicyForEngine_adds _ _ _ _ (writes_policy (policy_of A r e))); done|].
    intros [existing|] w; rewrite prog_bind_eq; unfold call.
    - exists [EffUpdatePolicy (update_of (buildNetworkPolicy A r e) existing)].
      pose proof (update_policy_of A r e ws existing Hws) as Hp.
      destruct (update_policy A _ _); (split; [done|]); (split; [by apply Forall_singleton|]); [done|].
      intros _. eexists. split; [exact Hp|]. right. by constructor.
    - exists [EffCreatePolicy (buildNetworkPolicy A r e)].
      pose proof (build_policy_of A r e ws Hws) as Hp.
      destruct (create_policy A _ _); (split; [done|]); (split; [by apply Forall_singleton|]); [done|].
      intros _. eexists. split; [exact Hp|]. left. by constructor. }
  intros tr l res [(err & -> & ?)|(a & l1 & l2 & -> & ? & ? & Hres)]; [done|].
  split; [by apply Forall_app|]. intros Hr. destruct (Hres Hr) as (np & ? & Hin).
  exists np. rewrite !elem_of_app. tauto.
Qed.

(** *** Cleanup *)

Definition delete_of (np : NetworkPolicy) : effect :=
  EffDeletePolicy {| nn_Namespace := np_Namespace np; nn_Name := np_Name np |}.

Lemma delete_policies_post A items :
  post (delete_policies A items) (fun _ l res =>
    Forall (fun e => exists np, np ∈ items /\ e = delete_of np) l /\ (res = inr tt -> l = delete_of <$> items)).
Proof.
  induction items as [|np items IH]; simpl.
  { eapply post_mono; [apply post_ret|]. intros tr l res [-> ->]; (split; [constructor|done]). }
  eapply post_mono.
  { eapply (post_bind _ _ _ (fun _ _ l res =>
      Forall (fun e => exists np, np ∈ items /\ e = delete_of np) l /\ (res = inr tt -> l = delete_of <$> items)));
      [apply post_attempt_call|].
    intros [err|u]; [destruct (IsNotFound A err); [apply IH|]|apply IH].
    eapply post_mono; [apply post_throw|]. intros tr l res [-> ->]; (split; [constructor|done]). }
  intros tr l res [(err & -> & -> & ?)|(a & l1 & l2 & -> & [-> _] & Hl & Hr)]; [done|].
  split.
  - constructor; [exists np; split; [by constructor|done]|].
    eapply Forall_impl; [exact Hl|]. intros e (np' & ? & ->). exists np'. split; [by constructor|done].
  - intros Heq. by rewrite (Hr Heq).
Qed.

Definition listed_policies (A : api) (r : EngineReconciler) (req : NamespacedName) (items : list NetworkPolicy) : Prop :=
  exists tr, list_policies A tr (operatorNamespace r)
    (engineNetworkPolicyLabels (nn_Namespace req) (nn_Name req)) = inr items.

Lemma cleanupNetworkPolicy_post A r req :
  post (cleanupNetworkPolicy A r req) (fun _ l res =>
    (forall e, e ∈ l -> (exists k ns ls, e = EffList k ns ls) \/ exists nn, e = EffDeletePolicy nn) /\
    (res = inr tt -> exists items ls, listed_policies A r req items /\
       l = EffList "NetworkPolicy" (operatorNamespace r) ls :: (delete_of <$> items))).
Proof.
  unfold cleanupNetworkPolicy. intros w. rewrite prog_bind_eq. unfold call.
  destruct (list_policies A _ _ _) as [err|items] eqn:Hl.
  - exists [EffList "NetworkPolicy" (operatorNamespace r) (engineNetworkPolicyLabels (nn_Namespace req) (nn_Name req))].
    split; [done|]. split; [|done]. intros e He%list_elem_of_singleton. left. eauto.
  - destruct (delete_policies_post A items (log_effect (EffList "NetworkPolicy" (operatorNamespace r)
      (engineNetworkPolicyLabels (nn_Namespace req) (nn_Name req))) w)) as (l & Ht & Hf & Hr).
    eexists (_ :: l). rewrite Ht. simpl. rewrite <- app_assoc. split; [reflexivity|]. split.
    + intros e [->|He]%elem_of_cons; [left; eauto|]. rewrite Forall_forall in Hf.
      destruct (Hf e He) as (np & _ & ->). right. eexists. reflexivity.
    + intros Heq. eexists items, _. rewrite (Hr Heq). split; [by eexists|reflexivity].
Qed.

(** ** The properties *)

(** C19: Every NetworkPolicy the controller writes for an Engine admits exactly
    TCP connections to the cache server port from pods that carry the Engine's
    Gateway label in the Engine's namespace; it selects the operator's pods,
    lies in the operator's namespace, and its labels map its own watch events
    back to the Engine. Without a valid target nothing is written: the policy
    never falls back to admitting every pod. *)
Theorem applied_policy_exact (A : api) (r : EngineReconciler) (e : Engine) (w : world) :
  exists l, w_trace (applyNetworkPolicy A r e w).1 = w_trace w ++ l /\
    (targetLabelSelector A (Some e) = None -> l = []) /\
    forall np, EffCreatePolicy np ∈ l \/ EffUpdatePolicy np ∈ l ->
      np_Namespace np = operatorNamespace r /\
      np_PodSelector np = {| MatchLabels := {[operatorPodLabelKey := operatorPodLabelValue]} |} /\
      findEnginesForNetworkPolicy (np_Labels np) =
        (if String.eqb (Name (e_Meta e)) "" || String.eqb (Namespace (e_Meta e)) "" then []
         else [object_name (e_Meta e)]) /\
      forall nsLabels podLabels protocol port,
        admits np nsLabels podLabels protocol port <->
        nsLabels !! "kubernetes.io/metadata.name" = Some (Namespace (e_Meta e)) /\
        podLabels !! gatewayNameLabel = Some (target_Name (e_Target (e_Spec e))) /\
        protocol = "TCP" /\ port = DefaultRuleSetCacheServerPort.
Proof.
  destruct (applyNetworkPolicy_post A r e w) as (l & Ht & Hl & _). exists l. split; [done|]. split.
  - intros Hnone. unfold applyNetworkPolicy in Ht. rewrite Hnone in Ht. simpl in Ht.
    by apply (app_inv_head (w_trace w)); rewrite app_nil_r.
  - intros np Hnp. rewrite Forall_forall in Hl.
    assert (policy_of A r e np) as (_ & ? & ? & Hf & ?) by (destruct Hnp as [Hin|Hin]; apply (Hl _ Hin)).
    split; [done|]. split; [done|]. split; [|done]. rewrite Hf. unfold findEnginesForNetworkPolicy, engineNetworkPolicyLabels.
    rewrite lookup_insert_eq, lookup_insert_ne by done. by rewrite lookup_singleton_eq.
Qed.

(** The finalizer guards the cleanup. When the controller removes the
    finalizer of a deleted Engine, it has deleted every policy listed for the
    Engine before, in this same reconciliation, and nothing else; the Engine is
    then left alone. An Engine that is not being deleted is not touched. *)
Theorem finalizer_after_cleanup (A : api) (r : EngineReconciler) (req : NamespacedName)
    (engine : Engine) (w : world) :
  exists l, w_trace (handleNetworkPolicyDeletion A r req engine w).1 = w_trace w ++ l /\
    (DeletionTimestamp (e_Meta engine) = None ->
       l = [] /\ (handleNetworkPolicyDeletion A r req engine w).2 = inr false) /\
    (is_Some (DeletionTimestamp (e_Meta engine)) ->
       (handleNetworkPolicyDeletion A r req engine w).2 <> inr false) /\
    forall nn f, EffPatchFinalizers nn f ∈ l ->
      f = Finalizers (e_Meta (RemoveFinalizer A engine networkPolicyFinalizer)) /\
      exists items ls, listed_policies A r req items /\
        l = EffList "NetworkPolicy" (operatorNamespace r) ls :: (delete_of <$> items) ++
            [EffPatchFinalizers nn f].
Proof.
  unfold handleNetworkPolicyDeletion. destruct (DeletionTimestamp (e_Meta engine)) as [t|].
  2: { exists []. rewrite app_nil_r. split; [done|]. split; [done|]. split; [by intros [? ?]|].
       by intros nn f ?%not_elem_of_nil. }
  destruct (ContainsFinalizer A engine networkPolicyFinalizer); simpl.
  2: { exists []. rewrite app_nil_r. split; [done|]. split; [done|]. split; [done|].
       by intros nn f ?%not_elem_of_nil. }
  rewrite prog_bind_eq. destruct (cleanupNetworkPolicy_post A r req w) as (l & Hl & Hkinds & Hres).
  destruct (cleanupNetworkPolicy A r req w) as [w' [err|[]]]; simpl in *.
  { exists l. split; [done|]. split; [done|]. split; [done|]. intros nn f Hin.
    destruct (Hkinds _ Hin) as [(?&?&?&?)|(?&?)]; done. }
  rewrite prog_bind_eq. unfold patch_finalizers, call.
  set (e := RemoveFinalizer A engine networkPolicyFinalizer).
  exists (l ++ [EffPatchFinalizers (object_name (e_Meta e)) (Finalizers (e_Meta e))]).
  split; [destruct (patch_Engine A _ _); simpl; by rewrite Hl, app_assoc|].
  split; [done|]. split; [by destruct (patch_Engine A _ _)|].
  intros nn f [Hin|Hin%list_elem_of_singleton]%elem_of_app.
  { destruct (Hkinds _ Hin) as [(?&?&?&?)|(?&?)]; done. }
  simplify_eq. split; [done|]. destruct (Hres eq_refl) as (items & ls & ? & ->). by exists items, ls.
Qed.
