(* ===== verification/EngineToken.v ===== *)
(** * Cache client tokens ([engine_controller_token.go])

    Renewal deadlines (with the rounding of [float64] arithmetic), the
    ServiceAccount of an Engine, and the token store. *)
From S2P Require Import Prelude GoLib GoErrors TokenAuth MemFS KubeApi Status EngineNetwork.

Definition tokenDuration : Z := 1 * Hour.
Definition tokenExpirationSeconds : Z := tokenDuration / Second.

(** ** Renewal points *)

(** The double nearest to 0.8 is [fraction_mantissa * 2 ^ -53]. *)
Definition fraction_mantissa : Z := 7205759403792794.

(** [time.Duration(float64(lifetime) * tokenRenewalFraction)] for a
    non-negative lifetime: convert, multiply, round, truncate. *)
Definition scale_nonneg (lifetime : Z) : Z :=
  let '(m1, e1) := round53 lifetime in
  let '(m2, e2) := round53 (m1 * fraction_mantissa) in
  m2 * 2 ^ (e1 + e2) / 2 ^ 53.

(** Rounding and truncation are symmetric. *)
Definition renewal_fraction (lifetime : Z) : Z := Z.sgn lifetime * scale_nonneg (Z.abs lifetime).

(** ** Token entries *)

Definition RenewalDeadline (e : TokenEntry) : Z :=
  let lifetime := time_Sub (ExpiresAt e) (IssuedAt e) in
  let renewAfter := renewal_fraction lifetime in
  time_Add (IssuedAt e) renewAfter.

Definition NeedsRenewal (t : Z) (e : TokenEntry) : bool := negb (time_Before t (RenewalDeadline e)).

(** ** ServiceAccount *)

Definition cacheClientSALabels (engineName : string) : gmap string string :=
  <["app.kubernetes.io/managed-by" := "coraza-kubernetes-operator"]>
  (<["app.kubernetes.io/component" := "cache-client"]>
   {["app.kubernetes.io/instance" := engineName]}).

Section tokens.
Context (A : api).

Definition newServiceAccount (req : NamespacedName) (engine : Engine) : ServiceAccount :=
  {| sa_Namespace := nn_Namespace req; sa_Name := ""; sa_GenerateName := CacheEngineSAPrefix;
     sa_Labels := cacheClientSALabels (Name (e_Meta engine));
     sa_Owners := [{| or_APIVersion := "waf.k8s.coraza.io/v1alpha1"; or_Kind := "Engine";
                      or_Name := Name (e_Meta engine); or_UID := UID (e_Meta engine);
                      or_Controller := true |}] |}.

Definition ensureCacheClientServiceAccount (req : NamespacedName) (engine : Engine) : prog string :=
  let labels := cacheClientSALabels (Name (e_Meta engine)) in
  l ← attempt (call (fun tr => list_service_accounts A tr (nn_Namespace req) labels)
                 (EffList "ServiceAccount" (nn_Namespace req) labels));
  match l with
  | inl err => throw (errorf_w ("failed to list ServiceAccounts for engine " +:+ Name (e_Meta engine) +:+ ": ") err)
  | inr (sa :: _) => mret (sa_Name sa)
  | inr [] =>
      let sa := newServiceAccount req engine in
      c ← attempt (call (fun tr => create_service_account A tr sa) (EffCreateServiceAccount sa));
      match c with
      | inl err => throw (errorf_w ("failed to create ServiceAccount for engine " +:+ Name (e_Meta engine) +:+ ": ") err)
      | inr sa => mret (sa_Name sa)
      end
  end.

(** ** Token store *)

Definition token_key (req : NamespacedName) (rulesetName : string) : string :=
  nn_Namespace req +:+ "/" +:+ nn_Name req +:+ "/" +:+ rulesetName.
Definition token_audience (req : NamespacedName) (rulesetName : string) : string :=
  Audience (nn_Namespace req +:+ "/" +:+ rulesetName).

(** [pruneExpiredTokens] at time [t]: whatever the order of [Range]. *)
Definition pruneExpiredTokens (t : Z) (m : gmap string TokenEntry) : gmap string TokenEntry :=
  filter (fun kv => time_After t (ExpiresAt kv.2) = false) m.

(** Generating, storing and pruning. *)
Definition generateToken (req : NamespacedName) (saName rulesetName : string) : prog (string * Z) :=
  let sa := {| nn_Namespace := nn_Namespace req; nn_Name := saName |} in
  let audience := token_audience req rulesetName in
  res ← attempt (call (fun tr => create_token A tr sa [audience] tokenExpirationSeconds)
                   (EffCreateToken sa [audience] tokenExpirationSeconds));
  match res with
  | inl err => throw (errorf_w ("failed to create token for SA " +:+ nn_Namespace req +:+ "/" +:+ saName +:+ ": ") err)
  | inr (token, expiresAt) =>
      t ← time_now A;
      let entry := {| Token := token; IssuedAt := t; ExpiresAt := expiresAt |} in
      m ← get_tokens;
      t' ← time_now A;
      _ ← set_tokens (pruneExpiredTokens t' (<[token_key req rulesetName := entry]> m));
      mret (token, RenewalDeadline entry)
  end.

Definition ensureCacheToken (req : NamespacedName) (saName rulesetName : string) : prog (string * Z) :=
  m ← get_tokens;
  match m !! token_key req rulesetName with
  | Some entry =>
      t ← time_now A;
      if negb (NeedsRenewal t entry) then mret (Token entry, RenewalDeadline entry)
      else generateToken req saName rulesetName
  | None => generateToken req saName rulesetName
  end.
End tokens.

(** ** Lemmas *)

(** The renewal point lies within the lifetime. *)
Lemma scale_nonneg_bounds l : 0 <= l -> 0 <= scale_nonneg l <= l.
Proof.
  intros Hl. unfold scale_nonneg. destruct (round53 l) as [m1 e1] eqn:H1.
  apply round53_error in H1 as (He1 & Hm1 & Herr1); [|done].
  destruct (round53 (m1 * fraction_mantissa)) as [m2 e2] eqn:H2.
  assert (0 <= m1 * fraction_mantissa) as Hp by (unfold fraction_mantissa; lia).
  apply round53_error in H2 as (He2 & Hm2 & Herr2); [|done].
  rewrite Z.pow_add_r by lia.
  assert (0 < 2 ^ e1) as P1 by (apply Z.pow_pos_nonneg; lia).
  assert (0 < 2 ^ e2) as P2 by (apply Z.pow_pos_nonneg; lia).
  set (x := m1 * 2 ^ e1) in *. set (y := m2 * 2 ^ e2) in *.
  assert (0 <= y) as Hy by (unfold y; nia).
  replace (m2 * (2 ^ e1 * 2 ^ e2)) with (y * 2 ^ e1) by (unfold y; ring).
  split; [apply Z.div_pos; nia|].
  apply Z.div_le_upper_bound; [lia|].
  assert (x * 2 ^ 53 <= l * (2 ^ 53 + 1)) as Hx by lia.
  assert (y * 2 ^ 53 <= m1 * fraction_mantissa * (2 ^ 53 + 1)) as Hy2 by lia.
  assert (y * 2 ^ e1 * 2 ^ 53 <= x * fraction_mantissa * (2 ^ 53 + 1)) as Hy3 by (unfold x; nia).
  assert (y * 2 ^ e1 * 2 ^ 53 * 2 ^ 53 <= l * (2 ^ 53 + 1) * fraction_mantissa * (2 ^ 53 + 1)) as Hy4.
  { unfold fraction_mantissa in *. nia. }
  unfold fraction_mantissa in *. nia.
Qed.

Lemma renewal_fraction_bounds l : 0 <= l -> 0 <= renewal_fraction l <= l.
Proof.
  intros Hl. unfold renewal_fraction. rewrite Z.abs_eq by done.
  destruct (decide (l = 0)) as [->|]; [done|]. rewrite Z.sgn_pos by lia.
  pose proof (scale_nonneg_bounds l Hl). lia.
Qed.

Lemma RenewalDeadline_within e : IssuedAt e <= ExpiresAt e -> IssuedAt e <= RenewalDeadline e <= ExpiresAt e.
Proof.
  intros He. unfold RenewalDeadline, time_Add, time_Sub.
  pose proof (renewal_fraction_bounds (Z.max int64_min (Z.min int64_max (ExpiresAt e - IssuedAt e)))) as Hb.
  unfold int64_min, int64_max in *. lia.
Qed.

(** *** The store *)

Definition no_slash (s : string) : Prop := byte_in "/" s = false.
Definition req_ok (req : NamespacedName) : Prop := no_slash (nn_Namespace req) /\ no_slash (nn_Name req).

Lemma slash_cut a b a' b' :
  no_slash a -> no_slash a' -> a +:+ "/" +:+ b = a' +:+ "/" +:+ b' -> a = a' /\ b = b'.
Proof.
  unfold no_slash. intros Ha Ha' Heq.
  assert (Cut (a +:+ "/" +:+ b) "/" = Some (a, b)) as H1 by by apply Cut_byte.
  assert (Cut (a' +:+ "/" +:+ b') "/" = Some (a', b')) as H2 by by apply Cut_byte.
  rewrite Heq, H2 in H1. by simplify_eq.
Qed.

Lemma token_key_inj req rs req' rs' :
  req_ok req -> req_ok req' -> token_key req rs = token_key req' rs' -> req = req' /\ rs = rs'.
Proof.
  intros [Hn Hm] [Hn' Hm'] Heq. unfold token_key in Heq.
  apply slash_cut in Heq as [Hns Heq]; [|done|done]. apply slash_cut in Heq as [Hname ->]; [|done|done].
  destruct req, req'; simpl in *. by subst.
Qed.

(** Every stored token was issued for the audience its key stands for. *)
Definition minted (A : api) (m : gmap string TokenEntry) : Prop :=
  forall key entry, m !! key = Some entry ->
    exists tr req saName rulesetName, req_ok req /\ key = token_key req rulesetName /\
      create_token A tr {| nn_Namespace := nn_Namespace req; nn_Name := saName |}
        [token_audience req rulesetName] tokenExpirationSeconds = inr (Token entry, ExpiresAt entry).

(** The token was issued to an account of the Engine's namespace for the
    audience of this RuleSet. *)
Definition issued_for (A : api) (req : NamespacedName) (rulesetName token : string) : Prop :=
  exists tr saName expiresAt, create_token A tr {| nn_Namespace := nn_Namespace req; nn_Name := saName |}
    [token_audience req rulesetName] tokenExpirationSeconds = inr (token, expiresAt).

Lemma prune_subseteq t m : pruneExpiredTokens t m ⊆ m.
Proof. apply map_filter_subseteq. Qed.

Lemma minted_subseteq A m m' : m ⊆ m' -> minted A m' -> minted A m.
Proof. intros Hs Hm key entry Hk. apply Hm. by eapply lookup_weaken. Qed.

Lemma generateToken_minted A req saName rulesetName w :
  req_ok req -> minted A (w_tokens w) ->
  let '(w', res) := generateToken A req saName rulesetName w in
  minted A (w_tokens w') /\
  forall token deadline, res = inr (token, deadline) -> issued_for A req rulesetName token.
Proof.
  intros Hreq Hm. unfold generateToken. rewrite prog_bind_eq. unfold attempt, call.
  destruct (create_token A _ _ _ _) as [err|[token expiresAt]] eqn:Hc; [by split|].
  rewrite !prog_bind_eq. simpl. split.
  - eapply minted_subseteq; [apply prune_subseteq|]. intros key entry Hk.
    apply lookup_insert_Some in Hk as [[<- <-]|[_ Hk]]; [|by apply Hm].
    eexists _, req, saName, rulesetName. done.
  - intros tok dl ?. simplify_eq. by eexists _, _, _.
Qed.

Lemma ensureCacheToken_minted A req saName rulesetName w :
  req_ok req -> minted A (w_tokens w) ->
  let '(w', res) := ensureCacheToken A req saName rulesetName w in
  minted A (w_tokens w') /\
  forall token deadline, res = inr (token, deadline) -> issued_for A req rulesetName token.
Proof.
  intros Hreq Hm. unfold ensureCacheToken. rewrite prog_bind_eq. simpl.
  destruct (w_tokens w !! token_key req rulesetName) as [entry|] eqn:Hk;
    [|by apply generateToken_minted].
  rewrite prog_bind_eq. simpl. destruct (NeedsRenewal _ entry); simpl; [by apply generateToken_minted|].
  split; [done|]. intros token deadline ?. simplify_eq.
  destruct (Hm _ _ Hk) as (tr & req' & sa & rs' & Hreq' & Heq & Hc).
  apply token_key_inj in Heq as [<- <-]; [|done|done]. by eexists _, _, _.
Qed.

Lemma generateToken_adds A req saName rs P :
  (forall sa aud secs, P (EffCreateToken sa aud secs)) -> adds P (generateToken A req saName rs).
Proof. intros. unfold generateToken. solve_adds. Qed.

Lemma ensureCacheToken_adds A req saName rs P :
  (forall sa aud secs, P (EffCreateToken sa aud secs)) -> adds P (ensureCacheToken A req saName rs).
Proof.
  intros. unfold ensureCacheToken. apply adds_bind; [apply adds_get_tokens|]. intros m.
  case_match; [|by apply generateToken_adds]. apply adds_bind; [apply adds_now|]. intros ?.
  case_match; [apply adds_ret|by apply generateToken_adds].
Qed.

Lemma ensureCacheClientServiceAccount_adds A req e P :
  (forall k n l, P (EffList k n l)) -> (forall sa, P (EffCreateServiceAccount sa)) ->
  adds P (ensureCacheClientServiceAccount A req e).
Proof.
  intros. unfold ensureCacheClientServiceAccount.
  apply adds_bind; [apply adds_attempt, adds_call; done|]. intros [err|[|sa l]];
    [apply adds_throw| |apply adds_ret].
  apply adds_bind; [apply adds_attempt, adds_call; done|]. intros [err|sa]; [apply adds_throw|apply adds_ret].
Qed.

(** ** The properties *)

(** The renewal deadline of a token lies between its issuance and its
    expiry, in spite of the rounding of floating-point arithmetic and of the
    saturation of time differences; for the one-hour tokens requested it is
    exactly 48 minutes after issuance. *)
Theorem RenewalDeadline_bounds (e : TokenEntry) :
  IssuedAt e <= ExpiresAt e ->
  IssuedAt e <= RenewalDeadline e <= ExpiresAt e /\
  (ExpiresAt e = IssuedAt e + tokenDuration -> RenewalDeadline e = IssuedAt e + 48 * Minute).
Proof.
  intros He. split; [by apply RenewalDeadline_within|]. unfold RenewalDeadline, time_Add, time_Sub.
  intros ->. replace (IssuedAt e + tokenDuration - IssuedAt e) with tokenDuration by lia. f_equal.
Qed.

Theorem RenewalDeadline_bounds_witness :
  let e := {| Token := "t"; IssuedAt := 7; ExpiresAt := 1000 |} in
  IssuedAt e <= ExpiresAt e /\ IssuedAt e <= RenewalDeadline e <= ExpiresAt e.
Proof. split; [vm_compute; discriminate|]. apply RenewalDeadline_bounds. vm_compute. discriminate. Defined.

