(* ===== verification/EngineController.v ===== *)
(** * The Engine controller

    [engine_controller.go] and [engine_controller_wasm_driver.go]: the WasmPlugin
    an Engine gets, the order in which its parts are provisioned, and
    [Reconcile]; and the Istio resources applied at startup
    ([engine_controller_istio_prerequisites.go]). *)
From S2P Require Import Prelude GoLib GoErrors TokenAuth MemFS KubeApi Status EngineNetwork EngineToken.

Definition WasmPluginNamePrefix : string := "coraza-engine-".

(** Fields of a [map[string]any] literal, and updates of them. *)
Definition vmap_get (k : string) (v : value) : option value :=
  match v with
  | VMap fields => snd <$> head (filter (fun kv => kv.1 = k) fields)
  | _ => None
  end.

Section engine.
Context `{ApiMeta} (A : api) (r : EngineReconciler).

(** ** The WasmPlugin *)

Definition wasmPluginOCIURLSource (engine : Engine) : string * bool :=
  match driver_Wasm (e_Driver (e_Spec engine)) with
  | Some wasm => if negb (String.eqb (Image wasm) "") then (Image wasm, true) else (defaultWasmImage r, false)
  | None => (defaultWasmImage r, false)
  end.

Definition vlabels (m : gmap string string) : value :=
  VMap ((fun kv => (kv.1, VString kv.2)) <$> map_to_list m).

Definition buildWasmPlugin (engine : Engine) (wasmURL cacheToken : string) : unstructured :=
  let spec := e_Spec engine in
  let rulesetKey := Namespace (e_Meta engine) +:+ "/" +:+ e_RuleSet spec in
  let failurePolicy :=
    if negb (String.eqb (e_FailurePolicy spec) "") then e_FailurePolicy spec else FailurePolicyFail in
  let pluginConfig :=
    [("cache_server_instance", VString rulesetKey);
     ("cache_server_cluster", VString (ruleSetCacheServerCluster r));
     ("failure_policy", VString failurePolicy);
     ("cache_token", VString cacheToken)] ++
    match e_RuleSetCacheServer spec with
    | Some c => [("rule_reload_interval_seconds", VInt (PollIntervalSeconds c))]
    | None => []
    end in
  let matchLabels := match targetLabelSelector A (Some engine) with
                     | Some ws => MatchLabels ws
                     | None => ∅
                     end in
  let pullSecret := match driver_Wasm (e_Driver spec) with
                    | Some wasm => if negb (String.eqb (ImagePullSecret wasm) "")
                                   then [("imagePullSecret", VString (ImagePullSecret wasm))] else []
                    | None => []
                    end in
  {| u_Group := "extensions.istio.io"; u_Version := "v1alpha1"; u_Kind := "WasmPlugin";
     u_Name := WasmPluginNamePrefix +:+ Name (e_Meta engine);
     u_Namespace := Namespace (e_Meta engine);
     u_Labels := if negb (String.eqb (istioRevision r) "")
                 then {["istio.io/rev" := istioRevision r]} else ∅;
     u_Owners := [];
     u_Spec := VMap ([("url", VString wasmURL); ("pluginConfig", VMap pluginConfig);
                      ("selector", VMap [("matchLabels", vlabels matchLabels)])] ++ pullSecret) |}.

Definition applyWasmPlugin (engine : Engine) (cacheToken : string) : prog unstructured :=
  let wasmPlugin := buildWasmPlugin engine (wasmPluginOCIURLSource engine).1 cacheToken in
  match set_controller_reference A engine wasmPlugin with
  | inl err => throw err
  | inr wasmPlugin => serverSideApply A wasmPlugin
  end.

(** ** Provisioning *)

(** [patchDegraded] for an Engine; when the patch fails its error is returned,
    else the given one. *)
Definition fail_degraded {B} (engine : Engine) (reason message : string) (err : gerror) : prog B :=
  _ ← patchDegraded A engine (Generation (e_Meta engine)) reason message;
  throw err.

(** Run a step; on its error mark the Engine Degraded and return the error. *)
Definition guarded {B} (engine : Engine) (reason prefix : string) (m : prog B) : prog B :=
  res ← attempt m;
  match res with
  | inl err => fail_degraded engine reason (prefix +:+ error_text err) err
  | inr b => mret b
  end.

Definition provisionWasmDriver (req : NamespacedName) (engine : Engine) : prog Result :=
  match targetLabelSelector A (Some engine) with
  | None =>
      let err := ErrText "target is required: cannot derive workload selector" in
      fail_degraded engine "InvalidConfiguration" (error_text err) err
  | Some _ =>
      _ ← guarded engine "NetworkPolicyFailed" "Failed to apply NetworkPolicy: " (applyNetworkPolicy A r engine);
      saName ← guarded engine "ServiceAccountFailed" "Failed to ensure cache client ServiceAccount: "
                 (ensureCacheClientServiceAccount A req engine);
      tok ← guarded engine "TokenFailed" "Failed to ensure cache client token: "
              (ensureCacheToken A req saName (e_RuleSet (e_Spec engine)));
      let '(cacheToken, renewAt) := tok in
      if String.eqb cacheToken "" then
        let err := ErrText ("cache client token is empty for RuleSet " +:+ e_RuleSet (e_Spec engine)) in
        fail_degraded engine "TokenFailed" (error_text err) err
      else
        wasmPlugin ← guarded engine "ProvisioningFailed" "Failed to create or update WasmPlugin: "
                       (applyWasmPlugin engine cacheToken);
        _ ← patchReady A engine (Generation (e_Meta engine)) "Configured" "WasmPlugin successfully created/updated";
        _ ← emit (EffEvent "Normal" "WasmPluginCreated" "Provision"
                    ("Created WasmPlugin " +:+ u_Namespace wasmPlugin +:+ "/" +:+ u_Name wasmPlugin));
        t ← time_now A;
        mret {| RequeueAfter := Z.max (time_Sub renewAt t) Second |}
  end.

(** [%q] of a driver type: the quoted string, for a text of printable ASCII
    without quotes and backslashes. *)
Definition quoted (s : string) : string := String (ascii_of_N 34) s +:+ String (ascii_of_N 34) "".

Definition handleInvalidDriverConfiguration (engine : Engine) : prog Result :=
  let err := ErrText ("unsupported driver type " +:+ quoted (driver_Type (e_Driver (e_Spec engine))) +:+
                      ": only " +:+ quoted DriverTypeWasm +:+ " is currently supported") in
  p ← attempt (patchDegraded A engine (Generation (e_Meta engine)) "InvalidConfiguration" (error_text err));
  match p with
  | inl patchErr =>
      throw (ErrWrap ("validation failed: " +:+ error_text err +:+ " (status patch also failed: " +:+
                      error_text patchErr +:+ ")") err)
  | inr _ => throw err
  end.

Definition selectDriver (req : NamespacedName) (engine : Engine) : prog Result :=
  let driverType := if negb (String.eqb (driver_Type (e_Driver (e_Spec engine))) "")
                    then driver_Type (e_Driver (e_Spec engine)) else DriverTypeWasm in
  if String.eqb driverType DriverTypeWasm then provisionWasmDriver req engine
  else handleInvalidDriverConfiguration engine.

(** Whether the RuleSet is Degraded, and the Engine was marked so. *)
Definition isRuleSetDegraded (engine : Engine) : prog bool :=
  let nn := {| nn_Namespace := Namespace (e_Meta engine); nn_Name := e_RuleSet (e_Spec engine) |} in
  g ← attempt (call (fun tr => get_RuleSet A tr nn) (EffGet "RuleSet" nn));
  match g with
  | inl err =>
      if IsNotFound A err then
        _ ← patchDegraded A engine (Generation (e_Meta engine)) "RuleSetNotFound"
              ("RuleSet " +:+ e_RuleSet (e_Spec engine) +:+ " not found");
        mret true
      else throw (errorf_w ("failed to get RuleSet " +:+ e_RuleSet (e_Spec engine) +:+ ": ") err)
  | inr ruleSet =>
      match FindStatusCondition (rs_Conditions ruleSet) conditionDegraded with
      | Some c =>
          if bool_decide (c_Status c = ConditionTrue) then
            _ ← patchDegraded A engine (Generation (e_Meta engine)) "RuleSetDegraded"
                  ("RuleSet " +:+ e_RuleSet (e_Spec engine) +:+ " is degraded: " +:+ c_Message c);
            mret true
          else mret false
      | None => mret false
      end
  end.

(** The initial status, as [Reconcile] sets it. *)
Definition initEngineStatus (engine : Engine) : prog Engine :=
  match FindStatusCondition (so_conditions engine) conditionReady with
  | Some _ => mret engine
  | None => patch_conditions A (fun l t =>
      applyStatusProgressing l t (Generation (e_Meta engine)) "Reconciling" "Starting reconciliation") engine
  end.

(** What follows the finalizer handling. *)
Definition provision (req : NamespacedName) (engine : Engine) : prog Result :=
  engine ← initEngineStatus engine;
  degraded ← isRuleSetDegraded engine;
  if degraded : bool then mret no_requeue else selectDriver req engine.

Definition Reconcile (req : NamespacedName) : prog Result :=
  g ← attempt (call (fun tr => get_Engine A tr req) (EffGet "Engine" req));
  match g with
  | inl err =>
      if IsNotFound A err then _ ← cleanupNetworkPolicy A r req; mret no_requeue
      else throw err
  | inr engine =>
      deleting ← handleNetworkPolicyDeletion A r req engine;
      if deleting : bool then mret no_requeue
      else
        added ← ensureNetworkPolicyFinalizer A engine;
        if added : bool then mret {| RequeueAfter := 100 * Millisecond |}
        else provision req engine
  end.

Fixpoint reconcile_engines (reqs : list NamespacedName) (w : world) : world :=
  match reqs with
  | [] => w
  | req :: reqs' => reconcile_engines reqs' (Reconcile req w).1
  end.
End engine.

(** ** Istio prerequisites *)

Record IstioPrerequisites := {
  p_operatorName : string;
  p_namespace : string;
  p_istioRevision : string
}.

Definition NewIstioPrerequisites (operatorName namespace istioRevision : string) : IstioPrerequisites :=
  {| p_operatorName := operatorName; p_namespace := namespace; p_istioRevision := istioRevision |}.

Section istio.
Context (A : api) (p : IstioPrerequisites).
(** The Deployment lookup: its name and UID. *)
Context (get_Deployment : list effect -> NamespacedName -> gerror + (string * string)).

Definition newIstioObject (kind name : string) (labels : gmap string string) (ownerRef : OwnerReference)
    (spec : value) : unstructured :=
  {| u_Group := "networking.istio.io"; u_Version := "v1"; u_Kind := kind; u_Name := name;
     u_Namespace := p_namespace p; u_Labels := labels; u_Owners := [ownerRef]; u_Spec := spec |}.

Definition buildServiceEntry (name serviceFQDN : string) (labels : gmap string string)
    (ownerRef : OwnerReference) : unstructured :=
  newIstioObject "ServiceEntry" name labels ownerRef
    (VMap [("hosts", VList [VString serviceFQDN]);
           ("ports", VList [VMap [("number", VInt 80); ("name", VString "http-ruleset-cache-server");
                                  ("protocol", VString "HTTP")]]);
           ("location", VString "MESH_INTERNAL");
           ("resolution", VString "DNS");
           ("endpoints", VList [VMap [("address", VString serviceFQDN)]])]).

Definition buildDestinationRule (name serviceFQDN : string) (labels : gmap string string)
    (ownerRef : OwnerReference) : unstructured :=
  newIstioObject "DestinationRule" name labels ownerRef
    (VMap [("host", VString serviceFQDN);
           ("trafficPolicy", VMap [("tls", VMap [("mode", VString "DISABLE")])])]).

Definition apply_prerequisites : prog unit :=
  let nn := {| nn_Namespace := p_namespace p; nn_Name := p_operatorName p |} in
  d ← attempt (call (fun tr => get_Deployment tr nn) (EffGet "Deployment" nn));
  match d with
  | inl err => throw (errorf_w ("looking up owner Deployment " +:+ p_namespace p +:+ "/" +:+ p_operatorName p +:+ ": ") err)
  | inr (name, uid) =>
      let ownerRef := {| or_APIVersion := "apps/v1"; or_Kind := "Deployment"; or_Name := name;
                         or_UID := uid; or_Controller := false |} in
      let serviceFQDN := p_operatorName p +:+ "." +:+ p_namespace p +:+ ".svc.cluster.local" in
      let resourceName := p_operatorName p +:+ "-ruleset-cache" in
      let labels : gmap string string :=
        <["app.kubernetes.io/name" := p_operatorName p]> {["app.kubernetes.io/instance" := p_operatorName p]} in
      let labels := if negb (String.eqb (p_istioRevision p) "")
                    then <["istio.io/rev" := p_istioRevision p]> labels else labels in
      se ← attempt (serverSideApply A (buildServiceEntry resourceName serviceFQDN labels ownerRef));
      match se with
      | inl err => throw (errorf_w "applying Istio ServiceEntry: " err)
      | inr _ =>
          dr ← attempt (serverSideApply A (buildDestinationRule resourceName serviceFQDN labels ownerRef));
          match dr with
          | inl err => throw (errorf_w "applying Istio DestinationRule: " err)
          | inr _ => mret tt
          end
      end
  end.

(** [Start] never fails: the controllers run without the prerequisites. *)
Definition Start : prog unit := _ ← attempt apply_prerequisites; mret tt.
End istio.

(** ** Lemmas *)

(** *** Programs that keep the token store, or an invariant of it *)

Definition preserves {B} (I : gmap string TokenEntry -> Prop) (m : prog B) : Prop :=
  forall w, I (w_tokens w) -> I (w_tokens (m w).1).

Section preserves.
Context (I : gmap string TokenEntry -> Prop).

Lemma preserves_ret {B} (b : B) : preserves I (mret b).
Proof. by intros w. Qed.
Lemma preserves_throw {B} e : preserves I (throw (A := B) e).
Proof. by intros w. Qed.
Lemma preserves_bind {B C} (m : prog B) (k : B -> prog C) :
  preserves I m -> (forall b, preserves I (k b)) -> preserves I (m ≫= k).
Proof.
  intros Hm Hk w Hw. rewrite prog_bind_eq. specialize (Hm w Hw).
  destruct (m w) as [w' [e|b]]; [done|by apply Hk].
Qed.
Lemma preserves_attempt {B} (m : prog B) : preserves I m -> preserves I (attempt m).
Proof. intros Hm w Hw. unfold attempt. specialize (Hm w Hw). by destruct (m w). Qed.
Lemma preserves_call {B} (f : list effect -> gerror + B) e : preserves I (call f e).
Proof. by intros w. Qed.
Lemma preserves_emit e : preserves I (emit e).
Proof. by intros w. Qed.
Lemma preserves_now A : preserves I (time_now A).
Proof. by intros w. Qed.
End preserves.

Ltac solve_preserves :=
  repeat first
    [ apply preserves_ret | apply preserves_throw | apply preserves_now | apply preserves_emit
    | apply preserves_call | apply preserves_attempt
    | apply preserves_bind; [|intros ?]
    | progress auto with operator
    | case_match ].

(** No WasmPlugin is applied. *)
Definition no_apply (e : effect) : Prop := match e with EffApply _ => False | _ => True end.

Section engine_lemmas.
Context `{ApiMeta} (A : api) (r : EngineReconciler).
Implicit Types e : Engine.

Lemma patchDegraded_preserves I e g reason message : preserves I (patchDegraded A e g reason message).
Proof. unfold patchDegraded, patch_conditions, status_patch. solve_preserves. Qed.
Lemma patchReady_preserves I e g reason message : preserves I (patchReady A e g reason message).
Proof. unfold patchReady, patch_conditions, status_patch. solve_preserves. Qed.
Lemma patchDegraded_no_apply e g reason message : adds no_apply (patchDegraded A e g reason message).
Proof. by apply adds_patchDegraded. Qed.
Lemma patchReady_no_apply e g reason message : adds no_apply (patchReady A e g reason message).
Proof. by apply adds_patchReady. Qed.
#[local] Hint Resolve patchDegraded_preserves patchReady_preserves patchDegraded_no_apply
  patchReady_no_apply : operator.

Lemma applyNetworkPolicy_preserves I e : preserves I (applyNetworkPolicy A r e).
Proof. unfold applyNetworkPolicy, findNetworkPolicyForEngine. solve_preserves. Qed.

Lemma applyNetworkPolicy_no_apply e : adds no_apply (applyNetworkPolicy A r e).
Proof.
  unfold applyNetworkPolicy, findNetworkPolicyForEngine. solve_adds; done.
Qed.

Lemma delete_policies_preserves I items : preserves I (delete_policies A items).
Proof. induction items; simpl; solve_preserves. Qed.
Lemma delete_policies_no_apply items : adds no_apply (delete_policies A items).
Proof. induction items; simpl; solve_adds; done. Qed.
#[local] Hint Resolve delete_policies_preserves delete_policies_no_apply : operator.

Lemma handleNetworkPolicyDeletion_preserves I req e : preserves I (handleNetworkPolicyDeletion A r req e).
Proof. unfold handleNetworkPolicyDeletion, cleanupNetworkPolicy, patch_finalizers. solve_preserves. Qed.
Lemma handleNetworkPolicyDeletion_no_apply req e : adds no_apply (handleNetworkPolicyDeletion A r req e).
Proof. unfold handleNetworkPolicyDeletion, cleanupNetworkPolicy, patch_finalizers. solve_adds; done. Qed.
Lemma cleanupNetworkPolicy_preserves I req : preserves I (cleanupNetworkPolicy A r req).
Proof. unfold cleanupNetworkPolicy. solve_preserves. Qed.
Lemma cleanupNetworkPolicy_no_apply req : adds no_apply (cleanupNetworkPolicy A r req).
Proof. unfold cleanupNetworkPolicy. solve_adds; done. Qed.
Lemma ensureNetworkPolicyFinalizer_preserves I e : preserves I (ensureNetworkPolicyFinalizer A e).
Proof. unfold ensureNetworkPolicyFinalizer, patch_finalizers. solve_preserves. Qed.
Lemma ensureNetworkPolicyFinalizer_no_apply e : adds no_apply (ensureNetworkPolicyFinalizer A e).
Proof. unfold ensureNetworkPolicyFinalizer, patch_finalizers. solve_adds; done. Qed.

Lemma initEngineStatus_preserves I e : preserves I (initEngineStatus A e).
Proof. unfold initEngineStatus, patch_conditions, status_patch. solve_preserves. Qed.
Lemma initEngineStatus_no_apply e : adds no_apply (initEngineStatus A e).
Proof. unfold initEngineStatus. case_match; [apply adds_ret|by apply adds_patch_conditions]. Qed.

Lemma isRuleSetDegraded_preserves I e : preserves I (isRuleSetDegraded A e).
Proof. unfold isRuleSetDegraded. solve_preserves. Qed.
Lemma isRuleSetDegraded_no_apply e : adds no_apply (isRuleSetDegraded A e).
Proof. unfold isRuleSetDegraded. solve_adds; done. Qed.

Lemma ensureSA_preserves I req e : preserves I (ensureCacheClientServiceAccount A req e).
Proof. unfold ensureCacheClientServiceAccount. solve_preserves. Qed.

Lemma fail_degraded_preserves {B} I e reason message err : preserves I (fail_degraded A (B := B) e reason message err).
Proof. unfold fail_degraded. solve_preserves. Qed.
Lemma fail_degraded_no_apply {B} e reason message err : adds no_apply (fail_degraded A (B := B) e reason message err).
Proof. unfold fail_degraded. solve_adds; done. Qed.

Lemma handleInvalidDriver_preserves I e : preserves I (handleInvalidDriverConfiguration A e).
Proof. unfold handleInvalidDriverConfiguration. solve_preserves. Qed.
Lemma handleInvalidDriver_no_apply e : adds no_apply (handleInvalidDriverConfiguration A e).
Proof. unfold handleInvalidDriverConfiguration. solve_adds; done. Qed.

(** A failed step ends the program, marked Degraded. *)
Lemma guarded_run {B} e reason prefix (m : prog B) w :
  guarded A e reason prefix m w =
    match m w with
    | (w', inl err) => fail_degraded A e reason (prefix +:+ error_text err) err w'
    | (w', inr b) => (w', inr b)
    end.
Proof. unfold guarded. rewrite prog_bind_eq. unfold attempt. by destruct (m w) as [w' [err|b]]. Qed.

Lemma fail_degraded_error {B} e reason message err w :
  exists err', (fail_degraded A (B := B) e reason message err w).2 = inl err'.
Proof. unfold fail_degraded. rewrite prog_bind_eq. destruct (patchDegraded A e _ _ _ w) as [? [?|?]]; simpl; eauto. Qed.
End engine_lemmas.

#[export] Hint Resolve patchDegraded_preserves patchReady_preserves patchDegraded_no_apply
  patchReady_no_apply applyNetworkPolicy_preserves applyNetworkPolicy_no_apply
  handleNetworkPolicyDeletion_preserves handleNetworkPolicyDeletion_no_apply
  cleanupNetworkPolicy_preserves cleanupNetworkPolicy_no_apply
  ensureNetworkPolicyFinalizer_preserves ensureNetworkPolicyFinalizer_no_apply
  initEngineStatus_preserves initEngineStatus_no_apply isRuleSetDegraded_preserves
  isRuleSetDegraded_no_apply ensureSA_preserves fail_degraded_preserves fail_degraded_no_apply
  handleInvalidDriver_preserves handleInvalidDriver_no_apply : operator.

(** *** Provisioning *)

Section provisioning.
Context `{ApiMeta} (A : api) (r : EngineReconciler).

Lemma no_apply_in l u : Forall no_apply l -> EffApply u ∈ l -> False.
Proof. rewrite Forall_forall. intros Hl Hin. by specialize (Hl _ Hin). Qed.

(** What has happened when the plugin [u] of an Engine is applied: the policy
    of the Engine was written, and the token it carries was issued for the
    Engine's RuleSet. *)
Definition safe_plugin (req : NamespacedName) (engine : Engine) (before : list effect) (u : unstructured) : Prop :=
  exists np tok u',
    (EffCreatePolicy np ∈ before \/ EffUpdatePolicy np ∈ before) /\ policy_of A r engine np /\
    tok <> "" /\ issued_for A req (e_RuleSet (e_Spec engine)) tok /\
    set_controller_reference A engine
      (buildWasmPlugin A r engine (wasmPluginOCIURLSource r engine).1 tok) = inr u' /\
    (u = u' \/ u = set_namespace "default" u').

Definition applies_safely (P : list effect -> unstructured -> Prop) (l : list effect) : Prop :=
  forall u, EffApply u ∈ l -> exists l1 l2, l = l1 ++ EffApply u :: l2 /\ P l1 u.

Lemma applies_no_apply P l : Forall no_apply l -> applies_safely P l.
Proof. intros Hl u Hin. by destruct (no_apply_in l u). Qed.

Lemma applies_app_r (P : list effect -> unstructured -> Prop) l l' :
  applies_safely P l -> Forall no_apply l' -> applies_safely P (l ++ l').
Proof.
  intros Hl Hl' u [Hin|Hin]%elem_of_app; [|by destruct (no_apply_in l' u)].
  destruct (Hl u Hin) as (l1 & l2 & -> & HP). exists l1, (l2 ++ l'). by rewrite <- app_assoc.
Qed.

Lemma applies_app_l (P : list effect -> unstructured -> Prop) l l' :
  Forall no_apply l -> applies_safely (fun l1 u => P (l ++ l1) u) l' -> applies_safely P (l ++ l').
Proof.
  intros Hl Hl' u [Hin|Hin]%elem_of_app; [by destruct (no_apply_in l u)|].
  destruct (Hl' u Hin) as (l1 & l2 & -> & HP). exists (l ++ l1), l2. by rewrite <- app_assoc.
Qed.

Lemma applies_mono (P Q : list effect -> unstructured -> Prop) l :
  (forall l1 u, P l1 u -> Q l1 u) -> applies_safely P l -> applies_safely Q l.
Proof. intros HPQ Hl u Hin. destruct (Hl u Hin) as (l1 & l2 & -> & HP). eauto. Qed.

(** The effects of applying an object: at most one, for the object itself, its
    namespace defaulted. *)
Lemma serverSideApply_post u :
  post (serverSideApply A u) (fun _ l _ => l = [] \/ l = [EffApply u] \/ l = [EffApply (set_namespace "default" u)]).
Proof.
  unfold serverSideApply. intros w. destruct (gvk_empty u).
  { exists []. rewrite app_nil_r. auto. }
  destruct (String.eqb (u_Name u) ""); [exists []; rewrite app_nil_r; by auto|].
  rewrite prog_bind_eq. unfold attempt, call.
  set (d := if String.eqb (u_Namespace u) "" then set_namespace "default" u else u).
  exists [EffApply d]. split; [by destruct (apply_object A _ d)|].
  unfold d. destruct (String.eqb (u_Namespace u) ""); auto.
Qed.

Lemma serverSideApply_preserves I u : preserves I (serverSideApply A u).
Proof. unfold serverSideApply. solve_preserves. Qed.

Lemma applyWasmPlugin_post engine tok :
  post (applyWasmPlugin A r engine tok) (fun _ l _ => applies_safely (fun _ u => exists u',
    set_controller_reference A engine
      (buildWasmPlugin A r engine (wasmPluginOCIURLSource r engine).1 tok) = inr u' /\
    (u = u' \/ u = set_namespace "default" u')) l).
Proof.
  unfold applyWasmPlugin. destruct (set_controller_reference A engine _) as [err|u'].
  { eapply post_mono; [apply post_throw|]. intros tr l res [-> _]. apply applies_no_apply. constructor. }
  eapply post_mono; [apply serverSideApply_post|]. intros tr l res Hl u Hin.
  destruct Hl as [->|[-> | ->]]; [by apply not_elem_of_nil in Hin| |];
    apply list_elem_of_singleton in Hin; simplify_eq; exists [], []; eauto.
Qed.

(** The requeue delay of a result: none, the finalizer's, or at least a second. *)
Definition requeue_ok (res : gerror + Result) : Prop :=
  forall x, res = inr x -> x = no_requeue \/ RequeueAfter x = 100 * Millisecond \/ Second <= RequeueAfter x.

(** A run that keeps the token store well-minted, requeues as promised, and
    applies plugins safely after the effects [pre]. *)
Definition run_ok (req : NamespacedName) (engine : Engine) (pre : list effect) (w : world)
    (res : world * (gerror + Result)) : Prop :=
  minted A (w_tokens res.1) /\ requeue_ok res.2 /\
  exists l, w_trace res.1 = w_trace w ++ l /\ applies_safely (fun l1 u => safe_plugin req engine (pre ++ l1) u) l.

Lemma quiet_run_ok req engine pre w (m : prog Result) :
  minted A (w_tokens w) -> preserves (minted A) m -> adds no_apply m -> requeue_ok (m w).2 ->
  run_ok req engine pre w (m w).
Proof.
  intros Hw Hp Ha Hr. split; [by apply Hp|]. split; [done|].
  destruct (Ha w) as (l & Hl & Hna). exists l. split; [done|by apply applies_no_apply].
Qed.

Lemma fail_degraded_ok req engine e reason message err pre w :
  minted A (w_tokens w) -> run_ok req engine pre w (fail_degraded A e reason message err w).
Proof.
  intros Hw. apply quiet_run_ok; auto with operator.
  destruct (fail_degraded_error A (B := Result) e reason message err w) as [e' He].
  intros x Hx. congruence.
Qed.

(** A step that applies nothing, before a safe rest. *)
Lemma step_ok {B} req engine (m : prog B) (k : B -> prog Result) pre w :
  minted A (w_tokens w) -> minted A (w_tokens (m w).1) ->
  (exists l, w_trace (m w).1 = w_trace w ++ l /\ Forall no_apply l /\
     forall b, (m w).2 = inr b -> run_ok req engine (pre ++ l) (m w).1 (k b (m w).1)) ->
  run_ok req engine pre w ((m ≫= k) w).
Proof.
  intros Hw Hm (l & Hl & Hna & Hk). rewrite prog_bind_eq.
  destruct (m w) as [w' [err|b]]; simpl in *.
  - split; [done|]. split; [by intros x ?|]. exists l. split; [done|by apply applies_no_apply].
  - destruct (Hk b eq_refl) as (Hm' & Hr & l' & Hl' & Ha). split; [done|]. split; [done|].
    exists (l ++ l'). rewrite Hl', Hl, app_assoc. split; [done|].
    apply applies_app_l; [done|]. eapply applies_mono; [|exact Ha]. intros l1 u. by rewrite app_assoc.
Qed.

(** The same for a guarded step. *)
Lemma guarded_step_ok {B} req engine reason prefix (m : prog B) (k : B -> prog Result) pre w :
  minted A (w_tokens w) -> minted A (w_tokens (m w).1) ->
  (exists l, w_trace (m w).1 = w_trace w ++ l /\ Forall no_apply l /\
     forall b, (m w).2 = inr b -> run_ok req engine (pre ++ l) (m w).1 (k b (m w).1)) ->
  run_ok req engine pre w ((guarded A engine reason prefix m ≫= k) w).
Proof.
  intros Hw Hm (l & Hl & Hna & Hk). rewrite prog_bind_eq, guarded_run.
  destruct (m w) as [w' [err|b]]; simpl in *.
  - pose proof (fail_degraded_preserves A (B := B) (minted A) engine reason (prefix +:+ error_text err) err w' Hm) as Hp.
    destruct (fail_degraded_error A (B := B) engine reason (prefix +:+ error_text err) err w') as [e He].
    destruct (fail_degraded_no_apply A (B := B) engine reason (prefix +:+ error_text err) err w') as (l' & Hl' & Hna').
    destruct (fail_degraded A engine reason (prefix +:+ error_text err) err w') as [w'' res]; simpl in *. subst res.
    split; [done|]. split; [by intros x ?|]. simpl.
    exists (l ++ l'). rewrite Hl', Hl, app_assoc. split; [done|].
    apply applies_no_apply. by apply Forall_app.
  - destruct (Hk b eq_refl) as (Hm' & Hr & l' & Hl' & Ha). split; [done|]. split; [done|].
    exists (l ++ l'). rewrite Hl', Hl, app_assoc. split; [done|].
    apply applies_app_l; [done|]. eapply applies_mono; [|exact Ha]. intros l1 u. by rewrite app_assoc.
Qed.

(** The last part: the plugin is applied and the status becomes Ready. *)
Lemma apply_step_ok req engine np tok pre w (k : unstructured -> prog Result) :
  minted A (w_tokens w) -> (EffCreatePolicy np ∈ pre \/ EffUpdatePolicy np ∈ pre) -> policy_of A r engine np ->
  tok <> "" -> issued_for A req (e_RuleSet (e_Spec engine)) tok ->
  (forall u, preserves (minted A) (k u)) -> (forall u, adds no_apply (k u)) -> (forall u w, requeue_ok (k u w).2) ->
  run_ok req engine pre w ((guarded A engine "ProvisioningFailed" "Failed to create or update WasmPlugin: "
    (applyWasmPlugin A r engine tok) ≫= k) w).
Proof.
  intros Hw Hnp Hpol Htok Hiss Hkp Hka Hkr. rewrite prog_bind_eq, guarded_run.
  assert (minted A (w_tokens (applyWasmPlugin A r engine tok w).1)) as Hm.
  { unfold applyWasmPlugin. case_match; [done|]. by apply serverSideApply_preserves. }
  destruct (applyWasmPlugin_post engine tok w) as (l & Hl & Hsafe).
  assert (applies_safely (fun l1 u => safe_plugin req engine (pre ++ l1) u) l) as Hsafe'.
  { eapply applies_mono; [|exact Hsafe]. intros l1 u (u' & ? & ?). exists np, tok, u'.
    split_and!; try done. rewrite !elem_of_app. tauto. }
  destruct (applyWasmPlugin A r engine tok w) as [w' [err|u]]; simpl in *.
  - match goal with |- context [fail_degraded A (B := ?B) ?e ?rs ?m ?er w'] =>
      pose proof (fail_degraded_preserves A (B := B) (minted A) e rs m er w' Hm) as Hp;
      destruct (fail_degraded_error A (B := B) e rs m er w') as [e' He];
      destruct (fail_degraded_no_apply A (B := B) e rs m er w') as (l' & Hl' & Hna');
      destruct (fail_degraded A (B := B) e rs m er w') as [w'' res]; simpl in *; subst res end.
    split; [done|]. split; [by intros x ?|]. exists (l ++ l'). simpl.
    rewrite Hl', Hl, app_assoc. split; [done|by apply applies_app_r].
  - split; [by apply Hkp|]. split; [by apply Hkr|]. destruct (Hka u w') as (l' & Hl' & Hna').
    exists (l ++ l'). rewrite Hl', Hl, app_assoc. split; [done|by apply applies_app_r].
Qed.

Lemma provisionWasmDriver_ok req engine pre w :
  req_ok req -> minted A (w_tokens w) ->
  run_ok req engine pre w (provisionWasmDriver A r req engine w).
Proof.
  intros Hreq Hw. unfold provisionWasmDriver.
  destruct (targetLabelSelector A (Some engine)); [|by apply fail_degraded_ok].
  pose proof (applyNetworkPolicy_preserves A r (minted A) engine w Hw) as Hw1.
  apply guarded_step_ok; [done|done|].
  destruct (applyNetworkPolicy_post A r engine w) as (l1 & Hl1 & _ & Hnp).
  destruct (applyNetworkPolicy_no_apply A r engine w) as (l1' & Hl1' & Hna1).
  assert (l1' = l1) as -> by (rewrite Hl1 in Hl1'; by apply app_inv_head in Hl1').
  exists l1. split; [done|]. split; [done|]. intros [] Hok1. destruct (Hnp Hok1) as (np & Hpol & Hin).
  set (w1 := (applyNetworkPolicy A r engine w).1) in *. clear Hl1' Hok1 Hnp.
  pose proof (ensureSA_preserves A (minted A) req engine w1 Hw1) as Hw2.
  apply guarded_step_ok; [done|done|].
  destruct (ensureCacheClientServiceAccount_adds A req engine no_apply ltac:(done) ltac:(done) w1) as (l2 & Hl2 & Hna2).
  exists l2. split; [done|]. split; [done|]. intros saName _.
  set (w2 := (ensureCacheClientServiceAccount A req engine w1).1) in *.
  pose proof (ensureCacheToken_minted A req saName (e_RuleSet (e_Spec engine)) w2 Hreq Hw2) as Hmint.
  destruct (ensureCacheToken_adds A req saName (e_RuleSet (e_Spec engine)) no_apply ltac:(done) w2) as (l3 & Hl3 & Hna3).
  apply guarded_step_ok; [done| |].
  { destruct (ensureCacheToken A req saName _ w2); apply Hmint. }
  exists l3. split; [done|]. split; [done|]. intros [tok renewAt] Hok3.
  destruct (ensureCacheToken A req saName _ w2) as [w3 res3]; simpl in *. subst res3.
  destruct Hmint as [Hw3 Hiss]. specialize (Hiss _ _ eq_refl).
  destruct (String.eqb_spec tok ""); [by apply fail_degraded_ok|].
  apply (apply_step_ok req engine np tok); try done.
  - rewrite !elem_of_app. tauto.
  - intros u. solve_preserves.
  - intros u. solve_adds; done.
  - intros u w'. rewrite prog_bind_eq. destruct (patchReady A engine _ _ _ w') as [w'' [e|e']]; [by intros x ?|].
    simpl. intros x ?. simplify_eq. right; right. simpl. lia.
Qed.

(** *** Reconcile *)

(** The RuleSet of the Engine was there and not Degraded. *)
Definition ruleset_usable (engine : Engine) : Prop :=
  exists tr rs, get_RuleSet A tr {| nn_Namespace := Namespace (e_Meta engine);
                                    nn_Name := e_RuleSet (e_Spec engine) |} = inr rs /\
    forall c, FindStatusCondition (rs_Conditions rs) conditionDegraded = Some c -> c_Status c <> ConditionTrue.

Definition safe_for (req : NamespacedName) (before : list effect) (u : unstructured) : Prop :=
  exists engine, object_name (e_Meta engine) = req /\ ruleset_usable engine /\ safe_plugin req engine before u.

Definition run_safe (P : list effect -> unstructured -> Prop) (w : world) (res : world * (gerror + Result)) : Prop :=
  minted A (w_tokens res.1) /\ requeue_ok res.2 /\
  exists l, w_trace res.1 = w_trace w ++ l /\ applies_safely P l.

Lemma step_safe {B} P (m : prog B) (k : B -> prog Result) w :
  minted A (w_tokens w) -> preserves (minted A) m -> adds no_apply m ->
  (forall l b, w_trace (m w).1 = w_trace w ++ l -> (m w).2 = inr b -> minted A (w_tokens (m w).1) ->
     run_safe (fun l1 u => P (l ++ l1) u) (m w).1 (k b (m w).1)) ->
  run_safe P w ((m ≫= k) w).
Proof.
  intros Hw Hp Ha Hk. rewrite prog_bind_eq. specialize (Hp w Hw). destruct (Ha w) as (l & Hl & Hna).
  specialize (Hk l). destruct (m w) as [w' [err|b]]; simpl in *.
  - split; [done|]. split; [by intros x ?|]. exists l. split; [done|by apply applies_no_apply].
  - destruct (Hk b Hl eq_refl Hp) as (Hm' & Hr & l' & Hl' & Hs). split; [done|]. split; [done|].
    exists (l ++ l'). rewrite Hl', Hl, app_assoc. split; [done|]. by apply applies_app_l.
Qed.

Lemma quiet_safe P w (m : prog Result) :
  minted A (w_tokens w) -> preserves (minted A) m -> adds no_apply m -> requeue_ok (m w).2 -> run_safe P w (m w).
Proof.
  intros Hw Hp Ha Hr. split; [by apply Hp|]. split; [done|].
  destruct (Ha w) as (l & Hl & Hna). exists l. split; [done|by apply applies_no_apply].
Qed.

Lemma requeue_ret x : x = no_requeue \/ RequeueAfter x = 100 * Millisecond -> requeue_ok (inr x).
Proof. intros Hx y ?. simplify_eq. tauto. Qed.

Lemma handleInvalidDriver_error engine w : exists err, (handleInvalidDriverConfiguration A engine w).2 = inl err.
Proof.
  unfold handleInvalidDriverConfiguration. rewrite prog_bind_eq. unfold attempt.
  destruct (patchDegraded A engine _ _ _ w) as [w' [e|e]]; simpl; eauto.
Qed.

Lemma selectDriver_safe req engine pre w :
  req_ok req -> object_name (e_Meta engine) = req -> ruleset_usable engine -> minted A (w_tokens w) ->
  run_safe (fun l1 u => safe_for req (pre ++ l1) u) w (selectDriver A r req engine w).
Proof.
  intros Hreq Hname Huse Hw. unfold selectDriver. destruct (String.eqb _ DriverTypeWasm).
  - destruct (provisionWasmDriver_ok req engine pre w Hreq Hw) as (? & ? & l & ? & Hs).
    split; [done|]. split; [done|]. exists l. split; [done|].
    eapply applies_mono; [|exact Hs]. intros l1 u ?. by exists engine.
  - apply quiet_safe; auto with operator. destruct (handleInvalidDriver_error engine w) as [e He].
    intros x ?. congruence.
Qed.

Lemma isRuleSetDegraded_usable engine w :
  (isRuleSetDegraded A engine w).2 = inr false -> ruleset_usable engine.
Proof.
  unfold isRuleSetDegraded. rewrite prog_bind_eq. unfold attempt, call.
  destruct (get_RuleSet A _ _) as [err|rs] eqn:Hg.
  - destruct (IsNotFound A err); [|by simpl]. rewrite prog_bind_eq.
    destruct (patchDegraded A engine _ _ _ _) as [w' [e|e]]; by simpl.
  - intros Hr. eexists _, rs. split; [exact Hg|]. intros c Hc Htrue. rewrite Hc in Hr.
    rewrite bool_decide_eq_true_2 in Hr by done. rewrite prog_bind_eq in Hr.
    destruct (patchDegraded A engine _ _ _ _) as [w' [e|e]]; by simpl in Hr.
Qed.

Context (Hget : forall tr nn e, get_Engine A tr nn = inr e -> object_name (e_Meta e) = nn).
Context (Hpatch : forall tr e e', patch_Engine_status A tr e = inr e' ->
  object_name (e_Meta e') = object_name (e_Meta e)).

Lemma initEngineStatus_name engine w e' :
  (initEngineStatus A engine w).2 = inr e' -> object_name (e_Meta e') = object_name (e_Meta engine).
Proof.
  unfold initEngineStatus. case_match; [intros ?; by simplify_eq/=|].
  match goal with |- context [patch_conditions A ?ap engine w] =>
    pose proof (patch_conditions_run A ap engine w) as Hrun end.
  simpl in Hrun. destruct (patch_Engine_status A _ _) as [err|e2] eqn:Hp; rewrite Hrun; simpl; [done|].
  intros ?. simplify_eq. by apply Hpatch in Hp.
Qed.

Lemma provision_safe req engine pre w :
  req_ok req -> object_name (e_Meta engine) = req -> minted A (w_tokens w) ->
  run_safe (fun l1 u => safe_for req (pre ++ l1) u) w (provision A r req engine w).
Proof.
  intros Hreq Hname Hw. unfold provision.
  apply step_safe; [done|auto with operator|auto with operator|].
  intros l1 engine' _ He Hw1. apply initEngineStatus_name in He.
  apply step_safe; [done|auto with operator|auto with operator|].
  intros l2 degraded _ Hd Hw2. destruct degraded.
  - apply quiet_safe; [done|apply preserves_ret|apply adds_ret|]. apply requeue_ret. by left.
  - apply isRuleSetDegraded_usable in Hd.
    destruct (selectDriver_safe req engine' ((pre ++ l1) ++ l2)
      (isRuleSetDegraded A engine' (initEngineStatus A engine w).1).1) as (? & ? & l3 & ? & Hs);
      [done|by rewrite He|done|done|].
    split; [done|]. split; [done|]. exists l3. split; [done|].
    eapply applies_mono; [|exact Hs]. intros l4 u. by rewrite <- !app_assoc.
Qed.

Lemma Reconcile_safe req w :
  req_ok req -> minted A (w_tokens w) -> run_safe (safe_for req) w (Reconcile A r req w).
Proof.
  intros Hreq Hw. unfold Reconcile. apply step_safe; [done|by intros ?|by apply adds_attempt, adds_call|].
  intros l1 g _ Hg Hw1. injection Hg as Hg.
  destruct g as [err|engine].
  - destruct (IsNotFound A err).
    + apply step_safe; [done|auto with operator|auto with operator|]. intros l2 [] _ _ Hw2.
      apply quiet_safe; [done|apply preserves_ret|apply adds_ret|]. apply requeue_ret. by left.
    + apply quiet_safe; [done|apply preserves_throw|apply adds_throw|]. by intros x ?.
  - apply Hget in Hg.
    apply step_safe; [done|auto with operator|auto with operator|]. intros l2 deleting _ _ Hw2.
    destruct deleting.
    { apply quiet_safe; [done|apply preserves_ret|apply adds_ret|]. apply requeue_ret. by left. }
    apply step_safe; [done|auto with operator|auto with operator|]. intros l3 added _ _ Hw3.
    destruct added.
    { apply quiet_safe; [done|apply preserves_ret|apply adds_ret|]. apply requeue_ret. by right. }
    match goal with |- run_safe _ ?w' _ =>
      destruct (provision_safe req engine ((l1 ++ l2) ++ l3) w' Hreq Hg Hw3) as (? & ? & l4 & ? & Hs) end.
    split; [done|]. split; [done|]. exists l4. split; [done|].
    eapply applies_mono; [|exact Hs]. intros l5 u. by rewrite <- !app_assoc.
Qed.

Lemma reconcile_engines_minted reqs w :
  Forall req_ok reqs -> minted A (w_tokens w) -> minted A (w_tokens (reconcile_engines A r reqs w)).
Proof.
  intros Hreqs. revert w. induction Hreqs as [|req reqs Hreq Hreqs IH]; intros w Hw; [done|].
  apply IH. by apply Reconcile_safe.
Qed.
End provisioning.

Lemma empty_minted A : minted A (w_tokens empty_world).
Proof. intros key entry Hk. simpl in Hk. by rewrite lookup_empty in Hk. Qed.

(** ** The properties *)

(** An entry of the plugin configuration of a WasmPlugin. *)
Definition plugin_config (k : string) (u : unstructured) : option value :=
  vmap_get "pluginConfig" (u_Spec u) ≫= vmap_get k.

Lemma buildWasmPlugin_config A r engine url tok :
  plugin_config "cache_token" (buildWasmPlugin A r engine url tok) = Some (VString tok) /\
  plugin_config "cache_server_instance" (buildWasmPlugin A r engine url tok) =
    Some (VString (Namespace (e_Meta engine) +:+ "/" +:+ e_RuleSet (e_Spec engine))).
Proof. done. Qed.


Definition sample_engine : Engine :=
  {| e_Meta := {| Namespace := "ns"; Name := "gw-engine"; UID := "uid"; Generation := 1; Labels := ∅;
                  Annotations := ∅; Finalizers := [networkPolicyFinalizer]; DeletionTimestamp := None |};
     e_Spec := {| e_RuleSet := "rs";
                  e_Target := {| target_Type := EngineTargetTypeGateway; target_Name := "gw" |};
                  e_FailurePolicy := ""; e_RuleSetCacheServer := None;
                  e_Driver := {| driver_Type := ""; driver_Wasm := None |} |};
     e_Status := None |}.

Definition sample_engine_api : api :=
  quiet_api [{| rs_Meta := sample_meta "ns" "rs"; rs_Spec := {| Sources := []; Data := [] |};
                rs_Conditions := [] |}] [] [] [sample_engine] (fun _ _ => None).

Definition sample_reconciler : EngineReconciler :=
  {| ruleSetCacheServerCluster := "cluster"; istioRevision := ""; defaultWasmImage := "oci://img";
     operatorNamespace := "op" |}.

Lemma sample_find_Engine nn e tr :
  get_Engine sample_engine_api tr nn = inr e -> object_name (e_Meta e) = nn.
Proof.
  unfold sample_engine_api, quiet_api. cbn [get_Engine]. rewrite filter_cons. simpl.
  case_decide as Hn; [|done]. intros ?. simplify_eq. destruct Hn as [Hns Hname]. destruct nn. simpl in *. by subst.
Qed.


(** Calls that renew or deploy anything. *)
Definition renews (e : effect) : bool :=
  match e with
  | EffCreateToken _ _ _ | EffApply _ | EffCreatePolicy _ | EffUpdatePolicy _ | EffCreateServiceAccount _ => true
  | _ => false
  end.

(** C39: A Degraded RuleSet stops its Engines: the reconciliation marks the
    Engine Degraded, provisions nothing, renews no token and, having no error,
    asks for no requeue. The token of the deployed plugin is therefore not
    renewed while the RuleSet is Degraded. *)
Theorem degraded_ruleset_stops_engine `{ApiMeta} (A : api) (r : EngineReconciler)
    (Hpatch : forall tr e, patch_Engine_status A tr e = inr e)
    (req : NamespacedName) (engine : Engine) (rs : RuleSet) (c : Condition) (w : world) :
  (forall tr, get_RuleSet A tr {| nn_Namespace := Namespace (e_Meta engine);
                                  nn_Name := e_RuleSet (e_Spec engine) |} = inr rs) ->
  FindStatusCondition (rs_Conditions rs) conditionDegraded = Some c -> c_Status c = ConditionTrue ->
  (provision A r req engine w).2 = inr no_requeue /\
  exists l conds, w_trace (provision A r req engine w).1 = w_trace w ++ l /\
    Forall (fun e => renews e = false) l /\ last_status l = Some conds /\
    is_degraded conds (Generation (e_Meta engine)) "RuleSetDegraded"
      ("RuleSet " +:+ e_RuleSet (e_Spec engine) +:+ " is degraded: " +:+ c_Message c).
Proof.
  intros Hrs Hc Htrue. unfold provision. rewrite prog_bind_eq.
  assert (exists w1 l1 st, initEngineStatus A engine w = (w1, inr {| e_Meta := e_Meta engine;
      e_Spec := e_Spec engine; e_Status := st |}) /\
    w_trace w1 = w_trace w ++ l1 /\ Forall (fun e => renews e = false) l1) as (w1 & l1 & st & -> & Hl1 & Hr1).
  { unfold initEngineStatus. case_match; [exists w, [], (e_Status engine); rewrite app_nil_r; by destruct engine|].
    match goal with |- context [patch_conditions A ?ap engine w] =>
      pose proof (patch_conditions_run A ap engine w) as Hrun end.
    simpl in Hrun. rewrite Hpatch in Hrun. rewrite Hrun. eexists _, [_; _], _. split; [reflexivity|].
    simpl. rewrite <- app_assoc. split; [reflexivity|]. by repeat constructor. }
  set (engine1 := {| e_Meta := e_Meta engine; e_Spec := e_Spec engine; e_Status := st |}).
  rewrite prog_bind_eq. unfold isRuleSetDegraded. rewrite prog_bind_eq. unfold attempt, call. simpl.
  rewrite Hrs, Hc, bool_decide_eq_true_2 by done. rewrite prog_bind_eq.
  unfold patchDegraded. rewrite prog_bind_eq. simpl.
  match goal with |- context [patch_conditions A ?ap engine1 ?w'] =>
    pose proof (patch_conditions_run A ap engine1 w') as Hrun end.
  simpl in Hrun. rewrite Hpatch in Hrun. rewrite Hrun. simpl. split; [done|].
  eexists (l1 ++ [_; _; _; _]), _. rewrite Hl1, <- !app_assoc. simpl. split; [reflexivity|].
  split; [apply Forall_app; split; [done|by repeat constructor]|].
  split; [apply last_status_app; reflexivity|]. apply applyStatusConditionDegraded_is.
Qed.

Definition degraded_condition : Condition :=
  {| c_Type := conditionDegraded; c_Status := ConditionTrue; c_ObservedGeneration := 1;
     c_LastTransitionTime := 0; c_Reason := "InvalidRuleSet"; c_Message := "bad rule" |}.
Definition degraded_ruleset : RuleSet :=
  {| rs_Meta := sample_meta "ns" "rs"; rs_Spec := {| Sources := []; Data := [] |};
     rs_Conditions := [degraded_condition] |}.

Theorem degraded_ruleset_stops_engine_witness :
  let A := quiet_api [degraded_ruleset] [] [] [sample_engine] (fun _ _ => None) in
  (provision (H := list_ApiMeta) A sample_reconciler (object_name (e_Meta sample_engine)) sample_engine
     empty_world).2 = inr no_requeue.
Proof.
  intros A.
  apply (degraded_ruleset_stops_engine (H := list_ApiMeta) A sample_reconciler (fun tr e => eq_refl)
    (object_name (e_Meta sample_engine)) sample_engine degraded_ruleset degraded_condition empty_world).
  - intros tr. vm_compute. reflexivity.
  - reflexivity.
  - reflexivity.
Defined.
