(* ===== verification/Watches.v ===== *)
(** * What makes the controllers reconcile

    [SetupWithManager] of [ruleset_controller.go] and [engine_controller.go]: the
    kinds each controller watches, the predicates that filter the events, and the
    functions that turn an event into requests.  A setup is data; [enqueued] is
    what the queue receives for an event.  The predicates and handlers of
    controller-runtime are the members of a class, with what they document. *)
From S2P Require Import Prelude GoLib GoErrors KubeApi Status RuleSetController EngineNetwork EngineController.

(** ** Events and predicates *)

(** An object as predicates see it; an object of an update may be nil. *)
Inductive event :=
| Create (o : ObjectMeta)
| Update (old new : option ObjectMeta)
| Delete (o : ObjectMeta)
| Generic (o : ObjectMeta).

Abbreviation predicate := (event -> bool).

(** [predicate.Funcs] with all four functions. *)
Record Funcs := {
  CreateFunc : ObjectMeta -> bool;
  DeleteFunc : ObjectMeta -> bool;
  GenericFunc : ObjectMeta -> bool;
  UpdateFunc : option ObjectMeta -> option ObjectMeta -> bool
}.

(** The objects an event is about: an update is about both of its objects. *)
Definition event_objects (e : event) : list ObjectMeta :=
  match e with
  | Create o | Delete o | Generic o => [o]
  | Update old new => option_list old ++ option_list new
  end.

(** The predicates of controller-runtime. *)
Class ControllerRuntime := {
  from_funcs : Funcs -> predicate;
  GenerationChangedPredicate : predicate;
  NewPredicateFuncs : (ObjectMeta -> bool) -> predicate;
  And : list predicate -> predicate;
  Or : list predicate -> predicate;
  (** [handler.EnqueueRequestForOwner]: the controllers among the owner references. *)
  owner_requests : ObjectMeta -> list NamespacedName;

  from_funcs_spec f e : from_funcs f e =
    match e with
    | Create o => CreateFunc f o
    | Update old new => UpdateFunc f old new
    | Delete o => DeleteFunc f o
    | Generic o => GenericFunc f o
    end;
  generation_update old new :
    GenerationChangedPredicate (Update (Some old) (Some new)) = negb (Generation old =? Generation new);
  generation_other e : (forall old new, e <> Update old new) -> GenerationChangedPredicate e = true;
  predicate_funcs_spec f e : NewPredicateFuncs f e =
    match e with
    | Create o | Delete o | Generic o => f o
    | Update _ (Some new) => f new
    | Update _ None => false
    end;
  and_spec ps e : And ps e = forallb (fun p => p e) ps;
  or_spec ps e : Or ps e = existsb (fun p => p e) ps
}.

(** ** Setups *)

Inductive object_kind :=
| KEngine | KRuleSet | KRuleSource | KRuleData | KPod | KNetworkPolicy | KWasmPlugin | KGateway.
#[export] Instance object_kind_eq_dec : EqDecision object_kind.
Proof. solve_decision. Defined.

(** What a watch does with an object: the request of the object itself ([For]),
    those of its owners ([Owns]), or those of a map function ([Watches]). *)
Inductive handler :=
| ForObject
| ForOwner
| MapFunc (f : ObjectMeta -> prog (list NamespacedName)).

Record watch := { w_Kind : object_kind; w_Handler : handler; w_Predicates : list predicate }.

Record setup := {
  setup_Name : string;
  setup_Watches : list watch;
  (** the delays of the exponential rate limiter *)
  setup_BaseDelay : Z;
  setup_MaxDelay : Z
}.

Section setups.
Context `{ControllerRuntime}.

(** [annotationChangedPredicate]. *)
Definition annotation_changed (key : string) : predicate :=
  from_funcs {| CreateFunc _ := false; DeleteFunc _ := false; GenericFunc _ := false;
                UpdateFunc old new := annotationChangedPredicate key old new |}.

Definition networkPolicyPredicate : predicate :=
  And [NewPredicateFuncs (fun o => bool_decide (is_Some (Labels o !! networkPolicyEngineLabelName)));
       Or [from_funcs {| CreateFunc _ := true; DeleteFunc _ := true; UpdateFunc _ _ := false; GenericFunc _ := false |};
           GenerationChangedPredicate]].

(** [RuleSetReconciler.SetupWithManager]: the two indexes, which may fail, and
    the controller.  [IndexField] is the answer of the manager's indexer,
    [list_RuleSets] the listing through the indexes. *)
Definition ruleset_setup (list_RuleSets : string -> string -> string -> gerror + list RuleSet) : setup :=
  {| setup_Name := "ruleset";
     setup_Watches :=
       [{| w_Kind := KRuleSet; w_Handler := ForObject;
           w_Predicates := [Or [GenerationChangedPredicate;
                                annotation_changed AnnotationSkipUnsupportedRulesCheck]] |};
        {| w_Kind := KRuleSource;
           w_Handler := MapFunc (fun o => mret (findRuleSetsForRuleSource list_RuleSets o)); w_Predicates := [] |};
        {| w_Kind := KRuleData;
           w_Handler := MapFunc (fun o => mret (findRuleSetsForRuleData list_RuleSets o)); w_Predicates := [] |}];
     setup_BaseDelay := 1 * Second;
     setup_MaxDelay := 60 * Second |}.

Definition RuleSet_SetupWithManager (IndexField : string -> (RuleSet -> list string) -> option gerror)
    (Complete : setup -> option gerror) (list_RuleSets : string -> string -> string -> gerror + list RuleSet) :
    option gerror :=
  match IndexField "spec.sources.name" sources_index with
  | Some err => Some (errorf_w "index spec.sources.name: " err)
  | None =>
      match IndexField "spec.data.name" data_index with
      | Some err => Some (errorf_w "index spec.data.name: " err)
      | None => Complete (ruleset_setup list_RuleSets)
      end
  end.

(** [EngineReconciler.SetupWithManager]. *)
Definition Engine_SetupWithManager (A : api) : setup :=
  {| setup_Name := "engine";
     setup_Watches :=
       [{| w_Kind := KEngine; w_Handler := ForObject; w_Predicates := [GenerationChangedPredicate] |};
        {| w_Kind := KWasmPlugin; w_Handler := ForOwner; w_Predicates := [] |};
        {| w_Kind := KGateway; w_Handler := MapFunc (findEnginesForGateway A); w_Predicates := [] |};
        {| w_Kind := KRuleSet; w_Handler := MapFunc (findEnginesForRuleSet A); w_Predicates := [] |};
        {| w_Kind := KPod; w_Handler := MapFunc (findEnginesForPod A);
           w_Predicates := [NewPredicateFuncs (fun o => bool_decide (is_Some (Labels o !! gatewayNameLabel)))] |};
        {| w_Kind := KNetworkPolicy;
           w_Handler := MapFunc (fun o => mret (findEnginesForNetworkPolicy (Labels o)));
           w_Predicates := [networkPolicyPredicate] |}];
     setup_BaseDelay := 1 * Second;
     setup_MaxDelay := 60 * Second |}.

(** ** What an event enqueues *)

Definition handle_object (h : handler) (o : ObjectMeta) : prog (list NamespacedName) :=
  match h with
  | ForObject => mret [object_name o]
  | ForOwner => mret (owner_requests o)
  | MapFunc f => f o
  end.

Fixpoint handle_objects (h : handler) (os : list ObjectMeta) : prog (list NamespacedName) :=
  match os with
  | [] => mret []
  | o :: os => l ← handle_object h o; l' ← handle_objects h os; mret (l ++ l')
  end.

(** A watch of the kind handles the event when all its predicates accept it. *)
Definition watch_enqueues (w : watch) (k : object_kind) (e : event) : prog (list NamespacedName) :=
  if bool_decide (w_Kind w = k) && forallb (fun p => p e) (w_Predicates w)
  then handle_objects (w_Handler w) (event_objects e) else mret [].

Fixpoint watches_enqueue (ws : list watch) (k : object_kind) (e : event) : prog (list NamespacedName) :=
  match ws with
  | [] => mret []
  | w :: ws => l ← watch_enqueues w k e; l' ← watches_enqueue ws k e; mret (l ++ l')
  end.

Definition enqueued (s : setup) (k : object_kind) (e : event) : prog (list NamespacedName) :=
  watches_enqueue (setup_Watches s) k e.
End setups.

(** ** Lemmas *)

(** Whatever came before, [m] answers with exactly the requests in [P]. *)
Definition requests (m : prog (list NamespacedName)) (P : NamespacedName -> Prop) : Prop :=
  forall w, exists w' l, m w = (w', inr l) /\ forall nn, nn ∈ l <-> P nn.

Lemma requests_ret l P : (forall nn, nn ∈ l <-> P nn) -> requests (mret l) P.
Proof. intros Hl w. by exists w, l. Qed.

Lemma requests_app m m' P P' : requests m P -> requests m' P' ->
  requests (l ← m; l' ← m'; mret (l ++ l')) (fun nn => P nn \/ P' nn).
Proof.
  intros Hm Hm' w. destruct (Hm w) as (w1 & l & E & Hl). destruct (Hm' w1) as (w2 & l' & E' & Hl').
  exists w2, (l ++ l'). split.
  - unfold mbind, prog_bind, mret, prog_ret. by rewrite E, E'.
  - intros nn. by rewrite elem_of_app, Hl, Hl'.
Qed.

Lemma requests_ext m P P' : (forall nn, P nn <-> P' nn) -> requests m P -> requests m P'.
Proof. intros HP Hm w. destruct (Hm w) as (w' & l & E & Hl). exists w', l. split; [done|]. intros. by rewrite Hl. Qed.

Section requests.
Context `{ControllerRuntime}.

Lemma handle_objects_requests h (P : ObjectMeta -> NamespacedName -> Prop) os :
  (forall o, requests (handle_object h o) (P o)) ->
  requests (handle_objects h os) (fun nn => exists o, o ∈ os /\ P o nn).
Proof.
  intros Hh. induction os as [|o os IH]; simpl.
  - apply requests_ret. intros nn. split; [by intros ?%not_elem_of_nil|]. intros (o & Ho & _). by apply not_elem_of_nil in Ho.
  - eapply requests_ext; [|apply requests_app; [apply Hh|exact IH]]. intros nn. simpl. set_solver.
Qed.

Lemma watch_requests w (P : ObjectMeta -> NamespacedName -> Prop) k e :
  (forall o, requests (handle_object (w_Handler w) o) (P o)) ->
  requests (watch_enqueues w k e) (fun nn => w_Kind w = k /\ Forall (fun p => p e = true) (w_Predicates w) /\
    exists o, o ∈ event_objects e /\ P o nn).
Proof.
  intros Hh. unfold watch_enqueues. case_bool_decide as Hk; simpl.
  - destruct (forallb _ _) eqn:Hp.
    + eapply requests_ext; [|by apply handle_objects_requests]. intros nn. simpl.
      assert (Forall (fun p : predicate => p e = true) (w_Predicates w)) as Hf.
      { apply Forall_forall. rewrite forallb_forall in Hp. intros p Hin. apply Hp. by apply list_elem_of_In. }
      naive_solver.
    + apply requests_ret. intros nn. split; [by intros ?%not_elem_of_nil|]. intros (_ & Hf & _). exfalso.
      assert (forallb (fun p : predicate => p e) (w_Predicates w) = true) as Ht; [|by rewrite Ht in Hp].
      apply forallb_forall. rewrite Forall_forall in Hf. intros p Hin. apply Hf. by apply list_elem_of_In.
  - apply requests_ret. intros nn. split; [by intros ?%not_elem_of_nil|]. by intros (? & _).
Qed.

(** The predicates, on events whose objects are there. *)
Definition complete (e : event) : Prop :=
  match e with Update old new => is_Some old /\ is_Some new | _ => True end.

(** An update that changes the generation, or no update. *)
Definition new_generation (e : event) : Prop :=
  match e with
  | Update (Some old) (Some new) => Generation old <> Generation new
  | _ => True
  end.

Lemma generation_changed_spec e : complete e -> GenerationChangedPredicate e = true <-> new_generation e.
Proof.
  destruct e as [o|old new|o|o]; simpl; intros Hc; try (rewrite generation_other by done; by split).
  destruct Hc as [[o ->] [n ->]]. rewrite generation_update, negb_true_iff, Z.eqb_neq. done.
Qed.

(** An update that changes the value of an annotation. *)
Definition annotation_edited (key : string) (e : event) : Prop :=
  match e with
  | Update (Some old) (Some new) => default "" (Annotations old !! key) <> default "" (Annotations new !! key)
  | _ => False
  end.

Lemma annotation_changed_spec key e : complete e -> annotation_changed key e = true <-> annotation_edited key e.
Proof.
  unfold annotation_changed. rewrite from_funcs_spec. destruct e as [o|old new|o|o]; simpl; try done.
  intros [[o ->] [n ->]]. simpl. by rewrite negb_true_iff, String.eqb_neq.
Qed.

(** The object whose labels a predicate reads. *)
Definition event_object (e : event) : option ObjectMeta :=
  match e with Create o | Delete o | Generic o => Some o | Update _ new => new end.

Definition has_label (key : string) (e : event) : Prop :=
  exists o, event_object e = Some o /\ is_Some (Labels o !! key).

Lemma has_label_spec key e :
  NewPredicateFuncs (fun o => bool_decide (is_Some (Labels o !! key))) e = true <-> has_label key e.
Proof.
  rewrite predicate_funcs_spec. unfold has_label.
  destruct e as [o|old [n|]|o|o]; simpl; try rewrite bool_decide_eq_true; naive_solver.
Qed.

(** Created and deleted policies, and those whose spec changed. *)
Definition policy_event (e : event) : Prop :=
  has_label networkPolicyEngineLabelName e /\ new_generation e.

Lemma networkPolicyPredicate_spec e : complete e -> networkPolicyPredicate e = true <-> policy_event e.
Proof.
  intros Hc. unfold networkPolicyPredicate, policy_event. rewrite and_spec; simpl.
  rewrite andb_true_r, andb_true_iff, has_label_spec, or_spec; simpl.
  rewrite orb_false_r, orb_true_iff, from_funcs_spec, (generation_changed_spec e Hc).
  destruct e; simpl; naive_solver.
Qed.
End requests.

(** ** Theorems *)

(** *** The RuleSet controller *)

(** What the RuleSet controller should reconcile on an event: the RuleSets of
    the namespace that reference the source or data object, and a RuleSet whose
    spec or exemption changed. *)
Definition ruleset_relevant (cluster : list RuleSet) (k : object_kind) (e : event) (nn : NamespacedName) : Prop :=
  match k with
  | KRuleSet => (new_generation e \/ annotation_edited AnnotationSkipUnsupportedRulesCheck e) /\
      exists o, o ∈ event_objects e /\ nn = object_name o
  | KRuleSource => exists o rs, o ∈ event_objects e /\ rs ∈ cluster /\ Namespace (rs_Meta rs) = Namespace o /\
      Name o ∈ sources_index rs /\ nn = object_name (rs_Meta rs)
  | KRuleData => exists o rs, o ∈ event_objects e /\ rs ∈ cluster /\ Namespace (rs_Meta rs) = Namespace o /\
      Name o ∈ data_index rs /\ nn = object_name (rs_Meta rs)
  | _ => False
  end.

(** The indexes that were registered answer with the RuleSets of the namespace
    whose index has the value. *)
Definition indexed (cluster : list RuleSet) (list_RuleSets : string -> string -> string -> gerror + list RuleSet)
    (key : string) (index : RuleSet -> list string) : Prop :=
  forall ns v, exists items, list_RuleSets ns key v = inr items /\
    forall rs, rs ∈ items <-> rs ∈ cluster /\ Namespace (rs_Meta rs) = ns /\ v ∈ index rs.

Section theorems.
Context `{ControllerRuntime}.

Lemma findRuleSetsBy_requests cluster list_RuleSets key index ns v : indexed cluster list_RuleSets key index ->
  requests (mret (findRuleSetsBy list_RuleSets ns key v))
    (fun nn => exists rs, rs ∈ cluster /\ Namespace (rs_Meta rs) = ns /\ v ∈ index rs /\ nn = object_name (rs_Meta rs)).
Proof.
  intros Hix. apply requests_ret. intros nn. unfold findRuleSetsBy, collectRequests.
  destruct (Hix ns v) as (items & -> & Hi). rewrite filter_all by by apply Forall_true.
  rewrite list_elem_of_fmap. split.
  - intros (rs & -> & (? & ? & ?)%Hi). by exists rs.
  - intros (rs & ? & ? & ? & ->). exists rs. split; [done|]. by apply Hi.
Qed.

(** C15: the RuleSet controller hears of everything that can change what it
    caches, and of nothing else.  With the two indexes registered, an event about
    a RuleSource or a RuleData enqueues exactly the RuleSets of its namespace that
    name it; an event about a RuleSet enqueues it when it is created or deleted,
    or when its spec or the exemption from the check of unsupported rules changed
    (a status patch of the controller's own does not); events of other kinds
    enqueue nothing. *)
Theorem ruleset_events_exact cluster list_RuleSets k e
  (Hsrc : indexed cluster list_RuleSets "spec.sources.name" sources_index)
  (Hdata : indexed cluster list_RuleSets "spec.data.name" data_index) (He : complete e) :
  requests (enqueued (ruleset_setup list_RuleSets) k e) (ruleset_relevant cluster k e).
Proof.
  eapply requests_ext; [|eapply requests_app; [|eapply requests_app; [|eapply requests_app]]];
    [|apply (watch_requests _ (fun o nn => nn = object_name o))
     |apply (watch_requests _ (fun o nn => exists rs, rs ∈ cluster /\ Namespace (rs_Meta rs) = Namespace o /\
               Name o ∈ sources_index rs /\ nn = object_name (rs_Meta rs)))
     |apply (watch_requests _ (fun o nn => exists rs, rs ∈ cluster /\ Namespace (rs_Meta rs) = Namespace o /\
               Name o ∈ data_index rs /\ nn = object_name (rs_Meta rs)))
     |by apply (requests_ret [] (fun _ => False)); intros nn; split; [intros ?%not_elem_of_nil|] ].
  - intros nn; cbv beta; cbn [w_Kind w_Predicates]. rewrite !Forall_singleton, or_spec; cbn [existsb].
    rewrite orb_false_r, orb_true_iff, (generation_changed_spec e He), (annotation_changed_spec _ e He).
    destruct k; simpl; naive_solver.
  - intros o. apply requests_ret. intros nn. apply list_elem_of_singleton.
  - intros o. by apply findRuleSetsBy_requests.
  - intros o. by apply findRuleSetsBy_requests.
Qed.

(** *** The Engine controller *)

(** The Engines of an object's namespace that [match_] it. *)
Definition engines_of (cluster : list Engine) (match_ : Engine -> ObjectMeta -> bool) (o : ObjectMeta)
    (nn : NamespacedName) : Prop :=
  exists en, en ∈ cluster /\ Namespace (e_Meta en) = Namespace o /\ match_ en o = true /\ nn = object_name (e_Meta en).

Definition targets_gateway (en : Engine) (o : ObjectMeta) : bool :=
  hasGatewayTarget (Some en) && String.eqb (target_Name (e_Target (e_Spec en))) (Name o).

Definition names_ruleset (en : Engine) (o : ObjectMeta) : bool := String.eqb (e_RuleSet (e_Spec en)) (Name o).

Definition selects_pod (A : api) (en : Engine) (o : ObjectMeta) : bool := engineMatchesLabels A (Some en) (Labels o).

(** What the Engine controller should reconcile on an event. *)
Definition engine_relevant (A : api) (cluster : list Engine) (k : object_kind) (e : event) (nn : NamespacedName) : Prop :=
  match k with
  | KEngine => new_generation e /\ exists o, o ∈ event_objects e /\ nn = object_name o
  | KWasmPlugin => exists o, o ∈ event_objects e /\ nn ∈ owner_requests o
  | KGateway => exists o, o ∈ event_objects e /\ engines_of cluster targets_gateway o nn
  | KRuleSet => exists o, o ∈ event_objects e /\ engines_of cluster names_ruleset o nn
  | KPod => has_label gatewayNameLabel e /\ exists o, o ∈ event_objects e /\ engines_of cluster (selects_pod A) o nn
  | KNetworkPolicy => policy_event e /\ exists o, o ∈ event_objects e /\ nn ∈ findEnginesForNetworkPolicy (Labels o)
  | _ => False
  end.

(** The API lists the Engines of a namespace. *)
Definition lists_engines (A : api) (cluster : list Engine) : Prop :=
  forall tr ns, exists items, list_Engines A tr ns = inr items /\
    forall en, en ∈ items <-> en ∈ cluster /\ Namespace (e_Meta en) = ns.

Lemma findEngines_requests A cluster (match_ : Engine -> ObjectMeta -> bool) o : lists_engines A cluster ->
  requests (findEngines A (Namespace o) (fun en => match_ en o)) (engines_of cluster match_ o).
Proof.
  intros HA w. unfold findEngines, attempt, call, mbind, prog_bind.
  destruct (HA (w_trace w) (Namespace o)) as (items & -> & Hi). eexists _, _. split; [reflexivity|].
  intros nn. unfold collectRequests. rewrite list_elem_of_fmap. unfold engines_of. split.
  - intros (en & -> & [Hm Hin]%list_elem_of_filter). apply Hi in Hin as []. by exists en.
  - intros (en & ? & ? & ? & ->). exists en. split; [done|]. apply list_elem_of_filter. split; [done|]. by apply Hi.
Qed.

End theorems.

(** ** Witnesses: predicates as documented, one RuleSet and one Engine *)

#[export] Instance documented_runtime : ControllerRuntime.
Proof.
  refine {|
  from_funcs f e := match e with
                    | Create o => CreateFunc f o
                    | Update old new => UpdateFunc f old new
                    | Delete o => DeleteFunc f o
                    | Generic o => GenericFunc f o
                    end;
  GenerationChangedPredicate e := match e with
                                  | Update (Some old) (Some new) => negb (Generation old =? Generation new)
                                  | Update _ _ => false
                                  | _ => true
                                  end;
  NewPredicateFuncs f e := match e with
                           | Create o | Delete o | Generic o => f o
                           | Update _ (Some new) => f new
                           | Update _ None => false
                           end;
  And ps e := forallb (fun p => p e) ps;
  Or ps e := existsb (fun p => p e) ps;
  owner_requests _ := []
|}.
  - by intros f [].
  - done.
  - intros [o|old new|o|o] He; [done| |done|done]. by destruct (He old new).
  - by intros f [o|old [n|]|o|o].
  - done.
  - done.
Defined.

(** The listing through the indexes, computed on a cluster. *)
Definition list_indexed (cluster : list RuleSet) (ns key v : string) : gerror + list RuleSet :=
  inr (filter (fun rs => Namespace (rs_Meta rs) = ns /\
         v ∈ (if String.eqb key "spec.sources.name" then sources_index rs else data_index rs)) cluster).

Lemma list_indexed_sources cluster : indexed cluster (list_indexed cluster) "spec.sources.name" sources_index.
Proof. intros ns v. eexists. split; [done|]. intros rs. rewrite list_elem_of_filter. simpl. naive_solver. Qed.

Lemma list_indexed_data cluster : indexed cluster (list_indexed cluster) "spec.data.name" data_index.
Proof. intros ns v. eexists. split; [done|]. intros rs. rewrite list_elem_of_filter. simpl. naive_solver. Qed.

(** A change of the source [a] enqueues the sample RuleSet. *)
Lemma ruleset_events_exact_witness : exists w' l,
  enqueued (ruleset_setup (list_indexed [sample_ruleset])) KRuleSource
    (Update (Some (sample_meta "ns" "a")) (Some (sample_meta "ns" "a"))) empty_world = (w', inr l) /\
  {| nn_Namespace := "ns"; nn_Name := "rs" |} ∈ l.
Proof.
  set (e := Update (Some (sample_meta "ns" "a")) (Some (sample_meta "ns" "a"))).
  assert (He : complete e) by (split; by eexists).
  destruct (ruleset_events_exact [sample_ruleset] (list_indexed [sample_ruleset]) KRuleSource e
              (list_indexed_sources _) (list_indexed_data _) He empty_world) as (w' & l & E & Hl).
  exists w', l. split; [exact E|]. apply Hl. exists (sample_meta "ns" "a"), sample_ruleset.
  split_and!; [by left|by left|done|by left|done].
Defined.

