(* ===== verification/System.v ===== *)
(** * The operator as one system

    The two controllers and the cache server of one process, on one cluster and
    one cache: a state is the controllers' world and the server's; an event is a
    reconciliation of either controller, or a step of the server (a request, a
    collection, one of its goroutines).  Events come in any order, and a
    reconciliation publishes what it put in the cache.  A reconciliation is one
    event: it puts in the cache at most once, so it commutes with what the server
    does before and after its [Put]. *)
From S2P Require Import Prelude GoLib GoErrors RulesetCache RulesetCacheSpec TokenAuth CacheServer CacheLifecycle MemFS KubeApi Status EngineController RuleSetController EngineNetwork EngineToken.

Record operator := {
  op_world : world;
  op_server : lifecycle
}.

Inductive operator_event :=
(** the controllers; [stamp] gives the UUID and the time of what is stored *)
| ReconcileRuleSet (req : NamespacedName) (stamp : nat -> string * Z)
| ReconcileEngine (req : NamespacedName)
| Server (ev : lifecycle_event).

Section system.
Context `{ApiMeta} (A : api) (range_order : gmap string string -> list string)
  (r : EngineReconciler) (format_time : Z -> string) (marshal_time : Z -> gerror + string).

(** The effects added to a trace. *)
Definition new_effects (w w' : world) : list effect := drop (length (w_trace w)) (w_trace w').

(** An event, the state after it and the operations it made on the cache; [None]
    when it cannot happen.  Only the controllers publish. *)
Definition operator_step (ev : operator_event) (op : operator) : option (operator * list cache_op) :=
  match ev with
  | ReconcileRuleSet req stamp =>
      let w := (Reconcile A range_order req (op_world op)).1 in
      let ops := cache_ops stamp 0 (new_effects (op_world op) w) in
      st ← lifecycle_step format_time marshal_time (Publish ops) (op_server op);
      Some ({| op_world := w; op_server := st |}, ops)
  | ReconcileEngine req =>
      Some ({| op_world := (EngineController.Reconcile A r req (op_world op)).1; op_server := op_server op |}, [])
  | Server ev =>
      let next ops :=
        st ← lifecycle_step format_time marshal_time ev (op_server op);
        Some ({| op_world := op_world op; op_server := st |}, ops) in
      match ev with
      | Publish _ => None
      | Handle x => if bool_decide (length (x_ops x) = 0%nat) then next [] else None
      | GcTick now order order' =>
          let gc := srv_gc (lc_server (op_server op)) in
          next [OpPrune order now (MaxAge gc); OpPruneBySize order' (MaxSize gc)]
      | _ => next []
      end
  end.

Fixpoint operator_run (evs : list operator_event) (op : operator) : option (operator * list cache_op) :=
  match evs with
  | [] => Some (op, [])
  | ev :: evs =>
      '(op, ops) ← operator_step ev op;
      '(op, ops') ← operator_run evs op;
      Some (op, ops ++ ops')
  end.

(** The requests handled, in order. *)
Definition handled (evs : list operator_event) : list exchange :=
  omap (fun ev => match ev with Server (Handle x) => Some x | _ => None end) evs.

Definition operator_start (w : world) (gc : option GarbageCollectionConfig) (k : gc_metrics) : operator :=
  {| op_world := w; op_server := lifecycle_start (NewServer NewRuleSetCache gc) k |}.

(** ** Lemmas *)

(** What is put in the cache: the rules of the sources a RuleSet names, joined
    in its order, accepted together with the merged files of its data. *)
Definition justified (key rules : string) (df : option (gmap string string)) : Prop :=
  exists rs rds frags, key = ruleset_key rs /\
    Forall2 (fetched_data A rs) (Data (rs_Spec rs)) rds /\
    Forall2 (fetched_source A rs) (Sources (rs_Spec rs)) frags /\
    rules = Join (frag_rules <$> frags) (String nl "") /\
    df = match rds with [] => None | _ => Some (merge_data ∅ rds) end /\
    accepted A range_order rs rules df.

Lemma Reconcile_puts req w key rules df :
  EffPut key rules df ∈ new_effects w (Reconcile A range_order req w).1 -> justified key rules df.
Proof.
  unfold new_effects. destruct (Reconcile_post A range_order req w) as (l & -> & Hl).
  rewrite drop_app_length. intros Hin.
  destruct Hl as [Hl|(rs & rds & frags & Hd & Hs & l1 & l2 & -> & Hl1 & Hl2 & Hacc & _)].
  - rewrite Forall_forall in Hl. by specialize (Hl _ Hin).
  - rewrite Forall_forall in Hl1. rewrite Forall_forall in Hl2.
    apply elem_of_app in Hin as [Hin|[Hin|Hin]%elem_of_cons].
    + by specialize (Hl1 _ Hin).
    + injection Hin as -> -> ->. by exists rs, rds, frags.
    + by specialize (Hl2 _ Hin).
Qed.

Lemma cache_ops_puts stamp n tr op : op ∈ cache_ops stamp n tr ->
  exists uuid t key rules df, op = OpPut uuid t key rules df /\ EffPut key rules df ∈ tr.
Proof.
  revert n. induction tr as [|e tr IH]; intros n Hin; [by apply not_elem_of_nil in Hin|].
  destruct e; simpl in Hin; 
    try (apply IH in Hin as (u1 & t1 & k1 & r1 & d1 & -> & Hin); exists u1, t1, k1, r1, d1; split; [done|by right]).
  apply elem_of_cons in Hin as [->|Hin].
  - eexists _, _, _, _, _. split; [done|by left].
  - apply IH in Hin as (u1 & t1 & k1 & r1 & d1 & -> & Hin). exists u1, t1, k1, r1, d1. split; [done|by right].
Qed.

(** The operations of the controllers and of the collector. *)
Definition op_justified (op : cache_op) : Prop :=
  match op with OpPut _ _ key rules df => justified key rules df | _ => True end.

Lemma operator_step_justified ev op op' ops :
  operator_step ev op = Some (op', ops) -> Forall op_justified ops.
Proof.
  destruct ev as [req stamp|req|ev]; cbn [operator_step].
  - intros Hs. apply bind_Some in Hs as (st & _ & [= _ <-]). apply Forall_forall. intros o Ho.
    apply cache_ops_puts in Ho as (u & t & key & rules & df & -> & Hin). by eapply Reconcile_puts.
  - by intros [= _ <-].
  - destruct ev; try done; intros Hs; try case_bool_decide; try done;
      apply bind_Some in Hs as (st & _ & [= _ <-]); by repeat constructor.
Qed.

Lemma operator_run_justified evs op op' ops :
  operator_run evs op = Some (op', ops) -> Forall op_justified ops.
Proof.
  revert op ops. induction evs as [|ev evs IH]; intros op ops; cbn [operator_run]; [by intros [= _ <-]|].
  intros Hr. apply bind_Some in Hr as ([op1 ops1] & Hs & Hr). apply bind_Some in Hr as ([op2 ops2] & Hr & [= <- <-]).
  apply Forall_app. split; [by eapply operator_step_justified|by eapply IH].
Qed.

Lemma run_spec_justified ops m key e :
  (forall k e, m !! k = Some e -> exists rules df uuid t, justified k rules df /\ e = newEntry uuid t rules df) ->
  Forall op_justified ops -> run_spec ops m !! key = Some e ->
  exists rules df uuid t, justified key rules df /\ e = newEntry uuid t rules df.
Proof.
  revert m. induction ops as [|op ops IH]; intros m Hm Hops He; simpl in He; [by apply Hm|].
  apply Forall_cons in Hops as [Hop Hops]. eapply (IH (spec_op op m)); [|done|done].
  destruct op as [u t k rules df|?|?]; simpl; [|done|done].
  intros k' e' [[-> <-]|[_ Hk]]%lookup_insert_Some; [|by apply Hm]. by exists rules, df, u, t.
Qed.

(** *** The server of a run is the server of a history of exchanges *)

Lemma publish_app ops ops' s : publish ops' (publish ops s) = publish (ops ++ ops') s.
Proof. unfold publish. simpl. by rewrite run_ops_app. Qed.

Lemma tick_server_publish now order order' s k :
  (tick_server now order order' s k).1 =
    publish [OpPrune order now (MaxAge (srv_gc s)); OpPruneBySize order' (MaxSize (srv_gc s))] s.
Proof.
  unfold tick_server, publish. pose proof (gc_tick_cache (srv_gc s) now order order' (srv_cache s) k) as Hc.
  destruct (gc_tick _ _ _ _ _ _) as [c k']; simpl in *. by rewrite Hc.
Qed.

Lemma operator_step_server ev op op' ops : operator_step ev op = Some (op', ops) ->
  match ev with
  | Server (Handle x) => x_ops x = [] /\ ops = [] /\
      lc_server (op_server op') = (exec_exchange format_time marshal_time x (lc_server (op_server op))).1
  | _ => lc_server (op_server op') = publish ops (lc_server (op_server op))
  end.
Proof.
  assert (Hnil : forall s, publish [] s = s) by by intros [].
  destruct ev as [req stamp|req|ev]; cbn [operator_step].
  - intros [= <- <-]. done.
  - intros [= <- <-]. by rewrite Hnil.
  - destruct ev; try done; try (intros Hs; apply bind_Some in Hs as (st & Hst & [= <- <-]); simpl in Hst |- *;
      repeat case_match; simplify_eq/=; by rewrite Hnil).
    + intros Hs. apply bind_Some in Hs as (st & Hst & [= <- <-]). simpl in Hst |- *.
      destruct (lc_gc _); [|done].
      pose proof (tick_server_publish now order order' (lc_server (op_server op)) (lc_metrics (op_server op))) as Ht.
      destruct (tick_server _ _ _ _ _); by simplify_eq/=.
    + case_bool_decide as Hx; [|done]. apply nil_length_inv in Hx. intros Hs.
      apply bind_Some in Hs as (st & Hst & [= <- <-]). simpl in Hst |- *.
      repeat case_match; by simplify_eq/=.
Qed.

(** An exchange but for the operations before it. *)
Definition same_request (y x : exchange) : Prop :=
  x_review y = x_review x /\ x_env y = x_env x /\ x_req y = x_req x.

Definition with_ops (ops : list cache_op) (x : exchange) : exchange :=
  {| x_ops := ops; x_review := x_review x; x_env := x_env x; x_req := x_req x |}.

Lemma exec_with_ops ops x s : x_ops x = [] ->
  exec_exchange format_time marshal_time x (publish ops s) =
  exec_exchange format_time marshal_time (with_ops ops x) s.
Proof. intros Hx. unfold exec_exchange. simpl. rewrite Hx, publish_app. by rewrite app_nil_r. Qed.

Lemma run_exchanges_app l l' s :
  run_exchanges format_time marshal_time (l ++ l') s =
  run_exchanges format_time marshal_time l' (run_exchanges format_time marshal_time l s).
Proof. revert s. induction l as [|x l IH]; intros s; simpl; auto. Qed.

Lemma operator_run_server s0 evs op op' ops hist pend :
  lc_server (op_server op) = publish pend (run_exchanges format_time marshal_time hist s0) ->
  operator_run evs op = Some (op', ops) ->
  exists hist' pend',
    lc_server (op_server op') = publish pend' (run_exchanges format_time marshal_time (hist ++ hist') s0) /\
    history_ops hist' ++ pend' = pend ++ ops /\ Forall2 same_request hist' (handled evs).
Proof.
  revert op ops hist pend. induction evs as [|ev evs IH]; intros op ops hist pend Hop; cbn [operator_run].
  { intros [= -> <-]. exists [], pend. rewrite !app_nil_r. split_and!; [done|done|constructor]. }
  intros Hr. apply bind_Some in Hr as ([op1 ops1] & Hs & Hr). apply bind_Some in Hr as ([op2 ops2] & Hr & [= <- <-]).
  apply operator_step_server in Hs. rewrite app_assoc.
  destruct (match ev with Server (Handle x) => Some x | _ => None end) as [x|] eqn:Hev.
  - destruct ev as [| |[]]; try done. injection Hev as ->. destruct Hs as (Hx & -> & Hs).
    rewrite app_nil_r. rewrite Hop, exec_with_ops in Hs by done.
    destruct (IH op1 ops2 (hist ++ [with_ops pend x]) []) as (hist' & pend' & Hs2 & Hops & Hh); [|done|].
    { rewrite run_exchanges_app. simpl. rewrite Hs. by destruct (exec_exchange _ _ _ _).1. }
    exists (with_ops pend x :: hist'), pend'. split_and!.
    + by rewrite <- app_assoc in Hs2.
    + change (history_ops (with_ops pend x :: hist')) with (pend ++ history_ops hist').
      rewrite <- app_assoc. f_equal. exact Hops.
    + simpl. constructor; [by split_and!|done].
  - assert (handled (ev :: evs) = handled evs) as ->. { unfold handled. simpl. by rewrite Hev. }
    apply (IH op1 ops2 hist (pend ++ ops1)); [|done]. rewrite <- publish_app, <- Hop.
    destruct ev as [| |[]]; done.
Qed.

(** A request answered with 200: who asked, and what was sent. *)
Lemma operator_exchange_ok (w : world) gc k evs op ops x :
  (forall y token audiences status, y ∈ handled evs ++ [x] ->
     x_review y token audiences = inr status -> byte_in ":" token = false) ->
  operator_run evs (operator_start w gc k) = Some (op, ops) -> x_ops x = [] ->
  run_allowed ops NewRuleSetCache ->
  let resp := (exec_exchange format_time marshal_time x (lc_server (op_server op))).2 in
  let key := requestKey (x_req x) in
  let token := extractBearerToken (x_req x) in
  byte_in ":" token = false -> StatusCode resp = StatusOK ->
  Method (x_req x) = "GET" /\
  (exists y ns rest name status, key = ns +:+ String "/" rest /\ y ∈ handled evs ++ [x] /\
     (y = x \/ t_lookup (x_env x) < t_store (x_env y) + defaultAuthCacheTTL) /\
     x_review y token [Audience key] = inr status /\ Authenticated status = true /\
     Username status = serviceAccountPrefix +:+ ns +:+ ":" +:+ name) /\
  (exists entry body, run_spec ops ∅ !! key = Some entry /\
     serve format_time marshal_time (route (TrimPrefix (Path (x_req x)) "/rules/")).2 entry = inr body /\
     resp = json_response body).
Proof.
  intros Hjwt Hr Hx Hallowed resp key token Htok Hok.
  destruct (operator_run_server (NewServer NewRuleSetCache gc) evs (operator_start w gc k) op ops [] [])
    as (hist & pend & Hs & Hops & Hh); [done|done|]. simpl in Hops, Hs.
  set (x' := with_ops pend x).
  assert (Hall : history_ops (hist ++ [x']) = ops).
  { rewrite history_ops_app, <- Hops. f_equal. unfold history_ops. simpl. by rewrite app_nil_r. }
  assert (Hhx : Forall2 same_request (hist ++ [x']) (handled evs ++ [x])).
  { apply Forall2_app; [done|]. constructor; [by split_and!|constructor]. }
  unfold resp in *. rewrite Hs, exec_with_ops in * by done. fold x' in Hok |- *.
  destruct (exchange_ok format_time marshal_time gc hist x') as (Hm & Hauth & entry & body & He & Hserve & Hresp);
    [| |done|done|].
  - intros y tok aud status Hy Hst. apply list_elem_of_lookup in Hy as [i Hi].
    destruct (Forall2_lookup_l _ _ _ _ _ Hhx Hi) as (y' & Hi' & Hrev & _).
    rewrite Hrev in Hst. eapply Hjwt; [by eapply list_elem_of_lookup_2|done].
  - by rewrite Hall.
  - split; [done|]. split.
    + destruct Hauth as (y & ns & rest & name & status & Hk & Hy & Htime & Hst & Hau & Hu).
      apply list_elem_of_lookup in Hy as [i Hi].
      destruct (Forall2_lookup_l _ _ _ _ _ Hhx Hi) as (y' & Hi' & Hrev & Henv & _).
      destruct Htime as [->|Htime].
      * exists x, ns, rest, name, status. split_and!; try done; [|by left]. apply elem_of_app. right. by left.
      * exists y', ns, rest, name, status. rewrite Hrev in Hst. rewrite Henv in Htime.
        split_and!; try done; [by eapply list_elem_of_lookup_2|by right].
    + rewrite Hall in He. by exists entry, body.
Qed.

(** ** The property *)

End system.

(** ** A run of the operator

    The sample RuleSet is reconciled, a client reads it, a collection runs. *)
Definition sample_reconciler : EngineReconciler := EngineController.sample_reconciler.

Definition system_request (path : string) (t : Z) : exchange :=
  {| x_ops := []; x_review := jwt_reviewer; x_env := sample_env t; x_req := sample_request path |}.

Definition system_events : list operator_event :=
  [Server HttpListens; ReconcileRuleSet (object_name (rs_Meta sample_ruleset)) (fun n => (Itoa (Z.of_nat n), 1));
   Server (Handle (system_request "/rules/ns/rs/latest" 5));
   ReconcileEngine (object_name (rs_Meta sample_ruleset)); Server (GcTick 10 ["ns/rs"] ["ns/rs"])].

Definition system_run : option (operator * list cache_op) :=
  operator_run (H := list_ApiMeta) sample_cluster sample_order sample_reconciler Itoa sample_marshal
    system_events (operator_start empty_world None sample_counters).

(** The API server vouches for the token [jwt] only. *)
Lemma system_jwt y token audiences status :
  y ∈ handled system_events ++ [system_request "/rules/ns/rs" 20] ->
  x_review y token audiences = inr status -> byte_in ":" token = false.
Proof.
  intros Hy Hst. assert (x_review y = jwt_reviewer) as Hrev.
  { change (y ∈ [system_request "/rules/ns/rs/latest" 5; system_request "/rules/ns/rs" 20]) in Hy.
    rewrite !elem_of_cons in Hy. destruct Hy as [->|[->|Hy]]; [done..|]. by apply not_elem_of_nil in Hy. }
  rewrite Hrev in Hst. unfold jwt_reviewer in Hst. destruct (String.eqb_spec token "jwt"); [by subst|done].
Qed.

