(* ===== verification/Serving.v ===== *)
(** * Every good RuleSet is served

    [System] shows that nothing but accepted rules is served; this file shows
    that they are.  A RuleSet is settled when, from some trace of calls on, the
    cluster keeps answering with it, with its sources and data, and Coraza accepts
    the rules.  Its reconciliation then stores them, nothing that happens later
    takes them back, and an authorised request gets them. *)
From S2P Require Import Prelude GoLib GoErrors RulesetCache RulesetCacheSpec TokenAuth CacheServer CacheLifecycle MemFS Unsupported KubeApi Status EngineController RuleSetController EngineNetwork EngineToken System.

(** ** What programs yield from a trace on *)

(** [m] ends without an error and stores nothing, once the calls [tr] were made. *)
Definition yields {X} (tr : list effect) (m : prog X) (P : X -> Prop) : Prop :=
  forall w, tr `prefix_of` w_trace w ->
    exists w' x l, m w = (w', inr x) /\ w_trace w' = w_trace w ++ l /\ Forall no_put l /\ P x.

(** [m] stores exactly the given rules, whether it ends with an error or not. *)
Definition stores_once {X} (tr : list effect) (m : prog X) (key rules : string)
    (df : option (gmap string string)) : Prop :=
  forall w, tr `prefix_of` w_trace w ->
    exists l l', w_trace (m w).1 = w_trace w ++ l ++ EffPut key rules df :: l' /\
      Forall no_put l /\ Forall no_put l'.

Lemma yields_ret {X} tr (x : X) (P : X -> Prop) : P x -> yields tr (mret x) P.
Proof. intros Hx w _. exists w, x, []. by rewrite app_nil_r. Qed.

Lemma yields_bind {X Y} tr (m : prog X) (k : X -> prog Y) P Q :
  yields tr m P -> (forall x, P x -> yields tr (k x) Q) -> yields tr (m ≫= k) Q.
Proof.
  intros Hm Hk w Hw. destruct (Hm w Hw) as (w1 & x & l1 & Hr & Ht & Hn & Hx).
  destruct (Hk x Hx w1) as (w2 & y & l2 & Hr2 & Ht2 & Hn2 & Hy); [rewrite Ht; by apply prefix_app_r|].
  exists w2, y, (l1 ++ l2). rewrite prog_bind_eq, Hr, Ht2, Ht, app_assoc.
  split_and!; [done|done|by apply Forall_app|done].
Qed.

Lemma stores_bind {X Y} tr (m : prog X) (k : X -> prog Y) P key rules df :
  yields tr m P -> (forall x, P x -> stores_once tr (k x) key rules df) -> stores_once tr (m ≫= k) key rules df.
Proof.
  intros Hm Hk w Hw. destruct (Hm w Hw) as (w1 & x & l1 & Hr & Ht & Hn & Hx).
  destruct (Hk x Hx w1) as (l2 & l' & Ht2 & Hn2 & Hn'); [rewrite Ht; by apply prefix_app_r|].
  exists (l1 ++ l2), l'. rewrite prog_bind_eq, Hr, Ht2, Ht, <- !app_assoc.
  split_and!; [done|by apply Forall_app|done].
Qed.

Lemma yields_get {X} tr (f : list effect -> gerror + X) e (P : X -> Prop) :
  no_put e -> (forall tr', tr `prefix_of` tr' -> exists x, f tr' = inr x /\ P x) ->
  yields tr (attempt (call f e)) (fun r => exists x, r = inr x /\ P x).
Proof.
  intros He Hf w Hw. destruct (Hf _ Hw) as (x & Hx & HP). exists (log_effect e w), (inr x), [e].
  unfold attempt, call. rewrite Hx. split_and!; [done|done|by constructor|by exists x].
Qed.

(** ** Settled RuleSets *)

Definition same_object (rs' rs : RuleSet) : Prop := rs_Meta rs' = rs_Meta rs /\ rs_Spec rs' = rs_Spec rs.

Definition rules_of (srcs : list RuleSource) : string := Join (rsrc_Rules <$> srcs) (String nl "").
Definition files_of (rds : list RuleData) : option (gmap string string) :=
  match rds with [] => None | _ => Some (merge_data ∅ rds) end.

Section settled.
Context `{ApiMeta} (A : api) (range_order : gmap string string -> list string).

Record settled (tr : list effect) (rs : RuleSet) (srcs : list RuleSource) (rds : list RuleData) : Prop := {
  settled_RuleSet tr' : tr `prefix_of` tr' ->
    exists rs', get_RuleSet A tr' (object_name (rs_Meta rs)) = inr rs' /\ same_object rs' rs;
  settled_patch tr' o : tr `prefix_of` tr' -> same_object o rs ->
    exists o', patch_RuleSet_status A tr' o = inr o' /\ same_object o' rs;
  settled_sources : Forall2 (fun ref s => forall tr', tr `prefix_of` tr' ->
    get_RuleSource A tr' (in_namespace_of rs (src_Name ref)) = inr s) (Sources (rs_Spec rs)) srcs;
  settled_data : Forall2 (fun ref rd => forall tr', tr `prefix_of` tr' ->
    get_RuleData A tr' (in_namespace_of rs (data_Name ref)) = inr rd) (Data (rs_Spec rs)) rds;
  settled_accepted t :
    NewWAF A (rules_of srcs) (getDataFilesystem t (range_order (default ∅ (files_of rds))) (files_of rds)) = None;
  settled_supported : CheckUnsupportedRules (rules_of srcs) = [] \/
    Annotations (rs_Meta rs) !! AnnotationSkipUnsupportedRulesCheck = Some "true"
}.

Lemma settled_later tr tr' rs srcs rds : tr `prefix_of` tr' -> settled tr rs srcs rds -> settled tr' rs srcs rds.
Proof.
  intros Hp Hs. assert (Ht : forall t, tr' `prefix_of` t -> tr `prefix_of` t) by (intros t; by etrans).
  split; intros; try (by eapply Hs; eauto).
  - eapply Forall2_impl; [apply Hs|]. auto.
  - eapply Forall2_impl; [apply Hs|]. auto.
Qed.

(** ** What the reconciliation of a settled RuleSet stores *)

Lemma loadData_loop_yields tr rs refs rds acc :
  Forall2 (fun ref rd => forall tr', tr `prefix_of` tr' ->
    get_RuleData A tr' (in_namespace_of rs (data_Name ref)) = inr rd) refs rds ->
  yields tr (loadData_loop A rs refs acc) (fun d => d = Continue (Some (merge_data acc rds))).
Proof.
  intros Hf. revert acc. induction Hf as [|ref rd refs rds Hg Hf IH]; intros acc; simpl; [by apply yields_ret|].
  eapply yields_bind; [apply (yields_get _ _ _ (fun x => x = rd)); [done|by eauto]|].
  intros ? (x & -> & ->). apply (IH (rd_Files rd ∪ acc)).
Qed.

Lemma loadSources_loop_yields tr rs refs srcs acc :
  Forall2 (fun ref s => forall tr', tr `prefix_of` tr' ->
    get_RuleSource A tr' (in_namespace_of rs (src_Name ref)) = inr s) refs srcs ->
  yields tr (loadSources_loop A rs refs acc) (fun s => exists frags, s = Continue frags /\
    frag_rules <$> frags = (frag_rules <$> acc) ++ (rsrc_Rules <$> srcs)).
Proof.
  intros Hf. revert acc. induction Hf as [|ref s refs srcs Hg Hf IH]; intros acc; simpl.
  { apply yields_ret. exists acc. by rewrite app_nil_r. }
  eapply yields_bind; [apply (yields_get _ _ _ (fun x => x = s)); [done|by eauto]|].
  intros ? (x & -> & ->). intros w Hw.
  match goal with |- context [loadSources_loop A rs refs ?acc' w] =>
    destruct (IH acc' w Hw) as (w' & y & l & Hr & Ht & Hn & frags & -> & Hfr) end.
  exists w', (Continue frags), l. split_and!; [exact Hr|done|done|]. exists frags. split; [done|].
  by rewrite Hfr, fmap_app, <- app_assoc.
Qed.

Section one.
Context (tr : list effect) (rs : RuleSet) (srcs : list RuleSource) (rds : list RuleData)
  (Hs : settled tr rs srcs rds).

Lemma initializeStatus_yields o : same_object o rs ->
  yields tr (initializeStatus A o) (fun o' => same_object o' rs).
Proof.
  intros Ho. unfold initializeStatus. destruct (FindStatusCondition _ _); [by apply yields_ret|]. intros w Hw.
  match goal with |- context [patch_conditions A ?ap o w] =>
    pose proof (patch_conditions_run A ap o w) as Hrun;
    destruct (settled_patch _ _ _ _ Hs (w_trace w) (so_with_conditions (ap (so_conditions o) (now A (w_trace w))) o))
      as (o' & Ho' & Hso) end; [done|by destruct Ho|].
  simpl in Hrun, Ho'. rewrite Ho' in Hrun. rewrite Hrun. eexists _, o', [_; _]. unfold log_effect; simpl.
  rewrite <- app_assoc. split_and!; [reflexivity|done|by repeat constructor|done].
Qed.

Lemma loadData_yields o : same_object o rs ->
  yields tr (loadData A o) (fun d => d = Continue (files_of rds)).
Proof.
  intros [Hm Hsp]. unfold loadData, files_of. rewrite Hsp. pose proof (settled_data _ _ _ _ Hs) as Hd.
  destruct Hd as [|ref rd refs rds' Hg Hd]; [by apply yields_ret|].
  apply loadData_loop_yields. unfold in_namespace_of in *. rewrite Hm. by constructor.
Qed.

Lemma loadSources_yields o df : same_object o rs ->
  yields tr (loadSources A o df) (fun s => exists errs, s = Continue (rules_of srcs, errs)).
Proof.
  intros [Hm Hsp]. unfold loadSources. rewrite Hsp. eapply yields_bind.
  { apply loadSources_loop_yields. pose proof (settled_sources _ _ _ _ Hs) as Hf.
    unfold in_namespace_of in *. rewrite Hm. exact Hf. }
  intros s (frags & -> & Hfr). apply yields_ret. rewrite aggregate_loop_acc, Hfr. by eexists.
Qed.

Lemma validate_and_cache_stores o errs : same_object o rs ->
  stores_once tr (validate_and_cache A range_order o (files_of rds) (rules_of srcs) errs)
    (ruleset_key rs) (rules_of srcs) (files_of rds).
Proof.
  intros [Hm Hsp]. unfold validate_and_cache.
  eapply (stores_bind _ _ _ (fun _ => True)).
  { intros w _. eexists w, _, []. rewrite app_nil_r. by split_and!. }
  intros t _. eapply (stores_bind _ _ _ (fun _ => True)).
  { unfold validateAggregatedRules. rewrite (settled_accepted _ _ _ _ Hs t). by apply yields_ret. }
  intros _ _. eapply (stores_bind _ _ _ (fun p => p.1 = false)).
  { unfold rejectUnsupportedRules.
    destruct (CheckUnsupportedRules (rules_of srcs)) as [|u us] eqn:Hu; [by apply yields_ret|].
    destruct (settled_supported _ _ _ _ Hs) as [Hn|Ha]; [congruence|]. rewrite Hm, Ha. simpl.
    intros w _. eexists _, _, [_]. split_and!; [reflexivity|reflexivity|by repeat constructor|done]. }
  intros [b msg] Hb. simpl in Hb. subst b. simpl. intros w _.
  destruct (cacheRules_post A o (rules_of srcs) (files_of rds) msg w) as (l & Hl & l2 & -> & Hn & _).
  exists [], l2. rewrite Hl. unfold ruleset_key. rewrite Hm. by split_and!.
Qed.

Lemma Reconcile_stores :
  stores_once tr (Reconcile A range_order (object_name (rs_Meta rs)))
    (ruleset_key rs) (rules_of srcs) (files_of rds).
Proof.
  unfold Reconcile. eapply stores_bind.
  { apply (yields_get _ _ _ (fun o => same_object o rs)); [done|]. apply Hs. }
  intros ? (o & -> & Ho). eapply stores_bind; [by apply initializeStatus_yields|].
  intros o' Ho'. eapply stores_bind; [by apply loadData_yields|].
  intros ? ->. eapply stores_bind; [by apply loadSources_yields|].
  intros ? (errs & ->). by apply validate_and_cache_stores.
Qed.
End one.
End settled.

(** ** What other reconciliations store *)

(** Everything stored is stored under this key. *)
Definition puts_under (key : string) (e : effect) : Prop :=
  match e with EffPut k _ _ => k = key | _ => True end.

(** Names as the API server gives them: an object is found under its own name,
    a patch leaves it there, and a namespace is a DNS label. *)
Record named (A : api) : Prop := {
  named_get tr nn rs : get_RuleSet A tr nn = inr rs -> object_name (rs_Meta rs) = nn;
  named_patch tr o o' : patch_RuleSet_status A tr o = inr o' ->
    object_name (rs_Meta o') = object_name (rs_Meta o);
  named_label tr nn rs : get_RuleSet A tr nn = inr rs ->
    byte_in "/" (nn_Namespace nn) = false /\ byte_in ":" (nn_Namespace nn) = false
}.

Definition name_key (nn : NamespacedName) : string := nn_Namespace nn +:+ "/" +:+ nn_Name nn.

Lemma name_key_inj nn nn' :
  byte_in "/" (nn_Namespace nn) = false -> byte_in "/" (nn_Namespace nn') = false ->
  name_key nn = name_key nn' -> nn = nn'.
Proof.
  intros H1 H2 Heq. assert (Hc : forall x, byte_in "/" (nn_Namespace x) = false ->
    Cut (name_key x) "/" = Some (nn_Namespace x, nn_Name x)) by (intros x Hx; by apply Cut_byte).
  pose proof (Hc nn H1) as Hc1. rewrite Heq, (Hc nn' H2) in Hc1. destruct nn, nn'; simpl in *. by simplify_eq.
Qed.

Section others.
Context `{ApiMeta} (A : api) (range_order : gmap string string -> list string) (Hnamed : named A).

Lemma no_puts_under {X} key (m : prog X) : adds no_put m -> adds (puts_under key) m.
Proof. apply adds_mono. by intros []. Qed.

Lemma post_no_puts_under {X} key (m : prog X) (Q : list effect -> list effect -> gerror + X -> Prop) :
  post m (fun tr l r => Forall no_put l /\ Q tr l r) -> adds (puts_under key) m.
Proof. intros Hm. apply no_puts_under. intros w. destruct (Hm w) as (l & ? & ? & _). by exists l. Qed.

Lemma stores_under o rules df l :
  Forall no_put l \/ stores A range_order o rules df l -> Forall (puts_under (ruleset_key o)) l.
Proof.
  assert (Hn : forall l, Forall no_put l -> Forall (puts_under (ruleset_key o)) l).
  { intros l' Hl. eapply Forall_impl; [exact Hl|]. by intros []. }
  intros [Hl|(l1 & l2 & -> & H1 & H2 & _)]; [by apply Hn|].
  apply Forall_app. split; [by apply Hn|]. constructor; [done|by apply Hn].
Qed.

Lemma load_and_cache_under o :
  adds (puts_under (ruleset_key o))
    (d ← loadData A o;
     match d with
     | Done => mret no_requeue
     | Continue dataFiles =>
         s ← loadSources A o dataFiles;
         match s with
         | Done => mret no_requeue
         | Continue (rules, errs) => validate_and_cache A range_order o dataFiles rules errs
         end
     end).
Proof.
  apply adds_bind; [eapply post_no_puts_under, (loadData_post A)|]. intros [|df]; [apply adds_ret|].
  apply adds_bind; [eapply post_no_puts_under, (loadSources_post A)|]. intros [|[rules errs]]; [apply adds_ret|].
  intros w. destruct (validate_and_cache_post A range_order o df rules errs w) as (l & ? & Hl).
  exists l. split; [done|by eapply stores_under].
Qed.

Lemma initializeStatus_name o w o' : (initializeStatus A o w).2 = inr o' ->
  object_name (rs_Meta o') = object_name (rs_Meta o).
Proof.
  unfold initializeStatus. destruct (FindStatusCondition _ _); [by intros [= <-]|].
  match goal with |- context [patch_conditions A ?ap o w] => pose proof (patch_conditions_run A ap o w) as Hrun end.
  simpl in Hrun. destruct (patch_RuleSet_status A _ _) as [e|o1] eqn:Hp; rewrite Hrun; simpl; [done|].
  intros [= <-]. by apply (named_patch _ Hnamed) in Hp.
Qed.

Lemma Reconcile_under req w :
  Forall (puts_under (name_key req)) (new_effects w (Reconcile A range_order req w).1) /\
  (byte_in "/" (nn_Namespace req) = false \/ Forall no_put (new_effects w (Reconcile A range_order req w).1)) /\
  w_trace w `prefix_of` w_trace (Reconcile A range_order req w).1.
Proof.
  enough (exists l, w_trace (Reconcile A range_order req w).1 = w_trace w ++ l /\
    Forall (puts_under (name_key req)) l /\ (byte_in "/" (nn_Namespace req) = false \/ Forall no_put l))
    as (l & Hl & Hf & Hn).
  { unfold new_effects. rewrite Hl, drop_app_length. split_and!; [done|done|by apply prefix_app_r]. }
  unfold Reconcile. rewrite prog_bind_eq. unfold attempt, call.
  destruct (get_RuleSet A (w_trace w) req) as [err|o] eqn:Hg.
  { exists [EffGet "RuleSet" req]. split_and!; [by destruct (IsNotFound A err)|by repeat constructor|].
    right. by repeat constructor. }
  destruct (named_label _ Hnamed _ _ _ Hg) as [Hlabel _].
  rewrite prog_bind_eq. destruct (initializeStatus_no_put A o (log_effect (EffGet "RuleSet" req) w)) as (l1 & Hl1 & Hn1).
  pose proof (initializeStatus_name o (log_effect (EffGet "RuleSet" req) w)) as Hname.
  destruct (initializeStatus A o _) as [w1 [err|o1]]; simpl in Hl1; rewrite <- app_assoc in Hl1.
  - eexists. split_and!; [exact Hl1| |by left]. constructor; [done|]. eapply Forall_impl; [exact Hn1|]. by intros [].
  - destruct (load_and_cache_under o1 w1) as (l2 & Hl2 & Hn2). rewrite Hl1, <- app_assoc in Hl2.
    eexists. split_and!; [exact Hl2| |by left]. constructor; [done|]. apply Forall_app. split.
    + eapply Forall_impl; [exact Hn1|]. by intros [].
    + rewrite <- (named_get _ Hnamed _ _ _ Hg), <- (Hname o1 eq_refl). exact Hn2.
Qed.
End others.

(** ** Runs of the operator *)

(** What is put under the key is this. *)
Definition puts_only (key rules : string) (df : option (gmap string string)) (op : cache_op) : Prop :=
  match op with OpPut _ _ k r d => k = key -> r = rules /\ d = df | _ => True end.

Lemma cache_ops_no_put stamp n l : Forall no_put l -> cache_ops stamp n l = [].
Proof. intros Hl. revert n. induction Hl as [|e l He Hl IH]; intros n; [done|]. destruct e; simpl; done. Qed.

Lemma cache_ops_once stamp n l l' key rules df : Forall no_put l -> Forall no_put l' ->
  cache_ops stamp n (l ++ EffPut key rules df :: l') = [OpPut (stamp n).1 (stamp n).2 key rules df].
Proof.
  intros Hl Hl'. revert n. induction Hl as [|e l He Hl IH]; intros n; simpl; [by rewrite cache_ops_no_put|].
  destruct e; simpl; done.
Qed.

(** The revision under the key, once one of these puts was made. *)
Lemma run_spec_puts ops m key rules df u t :
  m !! key = Some (newEntry u t rules df) -> Forall (puts_only key rules df) ops ->
  exists u' t', run_spec ops m !! key = Some (newEntry u' t' rules df).
Proof.
  intros Hm Hops. revert m u t Hm. induction Hops as [|op ops Hop Hops IH]; intros m u t Hm; simpl; [by eauto|].
  destruct op as [u1 t1 k r d|?|?]; simpl in *; [|by eapply IH|by eapply IH].
  destruct (decide (k = key)) as [->|Hk].
  - destruct (Hop eq_refl) as [-> ->]. eapply IH. by rewrite lookup_insert_eq.
  - eapply IH. by rewrite lookup_insert_ne.
Qed.

Lemma run_spec_app ops ops' m : run_spec (ops ++ ops') m = run_spec ops' (run_spec ops m).
Proof. revert m. induction ops as [|op ops IH]; intros m; simpl; auto. Qed.

Section runs.
Context `{ApiMeta} (A : api) (range_order : gmap string string -> list string)
  (r : EngineReconciler) (format_time : Z -> string) (marshal_time : Z -> gerror + string)
  (Hnamed : named A).

#[local] Abbreviation step := (operator_step A range_order r format_time marshal_time).
#[local] Abbreviation run := (operator_run A range_order r format_time marshal_time).

Lemma engine_Reconcile_extends req w :
  w_trace w `prefix_of` w_trace (EngineController.Reconcile A r req w).1.
Proof.
  enough (adds (fun _ => True) (EngineController.Reconcile A r req)) as Ha.
  { destruct (Ha w) as (l & -> & _). by apply prefix_app_r. }
  unfold EngineController.Reconcile, EngineController.provision, EngineController.selectDriver,
    EngineController.handleInvalidDriverConfiguration, EngineController.provisionWasmDriver,
    EngineController.isRuleSetDegraded, EngineController.initEngineStatus, EngineController.applyWasmPlugin.
  solve_adds.
  all: try (eapply adds_mono; [|first [apply EngineController.delete_policies_no_apply
    |apply EngineController.handleNetworkPolicyDeletion_no_apply
    |apply EngineController.ensureNetworkPolicyFinalizer_no_apply
    |apply EngineController.applyNetworkPolicy_no_apply]]; done).
  all: unfold serverSideApply; solve_adds.
Qed.

Lemma step_extends ev op op' ops : step ev op = Some (op', ops) ->
  w_trace (op_world op) `prefix_of` w_trace (op_world op').
Proof.
  destruct ev as [req stamp|req|ev]; cbn [operator_step].
  - intros Hs. apply bind_Some in Hs as (st & _ & [= <- _]). by apply Reconcile_under.
  - intros [= <- _]. apply engine_Reconcile_extends.
  - intros Hs. assert (op_world op' = op_world op) as ->; [|done].
    destruct ev; try done; try case_bool_decide; try done; by apply bind_Some in Hs as (st & _ & [= <- _]).
Qed.

Section one.
Context (rs : RuleSet) (srcs : list RuleSource) (rds : list RuleData).
#[local] Abbreviation key := (ruleset_key rs).
#[local] Abbreviation puts := (puts_only key (rules_of srcs) (files_of rds)).

Lemma step_ReconcileRuleSet stamp op op' ops :
  settled A range_order (w_trace (op_world op)) rs srcs rds ->
  step (ReconcileRuleSet (object_name (rs_Meta rs)) stamp) op = Some (op', ops) ->
  ops = [OpPut (stamp 0%nat).1 (stamp 0%nat).2 key (rules_of srcs) (files_of rds)].
Proof.
  intros Hs Hst. cbn [operator_step] in Hst. apply bind_Some in Hst as (st & _ & [= _ <-]).
  destruct (Reconcile_stores A range_order _ rs srcs rds Hs (op_world op)) as (l & l' & Hl & Hn & Hn'); [done|].
  unfold new_effects. rewrite Hl, drop_app_length. by apply cache_ops_once.
Qed.

Lemma step_puts ev op op' ops :
  settled A range_order (w_trace (op_world op)) rs srcs rds ->
  step ev op = Some (op', ops) -> Forall puts ops.
Proof.
  intros Hs Hst. destruct ev as [req stamp|req|ev].
  - destruct (decide (req = object_name (rs_Meta rs))) as [->|Hreq].
    { rewrite (step_ReconcileRuleSet _ _ _ _ Hs Hst). by constructor. }
    cbn [operator_step] in Hst. apply bind_Some in Hst as (st & _ & [= _ <-]).
    apply Forall_forall. intros o Ho. apply cache_ops_puts in Ho as (u & t & k & rules & df & -> & Hin).
    destruct (Reconcile_under A range_order Hnamed req (op_world op)) as (Hu & [Hreq'|Hn] & _).
    + rewrite Forall_forall in Hu. specialize (Hu _ Hin). simpl in Hu. intros ->. exfalso. apply Hreq.
      apply name_key_inj; [done| |by rewrite <- Hu].
      destruct (settled_RuleSet _ _ _ _ _ _ Hs (w_trace (op_world op))) as (o & Hg & _); [done|].
      by apply (named_label _ Hnamed) in Hg as [Hg _].
    + rewrite Forall_forall in Hn. by specialize (Hn _ Hin).
  - cbn [operator_step] in Hst. injection Hst as _ <-. constructor.
  - cbn [operator_step] in Hst. destruct ev; try done; try (case_bool_decide; [|done]);
      apply bind_Some in Hst as (st & _ & [= _ <-]); by repeat constructor.
Qed.

Lemma run_puts evs op op' ops :
  settled A range_order (w_trace (op_world op)) rs srcs rds ->
  run evs op = Some (op', ops) -> Forall puts ops.
Proof.
  revert op ops. induction evs as [|ev evs IH]; intros op ops Hs; cbn [operator_run]; [by intros [= _ <-]|].
  intros Hr. apply bind_Some in Hr as ([op1 ops1] & Hst & Hr). apply bind_Some in Hr as ([op2 ops2] & Hr & [= <- <-]).
  apply Forall_app. split; [by eapply step_puts|]. eapply IH; [|exact Hr].
  eapply settled_later; [by eapply step_extends|done].
Qed.

(** After its reconciliation the cache holds the settled RuleSet, and keeps it. *)
Lemma run_keeps stamp evs op op' ops m :
  settled A range_order (w_trace (op_world op)) rs srcs rds ->
  run (ReconcileRuleSet (object_name (rs_Meta rs)) stamp :: evs) op = Some (op', ops) ->
  exists u t, run_spec ops m !! key = Some (newEntry u t (rules_of srcs) (files_of rds)).
Proof.
  intros Hs. cbn [operator_run]. intros Hr. apply bind_Some in Hr as ([op1 ops1] & Hst & Hr).
  apply bind_Some in Hr as ([op2 ops2] & Hr & [= <- <-]). rewrite run_spec_app.
  rewrite (step_ReconcileRuleSet _ _ _ _ Hs Hst). simpl. eapply run_spec_puts; [by rewrite lookup_insert_eq|].
  eapply run_puts; [|exact Hr]. eapply settled_later; [by eapply step_extends|done].
Qed.
End one.

Lemma operator_run_app evs evs' op op1 op2 ops1 ops2 :
  run evs op = Some (op1, ops1) -> run evs' op1 = Some (op2, ops2) ->
  run (evs ++ evs') op = Some (op2, ops1 ++ ops2).
Proof.
  revert op ops1. induction evs as [|ev evs IH]; intros op ops1; cbn [operator_run app].
  { intros [= -> <-]. by intros ->. }
  intros Hr Hr'. apply bind_Some in Hr as ([op3 ops3] & Hst & Hr). apply bind_Some in Hr as ([op4 ops4] & Hr & [= <- <-]).
  rewrite Hst. simpl. rewrite (IH _ _ Hr Hr'). simpl. by rewrite app_assoc.
Qed.
End runs.

(** ** Requests that are authorised *)

(** The API server accepts the token for the audience of the key, as a
    ServiceAccount of the namespace. *)
Definition accepts_token (token key ns : string) (y : exchange) : Prop :=
  exists status name, x_review y token [Audience key] = inr status /\ Authenticated status = true /\
    Username status = serviceAccountPrefix +:+ ns +:+ ":" +:+ name.

(** JWTs hold no colon, and the API server accepts nothing else. *)
Definition jwt_only (y : exchange) : Prop :=
  forall token audiences status, x_review y token audiences = inr status -> byte_in ":" token = false.

(** Whoever a request vouches for, token and audience being this, has an account
    of the namespace: tokens are bound to one account. *)
Definition vouches_only (token key ns : string) (y : exchange) : Prop :=
  forall r, vouches y token (Audience key) r -> TokenAuth.Namespace r = ns.

Lemma accepts_review y token key ns : byte_in ":" ns = false -> accepts_token token key ns y ->
  vouches_only token key ns y.
Proof.
  intros Hns (status & name & Hr & Ha & Hu) r (status' & Hr' & _ & Hp). rewrite Hr in Hr'. injection Hr' as <-.
  assert (parseServiceAccountUsername (Username status) = inr (ns, name)) as Hp' by by apply parse_username_spec.
  by rewrite Hp' in Hp; injection Hp.
Qed.

Section authorised.
Context (hist : list exchange) (x : exchange) (key ns : string).
#[local] Abbreviation token := (extractBearerToken (x_req x)).
Context (Hjwt : forall y, y ∈ hist ++ [x] -> jwt_only y)
  (Hvouches : forall y, y ∈ hist ++ [x] -> vouches_only token key ns y)
  (Haccepts : accepts_token token key ns x)
  (Hlabel : byte_in ":" ns = false).

(** Both a cached result and a review accept the token. *)
Lemma Authenticate_accepts a : auth_from hist a ->
  exists r, (Authenticate (x_review x) (x_env x) token (Audience key) a).2 = inr r /\ TokenAuth.Namespace r = ns.
Proof.
  intros [_ (log & Hl & Hb)]. destruct Haccepts as (status & name & Hr & Ha & Hu).
  assert (Hj : jwt_only x) by (apply Hjwt, elem_of_app; right; by left). pose proof (Hj _ _ _ Hr) as Htok.
  assert (auth_review (x_review x token [Audience key]) = inr {| TokenAuth.Namespace := ns; TokenAuth.Name := name |})
    as Hrev.
  { unfold auth_review. rewrite Hr, Ha. simpl.
    by rewrite (proj2 (parse_username_spec (Username status) ns name) (conj Hu Hlabel)). }
  unfold Authenticate. destruct (auth_lookup _ _ a) as [r| |] eqn:Hlk; [|rewrite Hrev; by eexists..].
  exists r. split; [done|]. destruct (auth_lookup_hit _ _ _ _ _ Hb Hlk) as (n0 & tok & aud & Hin & Hk & _).
  destruct (Hl _ _ _ _ Hin) as (y & Hy & _ & Hv).
  assert (y ∈ hist ++ [x]) as Hy' by (apply elem_of_app; by left).
  assert (byte_in ":" tok = false) as Htok' by (destruct Hv as (st & Hst & _); by eapply Hjwt).
  apply auth_key_inj in Hk as [<- <-]; [|done|done]. eapply Hvouches; eauto.
Qed.

Lemma authenticateRequest_accepts s rest : auth_from hist (srv_auth s) ->
  key = ns +:+ "/" +:+ rest -> byte_in "/" ns = false -> token <> "" ->
  (authenticateRequest (x_review x) (x_env x) (x_req x) key s).2 = inr tt.
Proof.
  intros Hs Hkey Hslash Htok. unfold authenticateRequest.
  destruct (String.eqb_spec (extractBearerToken (x_req x)) "") as [|_]; [done|].
  destruct (Authenticate_accepts (srv_auth s) Hs) as (r & Hr & Hns).
  destruct (Authenticate _ _ _ _ _) as [a res]. simpl in Hr. subst res.
  assert (Cut key "/" = Some (ns, rest)) as -> by (rewrite Hkey; by apply Cut_byte).
  by rewrite Hns, String.eqb_refl.
Qed.
End authorised.

(** The answer to an authorised request. *)
Lemma handleRules_authorised format_time marshal_time review env r s entry :
  Method r = "GET" -> TrimPrefix (Path r) "/rules/" <> "" ->
  (authenticateRequest review env r (requestKey r) s).2 = inr tt ->
  Get (srv_cache s) (requestKey r) = Some entry ->
  (handleRules format_time marshal_time review env r s).2 =
    match serve format_time marshal_time (route (TrimPrefix (Path r) "/rules/")).2 entry with
    | inr body => json_response body
    | inl _ => http_Error "Internal server error" StatusInternalServerError
    end.
Proof.
  intros Hm Hp Hauth Hget. unfold handleRules, requestKey in *. rewrite Hm. simpl.
  destruct (String.eqb_spec (TrimPrefix (Path r) "/rules/") "") as [|_]; [done|].
  destruct (route _) as [key latest]; simpl in *.
  pose proof (authenticateRequest_cache review env r key s) as [Hc _].
  destruct (authenticateRequest review env r key s) as [s' res]; simpl in *. subst res. simpl.
  destruct latest; simpl; unfold handleLatest, handleGetRules; rewrite Hc, Hget; [done|]. by destruct (encode_entry _ _).
Qed.

(** ** The property *)

Section served.
Context `{ApiMeta} (A : api) (range_order : gmap string string -> list string)
  (r : EngineReconciler) (format_time : Z -> string) (marshal_time : Z -> gerror + string).

(** The server after a run holds what the run published, and authenticates from
    the requests the run handled. *)
Lemma run_server w gc k evs op ops x :
  operator_run A range_order r format_time marshal_time evs (operator_start w gc k) = Some (op, ops) ->
  run_allowed ops NewRuleSetCache -> x_ops x = [] ->
  (forall i, Get (srv_cache (lc_server (op_server op))) i = run_spec ops ∅ !! i) /\
  exists hist, auth_from hist (srv_auth (lc_server (op_server op))) /\ Forall2 same_request hist (handled evs).
Proof.
  intros Hr Hallowed Hx.
  destruct (operator_run_server A range_order r format_time marshal_time (NewServer NewRuleSetCache gc) evs
    (operator_start w gc k) op ops [] []) as (hist & pend & Hs & Hops & Hh); [reflexivity|exact Hr|].
  simpl in Hops, Hs. rewrite Hs. split.
  - intros i. simpl. rewrite run_exchanges_cache, <- run_ops_app, Hops.
    rewrite Get_newest by auto using run_ops_wf, NewRuleSetCache_wf.
    by rewrite run_ops_abs by auto using NewRuleSetCache_wf.
  - exists hist. split; [|done]. simpl. apply (run_exchanges_from _ _ hist _ []), NewServer_from.
Qed.

(** The answer to an authorised request for what a run published. *)
Lemma request_served (w : world) gc k evs op ops rs rules df u t x :
  let key := ruleset_key rs in
  let token := extractBearerToken (x_req x) in
  let entry := newEntry u t rules df in
  named A -> operator_run A range_order r format_time marshal_time evs (operator_start w gc k) = Some (op, ops) ->
  run_allowed ops NewRuleSetCache -> run_spec ops ∅ !! key = Some entry ->
  (exists tr o, get_RuleSet A tr (object_name (rs_Meta rs)) = inr o) ->
  x_ops x = [] -> Method (x_req x) = "GET" -> requestKey (x_req x) = key -> token <> "" ->
  (forall y, y ∈ handled evs ++ [x] -> jwt_only y /\ vouches_only token key (Namespace (rs_Meta rs)) y) ->
  accepts_token token key (Namespace (rs_Meta rs)) x ->
  (exec_exchange format_time marshal_time x (lc_server (op_server op))).2 =
    match serve format_time marshal_time (route (TrimPrefix (Path (x_req x)) "/rules/")).2 entry with
    | inr body => json_response body
    | inl _ => http_Error "Internal server error" StatusInternalServerError
    end.
Proof.
  intros key token entry Hnamed Hrun Hallowed Hspec (tr & o & Hg) Hx Hm Hkey Htok Hy Hacc.
  destruct (run_server _ _ _ _ _ _ x Hrun Hallowed Hx) as (Hget & hist & Hfrom & Hh).
  destruct (named_label _ Hnamed _ _ _ Hg) as [Hslash Hcolon].
  assert (Hyx : forall y, y ∈ hist ++ [x] -> jwt_only y /\ vouches_only token key (Namespace (rs_Meta rs)) y).
  { intros y [Hy'|Hy']%elem_of_app; [|apply Hy, elem_of_app; by right].
    apply list_elem_of_lookup in Hy' as [i Hi]. destruct (Forall2_lookup_l _ _ _ _ _ Hh Hi) as (y' & Hi' & Hrev & _).
    destruct (Hy y') as [Hj Ha].
    { apply elem_of_app. left. by eapply list_elem_of_lookup_2. }
    unfold jwt_only, vouches_only, vouches in *. by rewrite Hrev. }
  unfold exec_exchange. rewrite Hx. apply handleRules_authorised.
  - exact Hm.
  - intros Hp. unfold requestKey in Hkey. rewrite Hp in Hkey. unfold key, ruleset_key in Hkey.
    simpl in Hkey. by destruct (Namespace (rs_Meta rs)).
  - rewrite Hkey. eapply (authenticateRequest_accepts hist x key (Namespace (rs_Meta rs))).
    + intros y Hin. apply Hyx, Hin.
    + intros y Hin. apply Hyx, Hin.
    + exact Hacc.
    + exact Hcolon.
    + exact Hfrom.
    + reflexivity.
    + exact Hslash.
    + exact Htok.
  - rewrite Hkey. simpl. rewrite Hget. exact Hspec.
Qed.

End served.

(** ** A run in which the sample RuleSet is served *)

Lemma sample_named : named sample_cluster.
Proof.
  assert (Hg : forall nn o, get_RuleSet sample_cluster [] nn = inr o ->
    object_name (rs_Meta o) = nn /\ nn_Namespace nn = "ns").
  { intros nn o. unfold sample_cluster, quiet_api. cbn [get_RuleSet]. rewrite filter_cons. simpl.
    case_decide as Hn; [|done]. intros [= <-]. destruct nn, Hn as [Hns Hname]. simpl in *. by subst. }
  split.
  - intros tr nn o Ho. by apply Hg.
  - by intros tr o o' [= <-].
  - intros tr nn o Ho. destruct (Hg nn o Ho) as [_ ->]. done.
Qed.

Definition sample_sources : list RuleSource :=
  [{| rsrc_Meta := sample_meta "ns" "a"; rsrc_Rules := "SecRuleEngine On" |};
   {| rsrc_Meta := sample_meta "ns" "b"; rsrc_Rules := "SecAction id:1" |}].
Definition sample_datas : list RuleData :=
  [{| rd_Meta := sample_meta "ns" "d"; rd_Files := {["ips.data" := "10.0.0.1"]} |}].

Lemma sample_settled tr : settled sample_cluster sample_order tr sample_ruleset sample_sources sample_datas.
Proof.
  split.
  - intros tr' _. by exists sample_ruleset.
  - intros tr' o _ Ho. by exists o.
  - repeat constructor.
  - repeat constructor.
  - reflexivity.
  - left. vm_compute. reflexivity.
Qed.

Definition serving_before : list operator_event := [Server HttpListens].
Definition serving_after : list operator_event :=
  [Server (Handle (system_request "/rules/ns/rs/latest" 5)); ReconcileEngine (object_name (rs_Meta sample_ruleset));
   Server (GcTick 10 ["ns/rs"] ["ns/rs"])].
Definition serving_stamp (n : nat) : string * Z := (Itoa (Z.of_nat n), 1).

Lemma serving_accepted y : y ∈ handled (serving_before ++ serving_after) ++ [system_request "/rules/ns/rs" 20] ->
  jwt_only y /\ vouches_only "jwt" "ns/rs" "ns" y.
Proof.
  intros Hy. assert (x_review y = jwt_reviewer) as Hrev.
  { change (y ∈ [system_request "/rules/ns/rs/latest" 5; system_request "/rules/ns/rs" 20]) in Hy.
    rewrite !elem_of_cons in Hy. destruct Hy as [->|[->|Hy]]; [done..|]. by apply not_elem_of_nil in Hy. }
  split; [|apply accepts_review; [done|]; exists sample_status, "sa"; by rewrite Hrev].
  unfold jwt_only. rewrite Hrev.
  intros token audiences status Hst. unfold jwt_reviewer in Hst.
  destruct (String.eqb_spec token "jwt"); [by subst|done].
Qed.

