(* ===== verification/Provisioning.v ===== *)
(** * Every good Engine is provisioned

    [EngineController] shows that what is provisioned is safe; this file shows
    that an Engine is provisioned, and stays so.  An Engine is settled when, from
    some trace of calls on, the cluster keeps answering with it, its RuleSet is
    there and not Degraded, and the calls of a reconciliation succeed.  Its
    reconciliation then ends without error, the plugin applied and the status
    Ready, and asks to be run again when the token needs renewal. *)
From S2P Require Import Prelude GoLib GoErrors TokenAuth MemFS KubeApi Status EngineNetwork EngineToken EngineController.

(** ** What programs do from a trace on *)

(** More calls made, the token store kept. *)
Definition extend (l : list effect) (w : world) : world :=
  {| w_trace := w_trace w ++ l; w_tokens := w_tokens w |}.

Lemma extend_extend l l' w : extend l' (extend l w) = extend (l ++ l') w.
Proof. unfold extend. simpl. by rewrite app_assoc. Qed.

Lemma extend_nil w : extend [] w = w.
Proof. destruct w. unfold extend. simpl. by rewrite app_nil_r. Qed.

(** [m] ends without an error and keeps the token store, once the calls [tr]
    were made. *)
Definition does {X} (tr : list effect) (m : prog X) (Q : list effect -> X -> Prop) : Prop :=
  forall w, tr `prefix_of` w_trace w -> exists l x, m w = (extend l w, inr x) /\ Q l x.

Lemma does_ret {X} tr (x : X) (Q : list effect -> X -> Prop) : Q [] x -> does tr (mret x) Q.
Proof. intros Hx w _. exists [], x. by rewrite extend_nil. Qed.

Lemma does_bind {X Y} tr (m : prog X) (k : X -> prog Y) Q R :
  does tr m Q -> (forall l x, Q l x -> does tr (k x) (fun l' y => R (l ++ l') y)) -> does tr (m ≫= k) R.
Proof.
  intros Hm Hk w Hw. destruct (Hm w Hw) as (l & x & Hr & Hx).
  destruct (Hk l x Hx (extend l w)) as (l' & y & Hr' & Hy); [by apply prefix_app_r|].
  exists (l ++ l'), y. by rewrite prog_bind_eq, Hr, Hr', extend_extend.
Qed.

Lemma does_call {X} tr (f : list effect -> gerror + X) e (P : X -> Prop) :
  (forall tr', tr `prefix_of` tr' -> exists x, f tr' = inr x /\ P x) ->
  does tr (call f e) (fun l x => l = [e] /\ P x).
Proof. intros Hf w Hw. destruct (Hf _ Hw) as (x & Hx & HP). exists [e], x. unfold call. by rewrite Hx. Qed.

Lemma does_attempt {X} tr (m : prog X) Q :
  does tr m Q -> does tr (attempt m) (fun l r => exists x, r = inr x /\ Q l x).
Proof. intros Hm w Hw. destruct (Hm w Hw) as (l & x & Hr & Hx). exists l, (inr x). unfold attempt. rewrite Hr. eauto. Qed.

Lemma does_mono {X} tr (m : prog X) (Q R : list effect -> X -> Prop) :
  does tr m Q -> (forall l x, Q l x -> R l x) -> does tr m R.
Proof. intros Hm HQR w Hw. destruct (Hm w Hw) as (l & x & ? & ?). eauto 10. Qed.

(** Such a program runs before the rest of a program. *)
Lemma does_then {X Y} tr (m : prog X) (k : X -> prog Y) Q w :
  does tr m Q -> tr `prefix_of` w_trace w ->
  exists l x, Q l x /\ (m ≫= k) w = k x (extend l w) /\ tr `prefix_of` w_trace (extend l w).
Proof.
  intros Hm Hw. destruct (Hm w Hw) as (l & x & Hr & Hx). exists l, x. rewrite prog_bind_eq, Hr.
  split_and!; [done|done|by apply prefix_app_r].
Qed.

Lemma guarded_does {X} `{ApiMeta} A tr e reason prefix (m : prog X) Q :
  does tr m Q -> does tr (guarded A e reason prefix m) Q.
Proof.
  intros Hm w Hw. destruct (Hm w Hw) as (l & x & Hr & Hx). exists l, x. by rewrite guarded_run, Hr.
Qed.

(** ** Settled Engines *)

(** Objects that differ in their status. *)
Definition with_status (e : Engine) (st : option (list Condition)) : Engine :=
  {| e_Meta := e_Meta e; e_Spec := e_Spec e; e_Status := st |}.

Definition usable `{ApiMeta} (rs : RuleSet) : Prop :=
  forall c, FindStatusCondition (rs_Conditions rs) conditionDegraded = Some c -> c_Status c <> ConditionTrue.

(** An ownerReference is all that [SetControllerReference] changes. *)
Definition only_owned (u u' : unstructured) : Prop :=
  u_Group u' = u_Group u /\ u_Version u' = u_Version u /\ u_Kind u' = u_Kind u /\ u_Name u' = u_Name u /\
  u_Namespace u' = u_Namespace u /\ u_Spec u' = u_Spec u.

Section settled.
Context `{ApiMeta} (A : api) (r : EngineReconciler).

(** The account gets tokens for the Engine's RuleSet, unexpired when they arrive. *)
Definition gives_tokens (tr : list effect) (e : Engine) (saName : string) : Prop :=
  let sa := {| nn_Namespace := Namespace (e_Meta e); nn_Name := saName |} in
  let audiences := [token_audience (object_name (e_Meta e)) (e_RuleSet (e_Spec e))] in
  forall tr', tr `prefix_of` tr' ->
    exists tok expiresAt, create_token A tr' sa audiences tokenExpirationSeconds = inr (tok, expiresAt) /\
      now A (tr' ++ [EffCreateToken sa audiences tokenExpirationSeconds]) <= expiresAt.

Record settled_engine (tr : list effect) (e : Engine) : Prop := {
  engine_get tr' : tr `prefix_of` tr' ->
    exists st, get_Engine A tr' (object_name (e_Meta e)) = inr (with_status e st);
  engine_patch tr' st : tr `prefix_of` tr' ->
    exists st', patch_Engine_status A tr' (with_status e st) = inr (with_status e st');
  engine_live : DeletionTimestamp (e_Meta e) = None;
  engine_finalizer st : ContainsFinalizer A (with_status e st) networkPolicyFinalizer = true;
  engine_target : is_Some (targetLabelSelector A (Some e));
  engine_driver : driver_Type (e_Driver (e_Spec e)) = "" \/ driver_Type (e_Driver (e_Spec e)) = DriverTypeWasm;
  engine_ruleset tr' : tr `prefix_of` tr' ->
    exists rs, get_RuleSet A tr' {| nn_Namespace := Namespace (e_Meta e); nn_Name := e_RuleSet (e_Spec e) |} = inr rs /\
      usable rs;
  engine_policies tr' labels : tr `prefix_of` tr' ->
    exists items, list_policies A tr' (operatorNamespace r) labels = inr items;
  engine_policy_create tr' np : tr `prefix_of` tr' -> exists np', create_policy A tr' np = inr np';
  engine_policy_update tr' np : tr `prefix_of` tr' -> exists np', update_policy A tr' np = inr np';
  engine_accounts tr' labels : tr `prefix_of` tr' ->
    exists sas, list_service_accounts A tr' (Namespace (e_Meta e)) labels = inr sas /\
      forall sa, head sas = Some sa -> gives_tokens tr e (sa_Name sa);
  engine_account_create tr' sa : tr `prefix_of` tr' ->
    exists sa', create_service_account A tr' sa = inr sa' /\ gives_tokens tr e (sa_Name sa');
  (** no token is empty *)
  engine_token_text tr' sa audiences secs tok expiresAt :
    create_token A tr' sa audiences secs = inr (tok, expiresAt) -> tok <> "";
  engine_owner st u : exists u', set_controller_reference A (with_status e st) u = inr u' /\ only_owned u u';
  engine_apply tr' u : tr `prefix_of` tr' -> exists u', apply_object A tr' u = inr u'
}.

Lemma settled_engine_later tr tr' e : tr `prefix_of` tr' -> settled_engine tr e -> settled_engine tr' e.
Proof.
  intros Hp Hs. assert (Ht : forall t, tr' `prefix_of` t -> tr `prefix_of` t) by (intros t; by etrans).
  assert (Hg : forall sa, gives_tokens tr e sa -> gives_tokens tr' e sa) by (intros sa Hsa t ?; apply Hsa; by apply Ht).
  split; intros; try (by eapply Hs; eauto).
  - destruct (engine_accounts _ _ Hs tr'0 labels) as (sas & ? & ?); eauto 10.
  - destruct (engine_account_create _ _ Hs tr'0 sa) as (sa' & ? & ?); eauto 10.
Qed.

Context (tr : list effect) (e : Engine) (Hs : settled_engine tr e).
#[local] Abbreviation req := (object_name (e_Meta e)).
#[local] Abbreviation is_engine o := (exists st, o = with_status e st).

(** ** The steps *)

Lemma initEngineStatus_does st :
  does tr (initEngineStatus A (with_status e st)) (fun _ o => is_engine o).
Proof.
  unfold initEngineStatus. destruct (FindStatusCondition _ _); [apply does_ret; eauto|]. intros w Hw.
  match goal with |- context [patch_conditions A ?ap ?o w] => pose proof (patch_conditions_run A ap o w) as Hrun end.
  simpl in Hrun. match type of Hrun with context [patch_Engine_status A ?t {| e_Meta := _; e_Spec := _; e_Status := ?s |}] =>
    destruct (engine_patch _ _ Hs t s Hw) as (st' & Hst') end.
  unfold with_status in *. simpl in *. rewrite Hst' in Hrun. rewrite Hrun. eexists [_; _], _. unfold extend, log_effect. simpl.
  rewrite <- app_assoc. split; [reflexivity|by eauto].
Qed.

Lemma isRuleSetDegraded_does st :
  does tr (isRuleSetDegraded A (with_status e st)) (fun _ b => b = false).
Proof.
  unfold isRuleSetDegraded. eapply does_bind; [apply does_attempt, (does_call _ _ _ usable)|].
  { intros tr' Ht. by destruct (engine_ruleset _ _ Hs tr' Ht) as (rs & ? & ?); eauto. }
  intros l ? (rs & -> & _ & Hu). destruct (FindStatusCondition _ _) as [c|] eqn:Hc; [|by apply does_ret].
  rewrite bool_decide_eq_false_2 by by apply Hu. by apply does_ret.
Qed.

Lemma applyNetworkPolicy_does st :
  does tr (applyNetworkPolicy A r (with_status e st)) (fun l _ => exists np, policy_of A r e np /\
    (EffCreatePolicy np ∈ l \/ EffUpdatePolicy np ∈ l)).
Proof.
  enough (does tr (applyNetworkPolicy A r (with_status e st)) (fun _ _ => True)) as Hd.
  { intros w Hw. destruct (Hd w Hw) as (l & [] & Hr & _). exists l, tt. split; [exact Hr|].
    destruct (applyNetworkPolicy_post A r (with_status e st) w) as (l' & Hl' & _ & Hnp). rewrite Hr in Hl', Hnp.
    simpl in Hl'. apply app_inv_head in Hl' as <-. destruct (Hnp eq_refl) as (np & Hpol & Hin). by exists np. }
  unfold applyNetworkPolicy. destruct (engine_target _ _ Hs) as [ws Hws].
  change (targetLabelSelector A (Some (with_status e st))) with (targetLabelSelector A (Some e)). rewrite Hws.
  apply targetLabelSelector_Some in Hws as (-> & _). rewrite bool_decide_eq_false_2 by apply map_non_empty_singleton.
  eapply (does_bind _ _ _ (fun _ _ => True)); [|intros l existing _].
  { unfold findNetworkPolicyForEngine. eapply does_bind; [apply does_attempt, (does_call _ _ _ (fun _ => True))|].
    - intros tr' Ht. destruct (engine_policies _ _ Hs tr' (engineNetworkPolicyLabels (Namespace (e_Meta e)) (Name (e_Meta e))) Ht).
      eauto.
    - intros l ? (items & -> & _). by apply does_ret. }
  destruct existing as [old|]; (eapply does_bind; [apply (does_call _ _ _ (fun _ => True))|by intros; apply does_ret]).
  - intros tr' Ht. destruct (engine_policy_update _ _ Hs tr' (update_of (buildNetworkPolicy A r (with_status e st)) old) Ht). eauto.
  - intros tr' Ht. destruct (engine_policy_create _ _ Hs tr' (buildNetworkPolicy A r (with_status e st)) Ht). eauto.
Qed.

Lemma ensureSA_does st :
  does tr (ensureCacheClientServiceAccount A req (with_status e st)) (fun _ saName => gives_tokens tr e saName).
Proof.
  unfold ensureCacheClientServiceAccount.
  eapply does_bind; [apply does_attempt, (does_call _ _ _ (fun sas => forall sa, head sas = Some sa -> gives_tokens tr e (sa_Name sa)))|].
  { intros tr' Ht. apply (engine_accounts _ _ Hs tr' (cacheClientSALabels (Name (e_Meta e))) Ht). }
  intros l ? ([|sa sas] & -> & _ & Hsas); [|apply does_ret; by apply Hsas].
  eapply does_bind; [apply does_attempt, (does_call _ _ _ (fun sa => gives_tokens tr e (sa_Name sa)))|].
  { intros tr' Ht. apply (engine_account_create _ _ Hs tr' (newServiceAccount req (with_status e st)) Ht). }
  intros l' ? (sa & -> & _ & Hsa). by apply does_ret.
Qed.

(** The plugin is applied with its token, for the RuleSet of the Engine. *)
Definition plugin_of (tok : string) (u : unstructured) : Prop :=
  u_Kind u = "WasmPlugin" /\ u_Name u = WasmPluginNamePrefix +:+ Name (e_Meta e) /\
  plugin_config "cache_server_instance" u = Some (VString (Namespace (e_Meta e) +:+ "/" +:+ e_RuleSet (e_Spec e))) /\
  plugin_config "cache_token" u = Some (VString tok).

Lemma applyWasmPlugin_does st tok :
  does tr (applyWasmPlugin A r (with_status e st) tok) (fun l _ => exists u, l = [EffApply u] /\ plugin_of tok u).
Proof.
  unfold applyWasmPlugin. set (u0 := buildWasmPlugin A r _ _ tok).
  destruct (engine_owner _ _ Hs st u0) as (u & -> & HG & HV & HK & HN & HNs & HS).
  unfold serverSideApply.
  assert (gvk_empty u = false) as -> by (unfold gvk_empty; by rewrite HG, HV, HK).
  assert (String.eqb (u_Name u) "" = false) as -> by (by rewrite HN).
  set (d := if String.eqb (u_Namespace u) "" then set_namespace "default" u else u).
  eapply does_bind; [apply does_attempt, (does_call _ _ _ (fun _ => True))|].
  { intros tr' Ht. destruct (engine_apply _ _ Hs tr' d Ht). eauto. }
  intros l ? (u' & -> & -> & _). apply does_ret. exists d. split; [done|].
  unfold plugin_of, plugin_config.
  assert (u_Kind d = u_Kind u /\ u_Name d = u_Name u /\ u_Spec d = u_Spec u) as (-> & -> & ->)
    by (unfold d; by destruct (String.eqb _ _)).
  rewrite HK, HN, HS. by unfold u0.
Qed.

Lemma patchReady_does st g reason message :
  does tr (patchReady A (with_status e st) g reason message) (fun l _ =>
    Forall no_apply l /\ forall l', l' = [] \/ (exists ty rs a n, l' = [EffEvent ty rs a n]) ->
      exists conds, last_status (l ++ l') = Some conds /\ is_ready conds g reason message).
Proof.
  intros w Hw. unfold patchReady. rewrite prog_bind_eq. unfold emit at 1.
  set (w1 := log_effect _ w). assert (tr `prefix_of` w_trace w1) as Hw1 by by apply prefix_app_r.
  match goal with |- context [patch_conditions A ?ap ?o w1] => pose proof (patch_conditions_run A ap o w1) as Hrun end.
  cbn zeta in Hrun. match type of Hrun with context [so_patch A ?t (so_with_conditions ?s _)] =>
    destruct (engine_patch _ _ Hs t (Some s) Hw1) as (st' & Hst') end.
  simpl in Hrun, Hst'. unfold with_status in *. rewrite Hst' in Hrun. simpl. rewrite Hrun.
  eexists [_; _; _], _. unfold extend, log_effect. simpl. rewrite <- !app_assoc. split; [reflexivity|].
  split; [by repeat constructor|]. intros l' [->|(ty & rs & a & n & ->)]; eexists;
    (split; [reflexivity|apply applyStatusReady_is]).
Qed.

(** ** Tokens *)

#[local] Abbreviation key := (token_key req (e_RuleSet (e_Spec e))).
#[local] Abbreviation audience := (token_audience req (e_RuleSet (e_Spec e))).

(** A stored token is used before its renewal point, else a new one is issued now. *)
Definition obtained (w w' : world) (entry : TokenEntry) : Prop :=
  (w' = w /\ w_tokens w !! key = Some entry /\ now A (w_trace w) < RenewalDeadline entry) \/
  exists saName, let sa := {| nn_Namespace := Namespace (e_Meta e); nn_Name := saName |} in
    w_trace w' = w_trace w ++ [EffCreateToken sa [audience] tokenExpirationSeconds] /\
    create_token A (w_trace w) sa [audience] tokenExpirationSeconds = inr (Token entry, ExpiresAt entry) /\
    IssuedAt entry = now A (w_trace w') /\ IssuedAt entry <= ExpiresAt entry.

Lemma generateToken_gives saName w :
  gives_tokens tr e saName -> tr `prefix_of` w_trace w ->
  exists w' entry, generateToken A req saName (e_RuleSet (e_Spec e)) w = (w', inr (Token entry, RenewalDeadline entry)) /\
    w_tokens w' !! key = Some entry /\ obtained w w' entry.
Proof.
  intros Hg Hw. unfold generateToken. rewrite prog_bind_eq. unfold attempt, call.
  change (nn_Namespace req) with (Namespace (e_Meta e)).
  set (sa := {| nn_Namespace := Namespace (e_Meta e); nn_Name := saName |}).
  destruct (Hg (w_trace w) Hw) as (tok & expiresAt & Hc & Hexp).
  fold sa in Hc |- *. rewrite Hc. cbn -[token_key pruneExpiredTokens token_audience tokenExpirationSeconds].
  set (entry := {| Token := tok; IssuedAt := now A (w_trace w ++ [EffCreateToken sa [audience] tokenExpirationSeconds]);
    ExpiresAt := expiresAt |}).
  eexists _, entry. split; [reflexivity|]. simpl. split.
  - unfold pruneExpiredTokens. apply map_lookup_filter_Some. rewrite lookup_insert_eq. split; [done|].
    unfold time_After. simpl. by apply Z.ltb_ge.
  - right. by exists saName.
Qed.

Lemma ensureCacheToken_gives saName w :
  gives_tokens tr e saName -> tr `prefix_of` w_trace w ->
  exists w' entry, ensureCacheToken A req saName (e_RuleSet (e_Spec e)) w = (w', inr (Token entry, RenewalDeadline entry)) /\
    w_tokens w' !! key = Some entry /\ obtained w w' entry.
Proof.
  intros Hg Hw. unfold ensureCacheToken. rewrite prog_bind_eq. simpl.
  destruct (w_tokens w !! key) as [entry|] eqn:Hk; [|by apply generateToken_gives].
  rewrite prog_bind_eq. simpl. unfold NeedsRenewal, time_Before. rewrite negb_involutive.
  destruct (now A (w_trace w) <? RenewalDeadline entry) eqn:Hlt; [|by apply generateToken_gives].
  exists w, entry. bool_to_prop. split_and!; [done|done|left; by split_and!].
Qed.

(** A token given out was issued for the Engine's RuleSet. *)
Definition issued (entry : TokenEntry) : Prop :=
  Token entry <> "" /\ exists tr' saName,
    create_token A tr' {| nn_Namespace := Namespace (e_Meta e); nn_Name := saName |} [audience] tokenExpirationSeconds =
      inr (Token entry, ExpiresAt entry).

Lemma minted_issued m entry : req_ok req -> minted A m -> m !! key = Some entry -> issued entry.
Proof.
  intros Hreq Hm Hk. destruct (Hm _ _ Hk) as (tr' & req' & sa & rs' & Hreq' & Heq & Hc).
  apply token_key_inj in Heq as [<- <-]; [|done|done]. split; [by eapply engine_token_text|by eauto].
Qed.

(** ** The reconciliation *)

(** What the reconciliation of a settled Engine does: the policy, then the
    plugin with its token, then the status; and when it asks to be run again. *)
Definition provisioned (w : world) (res : world * (gerror + Result)) : Prop :=
  exists w' entry l1 l2 np u conds,
    res = (w', inr {| RequeueAfter := Z.max (time_Sub (RenewalDeadline entry) (now A (w_trace w'))) Second |}) /\
    w_trace w' = w_trace w ++ l1 ++ EffApply u :: l2 /\
    (EffCreatePolicy np ∈ l1 \/ EffUpdatePolicy np ∈ l1) /\ policy_of A r e np /\
    plugin_of (Token entry) u /\ w_tokens w' !! key = Some entry /\ issued entry /\
    last_status l2 = Some conds /\
    is_ready conds (Generation (e_Meta e)) "Configured" "WasmPlugin successfully created/updated" /\
    exists w1 w2, w_trace w `prefix_of` w_trace w1 /\ w_tokens w1 = w_tokens w /\
      w_trace w2 = w_trace w ++ l1 /\ obtained w1 w2 entry.

(** Calls made before, tokens kept. *)
Lemma provisioned_extend l w res : provisioned (extend l w) res -> provisioned w res.
Proof.
  intros (w' & entry & l1 & l2 & np & u & conds & ? & Ht & Hnp & ? & ? & ? & ? & ? & ? & w1 & w2 & Hp & Htok & Hw2 & ?).
  exists w', entry, (l ++ l1), l2, np, u, conds. simpl in Ht, Hw2. rewrite <- !app_assoc in *.
  split_and!; try done; [rewrite !elem_of_app; tauto|].
  exists w1, w2. split_and!; [|done..]. etrans; [|exact Hp]. by apply prefix_app_r.
Qed.

Lemma provision_rest st entry w1 w2 w :
  tr `prefix_of` w_trace w2 -> obtained w1 w2 entry -> w_trace w `prefix_of` w_trace w1 -> w_tokens w1 = w_tokens w ->
  w_tokens w2 !! key = Some entry -> issued entry ->
  (exists np l1, w_trace w1 = w_trace w ++ l1 /\ policy_of A r e np /\ (EffCreatePolicy np ∈ l1 \/ EffUpdatePolicy np ∈ l1)) ->
  provisioned w
    ((wasmPlugin ← guarded A (with_status e st) "ProvisioningFailed" "Failed to create or update WasmPlugin: "
        (applyWasmPlugin A r (with_status e st) (Token entry));
      _ ← patchReady A (with_status e st) (Generation (e_Meta e)) "Configured" "WasmPlugin successfully created/updated";
      _ ← emit (EffEvent "Normal" "WasmPluginCreated" "Provision"
            ("Created WasmPlugin " +:+ u_Namespace wasmPlugin +:+ "/" +:+ u_Name wasmPlugin));
      t ← time_now A;
      mret {| RequeueAfter := Z.max (time_Sub (RenewalDeadline entry) t) Second |}) w2).
Proof.
  intros Hw2 Hobt Hpre Htok Hkey Hiss (np & l1 & Hl1 & Hpol & Hin).
  assert (exists lt, w_trace w2 = w_trace w1 ++ lt) as [lt Hlt].
  { destruct Hobt as [[-> _]|(sa & -> & _)]; [exists []; by rewrite app_nil_r|by eexists]. }
  match goal with |- provisioned w ((guarded A ?o ?rs ?p _ ≫= ?k) w2) =>
    destruct (does_then tr _ k _ w2 (guarded_does A tr o rs p _ _ (applyWasmPlugin_does st (Token entry))) Hw2)
      as (l & u' & (u & -> & Hu) & -> & Hw3) end.
  match goal with |- provisioned w ((patchReady A ?o ?g ?rs ?m ≫= ?k) ?w3) =>
    destruct (does_then tr _ k _ w3 (patchReady_does st g rs m) Hw3) as (l' & x2 & (_ & Hready) & -> & _) end.
  rewrite prog_bind_eq. cbn [emit]. rewrite prog_bind_eq. cbn [time_now].
  edestruct Hready as (conds & Hc & Hr); [right; do 4 eexists; reflexivity|].
  eexists _, entry, (l1 ++ lt), (l' ++ [_]), np, u, conds. split; [reflexivity|].
  split; [simpl; rewrite Hlt, Hl1, <- !app_assoc; reflexivity|].
  split; [rewrite !elem_of_app; tauto|]. split_and!; try done.
  exists w1, w2. split_and!; [done|done| |done]. by rewrite Hlt, Hl1, <- app_assoc.
Qed.

Lemma provisionWasmDriver_provisions st w :
  req_ok req -> tr `prefix_of` w_trace w -> minted A (w_tokens w) ->
  provisioned w (provisionWasmDriver A r req (with_status e st) w).
Proof.
  intros Hreq Hw Hm. unfold provisionWasmDriver. destruct (engine_target _ _ Hs) as [ws Hws].
  change (targetLabelSelector A (Some (with_status e st))) with (targetLabelSelector A (Some e)). rewrite Hws.
  match goal with |- provisioned w ((guarded A ?o ?rs ?p _ ≫= ?k) w) =>
    destruct (does_then tr _ k _ w (guarded_does A tr o rs p _ _ (applyNetworkPolicy_does st)) Hw)
      as (l1 & x1 & (np & Hpol & Hin) & -> & Hw1) end.
  match goal with |- provisioned w ((guarded A ?o ?rs ?p _ ≫= ?k) ?w1) =>
    destruct (does_then tr _ k _ w1 (guarded_does A tr o rs p _ _ (ensureSA_does st)) Hw1) as (l2 & saName & Hsa & -> & Hw2) end.
  set (w2 := extend l2 (extend l1 w)) in *.
  change (e_RuleSet (e_Spec (with_status e st))) with (e_RuleSet (e_Spec e)).
  destruct (ensureCacheToken_gives saName w2 Hsa Hw2) as (w3 & entry & Hr & Hk & Hobt).
  pose proof (ensureCacheToken_minted A req saName (e_RuleSet (e_Spec e)) w2 Hreq Hm) as Hm3.
  rewrite prog_bind_eq, guarded_run, Hr in *. destruct Hm3 as [Hm3 _].
  pose proof (minted_issued _ _ Hreq Hm3 Hk) as Hiss. destruct (Hiss) as [Hne _].
  destruct (String.eqb_spec (Token entry) "") as [|_]; [done|].
  apply (provision_rest st entry w2 w3 w); try done.
  - destruct Hobt as [[-> _]|(sa & -> & _)]; [done|by apply prefix_app_r].
  - unfold w2. simpl. rewrite <- app_assoc. by apply prefix_app_r.
  - exists np, (l1 ++ l2). unfold w2. simpl. rewrite app_assoc, elem_of_app. split_and!; [done|done|].
    rewrite elem_of_app. tauto.
Qed.

Lemma Reconcile_provisions w :
  req_ok req -> tr `prefix_of` w_trace w -> minted A (w_tokens w) -> provisioned w (Reconcile A r req w).
Proof.
  intros Hreq Hw Hm. unfold Reconcile.
  match goal with |- provisioned w ((attempt ?m ≫= ?k) w) =>
    destruct (does_then tr (attempt m) k (fun _ x => exists st, x = inr (with_status e st)) w) as (l1 & ? & [st ->] & -> & Hw1);
      [|done|] end.
  { eapply does_mono; [apply does_attempt, (does_call _ _ _ (fun o => is_engine o))|].
    - intros tr' Ht. destruct (engine_get _ _ Hs tr' Ht) as [st ->]. eauto.
    - intros l x (o & -> & _ & st & ->). by exists st. }
  apply (provisioned_extend l1). set (w1 := extend l1 w) in *.
  unfold handleNetworkPolicyDeletion. change (e_Meta (with_status e st)) with (e_Meta e).
  rewrite (engine_live _ _ Hs). unfold ensureNetworkPolicyFinalizer. rewrite (engine_finalizer _ _ Hs st).
  rewrite prog_bind_eq. simpl. rewrite prog_bind_eq. simpl. unfold provision.
  match goal with |- provisioned w1 ((initEngineStatus A _ ≫= ?k) w1) =>
    destruct (does_then tr _ k _ w1 (initEngineStatus_does st) Hw1) as (l2 & ? & (st2 & ->) & -> & Hw2) end.
  apply (provisioned_extend l2). set (w2 := extend l2 w1) in *.
  match goal with |- provisioned w2 ((isRuleSetDegraded A _ ≫= ?k) w2) =>
    destruct (does_then tr _ k _ w2 (isRuleSetDegraded_does st2) Hw2) as (l3 & ? & -> & -> & Hw3) end.
  apply (provisioned_extend l3). unfold selectDriver.
  change (e_Spec (with_status e st2)) with (e_Spec e).
  destruct (engine_driver _ _ Hs) as [Hd|Hd]; rewrite Hd; simpl; by apply provisionWasmDriver_provisions.
Qed.
End settled.

(** ** The properties *)

Section properties.
Context `{ApiMeta} (A : api) (r : EngineReconciler).

(** C4: every good Engine is provisioned.  Whatever Engines were reconciled before,
    once the cluster has settled on an Engine its reconciliation ends without
    error: it has written the NetworkPolicy of the Engine, then applied the
    WasmPlugin, for the cache key of the Engine's RuleSet and with a non-empty
    token that was issued for this key to an account of the namespace, then set
    the status to Ready; the token is kept in the store.  The requeue comes at
    least a second later, when the token needs renewal, and before it expires
    (or after the second). *)
Theorem engine_provisioned
    (Hget : forall tr nn e, get_Engine A tr nn = inr e -> object_name (e_Meta e) = nn)
    (Hpatch : forall tr e e', patch_Engine_status A tr e = inr e' ->
       object_name (e_Meta e') = object_name (e_Meta e))
    (reqs : list NamespacedName) (e : Engine) :
  let req := object_name (e_Meta e) in
  let w := reconcile_engines A r reqs empty_world in
  let cacheKey := Namespace (e_Meta e) +:+ "/" +:+ e_RuleSet (e_Spec e) in
  Forall req_ok (reqs ++ [req]) -> settled_engine A r (w_trace w) e ->
  exists w' d entry l1 l2 np u conds tr' sa,
    Reconcile A r req w = (w', inr {| RequeueAfter := d |}) /\
    w_trace w' = w_trace w ++ l1 ++ EffApply u :: l2 /\
    (EffCreatePolicy np ∈ l1 \/ EffUpdatePolicy np ∈ l1) /\ policy_of A r e np /\
    u_Name u = WasmPluginNamePrefix +:+ Name (e_Meta e) /\
    plugin_config "cache_server_instance" u = Some (VString cacheKey) /\
    plugin_config "cache_token" u = Some (VString (Token entry)) /\ Token entry <> "" /\
    create_token A tr' {| nn_Namespace := Namespace (e_Meta e); nn_Name := sa |} [Audience cacheKey]
      tokenExpirationSeconds = inr (Token entry, ExpiresAt entry) /\
    w_tokens w' !! token_key req (e_RuleSet (e_Spec e)) = Some entry /\
    last_status l2 = Some conds /\
    is_ready conds (Generation (e_Meta e)) "Configured" "WasmPlugin successfully created/updated" /\
    Second <= d /\
    (d < int64_max -> forall t, now A (w_trace w') + d <= t -> NeedsRenewal t entry = true) /\
    (IssuedAt entry <= ExpiresAt entry -> d <= Z.max (ExpiresAt entry - now A (w_trace w')) Second).
Proof.
  intros req w cacheKey [Hreqs [Hreq _]%Forall_cons]%Forall_app Hs.
  pose proof (reconcile_engines_minted A r Hget Hpatch reqs empty_world Hreqs (empty_minted A)) as Hm.
  destruct (Reconcile_provisions A r (w_trace w) e Hs w Hreq (reflexivity _) Hm) as
    (w' & entry & l1 & l2 & np & u & conds & Hr & Ht & Hnp & Hpol & (_ & Hun & Hk & Hc) & Hst & (Hne & tr' & sa & Hcr) &
     Hls & Hrd & _).
  eexists w', _, entry, l1, l2, np, u, conds, tr', sa. split; [exact Hr|].
  split_and!; try done; [lia| |].
  - intros Hd t Hle. unfold NeedsRenewal, time_Before, time_Sub in *.
    rewrite (proj2 (Z.ltb_ge _ _)); [done|]. unfold int64_min, int64_max in *. lia.
  - intros Hie. pose proof (RenewalDeadline_within entry Hie). unfold time_Sub, int64_min, int64_max, Second, Millisecond. lia.
Qed.

(** C8: tokens are renewed in time.  When a settled Engine is reconciled again,
    not before the delay its last reconciliation asked for, and its stored token
    is still the one stored then, a new token is requested before the plugin is
    applied, and the plugin carries it. *)
Theorem token_renewed_in_time
    (Hclock : forall tr tr', tr `prefix_of` tr' -> now A tr <= now A tr')
    (tr : list effect) (e : Engine) (w1 w1' w2 : world) (d : Z) :
  let req := object_name (e_Meta e) in
  let rulesetName := e_RuleSet (e_Spec e) in
  req_ok req -> settled_engine A r tr e ->
  tr `prefix_of` w_trace w1 -> minted A (w_tokens w1) ->
  Reconcile A r req w1 = (w1', inr {| RequeueAfter := d |}) -> d < int64_max ->
  w_trace w1' `prefix_of` w_trace w2 -> minted A (w_tokens w2) ->
  w_tokens w2 !! token_key req rulesetName = w_tokens w1' !! token_key req rulesetName ->
  now A (w_trace w1') + d <= now A (w_trace w2) ->
  exists w2' d' l1 l2 u sa tok expiresAt,
    Reconcile A r req w2 = (w2', inr {| RequeueAfter := d' |}) /\
    w_trace w2' = w_trace w2 ++ l1 ++
      EffCreateToken sa [token_audience req rulesetName] tokenExpirationSeconds :: EffApply u :: l2 /\
    create_token A (w_trace w2 ++ l1) sa [token_audience req rulesetName] tokenExpirationSeconds = inr (tok, expiresAt) /\
    plugin_config "cache_token" u = Some (VString tok).
Proof.
  intros req rulesetName Hreq Hs Hw1 Hm1 Hr1 Hd Hw2 Hm2 Hkey Hle.
  destruct (Reconcile_provisions A r tr e Hs w1 Hreq Hw1 Hm1) as
    (w' & entry & l0 & l0' & _ & u0 & _ & Hr & Ht & _ & _ & _ & Hst & _).
  unfold req in Hr1. rewrite Hr1 in Hr. injection Hr as <- ->.
  assert (tr `prefix_of` w_trace w2) as Htr2.
  { etrans; [exact Hw1|]. etrans; [|exact Hw2]. rewrite Ht. by apply prefix_app_r. }
  destruct (Reconcile_provisions A r tr e Hs w2 Hreq Htr2 Hm2) as
    (w2' & entry2 & l1 & l2 & np & u & conds & Hr2 & Ht2 & _ & _ & (_ & _ & _ & Hc) & _ & _ & _ & _ &
     wa & wb & Hpa & Htok & Hwb & Hobt).
  destruct Hobt as [(-> & Hk & Hlt)|(saName & Hwa & Hcr & _)].
  - exfalso. rewrite Htok in Hk. unfold req, rulesetName in *. rewrite Hkey, Hst in Hk. injection Hk as <-.
    pose proof (Hclock _ _ Hpa). unfold time_Sub, int64_min, int64_max in *. lia.
  - destruct Hpa as [l Hl]. rewrite Hl, <- app_assoc in Hwa. rewrite Hwa in Hwb. apply app_inv_head in Hwb as <-.
    rewrite <- app_assoc in Ht2. rewrite Hl in Hcr. eexists w2', _, l, l2, u, _, (Token entry2), (ExpiresAt entry2).
    split_and!; [exact Hr2|exact Ht2|exact Hcr|exact Hc].
Qed.
End properties.

(** ** A cluster that provisions the sample Engine

    The cluster [B], but that a minute passes with each call, and that there is
    one account, which gets tokens for the RuleSet of the sample Engine only. *)
Definition issuing_api (B : api) (issue : list effect -> string) : api :=
  let clock tr := Z.of_nat (length tr) * Minute in
  {| now := clock; IsNotFound := IsNotFound B; get_RuleSet := get_RuleSet B; get_RuleSource := get_RuleSource B;
     get_RuleData := get_RuleData B; get_Engine := get_Engine B; patch_RuleSet_status := patch_RuleSet_status B;
     patch_Engine_status := patch_Engine_status B; patch_Engine := patch_Engine B; list_policies := list_policies B;
     create_policy := create_policy B; update_policy := update_policy B; delete_policy := delete_policy B;
     list_service_accounts := list_service_accounts B;
     create_service_account := fun _ sa => inr {| sa_Namespace := sa_Namespace sa; sa_Name := "sa";
       sa_GenerateName := sa_GenerateName sa; sa_Labels := sa_Labels sa; sa_Owners := sa_Owners sa |};
     create_token := fun tr sa audiences secs =>
       if bool_decide (sa = {| nn_Namespace := "ns"; nn_Name := "sa" |} /\ audiences = [Audience "ns/rs"])
       then inr (issue tr, clock tr + secs * Second) else inl not_found;
     apply_object := apply_object B; set_controller_reference := set_controller_reference B;
     ContainsFinalizer := ContainsFinalizer B; AddFinalizer := AddFinalizer B; RemoveFinalizer := RemoveFinalizer B;
     LabelSelectorAsSelector := LabelSelectorAsSelector B; list_Engines := list_Engines B;
     IsDNS1035Label := IsDNS1035Label B; NewWAF := NewWAF B |}.

(** Tokens that tell when they were issued. *)
Definition dated_tokens (tr : list effect) : string := "jwt" +:+ Itoa (Z.of_nat (length tr)).

Lemma issuing_settled rulesets srcs rds waf rs issue tr :
  let B := quiet_api rulesets srcs rds [sample_engine] waf in
  get_RuleSet B [] {| nn_Namespace := "ns"; nn_Name := "rs" |} = inr rs -> usable (H := list_ApiMeta) rs ->
  (forall tr, issue tr <> "") ->
  settled_engine (H := list_ApiMeta) (issuing_api B issue) sample_reconciler tr sample_engine.
Proof.
  intros B Hrs Huse Hissue.
  assert (Hg : gives_tokens (issuing_api B issue) tr sample_engine "sa").
  { intros tr' _. exists (issue tr'), (Z.of_nat (length tr') * Minute + tokenExpirationSeconds * Second).
    split; [reflexivity|]. cbn [now issuing_api]. rewrite length_app, Nat2Z.inj_add.
    assert (Minute <= tokenExpirationSeconds * Second) by (vm_compute; discriminate). simpl (Z.of_nat (length [_])). lia. }
  split; intros; try by eauto.
  - by exists [].
  - cbn [create_token issuing_api] in *. case_bool_decide; [|done]. by simplify_eq.
  - exists u. by repeat split.
Qed.

Definition provisioning_api : api := issuing_api sample_engine_api dated_tokens.

Lemma provisioning_patch tr e e' :
  patch_Engine_status provisioning_api tr e = inr e' -> object_name (e_Meta e') = object_name (e_Meta e).
Proof. by intros [= <-]. Qed.

Lemma provisioning_settled tr :
  settled_engine (H := list_ApiMeta) provisioning_api sample_reconciler tr sample_engine.
Proof. by eapply issuing_settled. Qed.

Lemma engine_provisioned_witness :
  let A := provisioning_api in
  let req := object_name (e_Meta sample_engine) in
  exists w d, Reconcile (H := list_ApiMeta) A sample_reconciler req empty_world = (w, inr {| RequeueAfter := d |}) /\
    Second <= d.
Proof.
  intros A req.
  destruct (engine_provisioned (H := list_ApiMeta) A sample_reconciler (fun tr nn e => sample_find_Engine nn e tr)
    provisioning_patch
    [] sample_engine) as (w & d & entry & l1 & l2 & np & u & conds & tr' & sa & Hr & _ & _ & _ & _ & _ & _ & _ & _ & _ & _ & _ & Hd & _).
  - repeat constructor.
  - apply provisioning_settled.
  - exists w, d. split; [exact Hr|exact Hd].
Defined.

(** The second reconciliation comes an hour later. *)
Definition renewal_waits : list effect := replicate 60 (EffList "Engine" "ns" ∅).

Lemma token_renewed_in_time_witness :
  let A := provisioning_api in
  let req := object_name (e_Meta sample_engine) in
  let w1 := (Reconcile (H := list_ApiMeta) A sample_reconciler req empty_world).1 in
  exists w2 d l1 l2 u sa tok expiresAt,
    Reconcile (H := list_ApiMeta) A sample_reconciler req (extend renewal_waits w1) = (w2, inr {| RequeueAfter := d |}) /\
    w_trace w2 = w_trace (extend renewal_waits w1) ++ l1 ++
      EffCreateToken sa [token_audience req "rs"] tokenExpirationSeconds :: EffApply u :: l2 /\
    create_token A (w_trace (extend renewal_waits w1) ++ l1) sa [token_audience req "rs"] tokenExpirationSeconds =
      inr (tok, expiresAt) /\
    plugin_config "cache_token" u = Some (VString tok).
Proof.
  intros A req w1.
  assert (Hm : minted A (w_tokens w1)).
  { apply (reconcile_engines_minted (H := list_ApiMeta) A sample_reconciler (fun tr nn e => sample_find_Engine nn e tr)
      provisioning_patch
      [req] empty_world); [repeat constructor|apply empty_minted]. }
  unfold w1 in *. clear w1.
  assert (Hd : let '(w, res) := Reconcile (H := list_ApiMeta) A sample_reconciler req empty_world in
    match res with
    | inl _ => False
    | inr d => bool_decide (RequeueAfter d < int64_max /\
        now A (w_trace w) + RequeueAfter d <= now A (w_trace (extend renewal_waits w))) = true
    end) by (vm_compute; reflexivity).
  destruct (Reconcile (H := list_ApiMeta) A sample_reconciler req empty_world) as [w1 [err|[d]]] eqn:Hr1;
    [destruct Hd|]. cbn [fst] in *. apply bool_decide_eq_true_1 in Hd as [Hd1 Hd2].
  apply (token_renewed_in_time (H := list_ApiMeta) A sample_reconciler) with (tr := []) (e := sample_engine)
    (w1 := empty_world) (w1' := w1) (d := d).
  - intros tr tr' [l ->]. cbn [now A provisioning_api issuing_api]. rewrite length_app. unfold Minute, Second, Millisecond. lia.
  - repeat constructor.
  - apply provisioning_settled.
  - apply prefix_nil.
  - apply empty_minted.
  - exact Hr1.
  - exact Hd1.
  - apply prefix_app_r. reflexivity.
  - exact Hm.
  - reflexivity.
  - exact Hd2.
Defined.
