(* ===== verification/EndToEnd.v ===== *)
(** * From an Engine to its rules

    The composition of [System], [Serving] and [Provisioning]: the plugin that the
    Engine controller deploys carries the key and the token with which the cache
    server answers it, with the rules of its RuleSet and nothing else.  What is
    relied on is what the API server promises of its tokens. *)
From S2P Require Import Prelude GoLib GoErrors RulesetCache RulesetCacheSpec TokenAuth CacheServer CacheLifecycle MemFS Unsupported KubeApi Status EngineNetwork EngineToken EngineController RuleSetController System Serving Provisioning.

(** ** What a run leaves alone *)

Section runs.
Context `{ApiMeta} (A : api) (range_order : gmap string string -> list string)
  (r : EngineReconciler) (format_time : Z -> string) (marshal_time : Z -> gerror + string).

#[local] Abbreviation step := (operator_step A range_order r format_time marshal_time).
#[local] Abbreviation run := (operator_run A range_order r format_time marshal_time).

(** The reconciliation of a RuleSet keeps the token store. *)
Lemma report_source_errors_preserves I errs msg : preserves I (report_source_errors errs msg).
Proof. revert msg. induction errs; intros msg; simpl; solve_preserves. Qed.

Lemma degrade_preserves I rs reason message : preserves I (degrade A rs reason message).
Proof. unfold degrade, patchDegraded, patch_conditions, status_patch. solve_preserves. Qed.
#[local] Hint Resolve report_source_errors_preserves degrade_preserves : operator.

Lemma loadData_loop_preserves I rs refs df : preserves I (loadData_loop A rs refs df).
Proof. revert df. induction refs; intros df; simpl; solve_preserves. Qed.
Lemma loadSources_loop_preserves I rs refs frags : preserves I (loadSources_loop A rs refs frags).
Proof. revert frags. induction refs; intros frags; simpl; solve_preserves. Qed.
#[local] Hint Resolve loadData_loop_preserves loadSources_loop_preserves : operator.

Lemma RuleSet_Reconcile_preserves I req : preserves I (RuleSetController.Reconcile A range_order req).
Proof.
  unfold RuleSetController.Reconcile, initializeStatus, loadData, loadSources, validate_and_cache,
    validateAggregatedRules, rejectUnsupportedRules, cacheRules, patchReady, patch_conditions, status_patch.
  solve_preserves.
Qed.

(** Requests for Engines name them as the API server does. *)
Definition names_ok (ev : operator_event) : Prop :=
  match ev with ReconcileEngine req => req_ok req | _ => True end.

(** Engines are found under their name, which a status patch keeps. *)
Record engines_named : Prop := {
  engines_get tr nn e : get_Engine A tr nn = inr e -> object_name (e_Meta e) = nn;
  engines_patch tr e e' : patch_Engine_status A tr e = inr e' -> object_name (e_Meta e') = object_name (e_Meta e)
}.
Context (Hengines : engines_named) (Hnamed : named A).

Lemma step_minted ev op op' ops : names_ok ev -> step ev op = Some (op', ops) ->
  minted A (w_tokens (op_world op)) -> minted A (w_tokens (op_world op')).
Proof.
  destruct ev as [req stamp|req|ev]; cbn [operator_step]; intros Hok Hs Hm.
  - apply bind_Some in Hs as (st & _ & [= <- _]). exact (RuleSet_Reconcile_preserves (minted A) req _ Hm).
  - injection Hs as <- _. by apply (Reconcile_safe A r (engines_get Hengines) (engines_patch Hengines)).
  - destruct ev; try done; try (case_bool_decide; [|done]); by apply bind_Some in Hs as (st & _ & [= <- _]).
Qed.

Lemma run_minted evs op op' ops : Forall names_ok evs -> run evs op = Some (op', ops) ->
  minted A (w_tokens (op_world op)) -> minted A (w_tokens (op_world op')).
Proof.
  intros Hevs. revert op ops. induction Hevs as [|ev evs Hev Hevs IH]; intros op ops; cbn [operator_run]; [by intros [= <- _]|].
  intros Hr Hm. apply bind_Some in Hr as ([op1 ops1] & Hst & Hr). apply bind_Some in Hr as ([op2 ops2] & Hr & [= <- _]).
  eapply IH; [exact Hr|]. by eapply step_minted.
Qed.

(** What was called stays called. *)
Lemma run_extends evs op op' ops : run evs op = Some (op', ops) ->
  w_trace (op_world op) `prefix_of` w_trace (op_world op').
Proof.
  revert op ops. induction evs as [|ev evs IH]; intros op ops; cbn [operator_run]; [by intros [= <- _]|].
  intros Hr. apply bind_Some in Hr as ([op1 ops1] & Hst & Hr). apply bind_Some in Hr as ([op2 ops2] & Hr & [= <- _]).
  etrans; [by eapply step_extends|by eapply IH].
Qed.

Lemma operator_run_inv evs evs' op op2 ops : run (evs ++ evs') op = Some (op2, ops) ->
  exists op1 ops1 ops2, run evs op = Some (op1, ops1) /\ run evs' op1 = Some (op2, ops2) /\ ops = ops1 ++ ops2.
Proof.
  revert op ops. induction evs as [|ev evs IH]; intros op ops; cbn [operator_run app]; [by exists op, [], ops|].
  intros Hr. apply bind_Some in Hr as ([op3 ops3] & Hst & Hr). apply bind_Some in Hr as ([op4 ops4] & Hr & [= <- <-]).
  destruct (IH _ _ Hr) as (op1 & ops1 & ops2 & H1 & H2 & ->). exists op1, (ops3 ++ ops1), ops2.
  rewrite Hst. simpl. rewrite H1. simpl. by rewrite app_assoc.
Qed.
End runs.

(** ** What the API server promises of its tokens *)

(** Issued tokens are JWTs, without a colon. *)
Definition issues_jwts (A : api) : Prop :=
  forall tr sa audiences secs tok expiresAt,
    create_token A tr sa audiences secs = inr (tok, expiresAt) -> byte_in ":" tok = false.

Definition account_username (sa : NamespacedName) : string :=
  serviceAccountPrefix +:+ nn_Namespace sa +:+ ":" +:+ nn_Name sa.

(** A review accepts an issued token for its audience only, as its account. *)
Definition scoped (A : api) (y : exchange) : Prop :=
  jwt_only y /\
  forall tr sa audience secs tok expiresAt audiences status,
    create_token A tr sa [audience] secs = inr (tok, expiresAt) ->
    x_review y tok audiences = inr status -> Authenticated status = true ->
    audiences = [audience] /\ Username status = account_username sa.

(** A review accepts an issued token that has not expired when it ends. *)
Definition accepts_issued (A : api) (x : exchange) : Prop :=
  forall tr sa audience secs tok expiresAt,
    create_token A tr sa [audience] secs = inr (tok, expiresAt) -> t_store (x_env x) < expiresAt ->
    exists status, x_review x tok [audience] = inr status /\ Authenticated status = true /\
      Username status = account_username sa.

Section tokens.
Context (A : api) (tr : list effect) (ns name key tok : string) (secs expiresAt : Z).
#[local] Abbreviation sa := {| nn_Namespace := ns; nn_Name := name |}.
Context (Hissued : create_token A tr sa [Audience key] secs = inr (tok, expiresAt)).

Lemma scoped_vouches y : byte_in ":" ns = false -> scoped A y -> vouches_only tok key ns y.
Proof.
  intros Hns [_ Hy] res (status & Hr & Ha & Hp).
  destruct (Hy _ _ _ _ _ _ _ _ Hissued Hr Ha) as [_ Hu].
  assert (parseServiceAccountUsername (Username status) = inr (ns, name)) as Hp' by by apply parse_username_spec.
  rewrite Hp' in Hp. by injection Hp as <-.
Qed.

Lemma issued_accepts x : accepts_issued A x -> t_store (x_env x) < expiresAt -> accepts_token tok key ns x.
Proof. intros Hx Ht. destruct (Hx _ _ _ _ _ _ Hissued Ht) as (status & ? & ? & ?). by exists status, name. Qed.

(** It opens no other key. *)
Lemma scoped_audience y key' status : scoped A y -> x_review y tok [Audience key'] = inr status ->
  Authenticated status = true -> key' = key.
Proof.
  intros [_ Hy] Hr Ha. destruct (Hy _ _ _ _ _ _ _ _ Hissued Hr Ha) as [Heq _].
  injection Heq as Heq. by simplify_eq.
Qed.
End tokens.

(** ** The property *)

Section plugin.
Context `{ApiMeta} (A : api) (range_order : gmap string string -> list string)
  (r : EngineReconciler) (format_time : Z -> string) (marshal_time : Z -> gerror + string).

#[local] Abbreviation run := (operator_run A range_order r format_time marshal_time).

(** The plugin deployed for a settled Engine. *)
Lemma engine_step e op op' ops :
  req_ok (object_name (e_Meta e)) -> minted A (w_tokens (op_world op)) ->
  settled_engine A r (w_trace (op_world op)) e ->
  operator_step A range_order r format_time marshal_time (ReconcileEngine (object_name (e_Meta e))) op = Some (op', ops) ->
  exists u tok tr sa expiresAt, let cacheKey := Namespace (e_Meta e) +:+ "/" +:+ e_RuleSet (e_Spec e) in
    EffApply u ∈ w_trace (op_world op') /\
    plugin_config "cache_server_instance" u = Some (VString cacheKey) /\
    plugin_config "cache_token" u = Some (VString tok) /\ tok <> "" /\
    create_token A tr {| nn_Namespace := Namespace (e_Meta e); nn_Name := sa |} [Audience cacheKey]
      tokenExpirationSeconds = inr (tok, expiresAt).
Proof.
  intros Hreq Hm Hs. cbn [operator_step]. intros [= <- _]. cbn [op_world].
  destruct (Reconcile_provisions A r _ e Hs _ Hreq (reflexivity _) Hm) as
    (w' & entry & l1 & l2 & np & u & conds & -> & Ht & _ & _ & (_ & _ & Hk & Hc) & _ & (Hne & tr' & sa & Hcr) & _).
  exists u, (Token entry), tr', sa, (ExpiresAt entry). split_and!; [|done..].
  simpl. rewrite Ht, !elem_of_app. right. right. by left.
Qed.

Lemma ruleset_key_of rs ns name : object_name (rs_Meta rs) = {| nn_Namespace := ns; nn_Name := name |} ->
  ns = Namespace (rs_Meta rs) /\ ns +:+ "/" +:+ name = ruleset_key rs.
Proof. unfold object_name, ruleset_key. by intros [= <- <-]. Qed.

End plugin.

(** ** A run in which the plugin of the sample Engine gets its rules *)

Definition site_base : api :=
  quiet_api [sample_ruleset] sample_sources sample_datas [sample_engine] sample_waf.
Definition site : api := issuing_api site_base (fun _ => "jwt").

(** The token [jwt] is accepted for its audience. *)
Definition scoped_reviewer (token : string) (audiences : list string) : gerror + TokenReviewStatus :=
  if String.eqb token "jwt" && bool_decide (audiences = [Audience "ns/rs"]) then inr sample_status
  else inl (ErrText "invalid token").

Definition site_request (path : string) (t : Z) : exchange :=
  {| x_ops := []; x_review := scoped_reviewer; x_env := sample_env t; x_req := sample_request path |}.

Definition site_before : list operator_event := [Server HttpListens].
Definition site_between : list operator_event := [Server (Handle (site_request "/rules/ns/rs/latest" 5))].
Definition site_after : list operator_event := [Server (GcTick 10 ["ns/rs"] ["ns/rs"])].

Lemma site_named : named site.
Proof.
  assert (Hg : forall nn o, get_RuleSet site [] nn = inr o ->
    object_name (rs_Meta o) = nn /\ nn_Namespace nn = "ns").
  { intros nn o. unfold site, issuing_api, site_base, quiet_api. cbn [get_RuleSet]. rewrite filter_cons. simpl.
    case_decide as Hn; [|done]. intros [= <-]. destruct nn, Hn as [Hns Hname]. simpl in *. by subst. }
  split.
  - intros tr nn o Ho. by apply Hg.
  - by intros tr o o' [= <-].
  - intros tr nn o Ho. destruct (Hg nn o Ho) as [_ ->]. done.
Qed.

Lemma site_engines : engines_named site.
Proof.
  split; [|by intros tr e e' [= <-]]. intros tr nn e. unfold site, issuing_api, site_base, quiet_api.
  cbn [get_Engine]. rewrite filter_cons. simpl. case_decide as Hn; [|done]. intros [= <-].
  destruct nn, Hn as [Hns Hname]. simpl in *. by subst.
Qed.

Lemma site_create tr sa audiences secs tok expiresAt :
  create_token site tr sa audiences secs = inr (tok, expiresAt) ->
  tok = "jwt" /\ sa = {| nn_Namespace := "ns"; nn_Name := "sa" |} /\ audiences = [Audience "ns/rs"].
Proof. cbn [create_token site issuing_api]. case_bool_decide as Hb; [|done]. destruct Hb as [-> ->]. by intros [= <- _]. Qed.

Lemma site_expiry tr sa audiences tok expiresAt :
  create_token site tr sa audiences tokenExpirationSeconds = inr (tok, expiresAt) -> 20 < expiresAt.
Proof.
  cbn [create_token site issuing_api]. case_bool_decide; [|done]. intros [= _ <-].
  assert (20 < tokenExpirationSeconds * Second) by (vm_compute; reflexivity).
  assert (0 < Minute) by (vm_compute; reflexivity). nia.
Qed.

Lemma site_bearer path t : extractBearerToken (x_req (site_request path t)) = "jwt".
Proof. vm_compute. reflexivity. Qed.

Lemma site_jwts : issues_jwts site.
Proof. intros tr sa audiences secs tok expiresAt Hc. by apply site_create in Hc as [-> _]. Qed.

Lemma site_scoped y : x_review y = scoped_reviewer -> scoped site y.
Proof.
  intros Hy. unfold scoped, jwt_only. rewrite Hy. unfold scoped_reviewer. split.
  - intros token audiences status. by destruct (String.eqb_spec token "jwt") as [->|].
  - intros tr sa audience secs tok expiresAt audiences status Hc. apply site_create in Hc as (-> & -> & Ha).
    simpl. case_bool_decide as Hb; [|done]. intros [= <-] _. by subst.
Qed.

Lemma site_accepts y : x_review y = scoped_reviewer -> accepts_issued site y.
Proof.
  intros Hy tr sa audience secs tok expiresAt Hc _. apply site_create in Hc as (-> & -> & [= ->]).
  rewrite Hy. by exists sample_status.
Qed.

Lemma site_settled tr : settled site sample_order tr sample_ruleset sample_sources sample_datas.
Proof.
  split.
  - intros tr' _. by exists sample_ruleset.
  - intros tr' o _ Ho. by exists o.
  - repeat constructor.
  - repeat constructor.
  - reflexivity.
  - left. vm_compute. reflexivity.
Qed.

Lemma site_engine_settled tr : settled_engine (H := list_ApiMeta) site sample_reconciler tr sample_engine.
Proof. by eapply issuing_settled; [vm_compute; reflexivity|by intros c|done]. Qed.

#[local] Abbreviation site_run :=
  (operator_run (H := list_ApiMeta) site sample_order sample_reconciler Itoa sample_marshal).
#[local] Abbreviation site_events := (ReconcileEngine (object_name (e_Meta sample_engine)) ::
  site_between ++ ReconcileRuleSet (object_name (rs_Meta sample_ruleset)) serving_stamp :: site_after).
#[local] Abbreviation site_answer op path :=
  (StatusCode (exec_exchange Itoa sample_marshal (site_request path 20) (lc_server (op_server op))).2).

