(* ===== verification/ManagerMain.v ===== *)
(** * The manager binary ([cmd/manager/main.go], [internal/controller/manager.go],
    [internal/defaults])

    The start-up of the operator: the configuration, its checks, and the calls on the
    controller manager in their order.  What the manager, the API client and the
    metrics registry answer is an argument; log lines are left out. *)
From S2P Require Import Prelude GoLib GoErrors RulesetCache CacheServer CacheMetrics KubeApi EngineNetwork EngineController.

(** ** Configuration *)

Definition DefaultCorazaWasmOCIReference : string :=
  "oci://ghcr.io/networking-incubator/coraza-proxy-wasm:9ca29e4f4cf3a8c1710a7ed7a8ec399b56cb7296".

Record config := {
  metricsAddr : string;
  probeAddr : string;
  enableLeaderElect : bool;
  metricsCertPath : string;
  metricsCertName : string;
  metricsCertKey : string;
  cacheGCInterval : Z;
  cacheMaxAge : Z;
  cacheMaxSize : Z;
  cacheServerPort : Z;
  envoyClusterName : string;
  cfg_istioRevision : string;
  cfg_defaultWasmImage : string;
  operatorName : string
}.

Definition resolveDefaultWasmImage (Getenv : string -> string) : string :=
  let v := Getenv "CORAZA_DEFAULT_WASM_IMAGE" in
  if negb (String.eqb v "") then v else DefaultCorazaWasmOCIReference.

(** The defaults [parseFlags] registers. *)
Definition flag_defaults (Getenv : string -> string) : config :=
  {| metricsAddr := "0"; probeAddr := ":8081"; enableLeaderElect := false; metricsCertPath := "";
     metricsCertName := "tls.crt"; metricsCertKey := "tls.key"; cacheGCInterval := CacheGCInterval;
     cacheMaxAge := CacheMaxAge; cacheMaxSize := CacheMaxSize; cacheServerPort := DefaultRuleSetCacheServerPort;
     envoyClusterName := ""; cfg_istioRevision := ""; cfg_defaultWasmImage := resolveDefaultWasmImage Getenv;
     operatorName := "" |}.

Definition validateDefaultWasmImage (ref : string) : gerror + unit :=
  if String.eqb ref "" then inl (ErrText "must be non-empty") else
  if MaxImageLen <? len ref then
    inl (ErrText ("must be at most " +:+ Itoa MaxImageLen +:+ " characters (got " +:+ Itoa (len ref) +:+ ")")) else
  if negb (HasPrefix ref "oci://") then inl (ErrText "must be an OCI reference starting with oci://") else
  inr tt.

(** ** Options of the controller manager *)

(** The fields of [tls.Config] that are set. *)
Record tls_config := { MinVersion : Z; NextProtos : list string }.
Definition VersionTLS13 : Z := 772.

Definition buildTLSOpts : list (tls_config -> tls_config) :=
  [fun c => {| MinVersion := VersionTLS13; NextProtos := ["http/1.1"] |}].

Inductive filter_provider := NoFilter | WithAuthenticationAndAuthorization.
Record metrics_options := {
  BindAddress : string;
  SecureServing : bool;
  TLSOpts : list (tls_config -> tls_config);
  FilterProvider : filter_provider;
  CertDir : string;
  CertName : string;
  KeyName : string
}.

Definition buildMetricsServerOptions (cfg : config) (tlsOpts : list (tls_config -> tls_config)) : metrics_options :=
  let with_cert := 0 <? len (metricsCertPath cfg) in
  {| BindAddress := metricsAddr cfg; SecureServing := true; TLSOpts := tlsOpts;
     FilterProvider := WithAuthenticationAndAuthorization;
     CertDir := if with_cert then metricsCertPath cfg else "";
     CertName := if with_cert then metricsCertName cfg else "";
     KeyName := if with_cert then metricsCertKey cfg else "" |}.

Inductive transform := NoTransform | TransformStripManagedFields.
(** The namespaces the informer of a kind is limited to. *)
Record cache_options := { DefaultTransform : transform; ByObject : list (string * list string) }.

Definition buildCacheOptions (operatorNamespace : string) : cache_options :=
  {| DefaultTransform := TransformStripManagedFields; ByObject := [("NetworkPolicy", [operatorNamespace])] |}.

Record manager_options := {
  Metrics : metrics_options;
  HealthProbeBindAddress : string;
  LeaderElection : bool;
  LeaderElectionID : string;
  Cache : cache_options
}.

(** ** Start-up as calls *)

Inductive runnable :=
  | RunCacheServer (addr : string) (gc : GarbageCollectionConfig)
  | RunIstioPrerequisites (p : IstioPrerequisites).

Inductive controller :=
  | RuleSetReconciler
  | EngineReconciler_ (r : EngineReconciler).

Inductive action :=
  | GetConfigOrDie
  | NewManager (o : manager_options)
  | NewForConfig
  | RegisterMetrics (gc : GarbageCollectionConfig)
  | Add (r : runnable)
  | SetupWithManager (c : controller)
  | AddHealthzCheck (name : string)
  | AddReadyzCheck (name : string)
  | Start.

Section setup.
(** What a call answers after the earlier ones, and the metrics registry. *)
Context (answer : list action -> action -> option gerror).
Context {R : Type} (register : Registerer -> collector -> R -> R * (gerror + unit)).
(** The addresses of [metrics.Registry] and of the cache. *)
Context (registry cache_addr : nat).

Record setup_state := { calls : list action; metrics : use_state R }.

(** [None]: [os.Exit(1)]. *)
Definition setup (A : Type) : Type := setup_state -> setup_state * option A.
#[local] Instance setup_ret : MRet setup := fun A a st => (st, Some a).
#[local] Instance setup_bind : MBind setup := fun A B k m st =>
  match m st with (st', None) => (st', None) | (st', Some a) => k a st' end.
Definition exit1 {A} : setup A := fun st => (st, None).

(** A call that ends the process when it fails. *)
Definition must (a : action) : setup unit := fun st =>
  let st' := {| calls := calls st ++ [a]; metrics := metrics st |} in
  match answer (calls st) a with None => (st', Some tt) | Some _ => (st', None) end.

Definition validateFlags (cfg : config) : setup unit :=
  if String.eqb (envoyClusterName cfg) "" then exit1 else
  match validateDefaultWasmImage (cfg_defaultWasmImage cfg) with inl _ => exit1 | inr _ => mret tt end.

Definition register_metrics (gc : GarbageCollectionConfig) : setup unit := fun st =>
  let '(m, r) := RegisterUSEMetrics register (PromRegistry registry) cache_addr gc (metrics st) in
  let st' := {| calls := calls st ++ [RegisterMetrics gc]; metrics := m |} in
  match r with inl _ => (st', None) | inr _ => (st', Some tt) end.

Definition setupCacheServer (cfg : config) : setup unit :=
  let gcConfig := {| GCInterval := cacheGCInterval cfg; MaxAge := cacheMaxAge cfg; MaxSize := cacheMaxSize cfg |} in
  _ ← register_metrics gcConfig;
  must (Add (RunCacheServer (":" +:+ Itoa (cacheServerPort cfg)) gcConfig)).

Definition setupIstioPrerequisites (cfg : config) (podNamespace : string) : setup unit :=
  if String.eqb (operatorName cfg) "" then mret tt
  else must (Add (RunIstioPrerequisites
    (NewIstioPrerequisites (operatorName cfg) podNamespace (cfg_istioRevision cfg)))).

(** [controller.SetupControllers]; its caller exits on an error. *)
Definition SetupControllers (envoyClusterName istioRevision defaultWasmImage operatorNamespace : string) : setup unit :=
  _ ← must (SetupWithManager RuleSetReconciler);
  must (SetupWithManager (EngineReconciler_
    {| ruleSetCacheServerCluster := envoyClusterName; istioRevision := istioRevision;
       defaultWasmImage := defaultWasmImage; operatorNamespace := operatorNamespace |})).

Definition setupHealthChecks : setup unit :=
  _ ← must (AddHealthzCheck "healthz");
  must (AddReadyzCheck "readyz").

(** [main] from the creation of the manager on. *)
Definition start_manager (cfg : config) (podNamespace : string) : setup unit :=
  _ ← must GetConfigOrDie;
  _ ← must (NewManager {| Metrics := buildMetricsServerOptions cfg buildTLSOpts;
                          HealthProbeBindAddress := probeAddr cfg; LeaderElection := enableLeaderElect cfg;
                          LeaderElectionID := "waf.k8s.coraza.io"; Cache := buildCacheOptions podNamespace |});
  _ ← must NewForConfig;
  _ ← setupCacheServer cfg;
  _ ← setupIstioPrerequisites cfg podNamespace;
  _ ← SetupControllers (envoyClusterName cfg) (cfg_istioRevision cfg) (cfg_defaultWasmImage cfg) podNamespace;
  _ ← setupHealthChecks;
  must Start.

(** [main] after the flags are parsed. *)
Definition main (Getenv : string -> string) (cfg : config) : setup unit :=
  _ ← validateFlags cfg;
  let podNamespace := Getenv "POD_NAMESPACE" in
  if String.eqb podNamespace "" then exit1 else start_manager cfg podNamespace.
End setup.

(** ** The order of the start-up *)

(** What the command line and the environment must give. *)
Definition startable (cfg : config) (podNamespace : string) : Prop :=
  envoyClusterName cfg <> "" /\
  cfg_defaultWasmImage cfg <> "" /\ len (cfg_defaultWasmImage cfg) <= 1024 /\
  HasPrefix (cfg_defaultWasmImage cfg) "oci://" = true /\
  podNamespace <> "".

(** The calls of a complete start-up. *)
Definition startup_calls (cfg : config) (podNamespace : string) : list action :=
  let gc := {| GCInterval := cacheGCInterval cfg; MaxAge := cacheMaxAge cfg; MaxSize := cacheMaxSize cfg |} in
  [GetConfigOrDie;
   NewManager {| Metrics := buildMetricsServerOptions cfg buildTLSOpts; HealthProbeBindAddress := probeAddr cfg;
                 LeaderElection := enableLeaderElect cfg; LeaderElectionID := "waf.k8s.coraza.io";
                 Cache := buildCacheOptions podNamespace |};
   NewForConfig; RegisterMetrics gc; Add (RunCacheServer (":" +:+ Itoa (cacheServerPort cfg)) gc)] ++
  (if String.eqb (operatorName cfg) "" then [] else
     [Add (RunIstioPrerequisites {| p_operatorName := operatorName cfg; p_namespace := podNamespace;
                                    p_istioRevision := cfg_istioRevision cfg |})]) ++
  [SetupWithManager RuleSetReconciler;
   SetupWithManager (EngineReconciler_
     {| ruleSetCacheServerCluster := envoyClusterName cfg; istioRevision := cfg_istioRevision cfg;
        defaultWasmImage := cfg_defaultWasmImage cfg; operatorNamespace := podNamespace |});
   AddHealthzCheck "healthz"; AddReadyzCheck "readyz"; Start].

#[export] Instance startable_dec cfg ns : Decision (startable cfg ns).
Proof. unfold startable. apply _. Defined.

Lemma validateDefaultWasmImage_ok ref :
  validateDefaultWasmImage ref = inr tt <-> ref <> "" /\ len ref <= 1024 /\ HasPrefix ref "oci://" = true.
Proof.
  unfold validateDefaultWasmImage, MaxImageLen. destruct (String.eqb_spec ref ""); [naive_solver|].
  destruct (Z.ltb_spec 1024 (len ref)); [split; [done|lia]|].
  destruct (HasPrefix ref "oci://"); naive_solver.
Qed.

Section follows.
Context (answer : list action -> action -> option gerror).
Context {R : Type} (register : Registerer -> collector -> R -> R * (gerror + unit)) (registry cache_addr : nat).

(** [m] makes the calls of [plan] in order, or ends at the one that fails. *)
Definition follows {A} (m : setup (R := R) A) (plan : list action) : Prop :=
  forall st, match m st with
             | (st', Some _) => calls st' = calls st ++ plan
             | (st', None) => exists before a after, plan = before ++ a :: after /\ calls st' = calls st ++ before ++ [a]
             end.

Lemma follows_ret {A} (a : A) : follows (setup_ret A a) [].
Proof. intros st. simpl. by rewrite app_nil_r. Qed.

Lemma follows_must a : follows (must answer a) [a].
Proof. intros st. unfold must. destruct (answer _ _); [|done]. by exists [], a, []. Qed.

Lemma follows_register gc : follows (register_metrics register registry cache_addr gc) [RegisterMetrics gc].
Proof.
  intros st. unfold register_metrics. destruct (RegisterUSEMetrics _ _ _ _ _) as [m [e|]]; [|done].
  by exists [], (RegisterMetrics gc), [].
Qed.

Lemma follows_bind {A B} (m : setup A) (k : A -> setup B) l1 l2 :
  follows m l1 -> (forall a, follows (k a) l2) -> follows (setup_bind A B k m) (l1 ++ l2).
Proof.
  intros Hm Hk st. specialize (Hm st). unfold setup_bind. destruct (m st) as [st1 [a|]].
  - specialize (Hk a st1). destruct (k a st1) as [st2 [b|]]; rewrite Hm in Hk.
    + by rewrite Hk, <- app_assoc.
    + destruct Hk as (before & x & after & -> & ->). exists (l1 ++ before), x, after.
      by rewrite <- !app_assoc.
  - destruct Hm as (before & x & after & -> & ->). exists before, x, (after ++ l2). by rewrite <- app_assoc.
Qed.

Lemma follows_istio cfg ns :
  follows (setupIstioPrerequisites answer cfg ns)
    (if String.eqb (operatorName cfg) "" then [] else
     [Add (RunIstioPrerequisites {| p_operatorName := operatorName cfg; p_namespace := ns;
                                    p_istioRevision := cfg_istioRevision cfg |})]).
Proof. unfold setupIstioPrerequisites. case_match; [apply follows_ret|apply follows_must]. Qed.

Lemma follows_two {A B} (m : setup A) (k : setup B) a b :
  follows m [a] -> follows k [b] -> follows (setup_bind A B (fun _ => k) m) [a; b].
Proof. intros Hm Hk. by apply (follows_bind _ _ [a] [b]). Qed.

Lemma follows_start cfg ns :
  follows (start_manager answer register registry cache_addr cfg ns) (startup_calls cfg ns).
Proof.
  apply (follows_bind _ _ [_]); [apply follows_must|intros _].
  apply (follows_bind _ _ [_]); [apply follows_must|intros _].
  apply (follows_bind _ _ [_]); [apply follows_must|intros _].
  apply (follows_bind _ _ [_; _]); [apply follows_two; [apply follows_register|apply follows_must]|intros _].
  apply follows_bind; [apply follows_istio|intros _].
  apply (follows_bind _ _ [_; _]); [apply follows_two; apply follows_must|intros _].
  apply (follows_bind _ _ [_; _]); [apply follows_two; apply follows_must|intros _].
  apply follows_must.
Qed.

Lemma main_startable Getenv cfg (st : setup_state (R := R)) : startable cfg (Getenv "POD_NAMESPACE") ->
  main answer register registry cache_addr Getenv cfg st =
  start_manager answer register registry cache_addr cfg (Getenv "POD_NAMESPACE") st.
Proof.
  intros (Henvoy & Himg & Hlen & Hpre & Hns). unfold main, mbind, setup_bind, validateFlags.
  by rewrite (proj2 (String.eqb_neq _ _) Henvoy), (proj2 (validateDefaultWasmImage_ok _)), (proj2 (String.eqb_neq _ _) Hns).
Qed.

Lemma main_not_startable Getenv cfg (st : setup_state (R := R)) : ~ startable cfg (Getenv "POD_NAMESPACE") ->
  main answer register registry cache_addr Getenv cfg st = (st, None).
Proof.
  intros Hs. unfold main, mbind, setup_bind, validateFlags. unfold startable in Hs.
  pose proof (validateDefaultWasmImage_ok (cfg_defaultWasmImage cfg)) as Hwasm.
  destruct (String.eqb_spec (envoyClusterName cfg) ""); [done|].
  destruct (validateDefaultWasmImage _) as [|[]]; [done|]. cbn.
  destruct (String.eqb_spec (Getenv "POD_NAMESPACE") ""); [done|]. destruct Hs. naive_solver.
Qed.

End follows.
