(* ===== verification/CrsRules.v ===== *)
(** * Core Rule Set files ([tools/corerulesetgen/rules.go])

    A CRS [.conf] file is cut into blocks (one directive with its continuation
    lines, or one other line), the [SecRule] blocks are partitioned into chains,
    and the chains that hold an ignored rule are dropped whole, with a warning. *)
From S2P Require Import Prelude GoLib GoErrors Unsupported.

(** ** Splitting *)

Definition trimLineEnd (line : string) : string :=
  TrimRight (fun a => Ascii.eqb a " " || Ascii.eqb a (ascii_of_N 9) ||
                      Ascii.eqb a (ascii_of_N 13) || Ascii.eqb a nl) line.

(** The [\b] after a keyword that ends in a word character. *)
Definition at_boundary (rest : string) : bool :=
  match rest with EmptyString => true | String a _ => negb (is_word a) end.

(** [secDirectiveLine]: the pattern [^(SecRule|SecAction|SecMarker)\b]. *)
Definition secDirectiveLine (s : string) : bool :=
  existsb (fun kw => match strip_prefix kw s with Some r => at_boundary r | None => false end)
    ["SecRule"; "SecAction"; "SecMarker"].

Record split_state := { sp_blocks : list string; sp_current : list string; sp_multi : bool }.

Definition split_step (st : split_state) (line : string) : split_state :=
  let stripped := trimLineEnd line in
  if sp_multi st then
    if negb (HasSuffix stripped "\") then
      {| sp_blocks := sp_blocks st ++ [Join (sp_current st ++ [line]) (String nl "")];
         sp_current := []; sp_multi := false |}
    else {| sp_blocks := sp_blocks st; sp_current := sp_current st ++ [line]; sp_multi := true |}
  else if negb (HasPrefix stripped "#") && secDirectiveLine stripped then
    if HasSuffix stripped "\" then
      {| sp_blocks := sp_blocks st; sp_current := [line]; sp_multi := true |}
    else {| sp_blocks := sp_blocks st ++ [Join [line] (String nl "")];
            sp_current := []; sp_multi := false |}
  else {| sp_blocks := sp_blocks st ++ [line]; sp_current := sp_current st; sp_multi := false |}.

Definition split_end (st : split_state) : list string :=
  match sp_current st with
  | [] => sp_blocks st
  | c => sp_blocks st ++ [Join c (String nl "")]
  end.

Definition splitIntoRules (content : string) : list string :=
  split_end (fold_left split_step (Split content nl)
    {| sp_blocks := []; sp_current := []; sp_multi := false |}).

(** ** Rule IDs and chain actions *)

(** The submatch of [ruleIDRe], the leftmost [id:(\d+)]. *)
Fixpoint ruleIDRe (s : string) : option string :=
  match (r ← strip_prefix "id:" s; let '(ds, _) := digit_run r in
         if String.eqb ds "" then None else Some ds) with
  | Some ds => Some ds
  | None => match s with EmptyString => None | String _ s' => ruleIDRe s' end
  end.

Definition extractRuleID (ruleText : string) : string :=
  match ruleIDRe ruleText with Some ds => ds | None => "unknown" end.

(** The regexp class [\s]. *)
Definition re_space (a : ascii) : bool :=
  (code a =? 9) || (code a =? 10) || (code a =? 12) || (code a =? 13) || (code a =? 32).

(** [,\s*chain\s*(?:,|Q)] at the head (Q is a double quote). *)
Definition chain_here (s : string) : bool :=
  match strip_prefix "," s with
  | None => false
  | Some r =>
      match strip_prefix "chain" (TrimLeft re_space r) with
      | None => false
      | Some r => match TrimLeft re_space r with
                  | String a _ => Ascii.eqb a "," || (code a =? 34)
                  | EmptyString => false
                  end
      end
  end.

Fixpoint chainActionRe (s : string) : bool :=
  chain_here s || match s with EmptyString => false | String _ s' => chainActionRe s' end.

Definition secRuleHasChainAction (block : string) : bool := chainActionRe block.

(** ** Chains *)

Record group_state := { gr_groups : list (list nat); gr_cur : list nat; gr_inChain : bool }.

Definition close_group (st : group_state) : group_state :=
  {| gr_groups := gr_groups st ++ [gr_cur st]; gr_cur := []; gr_inChain := false |}.
Definition extend_cur (st : group_state) (i : nat) : group_state :=
  {| gr_groups := gr_groups st; gr_cur := gr_cur st ++ [i]; gr_inChain := true |}.

Definition group_step (st : group_state) (ib : nat * string) : group_state :=
  let '(i, block) := ib in
  let stripped := TrimSpace block in
  if String.eqb stripped "" || HasPrefix stripped "#" then st else
  if negb (HasPrefix stripped "SecRule") then
    if gr_inChain st then close_group st else st
  else if secRuleHasChainAction block then extend_cur st i
  else if gr_inChain st then close_group (extend_cur st i)
  else {| gr_groups := gr_groups st ++ [[i]]; gr_cur := gr_cur st; gr_inChain := gr_inChain st |}.

Definition group_end (st : group_state) : list (list nat) :=
  if gr_inChain st && negb (bool_decide (gr_cur st = []))
  then gr_groups st ++ [gr_cur st] else gr_groups st.

(** The blocks with their indices, as [range] yields them. *)
Definition indexed {A} (l : list A) : list (nat * A) := imap (fun i x => (i, x)) l.

Definition chainSecRuleGroups (blocks : list string) : list (list nat) :=
  group_end (fold_left group_step (indexed blocks)
    {| gr_groups := []; gr_cur := []; gr_inChain := false |}).

(** ** Filtering a file

    [ignoreIDs] and [autoIgnored] are maps used as sets; looking up a nil map
    finds nothing, and whether [autoIgnored] is nil chooses a warning. *)

Definition id_in (ids : option (gset string)) (rid : string) : bool :=
  match ids with Some s => bool_decide (rid ∈ s) | None => false end.

(** The first loop of [processFileContent]: whether a block matches on its own. *)
Definition wish_drop (ignoreIDs : option (gset string)) (ignorePM : bool) (block : string) : bool :=
  let stripped := TrimSpace block in
  if String.eqb stripped "" || HasPrefix stripped "#" || negb (HasPrefix stripped "Sec") then false else
  if negb (HasPrefix stripped "SecRule") then false else
  if ignorePM && Contains block "@pmFromFile" then true else
  id_in ignoreIDs (extractRuleID block).

(** [for _, i := range g { if wishDrop[i] { any = true; break } }]. *)
Definition group_any (wishDrop : list bool) (g : list nat) : bool :=
  existsb (fun i => default false (wishDrop !! i)) g.

(** The second loop: a chain with a matching rule is dropped whole. *)
Definition drop_group (wishDrop drop : list bool) (g : list nat) : list bool :=
  if (length g <=? 1)%nat || negb (group_any wishDrop g) then drop
  else fold_left (fun d i => <[i := true]> d) g drop.

Definition ignoreReason (ruleID : string) (autoIgnored : option (gset string)) : string :=
  match autoIgnored with
  | Some ids =>
      if bool_decide (ruleID ∈ ids) then
        "excluded by --ignore-unsupported-rules profile (operator); pass --ignore-unsupported-rules=none to emit this rule"
      else "Rule ID in --ignore-rules"
  | None => "Rule ID in ignore list"
  end.

Definition block_at (blocks : list string) (i : nat) : string := default "" (blocks !! i).

Definition warn_prefix (base : string) : string :=
  "  [warn] Ignored rules in " +:+ base +:+ ":" +:+ String nl "".

(** The third loop: the warning for a group, if any. *)
Definition group_warn (base : string) (blocks : list string) (wishDrop : list bool)
    (ignoreIDs autoIgnored : option (gset string)) (ignorePM : bool) (g : list nat) : list string :=
  if negb (group_any wishDrop g) then [] else
  if (1 <? length g)%nat then
    [warn_prefix base +:+ "    - SecRule chain (IDs: " +:+
     Join ((fun i => extractRuleID (block_at blocks i)) <$> g) ", " +:+
     "): dropping entire chain because at least one rule matched --ignore-rules, default WASM-unsupported filtering, or @pmFromFile stripping"
     +:+ String nl ""]
  else
    let block := block_at blocks (default 0%nat (head g)) in
    let rid := extractRuleID block in
    if ignorePM && Contains block "@pmFromFile" then
      [warn_prefix base +:+ "    - Rule ID: " +:+ rid +:+ " (@pmFromFile not supported)" +:+ String nl ""]
    else if id_in ignoreIDs rid then
      [warn_prefix base +:+ "    - Rule ID: " +:+ rid +:+ " (" +:+ ignoreReason rid autoIgnored +:+ ")" +:+ String nl ""]
    else [].

(** The last loop. *)
Definition keep_blocks (drop : list bool) (blocks : list string) : list string :=
  snd <$> filter (fun ib => default false (drop !! ib.1) = false) (indexed blocks).

Definition cr_or_nl (a : ascii) : bool := Ascii.eqb a nl || Ascii.eqb a (ascii_of_N 13).

(** [processFileContent] with the bytes of the file: the filtered text and the
    warnings. *)
Definition processFileContent (ReadFile : string -> gerror + string) (path : string)
    (ignoreIDs autoIgnored : option (gset string)) (ignorePM : bool) :
    gerror + string * list string :=
  match ReadFile path with
  | inl err => inl (errorf_w ("read " +:+ path +:+ ": ") err)
  | inr raw =>
      let content := TrimRight cr_or_nl (ToValidUTF8 raw) in
      if negb (Contains content "SecRule") && negb (Contains content "SecAction") then inr ("", []) else
      let blocks := splitIntoRules content in
      let base := Base path in
      let wishDrop := wish_drop ignoreIDs ignorePM <$> blocks in
      let groups := chainSecRuleGroups blocks in
      let drop := fold_left (drop_group wishDrop) groups wishDrop in
      let warns := groups ≫= group_warn base blocks wishDrop ignoreIDs autoIgnored ignorePM in
      inr (Join (keep_blocks drop blocks) (String nl ""), warns)
  end.

(** ** What a block is *)

Definition continued (line : string) : bool := HasSuffix (trimLineEnd line) "\".
Definition directive (line : string) : bool :=
  negb (HasPrefix (trimLineEnd line) "#") && secDirectiveLine (trimLineEnd line).

(** A directive whose every line but the last is continued, or any other line. *)
Definition complete_block (b : list string) : Prop :=
  (exists l, b = [l] /\ directive l && continued l = false) \/
  (exists l m z, b = l :: m ++ [z] /\ directive l = true /\
     Forall (fun x => continued x = true) (l :: m) /\ continued z = false).

(** A directive that the text ends in the middle of. *)
Definition open_block (b : list string) : Prop :=
  exists l m, b = l :: m /\ directive l = true /\ Forall (fun x => continued x = true) b.

(** ** Lemmas on splitting *)

Definition split_inv (seen : list string) (st : split_state) : Prop :=
  exists bs, sp_blocks st = (fun b => Join b (String nl "")) <$> bs /\ Forall complete_block bs /\
    seen = concat bs ++ sp_current st /\
    (if sp_multi st then open_block (sp_current st) else sp_current st = []).

Lemma split_step_inv seen st line :
  split_inv seen st -> split_inv (seen ++ [line]) (split_step st line).
Proof.
  intros (bs & Hbs & Hc & -> & Hcur). unfold split_step.
  fold (continued line). fold (directive line).
  destruct (sp_multi st).
  - destruct (continued line) eqn:Hl; simpl.
    + exists bs. simpl. rewrite <- app_assoc. split_and!; [done..|].
      destruct Hcur as (l & m & -> & Hd & Hm). exists l, (m ++ [line]).
      split_and!; [done..|]. by rewrite Forall_app, Forall_singleton.
    + exists (bs ++ [sp_current st ++ [line]]). simpl. rewrite fmap_app, Hbs, concat_app. simpl.
      rewrite !app_nil_r, app_assoc. split_and!; [done| |done|done].
      rewrite Forall_app, Forall_singleton. split; [done|]. right.
      destruct Hcur as (l & m & -> & Hd & Hm). by exists l, m, line.
  - rewrite Hcur. destruct (directive line) eqn:Hd; simpl.
    + destruct (continued line) eqn:Hl; simpl.
      * exists bs. simpl. rewrite app_nil_r. split_and!; [done..|]. exists line, []. by rewrite Forall_singleton.
      * exists (bs ++ [[line]]). simpl. rewrite fmap_app, Hbs, concat_app. simpl.
        rewrite !app_nil_r. split_and!; [done| |done|done].
        rewrite Forall_app, Forall_singleton. split; [done|]. left. exists line. by rewrite Hl, andb_false_r.
    + exists (bs ++ [[line]]). simpl. rewrite fmap_app, Hbs, concat_app. simpl.
      rewrite !app_nil_r. split_and!; [done| |done|done].
      rewrite Forall_app, Forall_singleton. split; [done|]. left. exists line. by rewrite Hd.
Qed.

Lemma split_fold_inv seen st lines :
  split_inv seen st -> split_inv (seen ++ lines) (fold_left split_step lines st).
Proof.
  revert seen st. induction lines as [|line lines IH]; intros seen st Hst; [by rewrite app_nil_r|].
  simpl. rewrite cons_middle, app_assoc. by apply IH, split_step_inv.
Qed.

Lemma complete_not_nil b : complete_block b -> b <> [].
Proof. intros [(l & -> & _)|(l & m & z & -> & _)]; done. Qed.

Lemma splitIntoRules_blocks content :
  exists bs o, splitIntoRules content = (fun b => Join b (String nl "")) <$> bs ++ o /\
    concat (bs ++ o) = Split content nl /\ Forall complete_block bs /\
    (o = [] \/ exists b, o = [b] /\ open_block b).
Proof.
  pose (st0 := {| sp_blocks := []; sp_current := []; sp_multi := false |}).
  destruct (split_fold_inv [] st0 (Split content nl)) as (bs & Hbs & Hc & Hseen & Hcur).
  { exists []. by split_and!. }
  unfold splitIntoRules, split_end. fold st0. simpl in Hseen.
  destruct (sp_current _) as [|l m] eqn:Hcu.
  - exists bs, []. rewrite !app_nil_r in *. split_and!; [done|done|done|by left].
  - exists bs, [l :: m]. rewrite fmap_app, concat_app, Hbs. simpl. rewrite app_nil_r.
    split_and!; [done..|]. right. exists (l :: m). split; [done|].
    by destruct (sp_multi _).
Qed.

Lemma Join_app a b sep : a <> [] -> b <> [] -> Join (a ++ b) sep = Join a sep +:+ sep +:+ Join b sep.
Proof.
  intros Ha Hb. induction a as [|x a IH]; [done|]. destruct a as [|y a].
  - simpl app. by rewrite Join_cons.
  - change ((x :: y :: a) ++ b) with (x :: (y :: a) ++ b).
    rewrite Join_cons by done. rewrite IH by done. rewrite (Join_cons x (y :: a)) by done.
    by rewrite !string_app_assoc.
Qed.

Lemma Join_concat bs sep :
  Forall (fun b => b <> []) bs -> Join ((fun b => Join b sep) <$> bs) sep = Join (concat bs) sep.
Proof.
  induction 1 as [|b bs Hb Hbs IH]; [done|]. rewrite fmap_cons. destruct bs as [|c bs].
  - simpl. rewrite app_nil_r. done.
  - rewrite Join_cons by done. rewrite IH. change (concat (b :: c :: bs)) with (b ++ concat (c :: bs)).
    rewrite Join_app; [done|done|]. apply Forall_cons in Hbs as [Hc _]. by destruct c.
Qed.

(** C40: cutting a file into blocks loses nothing: the blocks joined with newlines
    are the file, and every block is exactly one non-directive line or one
    directive with all of its continuation lines (the last one possibly cut off by
    the end of the file). *)
Theorem splitIntoRules_lossless (content : string) :
  Join (splitIntoRules content) (String nl "") = content /\
  exists bs o, splitIntoRules content = (fun b => Join b (String nl "")) <$> bs ++ o /\
    concat (bs ++ o) = Split content nl /\ Forall complete_block bs /\
    (o = [] \/ exists b, o = [b] /\ open_block b).
Proof.
  pose proof (splitIntoRules_blocks content) as (bs & o & Heq & Hcat & Hbs & Ho).
  split; [|by exists bs, o].
  rewrite Heq, Join_concat; [by rewrite Hcat, Join_Split|].
  apply Forall_app. split; [by eapply Forall_impl; [|apply complete_not_nil]|].
  destruct Ho as [->|(b & -> & l & m & -> & _)]; by repeat constructor.
Qed.

(** ** Lemmas on chains *)

Definition is_SecRule (block : string) : bool := HasPrefix (TrimSpace block) "SecRule".

(** The indices of the [SecRule] blocks, in order. *)
Definition SecRule_indices (blocks : list string) : list nat :=
  fst <$> filter (fun ib => is_SecRule ib.2 = true) (indexed blocks).

(** Every rule of a chain but the last has the [chain] action. *)
Definition chain_shape (blocks : list string) (g : list nat) : Prop :=
  exists m z, g = m ++ [z] /\
    Forall (fun i => exists b, blocks !! i = Some b /\ secRuleHasChainAction b = true) m.

Definition group_inv (blocks : list string) (st : group_state) : Prop :=
  concat (gr_groups st) ++ gr_cur st = SecRule_indices blocks /\
  Forall (chain_shape blocks) (gr_groups st) /\
  Forall (fun i => exists b, blocks !! i = Some b /\ secRuleHasChainAction b = true) (gr_cur st) /\
  gr_inChain st = negb (bool_decide (gr_cur st = [])).

Lemma indexed_snoc {A} (l : list A) x : indexed (l ++ [x]) = indexed l ++ [(length l, x)].
Proof. unfold indexed. rewrite imap_app. simpl. by rewrite Nat.add_0_r. Qed.

Lemma indexed_lookup {A} (l : list A) i x : (i, x) ∈ indexed l <-> l !! i = Some x.
Proof.
  unfold indexed. rewrite elem_of_lookup_imap. split.
  - intros (j & y & ? & ?). by simplify_eq.
  - intros. eauto.
Qed.

Lemma not_SecRule_skip s : String.eqb s "" || HasPrefix s "#" = true -> HasPrefix s "SecRule" = false.
Proof.
  rewrite orb_true_iff, String.eqb_eq, HasPrefix_true. intros [->|[r ->]]; [done|].
  apply not_true_iff_false. rewrite HasPrefix_true. by intros [r' [=]].
Qed.

Lemma SecRule_indices_snoc blocks b :
  SecRule_indices (blocks ++ [b]) =
    SecRule_indices blocks ++ (if is_SecRule b then [length blocks] else []).
Proof.
  unfold SecRule_indices. rewrite indexed_snoc, filter_app, fmap_app. f_equal.
  destruct (is_SecRule b) eqn:Hb.
  - by rewrite filter_cons_True.
  - rewrite filter_cons_False; [done|]. cbn [snd]. by rewrite Hb.
Qed.

Lemma has_chain_snoc blocks b l :
  Forall (fun i => exists x, blocks !! i = Some x /\ secRuleHasChainAction x = true) l ->
  Forall (fun i => exists x, (blocks ++ [b]) !! i = Some x /\ secRuleHasChainAction x = true) l.
Proof.
  intros Hl. eapply Forall_impl; [exact Hl|]. intros i (x & Hx & ?). exists x.
  split; [|done]. by apply lookup_app_l_Some.
Qed.

Lemma chain_shape_snoc blocks b l :
  Forall (chain_shape blocks) l -> Forall (chain_shape (blocks ++ [b])) l.
Proof.
  intros Hl. eapply Forall_impl; [exact Hl|]. intros g (m & z & -> & Hm).
  exists m, z. split; [done|]. by apply has_chain_snoc.
Qed.

Lemma chain_cur_shape blocks cur :
  cur <> [] ->
  Forall (fun i => exists b, blocks !! i = Some b /\ secRuleHasChainAction b = true) cur ->
  chain_shape blocks cur.
Proof.
  intros Hcur Hf. destruct cur as [|z m _] using rev_ind; [done|].
  apply Forall_app in Hf as [? _]. by exists m, z.
Qed.

Lemma group_step_inv blocks b st :
  group_inv blocks st -> group_inv (blocks ++ [b]) (group_step st (length blocks, b)).
Proof.
  intros (Hcat & Hg & Hcur & Hin). unfold group_step, group_inv. rewrite SecRule_indices_snoc.
  unfold is_SecRule.
  assert (Hg' := chain_shape_snoc _ b _ Hg). assert (Hcur' := has_chain_snoc _ b _ Hcur).
  destruct (String.eqb (TrimSpace b) "" || HasPrefix (TrimSpace b) "#") eqn:Hskip.
  { by rewrite (not_SecRule_skip _ Hskip), app_nil_r. }
  assert (Hlast : (blocks ++ [b]) !! length blocks = Some b) by by apply list_lookup_middle.
  destruct (HasPrefix (TrimSpace b) "SecRule"); simpl.
  - destruct (secRuleHasChainAction b) eqn:Hch; [|destruct (gr_inChain st) eqn:Hch'].
    + simpl. rewrite app_assoc, Hcat. split_and!; [done|done| |by destruct (gr_cur st)].
      rewrite Forall_app, Forall_singleton. eauto.
    + simpl. rewrite concat_app. simpl. rewrite !app_nil_r, app_assoc, Hcat.
      split_and!; [done| |done|done]. rewrite Forall_app, Forall_singleton. split; [done|].
      by exists (gr_cur st), (length blocks).
    + simpl. assert (gr_cur st = []) as Hnil by by destruct (gr_cur st).
      rewrite Hnil in *. rewrite concat_app. simpl. rewrite !app_nil_r in *. rewrite Hcat.
      split_and!; [done| |done|done]. rewrite Forall_app, Forall_singleton. split; [done|].
      by exists [], (length blocks).
  - rewrite app_nil_r. destruct (gr_inChain st) eqn:Hch; [|rewrite Hch; by split_and!].
    simpl. rewrite concat_app. simpl. rewrite !app_nil_r, Hcat.
    split_and!; [done| |done|done]. rewrite Forall_app, Forall_singleton. split; [done|].
    apply chain_cur_shape; [|done]. by destruct (gr_cur st).
Qed.

Lemma group_fold_inv blocks :
  group_inv blocks (fold_left group_step (indexed blocks)
    {| gr_groups := []; gr_cur := []; gr_inChain := false |}).
Proof.
  induction blocks as [|b blocks IH] using rev_ind; [by repeat constructor|].
  rewrite indexed_snoc, fold_left_app. by apply group_step_inv.
Qed.

Lemma chain_groups_partition blocks :
  concat (chainSecRuleGroups blocks) = SecRule_indices blocks /\
  Forall (chain_shape blocks) (chainSecRuleGroups blocks).
Proof.
  destruct (group_fold_inv blocks) as (Hcat & Hg & Hcur & Hin).
  unfold chainSecRuleGroups, group_end. rewrite Hin.
  case_bool_decide as Hnil; simpl.
  - by rewrite Hnil, app_nil_r in Hcat.
  - rewrite concat_app. simpl. rewrite app_nil_r. split; [done|].
    rewrite Forall_app, Forall_singleton. split; [done|]. by apply chain_cur_shape.
Qed.

Lemma seq_sorted s n : StronglySorted lt (seq s n).
Proof.
  revert s. induction n as [|n IH]; intros s; simpl; constructor; [done|].
  apply Forall_forall. intros i Hi%elem_of_seq. lia.
Qed.

Lemma indexed_sorted {A} (l : list A) : StronglySorted lt (fst <$> indexed l).
Proof.
  assert (fst <$> indexed l = seq 0 (length l)) as ->; [|apply seq_sorted].
  unfold indexed. induction l as [|x l IH] using rev_ind; [done|].
  rewrite imap_app, fmap_app, IH, length_app, seq_app. simpl. by rewrite Nat.add_0_r.
Qed.

Lemma filter_fmap_sorted {A} (P : nat * A -> Prop) `{forall x, Decision (P x)} (l : list (nat * A)) :
  StronglySorted lt (fst <$> l) -> StronglySorted lt (fst <$> filter P l).
Proof.
  induction l as [|x l IH]; [done|]. rewrite fmap_cons. intros [Hs Hf]%StronglySorted_inv.
  rewrite filter_cons. case_decide; [|auto]. rewrite fmap_cons. constructor; [auto|].
  rewrite Forall_fmap, Forall_forall in *. intros y [_ Hy]%list_elem_of_filter. by apply Hf.
Qed.

Lemma SecRule_indices_in blocks i :
  i ∈ SecRule_indices blocks <-> exists b, blocks !! i = Some b /\ is_SecRule b = true.
Proof.
  unfold SecRule_indices. rewrite list_elem_of_fmap. split.
  - intros ([j b] & -> & [Hb Hin]%list_elem_of_filter). exists b. by rewrite <- indexed_lookup.
  - intros (b & Hb & Hs). exists (i, b). by rewrite list_elem_of_filter, indexed_lookup.
Qed.

(** ** Lemmas on dropping *)

Lemma mark_length (g : list nat) (d : list bool) :
  length (fold_left (fun d i => <[i := true]> d) g d) = length d.
Proof.
  revert d. induction g as [|j g IH]; intros d; [done|]. simpl. rewrite IH. apply length_insert.
Qed.

Lemma mark_lookup (g : list nat) (d : list bool) i :
  fold_left (fun d i => <[i := true]> d) g d !! i = Some true <->
  d !! i = Some true \/ (i ∈ g /\ (i < length d)%nat).
Proof.
  revert d. induction g as [|j g IH]; intros d; simpl.
  - rewrite elem_of_nil. naive_solver.
  - rewrite IH, length_insert, elem_of_cons. destruct (decide (i = j)) as [->|Hne].
    + rewrite list_lookup_insert. destruct (decide (j < length d)%nat) as [Hlt|Hge].
      * rewrite decide_True by done. naive_solver.
      * rewrite decide_False by naive_solver. naive_solver.
    + rewrite list_lookup_insert_ne by done. naive_solver.
Qed.

Lemma drop_group_length wish d g : length (drop_group wish d g) = length d.
Proof. unfold drop_group. case_match; [done|]. apply mark_length. Qed.

Lemma drop_group_lookup wish d g i :
  drop_group wish d g !! i = Some true <->
  d !! i = Some true \/
  ((i < length d)%nat /\ i ∈ g /\ (1 < length g)%nat /\ group_any wish g = true).
Proof.
  unfold drop_group. destruct (Nat.leb_spec (length g) 1) as [Hle|Hgt]; simpl.
  - split; [by left|]. intros [?|(_ & _ & ? & _)]; [done|lia].
  - destruct (group_any wish g); simpl; rewrite ?mark_lookup; naive_solver.
Qed.

Lemma drop_groups_lookup wish groups d i :
  fold_left (drop_group wish) groups d !! i = Some true <->
  d !! i = Some true \/
  ((i < length d)%nat /\ exists g, g ∈ groups /\ i ∈ g /\ (1 < length g)%nat /\ group_any wish g = true).
Proof.
  revert d. induction groups as [|g groups IH]; intros d; simpl.
  - setoid_rewrite elem_of_nil. naive_solver.
  - rewrite IH, drop_group_length, drop_group_lookup. setoid_rewrite elem_of_cons. split.
    + intros [[?|(? & ? & ? & ?)]|(? & g' & ? & ?)]; [by left|right; eauto 8..].
    + intros [?|(? & g' & [->|?] & ? & ? & ?)]; [by left; left|left; right; eauto|right; eauto 8].
Qed.

Definition wish_at (ignoreIDs : option (gset string)) (ignorePM : bool) (blocks : list string) (i : nat) : Prop :=
  exists b, blocks !! i = Some b /\ wish_drop ignoreIDs ignorePM b = true.

(** The block is in a chain that holds a rule to ignore. *)
Definition chain_matches ignoreIDs ignorePM (blocks : list string) (i : nat) : Prop :=
  exists g, g ∈ chainSecRuleGroups blocks /\ i ∈ g /\ exists j, j ∈ g /\ wish_at ignoreIDs ignorePM blocks j.

Lemma wish_lookup ign pm blocks i :
  default false ((wish_drop ign pm <$> blocks) !! i) = true <-> wish_at ign pm blocks i.
Proof.
  unfold wish_at. rewrite list_lookup_fmap. destruct (blocks !! i); simpl; naive_solver.
Qed.

Lemma group_any_true ign pm blocks g :
  group_any (wish_drop ign pm <$> blocks) g = true <-> exists j, j ∈ g /\ wish_at ign pm blocks j.
Proof.
  unfold group_any. rewrite existsb_exists. split; intros (j & Hj & Hw); exists j.
  - by rewrite list_elem_of_In, <- wish_lookup.
  - by rewrite <- list_elem_of_In, wish_lookup.
Qed.

Lemma wish_drop_SecRule ign pm b : wish_drop ign pm b = true -> is_SecRule b = true.
Proof.
  unfold wish_drop, is_SecRule. destruct (_ || _); [done|]. by destruct (HasPrefix _ "SecRule").
Qed.

Lemma drop_exact ign pm blocks i :
  let wish := wish_drop ign pm <$> blocks in
  fold_left (drop_group wish) (chainSecRuleGroups blocks) wish !! i = Some true <->
  chain_matches ign pm blocks i.
Proof.
  intros wish. destruct (chain_groups_partition blocks) as [Hcat Hshape].
  rewrite drop_groups_lookup. unfold chain_matches.
  assert (Hany : forall g, group_any wish g = true <-> exists j, j ∈ g /\ wish_at ign pm blocks j)
    by (intros g; apply group_any_true).
  setoid_rewrite Hany. clear Hany.
  assert (Hin : forall j, wish_at ign pm blocks j -> exists g, g ∈ chainSecRuleGroups blocks /\ j ∈ g).
  { intros j (b & Hb & Hw). apply wish_drop_SecRule in Hw.
    assert (j ∈ concat (chainSecRuleGroups blocks)) as Hj by (rewrite Hcat; apply SecRule_indices_in; eauto).
    apply list_elem_of_In, in_concat in Hj as (g & ? & ?). exists g. by rewrite !list_elem_of_In. }
  assert (Hw : wish !! i = Some true <-> wish_at ign pm blocks i).
  { rewrite <- wish_lookup. fold wish. destruct (wish !! i) as [[]|]; naive_solver. }
  rewrite Hw. split.
  - intros [Hi|(_ & g & Hg & Hi & _ & Hany)]; [|eauto].
    destruct (Hin i Hi) as (g & ? & ?). eauto 6.
  - intros (g & Hg & Hi & Hany). destruct (decide (1 < length g)%nat) as [Hlen|Hlen].
    + right. split; [|by eauto 6]. unfold wish. rewrite length_fmap.
      assert (i ∈ concat (chainSecRuleGroups blocks)) as Hj.
      { apply list_elem_of_In, in_concat. exists g. by rewrite <- !list_elem_of_In. }
      rewrite Hcat in Hj. apply SecRule_indices_in in Hj as (b & Hb & _). by eapply lookup_lt_Some.
    + left. destruct Hany as (j & Hj & Hwj). destruct g as [|x [|y g]]; simpl in Hlen; [|..|lia].
      * by apply elem_of_nil in Hi.
      * apply list_elem_of_singleton in Hi as ->. by apply list_elem_of_singleton in Hj as ->.
Qed.

Lemma keep_blocks_index drop blocks :
  exists keep, StronglySorted lt keep /\ keep_blocks drop blocks = block_at blocks <$> keep /\
    (forall i, i ∈ keep <-> (i < length blocks)%nat /\ drop !! i <> Some true).
Proof.
  exists (fst <$> filter (fun ib => default false (drop !! ib.1) = false) (indexed blocks)).
  split; [apply filter_fmap_sorted, indexed_sorted|]. split.
  - unfold keep_blocks. rewrite <- list_fmap_compose. apply list_fmap_ext.
    intros k [i b] Hk%list_elem_of_lookup_2. apply list_elem_of_filter in Hk as [_ Hk].
    apply indexed_lookup in Hk. simpl. unfold block_at. by rewrite Hk.
  - intros i. rewrite list_elem_of_fmap. split.
    + intros ([j b] & -> & [Hd Hin%indexed_lookup]%list_elem_of_filter). simpl in *.
      split; [by eapply lookup_lt_Some|]. intros Heq. by rewrite Heq in Hd.
    + intros [[b Hb]%lookup_lt_is_Some_2 Hd]. exists (i, b).
      rewrite list_elem_of_filter, indexed_lookup. simpl.
      destruct (drop !! i) as [[]|]; naive_solver.
Qed.

(** Each chain that matches is reported once. *)
Lemma group_warn_length base ign auto pm blocks g :
  g ∈ chainSecRuleGroups blocks ->
  length (group_warn base blocks (wish_drop ign pm <$> blocks) ign auto pm g) =
    if group_any (wish_drop ign pm <$> blocks) g then 1%nat else 0%nat.
Proof.
  intros Hg. unfold group_warn. destruct (group_any _ g) eqn:Hany; [|done]. simpl.
  destruct (Nat.ltb_spec 1 (length g)); [done|].
  apply group_any_true in Hany as (j & Hj & b & Hb & Hw).
  destruct g as [|x [|y g]]; simpl in *; [by apply elem_of_nil in Hj| |lia].
  apply list_elem_of_singleton in Hj as ->. unfold block_at. rewrite Hb. simpl.
  unfold wish_drop in Hw. destruct (_ || _); [done|]. destruct (negb (HasPrefix _ _)); [done|].
  destruct (pm && _); [done|]. by rewrite Hw.
Qed.

Lemma warns_length (f : list nat -> list string) (any : list nat -> bool) groups :
  (forall g, g ∈ groups -> length (f g) = if any g then 1%nat else 0%nat) ->
  length (groups ≫= f) = length (filter (fun g => any g = true) groups).
Proof.
  induction groups as [|g groups IH]; intros Hf; [done|]. rewrite bind_cons, length_app, IH.
  - rewrite Hf by set_solver. rewrite filter_cons. destruct (any g); [by rewrite decide_True|].
    by rewrite decide_False.
  - intros g' Hg'. apply Hf. set_solver.
Qed.

Lemma wish_drop_false ign pm b :
  is_SecRule b = true -> wish_drop ign pm b = false ->
  id_in ign (extractRuleID b) = false /\ (pm = true -> Contains b "@pmFromFile" = false).
Proof.
  unfold is_SecRule, wish_drop. intros Hs. rewrite Hs.
  assert (String.eqb (TrimSpace b) "" || HasPrefix (TrimSpace b) "#" = false) as ->.
  { apply not_true_iff_false. intros Hskip%not_SecRule_skip. congruence. }
  assert (HasPrefix (TrimSpace b) "Sec" = true) as ->.
  { apply HasPrefix_true in Hs as [r ->]. apply HasPrefix_true. by exists ("Rule" +:+ r). }
  simpl. destruct pm; simpl; [|done]. by destruct (Contains b _).
Qed.

(** Chains partition the rules: every [SecRule] block of a file is in exactly
    one group, the groups follow the order of the file, and within a group every
    rule but the last carries the [chain] action. *)
Theorem chainSecRuleGroups_partition (blocks : list string) :
  concat (chainSecRuleGroups blocks) = SecRule_indices blocks /\
  StronglySorted lt (concat (chainSecRuleGroups blocks)) /\
  (forall i, (exists g, g ∈ chainSecRuleGroups blocks /\ i ∈ g) <->
     exists b, blocks !! i = Some b /\ is_SecRule b = true) /\
  Forall (chain_shape blocks) (chainSecRuleGroups blocks).
Proof.
  destruct (chain_groups_partition blocks) as [Hcat Hshape]. split; [done|].
  split; [rewrite Hcat; apply filter_fmap_sorted, indexed_sorted|]. split; [|done].
  intros i. rewrite <- SecRule_indices_in, <- Hcat, list_elem_of_In, in_concat.
  by setoid_rewrite list_elem_of_In.
Qed.

Lemma processFileContent_kept (ReadFile : string -> gerror + string) (path raw : string)
    (ignoreIDs autoIgnored : option (gset string)) (ignorePM : bool) :
  ReadFile path = inr raw ->
  let content := TrimRight cr_or_nl (ToValidUTF8 raw) in
  Contains content "SecRule" || Contains content "SecAction" = true ->
  let blocks := splitIntoRules content in
  exists keep warns,
    processFileContent ReadFile path ignoreIDs autoIgnored ignorePM =
      inr (Join (block_at blocks <$> keep) (String nl ""), warns) /\
    StronglySorted lt keep /\
    (forall i, i ∈ keep <-> (i < length blocks)%nat /\ ~ chain_matches ignoreIDs ignorePM blocks i) /\
    (forall i b, i ∈ keep -> blocks !! i = Some b -> is_SecRule b = true ->
       id_in ignoreIDs (extractRuleID b) = false /\ (ignorePM = true -> Contains b "@pmFromFile" = false)) /\
    length warns = length (filter (fun g => group_any (wish_drop ignoreIDs ignorePM <$> blocks) g = true)
                             (chainSecRuleGroups blocks)).
Proof.
  intros Hread content Hc blocks. unfold processFileContent. rewrite Hread. fold content.
  rewrite <- negb_orb, Hc. simpl. fold blocks.
  set (wish := wish_drop ignoreIDs ignorePM <$> blocks).
  destruct (keep_blocks_index (fold_left (drop_group wish) (chainSecRuleGroups blocks) wish) blocks)
    as (keep & Hsort & -> & Hkeep).
  eexists keep, _. split; [done|]. split; [done|].
  assert (Hk : forall i, i ∈ keep <-> (i < length blocks)%nat /\ ~ chain_matches ignoreIDs ignorePM blocks i).
  { intros i. rewrite Hkeep. by rewrite <- (drop_exact ignoreIDs ignorePM blocks i). }
  split; [done|]. split.
  - intros i b Hi Hb Hs. apply Hk in Hi as [_ Hi].
    destruct (wish_drop ignoreIDs ignorePM b) eqn:Hw.
    { destruct Hi. apply drop_exact, drop_groups_lookup. left. by rewrite list_lookup_fmap, Hb, <- Hw. }
    by apply wish_drop_false in Hw.
  - apply warns_length. intros g Hg. by apply group_warn_length.
Qed.


(** The text of a rule file, [~] standing for the double quote. *)
Definition conf_text (lines : list string) : string :=
  ReplaceByte (Join lines (String nl "")) "~" (String (ascii_of_N 34) "").

Definition sample_conf : string := conf_text
  ["# paranoia level 1";
   "SecRule ARGS ~@rx x~ ~id:10,phase:2,pass,chain~";
   "SecRule ARGS ~@rx y~ \ ";
   "    ~id:20,phase:2,pass~";
   "SecAction ~id:30,pass~";
   "SecRule ARGS ~@rx z~ ~id:40,deny~"; ""].


(** The chain of rules 10 and 20 goes, the rest stays. *)
Example sample_conf_filtered :
  fst <$> (match processFileContent (fun _ => inr sample_conf) "rules/a.conf" (Some {["20"]}) None false with
           | inr r => Some r | inl _ => None end) =
  Some (conf_text ["# paranoia level 1"; "SecAction ~id:30,pass~"; "SecRule ARGS ~@rx z~ ~id:40,deny~"]).
Proof. vm_compute. reflexivity. Qed.

(** A chained rule in the layout of the Core Rule Set: one action per line, the
    second rule indented. *)
Definition crs_chain_conf : string := conf_text
  ["SecRule REQUEST_METHOD ~@rx ^(?:GET|HEAD)$~ \";
   "    ~id:920171,\";
   "    phase:2,\";
   "    block,\";
   "    chain~";
   "    SecRule &REQUEST_HEADERS:Transfer-Encoding ~!@eq 0~ \";
   "        ~setvar:'tx.inbound_anomaly_score_pl1=5'~"].

(** A rule chained in the layout of the Core Rule Set is not recognised as a
    chain: ignoring its ID drops the first rule only and leaves the second one,
    which has no ID and no rule to be chained to, in the output. *)
Theorem crs_layout_chain_split :
  chainSecRuleGroups (splitIntoRules crs_chain_conf) = [[0%nat]; [1%nat]] /\
  (fst <$> (match processFileContent (fun _ => inr crs_chain_conf) "a.conf" (Some {["920171"]}) None false with
            | inr r => Some r | inl _ => None end)) =
  Some (conf_text
    ["    SecRule &REQUEST_HEADERS:Transfer-Encoding ~!@eq 0~ \";
     "        ~setvar:'tx.inbound_anomaly_score_pl1=5'~"]).
Proof. vm_compute. done. Qed.
