(* ===== verification/CrsManifest.v ===== *)
(** * Core Rule Set manifests ([tools/corerulesetgen/validate.go], [render.go] and
    [buildRuleSourceYAML] of [rules.go])

    The version, name and size checks, the YAML documents of the generated
    resources, and the document of one rule file. *)
From S2P Require Import Prelude GoLib GoErrors Unsupported CrsRules.

(** ** Options ([generate.go])

    A map used as a set is [None] when nil; [Stderr] is an output of [Generate]. *)
Record Options := {
  RulesDir : string;
  Version : string;
  IgnoreRuleIDs : option (gset string);
  IgnorePMFromFile : bool;
  IncludeTestRule : bool;
  RuleSetName : string;
  Namespace : string;
  DataSourceName : string;
  NamePrefix : string;
  NameSuffix : string;
  DryRun : bool;
  SkipSizeCheck : bool;
  IgnoreUnsupportedRules : string;
  autoIgnoredIDs : option (gset string)
}.

(** ** Code outside the repository

    [k8s.io/apimachinery/pkg/util/validation] answers a name with the list of its
    faults; the [%q] verb quotes a text for an error message. *)
Class Validation := {
  IsDNS1123Subdomain : string -> list string;
  IsDNS1123Label : string -> list string;
  IsConfigMapKey : string -> list string;
  Quote : string -> string
}.

(** ** Checks ([validate.go]) *)

Definition maxRulesPayloadBytes : Z := 900 * 1024.
Definition maxDataFilesTotalBytes : Z := 900 * 1024.

(** [validVersionRe], the pattern [^\d+(\.\d+)*$]. *)
Definition validVersionRe (s : string) : bool :=
  forallb (fun part => negb (String.eqb part "") && all_digits part) (Split s ".").

Record CRSVersion := { Normalized : string; Setup : string }.

Definition name_char (a : ascii) : bool :=
  is_lower a || is_digit a || Ascii.eqb a "." || Ascii.eqb a "-".

(** [nameSanitizeRe.ReplaceAllString(name, "")], the pattern [[^a-z0-9.-]+]. *)
Fixpoint sanitize_name (s : string) : string :=
  match s with
  | EmptyString => ""
  | String a s' => if name_char a then String a (sanitize_name s') else sanitize_name s'
  end.

Definition dash_or_dot (a : ascii) : bool := Ascii.eqb a "-" || Ascii.eqb a ".".

Definition generateRuleSourceName (fileBase : string) : gerror + string :=
  let name := ToLower (TrimSuffix fileBase ".conf") in
  let name := ReplaceByte name "_" "-" in
  let name := sanitize_name name in
  let name := TrimLeft dash_or_dot name in
  let name := TrimRight dash_or_dot name in
  if String.eqb name "" then inl (ErrText ("cannot generate valid RuleSource name from file: " +:+ fileBase))
  else inr name.

Section checks.
Context `{Validation}.

Definition normalizeCRSVersion (v : string) : gerror + string * string :=
  let normalized := TrimPrefix (TrimSpace v) "v" in
  if negb (validVersionRe normalized) then
    inl (ErrText ("invalid CoreRuleSet version format " +:+ Quote v +:+
                  ": expected digits and dots (e.g. 4.24.1 or v4.24.1)"))
  else inr (normalized, ReplaceByte normalized "." "").

Definition ParseCRSVersion (v : string) : gerror + CRSVersion :=
  '(norm, setup) ← normalizeCRSVersion v; inr {| Normalized := norm; Setup := setup |}.

Definition checkPayloadSize (rulesBlock objectName : string) (opts : Options) : gerror + unit :=
  if SkipSizeCheck opts then inr () else
  if maxRulesPayloadBytes <? len rulesBlock then
    inl (ErrText ("rules payload for " +:+ Quote objectName +:+ " is about " +:+ Itoa (len rulesBlock) +:+
      " bytes (limit " +:+ Itoa maxRulesPayloadBytes +:+
      "): split rules, use smaller files, or pass --skip-size-check to override (not recommended)"))
  else inr ().

(** The loop of [checkRuleDataSize] over the entries in iteration order. *)
Fixpoint sum_data_sizes (sourceName : string) (entries : list (string * string)) (total : Z) : gerror + Z :=
  match entries with
  | [] => inr total
  | (k, v) :: entries' =>
      let n := len v in
      if maxRulesPayloadBytes <? n then
        inl (ErrText ("RuleData " +:+ Quote sourceName +:+ " file " +:+ Quote k +:+ " is about " +:+ Itoa n +:+
          " bytes (limit " +:+ Itoa maxRulesPayloadBytes +:+
          " per value): trim data files or pass --skip-size-check to override (not recommended)"))
      else sum_data_sizes sourceName entries' (total +i n)
  end.

(** [range_order] is the order in which [range] visits a map. *)
Definition checkRuleDataSize (range_order : gmap string string -> list (string * string))
    (sourceName : string) (entries : gmap string string) (opts : Options) : gerror + unit :=
  if SkipSizeCheck opts then inr () else
  total ← sum_data_sizes sourceName (range_order entries) 0;
  if maxDataFilesTotalBytes <? total then
    inl (ErrText ("RuleData " +:+ Quote sourceName +:+ " files total is about " +:+ Itoa total +:+
      " bytes (limit " +:+ Itoa maxDataFilesTotalBytes +:+
      "): split data across RuleData resources or pass --skip-size-check to override (not recommended)"))
  else inr ().

Definition validateRuleSourceObjectName (name : string) : gerror + unit :=
  match IsDNS1123Subdomain name with
  | [] => inr ()
  | errs => inl (ErrText ("invalid RuleSource name " +:+ Quote name +:+ ": " +:+ Join errs "; "))
  end.

Definition validateDataFileKey (key : string) : gerror + unit :=
  match IsConfigMapKey key with
  | [] => inr ()
  | errs => inl (ErrText ("invalid RuleData files key " +:+ Quote key +:+ " (from data filename): " +:+
                          Join errs "; "))
  end.
End checks.

(** ** Documents ([render.go]) *)

Definition is_nl (a : ascii) : bool := Ascii.eqb a nl.

Definition injectNamespaceInBaseRuleSourceYAML (doc ns : string) : string :=
  if String.eqb ns "" then doc else
  match Cut doc (text ["metadata:"; "  name: base-rules"]) with
  | None => doc
  | Some (before, after) =>
      before +:+ text ["metadata:"; "  namespace: "] +:+ ns +:+ text [""; "  name: base-rules"] +:+ after
  end.

(** The lines of the bundled rules; [~] stands for a double quote. *)
Definition base_rules_lines (normalizedVersion crsSetupVersion : string) : list string :=
  (dq <$>
  ["    SecRuleEngine On";
   "    SecRequestBodyAccess On";
   "    SecRequestBodyLimit 13107200";
   "    SecRequestBodyInMemoryLimit 131072";
   "    SecRequestBodyLimitAction Reject";
   "    SecResponseBodyAccess On";
   "    SecResponseBodyMimeType text/plain text/html text/xml application/json";
   "    # SecRequestBodyJsonDepthLimit directive requires Coraza 3.4.0 on WASM Plugin and it is not supported yet";
   "    # SecRequestBodyJsonDepthLimit 1024";
   "    SecResponseBodyLimit 524288";
   "    SecResponseBodyLimitAction ProcessPartial";
   "    SecAuditEngine RelevantOnly";
   "    SecAuditLogType Serial";
   "    SecAuditLog /dev/stdout";
   "    SecAuditLogFormat JSON";
   "    SecAuditLogParts ABIJDEFHZ";
   "    SecAuditLogRelevantStatus ~^(40[0-3]|40[5-9]|4[1-9][0-9]|5[0-9][0-9])$~";
   "    SecDefaultAction ~phase:1,log,auditlog,pass~";
   "    SecDefaultAction ~phase:2,log,auditlog,pass~";
   "    SecRule REQUEST_HEADERS:Content-Type ~^(?:application(?:/soap\+|/)|text/)xml~ \";
   "     ~id:200000,\";
   "     phase:1,\";
   "     t:none,t:lowercase,\";
   "     pass,\";
   "     nolog,\";
   "     ctl:requestBodyProcessor=XML~";
   "    SecRule REQUEST_HEADERS:Content-Type ~^application/json~ \";
   "     ~id:200001,\";
   "     phase:1,\";
   "     t:none,t:lowercase,\";
   "     pass,\";
   "     nolog,\";
   "     ctl:requestBodyProcessor=JSON~";
   "    SecRule REQUEST_HEADERS:Content-Type ~^application/[a-z0-9.-]+\+json~ \";
   "     ~id:200006,\";
   "     phase:1,\";
   "     t:none,t:lowercase,\";
   "     pass,\";
   "     nolog,\";
   "     ctl:requestBodyProcessor=JSON~";
   "    SecRule REQBODY_ERROR ~!@eq 0~ \";
   "     ~id:200002,\";
   "     phase:2,\";
   "     t:none,\";
   "     log,\";
   "     deny,\";
   "     status:400,\";
   "     msg:'Failed to parse request body.',\";
   "     logdata:'%{reqbody_error_msg}',\";
   "     severity:2~";
   "    SecRule MULTIPART_STRICT_ERROR ~!@eq 0~ \";
   "     ~id:200003,\";
   "     phase:2,\";
   "     t:none,\";
   "     log,\";
   "     deny,\";
   "     status:400,\";
   "     msg:'Multipart request body failed strict validation.'~";
   "    SecAction \";
   "     ~id:900120,\";
   "     phase:1,\";
   "     pass,\";
   "     t:none,\";
   "     nolog,\";
   "     tag:'OWASP_CRS',\"]) ++
  ["     ver:'OWASP_CRS/" +:+ normalizedVersion +:+ dq "',\"] ++
  (dq <$>
  ["     setvar:tx.early_blocking=1~";
   "    SecAction \";
   "     ~id:900990,\";
   "     phase:1,\";
   "     pass,\";
   "     t:none,\";
   "     nolog,\";
   "     tag:'OWASP_CRS',\"]) ++
  ["     ver:'OWASP_CRS/" +:+ normalizedVersion +:+ dq "',\"] ++
  ["     setvar:tx.crs_setup_version=" +:+ crsSetupVersion +:+ dq "~"].

Definition xCRSTestBlock : string := text (dq <$>
  ["    SecResponseBodyMimeType text/plain text/html text/xml application/json";
   "    SecDefaultAction ~phase:3,log,auditlog,pass~";
   "    SecDefaultAction ~phase:4,log,auditlog,pass~";
   "    SecDefaultAction ~phase:5,log,auditlog,pass~";
   "    SecDebugLogLevel 3";
   "    SecAction \";
   "     ~id:900005,\";
   "     phase:1,\";
   "     nolog,\";
   "     pass,\";
   "     t:none,\";
   "     setvar:tx.blocking_paranoia_level=4,\";
   "     setvar:tx.crs_validate_utf8_encoding=1,\";
   "     setvar:tx.arg_name_length=100,\";
   "     setvar:tx.arg_length=400,\";
   "     setvar:tx.total_arg_length=64000,\";
   "     setvar:tx.max_num_args=255,\";
   "     setvar:tx.max_file_size=64100,\";
   "     setvar:tx.combined_file_sizes=65535,\";
   "     ctl:ruleEngine=DetectionOnly,\";
   "     ctl:ruleRemoveById=910000~";
   "    SecRule REQUEST_HEADERS:X-CRS-Test ~@rx ^.*$~ \";
   "     ~id:999999,\";
   "     pass,\";
   "     phase:1,\";
   "     log,\";
   "     msg:'X-CRS-Test %{MATCHED_VAR}',\";
   "     ctl:ruleRemoveById=1-999999~"]).

(** [baseRulesYAML]: the document and the rules scalar. *)
Definition baseRulesYAML (normalizedVersion crsSetupVersion : string) (includeTest : bool) : string * string :=
  let inner := text (base_rules_lines normalizedVersion crsSetupVersion) +:+ lf in
  let inner := TrimRight is_nl inner in
  let body := text ["apiVersion: waf.k8s.coraza.io/v1alpha1"; "kind: RuleSource"; "metadata:";
                    "  name: base-rules"; "spec:"; "  rules: |"; ""] +:+ inner in
  let s := TrimRight is_nl body in
  let s := if includeTest then s +:+ lf +:+ xCRSTestBlock else s in
  let rulesScalar := inner +:+ lf in
  let rulesScalar := if includeTest then rulesScalar +:+ xCRSTestBlock +:+ lf else rulesScalar in
  (s, rulesScalar).

(** One iteration of the loop of [indentMultiline]. *)
Definition indent_line (prefix line : string) : string :=
  if String.eqb (TrimSpace line) "" then prefix +:+ lf else prefix +:+ line +:+ lf.

Definition indentMultiline (processed : string) (indent : nat) : string :=
  let prefix := Repeat " " indent in
  TrimSuffix (String.concat "" (indent_line prefix <$> Split processed nl)) lf.

Definition namespace_line (namespace : string) : string :=
  if String.eqb namespace "" then "" else "  namespace: " +:+ namespace +:+ lf.

Definition doc_head (kind namespace : string) : string :=
  text ["apiVersion: waf.k8s.coraza.io/v1alpha1"; "kind: " +:+ kind; "metadata:"; ""] +:+
  namespace_line namespace.

Definition formatRuleSourceYAML (name namespace indentedRules : string) : string :=
  doc_head "RuleSource" namespace +:+
  "  name: " +:+ name +:+ text [""; "spec:"; "  rules: |"; ""] +:+ indentedRules +:+ lf.

Definition formatRuleDataYAML (name namespace : string) (files : gmap string string) : string :=
  let keys := sort_Strings (elements (dom files)) in
  doc_head "RuleData" namespace +:+
  "  name: " +:+ name +:+ text [""; "spec:"; "  files:"; ""] +:+
  String.concat "" ((fun k => "    " +:+ k +:+ ": |" +:+ lf +:+
    indentMultiline (default "" (files !! k)) 6 +:+ lf) <$> keys).

Definition formatRuleSetYAML (rulesetName namespace : string) (sourceNames : list string)
    (dataSourceName : string) : string :=
  doc_head "RuleSet" namespace +:+
  "  name: " +:+ rulesetName +:+ text [""; "spec:"; "  sources:"; ""] +:+
  "    - name: base-rules" +:+ lf +:+
  String.concat "" ((fun n => "    - name: " +:+ n +:+ lf) <$> sourceNames) +:+
  (if String.eqb dataSourceName "" then ""
   else "  data:" +:+ lf +:+ "    - name: " +:+ dataSourceName +:+ lf).

Definition rulesetYAML (sourceNames : list string) (opts : Options) (includeData : bool) : string :=
  let dataSourceName := if includeData then DataSourceName opts else "" in
  formatRuleSetYAML (RuleSetName opts) (Namespace opts) sourceNames dataSourceName.

Section documents.
Context `{Validation} (ReadFile : string -> gerror + string).
Context (range_order : gmap string string -> list (string * string)).

(** The loop of [buildRuleDataYAML]. *)
Fixpoint read_data_files (dataFiles : list string) (entries : gmap string string) :
    gerror + gmap string string :=
  match dataFiles with
  | [] => inr entries
  | p :: dataFiles' =>
      let key := Base p in
      match validateDataFileKey key with
      | inl err => inl (errorf_w ("data file " +:+ p +:+ ": ") err)
      | inr _ =>
          match ReadFile p with
          | inl err => inl (errorf_w ("read data file " +:+ p +:+ ": ") err)
          | inr raw => read_data_files dataFiles' (<[key := ToValidUTF8 raw]> entries)
          end
      end
  end.

Definition buildRuleDataYAML (dataFiles : list string) (opts : Options) : gerror + string :=
  entries ← read_data_files dataFiles ∅;
  _ ← checkRuleDataSize range_order (DataSourceName opts) entries opts;
  inr (formatRuleDataYAML (DataSourceName opts) (Namespace opts) entries).

(** The results of [buildRuleSourceYAML]: name, document, reason of a skip,
    warnings, and the error. *)
Record RuleSourceYAML := {
  rs_name : string;
  rs_yaml : string;
  rs_skipReason : string;
  rs_warns : list string;
  rs_err : option gerror
}.

Definition rs_failed (skipReason : string) (warns : list string) (err : gerror) : RuleSourceYAML :=
  {| rs_name := ""; rs_yaml := ""; rs_skipReason := skipReason; rs_warns := warns; rs_err := Some err |}.

Definition buildRuleSourceYAML (path : string) (opts : Options) : RuleSourceYAML :=
  let base := Base path in
  match generateRuleSourceName base with
  | inl err => rs_failed (error_text err) [] err
  | inr rawName =>
      let name := NamePrefix opts +:+ rawName +:+ NameSuffix opts in
      if String.eqb name "" then
        rs_failed "invalid empty RuleSource name" [] (ErrText "empty RuleSource name after prefix/suffix")
      else
      match validateRuleSourceObjectName name with
      | inl err => rs_failed (error_text err) [] err
      | inr _ =>
          match processFileContent ReadFile path (IgnoreRuleIDs opts) (autoIgnoredIDs opts)
                  (IgnorePMFromFile opts) with
          | inl err => rs_failed "" [] err
          | inr (processed, warns) =>
              if String.eqb (TrimSpace processed) "" then
                {| rs_name := ""; rs_yaml := ""; rs_skipReason := "No SecRule or SecAction directives found";
                   rs_warns := warns; rs_err := None |}
              else
              let indented := indentMultiline processed 4 in
              let payload := indented +:+ lf in
              match checkPayloadSize payload name opts with
              | inl err => rs_failed "" warns err
              | inr _ =>
                  {| rs_name := name; rs_yaml := formatRuleSourceYAML name (Namespace opts) indented;
                     rs_skipReason := ""; rs_warns := warns; rs_err := None |}
              end
          end
      end
  end.
End documents.

(** ** Lemmas on names *)

Fixpoint all_bytes (f : ascii -> bool) (s : string) : bool :=
  match s with EmptyString => true | String a s' => f a && all_bytes f s' end.

Definition alphanumeric (a : ascii) : bool := is_lower a || is_digit a.

(** The first and the last byte satisfy [f]. *)
Definition head_is (f : ascii -> bool) (s : string) : Prop := exists a r, s = String a r /\ f a = true.
Definition last_is (f : ascii -> bool) (s : string) : Prop := exists r a, s = r +:+ String a "" /\ f a = true.

Lemma sanitize_name_chars s : all_bytes name_char (sanitize_name s) = true.
Proof. induction s as [|a s IH]; [done|]. simpl. destruct (name_char a) eqn:Ha; [|done]. simpl. by rewrite Ha. Qed.

Lemma TrimLeft_chars f cut s : all_bytes f s = true -> all_bytes f (TrimLeft cut s) = true.
Proof.
  induction s as [|a s IH]; [done|]. simpl. destruct (cut a); [|done].
  intros [_ Hs]%andb_true_iff. auto.
Qed.

Lemma TrimRight_chars f cut s : all_bytes f s = true -> all_bytes f (TrimRight cut s) = true.
Proof.
  induction s as [|a s IH]; [done|]. simpl. intros [Ha Hs]%andb_true_iff. specialize (IH Hs).
  destruct (TrimRight cut s); [destruct (cut a); simpl; by rewrite ?Ha|]. simpl in *. by rewrite Ha.
Qed.

Lemma TrimLeft_head cut s a r : TrimLeft cut s = String a r -> cut a = false.
Proof. induction s as [|b s IH]; [done|]. simpl. destruct (cut b) eqn:Hb; [done|]. intros. by simplify_eq. Qed.

Lemma TrimRight_head cut a s b r : cut a = false -> TrimRight cut (String a s) = String b r -> b = a.
Proof.
  simpl. intros Ha. rewrite Ha. destruct (TrimRight cut s); intros; by simplify_eq.
Qed.

Lemma TrimRight_last cut s : TrimRight cut s = "" \/ last_is (fun a => negb (cut a)) (TrimRight cut s).
Proof.
  induction s as [|a s IH]; [by left|]. simpl. destruct (TrimRight cut s) as [|b t] eqn:Ht.
  - destruct (cut a) eqn:Ha; [by left|]. right. exists "", a. by rewrite Ha.
  - right. destruct IH as [?|(r & c & Hr & Hc)]; [done|]. exists (String a r), c. by rewrite Hr, app_cons.
Qed.

Lemma all_bytes_app f s t : all_bytes f (s +:+ t) = all_bytes f s && all_bytes f t.
Proof. induction s as [|a s IH]; [done|]. rewrite app_cons. simpl. by rewrite IH, andb_assoc. Qed.

Lemma name_char_trimmed a : name_char a = true -> dash_or_dot a = false -> alphanumeric a = true.
Proof.
  unfold name_char, dash_or_dot, alphanumeric. intros Hn [H1 H2]%orb_false_iff.
  rewrite H1, H2, !orb_false_r in Hn. done.
Qed.

(** The name generated for any rule file is usable as a resource name: it is
    not empty, holds only lower-case letters, digits, dots and dashes, and starts
    and ends with a letter or digit. *)
Theorem generateRuleSourceName_valid (fileBase name : string) :
  generateRuleSourceName fileBase = inr name ->
  all_bytes name_char name = true /\ head_is alphanumeric name /\ last_is alphanumeric name.
Proof.
  unfold generateRuleSourceName.
  set (s := sanitize_name _). case_match eqn:Hempty; [done|]. intros [= <-]. bool_to_prop.
  set (t := TrimLeft dash_or_dot s) in *.
  assert (Hc : all_bytes name_char (TrimRight dash_or_dot t) = true)
    by apply TrimRight_chars, TrimLeft_chars, sanitize_name_chars.
  split; [done|]. split.
  - destruct (TrimRight dash_or_dot t) as [|a r] eqn:Ht; [done|]. exists a, r. split; [done|].
    simpl in Hc. apply andb_true_iff in Hc as [Ha _]. apply name_char_trimmed; [done|].
    destruct t as [|b u] eqn:Hu; [done|]. assert (Hb := TrimLeft_head _ _ _ _ Hu).
    by rewrite (TrimRight_head _ _ _ _ _ Hb Ht).
  - destruct (TrimRight_last dash_or_dot t) as [?|(r & a & Hr & Ha)]; [done|].
    rewrite Hr in *. exists r, a. split; [done|]. rewrite all_bytes_app in Hc.
    apply andb_true_iff in Hc as [_ Hc]. simpl in Hc. rewrite andb_true_r in Hc.
    apply negb_true_iff in Ha. by apply name_char_trimmed.
Qed.

Lemma generateRuleSourceName_valid_witness :
  generateRuleSourceName "REQUEST-901_Init.v2-.conf" = inr "request-901-init.v2" /\
  head_is alphanumeric "request-901-init.v2".
Proof.
  split; [reflexivity|].
  apply (generateRuleSourceName_valid "REQUEST-901_Init.v2-.conf" "request-901-init.v2"). reflexivity.
Defined.

(** ** Lemmas on block scalars *)

Lemma concat_lines (l : list string) :
  l <> [] -> String.concat "" ((fun x => x +:+ lf) <$> l) = Join l lf +:+ lf.
Proof.
  induction l as [|x l IH]; [done|]. intros _. destruct l as [|y l]; [done|].
  rewrite Join_cons by done. rewrite !string_app_assoc, <- IH by done.
  rewrite fmap_cons. unfold String.concat at 1. fold String.concat.
  destruct ((fun x => x +:+ lf) <$> y :: l) eqn:Hl; [done|].
  by rewrite !string_app_assoc.
Qed.

Lemma TrimSuffix_app s x : TrimSuffix (s +:+ x) x = s.
Proof. unfold TrimSuffix. by assert (strip_suffix x (s +:+ x) = Some s) as -> by by apply strip_suffix_Some. Qed.

Lemma Repeat_no_nl n : byte_in nl (Repeat " " n) = false.
Proof. induction n as [|n IH]; [done|]. simpl Repeat. by rewrite byte_in_app, IH. Qed.

(** What a line becomes: a line of white space only is emptied. *)
Definition blanked (line : string) : string := if String.eqb (TrimSpace line) "" then "" else line.

Lemma indentMultiline_lines s n :
  Split (indentMultiline s n) nl = (fun line => Repeat " " n +:+ blanked line) <$> Split s nl.
Proof.
  unfold indentMultiline.
  assert (indent_line (Repeat " " n) <$> Split s nl =
    (fun x => x +:+ lf) <$> ((fun line => Repeat " " n +:+ blanked line) <$> Split s nl)) as ->.
  { rewrite <- list_fmap_compose. apply list_fmap_ext. intros _ line _. simpl.
    unfold indent_line, blanked. case_match; by rewrite ?string_app_assoc, ?app_empty_l. }
  assert (Hne : (fun line => Repeat " " n +:+ blanked line) <$> Split s nl <> []).
  { intros Heq%fmap_nil_inv. by apply Split_not_nil in Heq. }
  rewrite concat_lines, TrimSuffix_app by done. apply Split_Join; [done|].
  apply Forall_fmap. eapply Forall_impl; [apply Split_no_sep|]. intros line Hline. simpl.
  rewrite byte_in_app, Repeat_no_nl. unfold blanked. by case_match.
Qed.

(** The indented text is a YAML block scalar of the rules: every line starts
    with the indentation, and removing it gives the lines of the rules back, lines
    of white space only being emptied. *)
Theorem indentMultiline_roundtrip (processed : string) (indent : nat) :
  strip_prefix (Repeat " " indent) <$> Split (indentMultiline processed indent) nl =
  (fun line => Some (blanked line)) <$> Split processed nl.
Proof.
  rewrite indentMultiline_lines, <- list_fmap_compose. apply list_fmap_ext.
  intros _ line _. simpl. by apply strip_prefix_Some.
Qed.
