(* ===== verification/CrsGenerate.v ===== *)
(** * The generator ([tools/corerulesetgen/scan.go], [build.go], [write.go] and
    [generate.go])

    Scanning a rules directory, building the bundle of documents, writing it, and
    the whole command with its report on stderr.  The file system and the output
    stream are arguments. *)
From S2P Require Import Prelude GoLib GoErrors Unsupported CrsRules CrsManifest.

(** ** Package path/filepath *)

(** One component of a path for [filepath.Clean]; [stack] is newest first. *)
Definition clean_step (rooted : bool) (stack : list string) (c : string) : list string :=
  if String.eqb c "" || String.eqb c "." then stack else
  if String.eqb c ".." then
    match stack with
    | top :: stack' => if String.eqb top ".." then c :: stack else stack'
    | [] => if rooted then [] else [c]
    end
  else c :: stack.

Definition Clean (path : string) : string :=
  let rooted := HasPrefix path "/" in
  let stack := fold_left (clean_step rooted) (Split path "/") [] in
  let out := (if rooted then "/" else "") +:+ Join (rev stack) "/" in
  if String.eqb out "" then "." else out.

(** [filepath.Join] of a non-empty directory and a pattern. *)
Definition join_path (dir pattern : string) : string := Clean (dir +:+ "/" +:+ pattern).

(** ** Scanning ([scan.go]) *)

Record ScanResult := {
  ConfPaths : list string;
  DataPaths : list string;
  PMFromFileRefs : bool
}.

(** The loop that looks for [@pmFromFile], stopping at the first. *)
Fixpoint find_pm_refs (ReadFile : string -> gerror + string) (confFiles : list string) : gerror + bool :=
  match confFiles with
  | [] => inr false
  | p :: confFiles' =>
      match ReadFile p with
      | inl rerr => inl (errorf_w ("read " +:+ p +:+ ": ") rerr)
      | inr raw => if Contains raw "@pmFromFile" then inr true else find_pm_refs ReadFile confFiles'
      end
  end.

Definition Scan (Glob : string -> gerror + list string) (ReadFile : string -> gerror + string)
    (rulesPath : string) : gerror + ScanResult :=
  confFiles ← Glob (join_path rulesPath "*.conf");
  let confFiles := sort_Strings confFiles in
  dataFiles ← Glob (join_path rulesPath "*.data");
  let dataFiles := sort_Strings dataFiles in
  pmFromFileRefs ← find_pm_refs ReadFile confFiles;
  inr {| ConfPaths := confFiles; DataPaths := dataFiles; PMFromFileRefs := pmFromFileRefs |}.

(** ** Building ([build.go]) *)

Record NamedYAML := { ny_Name : string; ny_Doc : string }.
Record BuildStats := { Processed : Z; Skipped : Z }.
Record ConfFileResult := {
  BaseName : string;
  Warns : list string;
  SourceName : string;
  YAML : string;
  SkipReason : string
}.
Record ManifestBundle := {
  BaseRuleSourceYAML : string;
  ExtraRuleSources : list NamedYAML;
  DataRuleDataDoc : string;
  RuleSetDoc : string;
  Stats : BuildStats;
  ConfFileResults : list ConfFileResult
}.

Definition UnsupportedRuleProfileWASM : string := "wasm".

Definition unsupportedIDsForProfile (profile : string) : list Z :=
  if String.eqb (ToLower (TrimSpace profile)) UnsupportedRuleProfileWASM
  then AllUnsupportedRuleIDs else [].

(** The loop of [mergeUnsupportedIDs]: the merged set and the automatic IDs. *)
Definition merge_step (userIgnore : option (gset string)) (acc : gset string * gset string) (id : Z) :
    gset string * gset string :=
  let '(merged, autoOnly) := acc in
  let sid := Itoa id in
  let merged := {[sid]} ∪ merged in
  match userIgnore with
  | None => (merged, {[sid]} ∪ autoOnly)
  | Some user => (merged, if bool_decide (sid ∈ user) then autoOnly else {[sid]} ∪ autoOnly)
  end.

Definition with_ignored (opts : Options) (ids auto : option (gset string)) : Options :=
  {| RulesDir := RulesDir opts; Version := Version opts; IgnoreRuleIDs := ids;
     IgnorePMFromFile := IgnorePMFromFile opts; IncludeTestRule := IncludeTestRule opts;
     RuleSetName := RuleSetName opts; Namespace := Namespace opts; DataSourceName := DataSourceName opts;
     NamePrefix := NamePrefix opts; NameSuffix := NameSuffix opts; DryRun := DryRun opts;
     SkipSizeCheck := SkipSizeCheck opts; IgnoreUnsupportedRules := IgnoreUnsupportedRules opts;
     autoIgnoredIDs := auto |}.

Definition mergeUnsupportedIDs (opts : Options) : Options :=
  match unsupportedIDsForProfile (IgnoreUnsupportedRules opts) with
  | [] => with_ignored opts (IgnoreRuleIDs opts) None
  | ids =>
      let userIgnore := IgnoreRuleIDs opts in
      let '(merged, autoOnly) := fold_left (merge_step userIgnore) ids (default ∅ userIgnore, ∅) in
      with_ignored opts (Some merged) (Some autoOnly)
  end.

(** The variables of the loop of [Build]. *)
Record build_state := {
  bs_results : list ConfFileResult;
  bs_extra : list NamedYAML;
  bs_names : list string;
  bs_processed : Z;
  bs_skipped : Z
}.

Section build.
Context `{Validation} (ReadFile : string -> gerror + string).
Context (range_order : gmap string string -> list (string * string)).

Definition build_step (opts : Options) (st : build_state) (p : string) : gerror + build_state :=
  let r := buildRuleSourceYAML ReadFile p opts in
  let results := bs_results st ++
    [{| BaseName := Base p; Warns := rs_warns r; SourceName := rs_name r; YAML := rs_yaml r;
        SkipReason := rs_skipReason r |}] in
  match rs_err r with
  | Some berr => inl berr
  | None =>
      if negb (String.eqb (rs_yaml r) "") then
        inr {| bs_results := results;
               bs_extra := bs_extra st ++ [{| ny_Name := rs_name r; ny_Doc := rs_yaml r |}];
               bs_names := bs_names st ++ [rs_name r];
               bs_processed := bs_processed st +i 1; bs_skipped := bs_skipped st |}
      else
        inr {| bs_results := results; bs_extra := bs_extra st; bs_names := bs_names st;
               bs_processed := bs_processed st; bs_skipped := bs_skipped st +i 1 |}
  end.

Fixpoint build_loop (opts : Options) (st : build_state) (paths : list string) : gerror + build_state :=
  match paths with
  | [] => inr st
  | p :: paths' => st' ← build_step opts st p; build_loop opts st' paths'
  end.

Definition Build (opts : Options) (scan : ScanResult) (ver : CRSVersion) : gerror + ManifestBundle :=
  let opts := mergeUnsupportedIDs opts in
  let '(baseYAML, baseRulesScalar) := baseRulesYAML (Normalized ver) (Setup ver) (IncludeTestRule opts) in
  let baseYAML := injectNamespaceInBaseRuleSourceYAML baseYAML (Namespace opts) in
  _ ← checkPayloadSize baseRulesScalar "base-rules" opts;
  st ← build_loop opts {| bs_results := []; bs_extra := []; bs_names := [];
                          bs_processed := 0; bs_skipped := 0 |} (ConfPaths scan);
  let hasData := (0 <? Z.of_nat (length (DataPaths scan))) in
  dataDoc ← (if hasData : bool then buildRuleDataYAML ReadFile range_order (DataPaths scan) opts else inr "");
  let rs := rulesetYAML (bs_names st) opts hasData in
  inr {| BaseRuleSourceYAML := baseYAML; ExtraRuleSources := bs_extra st; DataRuleDataDoc := dataDoc;
         RuleSetDoc := rs; Stats := {| Processed := bs_processed st; Skipped := bs_skipped st |};
         ConfFileResults := bs_results st |}.
End build.

(** ** Writing ([write.go])

    [write done chunk] is the result of writing [chunk] after the chunks [done];
    the chunks written in full are returned with the error, if any. *)
Section output.
Context (write : list string -> string -> option gerror).

Fixpoint write_chunks (written : list string) (chunks : list string) : list string * option gerror :=
  match chunks with
  | [] => (written, None)
  | c :: chunks' =>
      match write written c with
      | Some err => (written, Some err)
      | None => write_chunks (written ++ [c]) chunks'
      end
  end.

Definition WriteManifests (b : ManifestBundle) : list string * option gerror :=
  write_chunks []
    ([BaseRuleSourceYAML b +:+ lf] ++
     ((fun rs => "---" +:+ lf +:+ ny_Doc rs) <$> ExtraRuleSources b) ++
     (if String.eqb (DataRuleDataDoc b) "" then [] else ["---" +:+ lf +:+ DataRuleDataDoc b]) ++
     ["---" +:+ lf +:+ RuleSetDoc b +:+ lf]).
End output.

(** ** The command ([generate.go]) *)

Record Result := {
  RuleSourceCount : Z;
  HasDataSource : bool;
  res_RuleSetName : string;
  res_Namespace : string
}.

Definition applyDefaults (opts : Options) : Options :=
  {| RulesDir := RulesDir opts; Version := Version opts; IgnoreRuleIDs := IgnoreRuleIDs opts;
     IgnorePMFromFile := IgnorePMFromFile opts; IncludeTestRule := IncludeTestRule opts;
     RuleSetName := if String.eqb (RuleSetName opts) "" then "default-ruleset" else RuleSetName opts;
     Namespace := Namespace opts;
     DataSourceName := if String.eqb (DataSourceName opts) "" then "coreruleset-data" else DataSourceName opts;
     NamePrefix := NamePrefix opts; NameSuffix := NameSuffix opts; DryRun := DryRun opts;
     SkipSizeCheck := SkipSizeCheck opts; IgnoreUnsupportedRules := IgnoreUnsupportedRules opts;
     autoIgnoredIDs := autoIgnoredIDs opts |}.

Definition name_error (label quoted : string) (errs : list string) : gerror + unit :=
  match errs with
  | [] => inr ()
  | _ => inl (ErrText ("invalid " +:+ label +:+ " " +:+ quoted +:+ ": " +:+ Join errs "; "))
  end.

Definition validateResourceNames `{Validation} (opts : Options) : gerror + unit :=
  let check value label := name_error label (Quote value) (IsDNS1123Subdomain value) in
  _ ← check (RuleSetName opts) "ruleset-name";
  _ ← check (DataSourceName opts) "data-source-name";
  if String.eqb (Namespace opts) "" then inr ()
  else name_error "namespace" (Quote (Namespace opts)) (IsDNS1123Label (Namespace opts)).

Definition writeGenerateSummary (pmFromFileRefs noDataFiles : bool)
    (processed skipped ruleSourceCount dataFileCount : Z) (dataSourceName : string) : string :=
  (if pmFromFileRefs && noDataFiles then
     "warning: @pmFromFile references found under the rules directory but no .data files were emitted into a RuleData; add matching .data files or use --ignore-pmFromFile if the operator should not load pmFromFile data." +:+ lf
   else "") +:+
  lf +:+ Repeat "=" 60 +:+ lf +:+
  text ["Summary:"; "  Base rules: 1 (bundled)"; "  Processed: "] +:+ Itoa processed +:+ " rule files" +:+ lf +:+
  "  Skipped: " +:+ Itoa skipped +:+ " rule files" +:+ lf +:+
  "  Total RuleSources: " +:+ Itoa (ruleSourceCount +i 1) +:+ lf +:+
  "  Data files: " +:+ Itoa dataFileCount +:+ lf +:+
  (if 0 <? dataFileCount then "  RuleData: " +:+ dataSourceName +:+ lf else "") +:+
  Repeat "=" 60 +:+ lf +:+ lf.

(** The lines on stderr for one rule file and for one data file. *)
Definition report_conf (r : ConfFileResult) : string :=
  "Processing: " +:+ BaseName r +:+ lf +:+ String.concat "" (Warns r) +:+
  (if negb (String.eqb (YAML r) "") then "  [ok] Generated RuleSource: " +:+ SourceName r +:+ lf
   else "  [skip] Skipped: " +:+ SkipReason r +:+ lf).

Definition report_data (opts : Options) (p : string) : string :=
  "Processing: " +:+ Base p +:+ lf +:+ "  [ok] Added to RuleData: " +:+ DataSourceName opts +:+ lf.

Definition bool_text (b : bool) : string := if b then "true" else "false".

(** What the command runs in: [os.Stat] (whether the path is a directory),
    [filepath.Glob], [os.ReadFile] during the scan and during the build, the order
    of map iteration, and the output stream. *)
Record genv := {
  Stat : string -> gerror + bool;
  Glob : string -> gerror + list string;
  ReadFile_scan : string -> gerror + string;
  ReadFile_build : string -> gerror + string;
  range_entries : gmap string string -> list (string * string);
  out_write : list string -> string -> option gerror
}.

(** What the command leaves: stdout (by chunks), stderr, and its result. *)
Definition outcome : Type := list string * string * (gerror + Result).
Definition failed (stderr : string) (err : gerror) : outcome := ([], stderr, inl err).

Section generate.
Context `{Validation} (E : genv).

(** The report between the build and the output. *)
Definition report (opts : Options) (rulesPath : string) (scan : ScanResult) (bundle : ManifestBundle) : string :=
  let nconf := Z.of_nat (length (ConfPaths scan)) in
  let ndata := Z.of_nat (length (DataPaths scan)) in
  "Found " +:+ Itoa nconf +:+ " .conf files in " +:+ rulesPath +:+ lf +:+
  (if 0 <? ndata then "Found " +:+ Itoa ndata +:+ " .data files in " +:+ rulesPath +:+ lf else "") +:+
  lf +:+ "Processing " +:+ Itoa nconf +:+ " rule files..." +:+ lf +:+ lf +:+
  String.concat "" (report_conf <$> ConfFileResults bundle) +:+
  (if 0 <? ndata then
     lf +:+ "Processing " +:+ Itoa ndata +:+ " data files..." +:+ lf +:+ lf +:+
     String.concat "" (report_data opts <$> DataPaths scan)
   else "") +:+
  writeGenerateSummary (PMFromFileRefs scan && negb (IgnorePMFromFile opts)) (ndata =? 0)
    (Processed (Stats bundle)) (Skipped (Stats bundle))
    (Z.of_nat (length (ExtraRuleSources bundle))) ndata (DataSourceName opts).

Definition Generate (opts : Options) : outcome :=
  let opts := applyDefaults opts in
  match validateResourceNames opts with
  | inl err => failed "" err
  | inr _ =>
  let log := if DryRun opts then "dry-run: no objects sent to cluster" +:+ lf else "" in
  match ParseCRSVersion (Version opts) with
  | inl err => failed log err
  | inr ver =>
  let rulesPath := Clean (RulesDir opts) in
  match Stat E rulesPath with
  | inl err => failed log (errorf_w "rules directory: " err)
  | inr isDir =>
  if negb isDir then failed log (ErrText ("path is not a directory: " +:+ rulesPath)) else
  match Scan (Glob E) (ReadFile_scan E) rulesPath with
  | inl err => failed log err
  | inr scan =>
  match Build (ReadFile_build E) (range_entries E) opts scan ver with
  | inl err => failed log err
  | inr bundle =>
  let log := log +:+ report opts rulesPath scan bundle in
  match WriteManifests (out_write E) bundle with
  | (written, Some err) => (written, log, inl err)
  | (written, None) =>
      let count := Z.of_nat (length (ExtraRuleSources bundle)) +i 1 in
      let hasData := 0 <? Z.of_nat (length (DataPaths scan)) in
      let log := log +:+ "generated RuleSet " +:+ Quote (RuleSetName opts) +:+
        (if String.eqb (Namespace opts) "" then "" else " in namespace " +:+ Quote (Namespace opts)) +:+
        ": " +:+ Itoa count +:+ " RuleSource(s), dataSource=" +:+ bool_text hasData +:+ lf in
      (written, log, inr {| RuleSourceCount := count; HasDataSource := hasData;
                            res_RuleSetName := RuleSetName opts; res_Namespace := Namespace opts |})
  end end end end end end.
End generate.

(** ** Specification of the bundle *)

(** The resource one rule file stands for: its name and rules, if any are left. *)
Definition emitted (ReadFile : string -> gerror + string) (opts : Options) (p : string) :
    option (string * string) :=
  match generateRuleSourceName (Base p),
        processFileContent ReadFile p (IgnoreRuleIDs opts) (autoIgnoredIDs opts) (IgnorePMFromFile opts) with
  | inr rawName, inr (processed, _) =>
      if String.eqb (TrimSpace processed) "" then None
      else Some (NamePrefix opts +:+ rawName +:+ NameSuffix opts, processed)
  | _, _ => None
  end.

Definition source_doc (opts : Options) (src : string * string) : string :=
  formatRuleSourceYAML src.1 (Namespace opts) (indentMultiline src.2 4).

(** The API server takes the name, and the payload is within the limit unless the
    check is switched off. *)
Definition acceptable `{Validation} (opts : Options) (src : string * string) : Prop :=
  IsDNS1123Subdomain src.1 = [] /\
  (SkipSizeCheck opts = true \/ len (indentMultiline src.2 4) < maxRulesPayloadBytes).

(** ** Lemmas on the build *)

Section build_lemmas.
Context `{Validation} (ReadFile : string -> gerror + string).
Context (range_order : gmap string string -> list (string * string)).

Lemma checkPayloadSize_ok block name opts :
  checkPayloadSize block name opts = inr () ->
  SkipSizeCheck opts = true \/ len block <= maxRulesPayloadBytes.
Proof.
  unfold checkPayloadSize. destruct (SkipSizeCheck opts); [by left|]. case_match; [done|].
  bool_to_prop. intros _. right. lia.
Qed.

Lemma validateRuleSourceObjectName_ok name :
  validateRuleSourceObjectName name = inr () -> IsDNS1123Subdomain name = [].
Proof. unfold validateRuleSourceObjectName. by case_match. Qed.

Lemma buildRuleSourceYAML_ok p opts :
  let r := buildRuleSourceYAML ReadFile p opts in
  rs_err r = None ->
  match emitted ReadFile opts p with
  | None => rs_yaml r = ""
  | Some src => rs_name r = src.1 /\ rs_yaml r = source_doc opts src /\ acceptable opts src
  end.
Proof.
  unfold buildRuleSourceYAML, emitted.
  destruct (generateRuleSourceName (Base p)) as [err|rawName]; [done|].
  destruct (String.eqb _ ""); [done|].
  destruct (validateRuleSourceObjectName _) as [err|[]] eqn:Hname; [done|].
  destruct (processFileContent _ _ _ _ _) as [err|[processed warns]]; [done|].
  destruct (String.eqb (TrimSpace processed) ""); [done|].
  destruct (checkPayloadSize _ _ _) as [err|[]] eqn:Hsize; [done|]. simpl. intros _.
  split; [done|]. split; [done|].
  split; [by apply validateRuleSourceObjectName_ok|].
  apply checkPayloadSize_ok in Hsize as [|Hsize]; [by left|right].
  rewrite len_app in Hsize. simpl in *. change (len lf) with 1 in Hsize. lia.
Qed.

Lemma source_doc_not_empty opts src : String.eqb (source_doc opts src) "" = false.
Proof. done. Qed.

Lemma build_loop_exact opts paths st st' :
  build_loop ReadFile opts st paths = inr st' ->
  let srcs := omap (emitted ReadFile opts) paths in
  bs_extra st' = bs_extra st ++ ((fun src => {| ny_Name := src.1; ny_Doc := source_doc opts src |}) <$> srcs) /\
  bs_names st' = bs_names st ++ srcs.*1 /\
  Forall (acceptable opts) srcs /\
  wrap64 (bs_processed st') = wrap64 (bs_processed st + Z.of_nat (length srcs)) /\
  wrap64 (bs_skipped st') = wrap64 (bs_skipped st + (Z.of_nat (length paths) - Z.of_nat (length srcs))) /\
  length (bs_results st') = (length (bs_results st) + length paths)%nat.
Proof.
  revert st. induction paths as [|p paths IH]; intros st; simpl.
  { intros [= <-]. simpl. rewrite !app_nil_r, !Z.add_0_r. split_and!; [done..|lia]. }
  destruct (build_step ReadFile opts st p) as [err|st1] eqn:Hstep; [done|]. simpl.
  intros (He & Hn & Ha & Hp & Hs & Hr)%IH. unfold omap in *. unfold build_step in Hstep.
  destruct (rs_err _) eqn:Herr; [done|]. pose proof (buildRuleSourceYAML_ok p opts Herr) as Hok.
  destruct (emitted ReadFile opts p) as [src|]; simpl.
  - destruct Hok as (Hname & Hyaml & Hacc). rewrite Hyaml, source_doc_not_empty in Hstep. simpl in Hstep.
    rewrite Hname in Hstep.
    injection Hstep as <-. simpl in *. rewrite He, Hn, Hp, Hs, Hr, !length_app. simpl.
    rewrite <- !app_assoc. unfold int_add. rewrite wrap64_add_l.
    split; [done|]. split; [done|]. split; [by constructor|].
    split; [apply (f_equal wrap64); lia|]. split; [apply (f_equal wrap64); lia|lia].
  - rewrite Hok in Hstep. simpl in Hstep. injection Hstep as <-. simpl in *.
    rewrite He, Hn, Hp, Hs, Hr, !length_app. simpl. unfold int_add. rewrite wrap64_add_l.
    split; [done|]. split; [done|]. split; [done|]. split; [done|].
    split; [apply (f_equal wrap64); lia|lia].
Qed.

Lemma Build_exact opts scan ver bundle :
  Build ReadFile range_order opts scan ver = inr bundle ->
  let mo := mergeUnsupportedIDs opts in
  let srcs := omap (emitted ReadFile mo) (ConfPaths scan) in
  ExtraRuleSources bundle = (fun src => {| ny_Name := src.1; ny_Doc := source_doc mo src |}) <$> srcs /\
  RuleSetDoc bundle = rulesetYAML srcs.*1 mo (0 <? Z.of_nat (length (DataPaths scan))) /\
  Forall (acceptable mo) srcs /\
  length (ConfFileResults bundle) = length (ConfPaths scan) /\
  (DataRuleDataDoc bundle = "" <-> DataPaths scan = []).
Proof.
  unfold Build. set (mo := mergeUnsupportedIDs opts). destruct (baseRulesYAML _ _ _) as [base scalar].
  destruct (checkPayloadSize _ _ _); [done|]. simpl.
  destruct (build_loop _ _ _ _) as [err|st] eqn:Hloop; [done|]. simpl.
  apply build_loop_exact in Hloop as (He & Hn & Ha & _ & _ & Hr). simpl in *.
  destruct (DataPaths scan) as [|d ds] eqn:Hd; simpl.
  - intros [= <-]. simpl. by rewrite He, Hn, Hr.
  - destruct (buildRuleDataYAML _ _ _ _) as [err|doc] eqn:Hdoc; [done|]. simpl.
    intros [= <-]. simpl. rewrite He, Hn, Hr. split_and!; [done..|]. split; [|done].
    intros ->. unfold buildRuleDataYAML in Hdoc.
    destruct (read_data_files _ _ _); [done|]. simpl in Hdoc.
    by destruct (checkRuleDataSize _ _ _ _).
Qed.
End build_lemmas.

(** ** Lemmas on the ignored IDs *)

Lemma merge_fold user ids acc :
  (fold_left (merge_step user) ids acc).1 = acc.1 ∪ list_to_set (Itoa <$> ids) /\
  (fold_left (merge_step user) ids acc).2 = acc.2 ∪ (list_to_set (Itoa <$> ids) ∖ default ∅ user).
Proof.
  revert acc. induction ids as [|id ids IH]; intros [m a]; [split; set_solver|].
  cbn [fold_left]. rewrite fmap_cons, list_to_set_cons. destruct (IH (merge_step user (m, a) id)) as [-> ->]. unfold merge_step.
  destruct user as [user|]; simpl; [|split; set_solver].
  split; [set_solver|]. case_bool_decide; set_solver.
Qed.

Definition wasm_profile (opts : Options) : Prop :=
  ToLower (TrimSpace (IgnoreUnsupportedRules opts)) = UnsupportedRuleProfileWASM.

Lemma mergeUnsupportedIDs_wasm opts id :
  wasm_profile opts -> id ∈ AllUnsupportedRuleIDs ->
  id_in (IgnoreRuleIDs (mergeUnsupportedIDs opts)) (Itoa id) = true.
Proof.
  intros Hw Hid. unfold mergeUnsupportedIDs, unsupportedIDsForProfile. rewrite Hw.
  rewrite String.eqb_refl. destruct AllUnsupportedRuleIDs as [|x l]; [by apply elem_of_nil in Hid|].
  destruct (fold_left _ _ _) as [m a] eqn:Hf. simpl. apply bool_decide_eq_true.
  destruct (merge_fold (IgnoreRuleIDs opts) (x :: l) (default ∅ (IgnoreRuleIDs opts), ∅)) as [Hm _].
  rewrite Hf in Hm. simpl in Hm. rewrite Hm. set_solver.
Qed.

Lemma mergeUnsupportedIDs_user opts rid :
  id_in (IgnoreRuleIDs opts) rid = true -> id_in (IgnoreRuleIDs (mergeUnsupportedIDs opts)) rid = true.
Proof.
  unfold mergeUnsupportedIDs. destruct (unsupportedIDsForProfile _) as [|x l]; [done|].
  destruct (fold_left _ _ _) as [m a] eqn:Hf.
  destruct (merge_fold (IgnoreRuleIDs opts) (x :: l) (default ∅ (IgnoreRuleIDs opts), ∅)) as [Hm _].
  rewrite Hf in Hm. simpl in Hm. subst m. destruct (IgnoreRuleIDs opts); [|done]. simpl.
  rewrite !bool_decide_eq_true. set_solver.
Qed.

Lemma processFileContent_empty ReadFile path ign auto pm rules warns :
  processFileContent ReadFile path ign auto pm = inr (rules, warns) -> rules <> "" ->
  exists raw, ReadFile path = inr raw /\
    (Contains (TrimRight cr_or_nl (ToValidUTF8 raw)) "SecRule" ||
     Contains (TrimRight cr_or_nl (ToValidUTF8 raw)) "SecAction") = true.
Proof.
  unfold processFileContent. destruct (ReadFile path) as [|raw]; [done|]. rewrite <- negb_orb.
  destruct (_ || _) eqn:Hc; simpl; [eauto|]. by intros [= <- <-].
Qed.

Lemma emitted_supported (ReadFile : string -> gerror + string) (opts : Options) (p name rules : string) :
  wasm_profile opts ->
  emitted ReadFile (mergeUnsupportedIDs opts) p = Some (name, rules) ->
  exists raw keep,
    let blocks := splitIntoRules (TrimRight cr_or_nl (ToValidUTF8 raw)) in
    ReadFile p = inr raw /\ rules = Join (block_at blocks <$> keep) lf /\ StronglySorted lt keep /\
    forall i b, i ∈ keep -> blocks !! i = Some b -> is_SecRule b = true ->
      (forall id, id ∈ AllUnsupportedRuleIDs -> extractRuleID b <> Itoa id) /\
      id_in (IgnoreRuleIDs opts) (extractRuleID b) = false.
Proof.
  intros Hw. unfold emitted. destruct (generateRuleSourceName _); [done|].
  destruct (processFileContent _ _ _ _ _) as [|[processed warns]] eqn:Hproc; [done|].
  case_match eqn:Hempty; [done|]. intros [= _ <-].
  destruct (processFileContent_empty _ _ _ _ _ _ _ Hproc) as (raw & Hraw & Hc).
  { by intros ->. }
  destruct (processFileContent_kept _ _ _ (IgnoreRuleIDs (mergeUnsupportedIDs opts))
    (autoIgnoredIDs (mergeUnsupportedIDs opts)) (IgnorePMFromFile (mergeUnsupportedIDs opts)) Hraw Hc)
    as (keep & warns' & Heq & Hsort & _ & Hid & _).
  rewrite Hproc in Heq. injection Heq as -> _.
  exists raw, keep. split_and!; [done..|]. intros i b Hi Hb Hs.
  destruct (Hid i b Hi Hb Hs) as [Hrid _]. split.
  - intros id Hin Heq. rewrite Heq, (mergeUnsupportedIDs_wasm opts id Hw Hin) in Hrid. done.
  - destruct (id_in (IgnoreRuleIDs opts) _) eqn:Hu; [|done].
    by rewrite (mergeUnsupportedIDs_user _ _ Hu) in Hrid.
Qed.

(** With the [wasm] profile, no emitted RuleSource holds a rule the operator
    would reject: the emitted rules are blocks of the file, in order, and no
    [SecRule] among them has the ID of an unsupported rule or of a rule the user
    asked to ignore. *)
Theorem unsupported_never_emitted (ReadFile : string -> gerror + string) (opts : Options)
    (p name rules : string) :
  wasm_profile opts ->
  emitted ReadFile (mergeUnsupportedIDs opts) p = Some (name, rules) ->
  exists raw keep,
    let blocks := splitIntoRules (TrimRight cr_or_nl (ToValidUTF8 raw)) in
    ReadFile p = inr raw /\ rules = Join (block_at blocks <$> keep) lf /\ StronglySorted lt keep /\
    forall i b, i ∈ keep -> blocks !! i = Some b -> is_SecRule b = true ->
      (forall id, id ∈ AllUnsupportedRuleIDs -> extractRuleID b <> Itoa id) /\
      id_in (IgnoreRuleIDs opts) (extractRuleID b) = false.
Proof. apply emitted_supported. Qed.

(** ** The whole command *)

Lemma write_chunks_all write written chunks out :
  write_chunks write written chunks = (out, None) -> out = written ++ chunks.
Proof.
  revert written. induction chunks as [|c chunks IH]; intros written; simpl.
  - intros [= <-]. by rewrite app_nil_r.
  - destruct (write written c); [done|]. intros ->%IH. by rewrite <- app_assoc.
Qed.

Lemma Generate_output `{Validation} (E : genv) (opts : Options) (out : list string) (log : string)
    (res : Result) :
  Generate E opts = (out, log, inr res) ->
  let opts' := mergeUnsupportedIDs (applyDefaults opts) in
  exists scan base data,
    Scan (Glob E) (ReadFile_scan E) (Clean (RulesDir opts)) = inr scan /\
    let srcs := omap (emitted (ReadFile_build E) opts') (ConfPaths scan) in
    out = [base +:+ lf] ++ ((fun src => "---" +:+ lf +:+ source_doc opts' src) <$> srcs) ++
          ((fun d => "---" +:+ lf +:+ d) <$> data) ++
          ["---" +:+ lf +:+ rulesetYAML srcs.*1 opts' (HasDataSource res) +:+ lf] /\
    length data = (if HasDataSource res then 1%nat else 0%nat) /\
    (HasDataSource res = true <-> DataPaths scan <> []) /\
    Forall (acceptable opts') srcs /\
    RuleSourceCount res = wrap64 (Z.of_nat (length srcs) + 1).
Proof.
  unfold Generate. destruct (validateResourceNames _); [done|].
  destruct (ParseCRSVersion _) as [|ver]; [done|].
  change (RulesDir (applyDefaults opts)) with (RulesDir opts).
  destruct (Stat E _) as [|isDir]; [done|]. destruct (negb isDir); [done|].
  destruct (Scan _ _ _) as [|scan]; [done|].
  destruct (Build _ _ _ _ _) as [|bundle] eqn:Hbuild; [done|].
  apply Build_exact in Hbuild as (Hextra & Hset & Hacc & _ & Hdata).
  destruct (WriteManifests _ bundle) as [written [|]] eqn:Hwrite; [done|].
  intros [= <- _ <-]. apply write_chunks_all in Hwrite. simpl.
  set (hasData := 0 <? Z.of_nat (length (DataPaths scan))) in *.
  assert (Hhas : hasData = true <-> DataPaths scan <> []) by (unfold hasData; destruct (DataPaths scan); done).
  exists scan, (BaseRuleSourceYAML bundle), (if hasData then [DataRuleDataDoc bundle] else []).
  split; [done|]. split.
  - rewrite Hwrite, Hset, Hextra, <- list_fmap_compose. simpl. do 3 f_equal.
    destruct hasData; destruct (String.eqb_spec (DataRuleDataDoc bundle) "") as [He|He]; try done.
    + apply Hdata in He. by apply Hhas in He.
    + destruct He. apply Hdata. destruct (DataPaths scan); [done|]. by destruct Hhas as [_ Hhas]; discriminate Hhas.
  - split; [by destruct hasData|]. split; [done|]. split; [done|].
    rewrite Hextra, length_fmap. done.
Qed.


(** ** A concrete run *)

Definition sample_names (s : string) : list string :=
  if negb (String.eqb s "") && all_bytes name_char s then [] else ["a lowercase RFC 1123 name is required"].
Definition sample_validation : Validation :=
  {| IsDNS1123Subdomain := sample_names; IsDNS1123Label := sample_names; IsConfigMapKey := sample_names;
     Quote := fun s => dq "~" +:+ s +:+ dq "~" |}.

Definition sample_file (p : string) : gerror + string :=
  if String.eqb p "rules/REQUEST-922.conf" then
    inr (text (dq <$> ["# multipart"; "SecRule ARGS ~@rx a~ ~id:922110,phase:2,pass~";
                       "SecRule ARGS ~@pmFromFile words.data~ ~id:922120,phase:2,deny~"; ""]))
  else if String.eqb p "rules/empty.conf" then inr (text ["# nothing here"; ""])
  else if String.eqb p "rules/words.data" then inr (text ["select"; "union"; ""])
  else inl ErrNotExist.

Definition sample_env : genv :=
  {| Stat := fun _ => inr true;
     Glob := fun pattern => inr (if String.eqb pattern "rules/*.conf"
                                 then ["rules/empty.conf"; "rules/REQUEST-922.conf"] else ["rules/words.data"]);
     ReadFile_scan := sample_file; ReadFile_build := sample_file; range_entries := map_to_list;
     out_write := fun _ _ => None |}.

Definition sample_opts : Options :=
  {| RulesDir := "./rules/"; Version := " v4.24.1"; IgnoreRuleIDs := None; IgnorePMFromFile := false;
     IncludeTestRule := false; RuleSetName := ""; Namespace := "waf"; DataSourceName := "";
     NamePrefix := "crs-"; NameSuffix := ""; DryRun := false; SkipSizeCheck := false;
     IgnoreUnsupportedRules := " WASM "; autoIgnoredIDs := None |}.


Lemma unsupported_never_emitted_witness :
  exists rules, emitted sample_file (mergeUnsupportedIDs sample_opts) "rules/REQUEST-922.conf" =
      Some ("crs-request-922", rules) /\
    exists raw keep, sample_file "rules/REQUEST-922.conf" = inr raw /\
      rules = Join (block_at (splitIntoRules (TrimRight cr_or_nl (ToValidUTF8 raw))) <$> keep) lf.
Proof.
  destruct (emitted sample_file (mergeUnsupportedIDs sample_opts) "rules/REQUEST-922.conf")
    as [[name rules]|] eqn:He; [|vm_compute in He; discriminate He].
  assert (Hn : name = "crs-request-922").
  { change name with (default "" (fst <$> Some (name, rules))). rewrite <- He. vm_compute. reflexivity. }
  exists rules. split; [by rewrite Hn|].
  destruct (unsupported_never_emitted sample_file sample_opts "rules/REQUEST-922.conf" name rules)
    as (raw & keep & ? & ? & _); [vm_compute; reflexivity|exact He|].
  exists raw, keep. by split.
Defined.
