(* ===== verification/Scheme.v ===== *)
(** * The API group and its registration ([api/v1alpha1], [cmd/manager/main.go])

    [groupversion_info.go], the [init] functions of the type files and of the
    manager: which types the scheme of the manager's client knows.  The scheme and
    its builder are library code, a class with the laws their documentation gives. *)
From S2P Require Import Prelude GoLib GoErrors MemFS KubeApi Status EngineNetwork EngineToken EngineController RuleSetController CrsRules CrsManifest CrsGenerate.

Record group_version := { gv_Group : string; gv_Version : string }.

Definition GroupVersion : group_version := {| gv_Group := "waf.k8s.coraza.io"; gv_Version := "v1alpha1" |}.

(** The types whose pointers are registered. *)
Inductive go_type :=
  | TEngine | TEngineList | TRuleData | TRuleDataList | TRuleSet | TRuleSetList | TRuleSource | TRuleSourceList.

(** The name of a type, which is the kind it is registered as. *)
Definition type_name (t : go_type) : string :=
  match t with
  | TEngine => "Engine" | TEngineList => "EngineList" | TRuleData => "RuleData" | TRuleDataList => "RuleDataList"
  | TRuleSet => "RuleSet" | TRuleSetList => "RuleSetList" | TRuleSource => "RuleSource" | TRuleSourceList => "RuleSourceList"
  end.

(** [runtime.Scheme], [scheme.Builder] and [clientgoscheme.AddToScheme]. *)
Class SchemeLib := {
  Scheme : Type;
  NewScheme : Scheme;
  (** the scheme has a type for this group, version and kind *)
  recognises : Scheme -> string -> string -> string -> Prop;
  Builder : Type;
  (** [&scheme.Builder{GroupVersion: gv}] *)
  new_builder : group_version -> Builder;
  Register : list go_type -> Builder -> Builder;
  builder_AddToScheme : Builder -> Scheme -> gerror + Scheme;
  clientgo_AddToScheme : Scheme -> gerror + Scheme
}.

Section registration.
Context `{SchemeLib}.

(** ** Package initialisation *)

(** The [init] functions, by file. *)
Definition init_engine_types (b : Builder) : Builder := Register [TEngine; TEngineList] b.
Definition init_ruledata_types (b : Builder) : Builder := Register [TRuleData; TRuleDataList] b.
Definition init_ruleset_types (b : Builder) : Builder := Register [TRuleSet; TRuleSetList] b.
Definition init_rulesource_types (b : Builder) : Builder := Register [TRuleSource; TRuleSourceList] b.

(** What [SchemeBuilder] points to: as declared, and after the [init] functions, which
    the go command presents in the order of the file names. *)
Definition declared_SchemeBuilder : Builder := new_builder GroupVersion.
Definition SchemeBuilder : Builder :=
  init_rulesource_types (init_ruleset_types (init_ruledata_types (init_engine_types declared_SchemeBuilder))).

(** The method value holds the pointer, so it sees what was registered since. *)
Definition AddToScheme (s : Scheme) : gerror + Scheme := builder_AddToScheme SchemeBuilder s.

(** [utilruntime.Must]; [None]: it panics. *)
Definition Must (r : gerror + Scheme) : option Scheme := match r with inl _ => None | inr s => Some s end.

(** [init] of the manager, on the package's scheme. *)
Definition init_main : option Scheme :=
  s ← Must (clientgo_AddToScheme NewScheme);
  Must (AddToScheme s).
End registration.

(** What the documentation says of the library. *)
Class SchemeLaws (L : SchemeLib) := {
  (** the types a builder will add, and under which version *)
  registered : Builder -> go_type -> Prop;
  builder_version : Builder -> group_version;
  new_builder_version gv : builder_version (new_builder gv) = gv;
  Register_registered ts b t : registered (Register ts b) t <-> t ∈ ts \/ registered b t;
  Register_version ts b : builder_version (Register ts b) = builder_version b;
  AddToScheme_adds b s s' t : builder_AddToScheme b s = inr s' -> registered b t ->
    recognises s' (gv_Group (builder_version b)) (gv_Version (builder_version b)) (type_name t);
  AddToScheme_keeps b s s' g v k : builder_AddToScheme b s = inr s' -> recognises s g v k -> recognises s' g v k;
  clientgo_adds s s' : clientgo_AddToScheme s = inr s' ->
    recognises s' "networking.k8s.io" "v1" "NetworkPolicy" /\ recognises s' "" "v1" "ServiceAccount"
}.

(** ** What the program uses *)

(** [schema.GroupVersion.String]. *)
Definition gv_String (gv : group_version) : string := gv_Group gv +:+ "/" +:+ gv_Version gv.

(** The kind of the object a call of the controllers sends or receives by its Go
    type; an [unstructured] object carries its own. *)
Definition call_kind (e : effect) : option string :=
  match e with
  | EffGet kind _ | EffList kind _ _ | EffStatusPatch kind _ _ => Some kind
  | EffPatchFinalizers _ _ => Some "Engine"
  | EffCreatePolicy _ | EffUpdatePolicy _ | EffDeletePolicy _ => Some "NetworkPolicy"
  | EffCreateServiceAccount _ => Some "ServiceAccount"
  | _ => None
  end.

(** The version the controllers use a kind in. *)
Definition kind_version (kind : string) : group_version :=
  if String.eqb kind "NetworkPolicy" then {| gv_Group := "networking.k8s.io"; gv_Version := "v1" |}
  else if String.eqb kind "ServiceAccount" then {| gv_Group := ""; gv_Version := "v1" |}
  else GroupVersion.

Definition known_kinds : list string := ["Engine"; "RuleSet"; "RuleSource"; "RuleData"; "NetworkPolicy"; "ServiceAccount"].
Definition known_call (e : effect) : Prop := forall kind, call_kind e = Some kind -> kind ∈ known_kinds.

Lemma known_call_of e kind : call_kind e = Some kind -> kind ∈ known_kinds -> known_call e.
Proof. by intros He Hk kind' [= <-]%(eq_trans (eq_sym He)). Qed.

Ltac known_call := intros ? [= <-]; apply (bool_decide_unpack _); exact I.

Section calls.
Context `{ApiMeta} (A : api) (r : EngineReconciler) (range_order : gmap string string -> list string).

Lemma patch_conditions_known {O} `{StatusObject O} ap (o : O) : so_kind ∈ known_kinds -> adds known_call (patch_conditions A ap o).
Proof. intros Hk. unfold patch_conditions, status_patch. solve_adds; by intros ? [= <-]. Qed.

Lemma patchReady_known {O} `{StatusObject O} (o : O) g reason m : so_kind ∈ known_kinds -> adds known_call (patchReady A o g reason m).
Proof. intros Hk. unfold patchReady. apply adds_bind; [by apply adds_emit|]. intros _. by apply patch_conditions_known. Qed.

Lemma patchDegraded_known {O} `{StatusObject O} (o : O) g reason m : so_kind ∈ known_kinds -> adds known_call (patchDegraded A o g reason m).
Proof. intros Hk. unfold patchDegraded. apply adds_bind; [by apply adds_emit|]. intros _. by apply patch_conditions_known. Qed.

Lemma Engine_known : so_kind (O := Engine) ∈ known_kinds.
Proof. by apply (bool_decide_unpack _). Qed.
Lemma RuleSet_known : so_kind (O := RuleSet) ∈ known_kinds.
Proof. by apply (bool_decide_unpack _). Qed.
#[local] Hint Resolve patch_conditions_known patchReady_known patchDegraded_known Engine_known RuleSet_known : operator.

Lemma delete_policies_known items : adds known_call (delete_policies A items).
Proof. induction items as [|np items IH]; simpl; solve_adds. all: known_call. Qed.

Lemma serverSideApply_known u : adds known_call (serverSideApply A u).
Proof. unfold serverSideApply. solve_adds; by intros ?. Qed.
#[local] Hint Resolve delete_policies_known serverSideApply_known : operator.

Lemma Engine_Reconcile_known req : adds known_call (EngineController.Reconcile A r req).
Proof.
  unfold EngineController.Reconcile, provision, selectDriver, handleInvalidDriverConfiguration, provisionWasmDriver,
    isRuleSetDegraded, initEngineStatus, applyWasmPlugin, guarded, fail_degraded, applyNetworkPolicy,
    findNetworkPolicyForEngine, ensureCacheClientServiceAccount, ensureCacheToken, generateToken,
    handleNetworkPolicyDeletion, cleanupNetworkPolicy, ensureNetworkPolicyFinalizer, patch_finalizers.
  solve_adds.
  all: try known_call; try by intros ?.
Qed.
End calls.

Section ruleset_calls.
Context `{ApiMeta} (A : api) (range_order : gmap string string -> list string).
#[local] Hint Resolve patch_conditions_known patchReady_known patchDegraded_known RuleSet_known : operator.

Lemma report_known errs msg : adds known_call (report_source_errors errs msg).
Proof. revert msg. induction errs as [|err errs IH]; intros msg; simpl; solve_adds; by intros ?. Qed.

Lemma loadData_loop_known rs refs df : adds known_call (loadData_loop A rs refs df).
Proof. revert df. induction refs as [|ref refs IH]; intros df; simpl; unfold degrade; solve_adds; known_call. Qed.

Lemma loadSources_loop_known rs refs frags : adds known_call (loadSources_loop A rs refs frags).
Proof. revert frags. induction refs as [|ref refs IH]; intros frags; simpl; unfold degrade; solve_adds; known_call. Qed.
#[local] Hint Resolve report_known loadData_loop_known loadSources_loop_known : operator.

Lemma RuleSet_Reconcile_known req : adds known_call (RuleSetController.Reconcile A range_order req).
Proof.
  unfold RuleSetController.Reconcile, initializeStatus, loadData, loadSources, validate_and_cache,
    validateAggregatedRules, rejectUnsupportedRules, cacheRules, degrade.
  solve_adds.
  all: try known_call; try by intros ?.
Qed.
End ruleset_calls.

(** ** The manifests of the generator *)

(** A document of this kind, in the version of the API group. *)
Definition document_of (kind doc : string) : Prop :=
  exists rest, doc = "apiVersion: " +:+ gv_String GroupVersion +:+ lf +:+ "kind: " +:+ kind +:+ lf +:+ rest.

Lemma doc_head_of kind namespace rest : document_of kind (doc_head kind namespace +:+ rest).
Proof.
  exists ("metadata:" +:+ lf +:+ namespace_line namespace +:+ rest). unfold doc_head, text, lf.
  cbn [Join String.concat]. by rewrite !string_app_assoc.
Qed.

Lemma TrimRight_app cut p a x : cut a = false -> TrimRight cut (p +:+ String a x) = p +:+ String a (TrimRight cut x).
Proof.
  intros Ha. induction p as [|b p IH]; simpl.
  - destruct (TrimRight cut x); [by rewrite Ha|done].
  - rewrite !app_cons. simpl. rewrite IH. by destruct p.
Qed.

(** The bundled document: its head stays when its end is trimmed and its namespace
    set. *)
Definition base_head : string := text ["apiVersion: waf.k8s.coraza.io/v1alpha1"; "kind: RuleSource"; ""].

Lemma baseRulesYAML_head norm setup test : exists rest,
  (baseRulesYAML norm setup test).1 = base_head +:+ text ["metadata:"; "  name: base-rules"] +:+ rest.
Proof.
  unfold baseRulesYAML. set (inner := TrimRight is_nl (text (base_rules_lines norm setup) +:+ lf)). cbn [fst].
  set (x := text [""; "spec:"; "  rules: |"; ""] +:+ inner).
  assert (Hbody : text ["apiVersion: waf.k8s.coraza.io/v1alpha1"; "kind: RuleSource"; "metadata:"; "  name: base-rules"; "spec:"; "  rules: |"; ""] +:+ inner =
    (base_head +:+ text ["metadata:"; "  name: base-rule"]) +:+ String "s" x) by reflexivity.
  rewrite Hbody, TrimRight_app by done. destruct test.
  - exists (TrimRight is_nl x +:+ lf +:+ xCRSTestBlock). reflexivity.
  - exists (TrimRight is_nl x). reflexivity.
Qed.

Lemma injected_document doc ns rest : doc = base_head +:+ text ["metadata:"; "  name: base-rules"] +:+ rest ->
  document_of "RuleSource" (injectNamespaceInBaseRuleSourceYAML doc ns).
Proof.
  intros ->. unfold injectNamespaceInBaseRuleSourceYAML. destruct (String.eqb ns ""); [by eexists|].
  assert (Cut (base_head +:+ text ["metadata:"; "  name: base-rules"] +:+ rest) (text ["metadata:"; "  name: base-rules"]) =
    Some (base_head, rest)) as -> by reflexivity.
  by eexists.
Qed.

Section manifests.
Context `{Validation} (ReadFile : string -> gerror + string)
  (range_order : gmap string string -> list (string * string)).

(** Every document of a bundle, with its kind. *)
Lemma Build_documents opts scan ver bundle :
  Build ReadFile range_order opts scan ver = inr bundle ->
  document_of "RuleSource" (BaseRuleSourceYAML bundle) /\
  Forall (fun n => document_of "RuleSource" (ny_Doc n)) (ExtraRuleSources bundle) /\
  (DataRuleDataDoc bundle = "" \/ document_of "RuleData" (DataRuleDataDoc bundle)) /\
  document_of "RuleSet" (RuleSetDoc bundle).
Proof.
  intros Hb. pose proof (Build_exact ReadFile range_order _ _ _ _ Hb) as (He & Hrs & _). unfold Build in Hb.
  destruct (baseRulesYAML _ _ _) as [base scalar] eqn:Hbase.
  destruct (baseRulesYAML_head (Normalized ver) (Setup ver) (IncludeTestRule (mergeUnsupportedIDs opts))) as [rest Hrest].
  rewrite Hbase in Hrest. simpl in Hrest.
  destruct (checkPayloadSize _ _ _); [done|]. simpl in Hb.
  destruct (build_loop _ _ _ _) as [err|st] eqn:Hloop; [done|]. simpl in Hb.
  split_and!.
  - destruct (if 0 <? Z.of_nat (length (DataPaths scan)) then _ else _) as [err|doc]; [done|].
    injection Hb as <-. by eapply injected_document.
  - rewrite He. apply Forall_fmap, Forall_true. intros src. apply doc_head_of.
  - destruct (0 <? Z.of_nat (length (DataPaths scan))); [|injection Hb as <-; by left].
    unfold buildRuleDataYAML in Hb. destruct (read_data_files _ _ _) as [|entries]; [done|]. simpl in Hb.
    destruct (checkRuleDataSize _ _ _ _); [done|]. injection Hb as <-. right. apply doc_head_of.
  - rewrite Hrs. apply doc_head_of.
Qed.
End manifests.

(** ** The property *)

Section scheme.
Context `{L : SchemeLib} `{!SchemeLaws L}.

Lemma SchemeBuilder_version : builder_version SchemeBuilder = GroupVersion.
Proof.
  unfold SchemeBuilder, init_rulesource_types, init_ruleset_types, init_ruledata_types, init_engine_types.
  rewrite !Register_version. apply new_builder_version.
Qed.

Lemma SchemeBuilder_registered t : registered SchemeBuilder t.
Proof.
  unfold SchemeBuilder, init_rulesource_types, init_ruleset_types, init_ruledata_types, init_engine_types.
  rewrite !Register_registered, !elem_of_cons. destruct t; tauto.
Qed.

(** The scheme of the manager recognises a kind in the version the program uses. *)
Definition known_to (s : Scheme) (kind : string) : Prop :=
  recognises s (gv_Group (kind_version kind)) (gv_Version (kind_version kind)) kind.

Lemma init_main_known s kind : init_main = Some s -> kind ∈ known_kinds -> known_to s kind.
Proof.
  unfold init_main, AddToScheme. destruct (clientgo_AddToScheme NewScheme) as [|s1] eqn:H1; [done|]. simpl.
  destruct (builder_AddToScheme SchemeBuilder s1) as [|s2] eqn:H2; [done|]. simpl. intros [= <-].
  destruct (clientgo_adds _ _ H1) as [Hnp Hsa].
  assert (Ht : forall t, recognises s2 "waf.k8s.coraza.io" "v1alpha1" (type_name t)).
  { intros t. pose proof (AddToScheme_adds _ _ _ t H2 (SchemeBuilder_registered t)) as Hr.
    by rewrite SchemeBuilder_version in Hr. }
  unfold known_kinds, known_to. rewrite !elem_of_cons.
  intros [->|[->|[->|[->|[->|[->|Hk]]]]]]; [exact (Ht TEngine)|exact (Ht TRuleSet)|exact (Ht TRuleSource)|exact (Ht TRuleData)| | |].
  - by eapply AddToScheme_keeps.
  - by eapply AddToScheme_keeps.
  - by apply not_elem_of_nil in Hk.
Qed.

(** The documents of a bundle, in the order they are written. *)
Definition bundle_documents (b : ManifestBundle) : list string :=
  BaseRuleSourceYAML b :: (ny_Doc <$> ExtraRuleSources b) ++
  (if String.eqb (DataRuleDataDoc b) "" then [] else [DataRuleDataDoc b]) ++ [RuleSetDoc b].

(** C21: the scheme covers the program.  Once the packages are initialised, the
    scheme of the manager knows every kind that a call of a reconciliation of
    either controller sends or receives, in the version it uses it in; the owner
    of the account of an Engine is named by the registered version and kind; and
    every document the generator emits is of a registered kind in the version of
    the API group. *)
Theorem scheme_covers_program (s : Scheme) : init_main = Some s ->
  (forall (M : ApiMeta) A r req w, exists l, w_trace (EngineController.Reconcile A r req w).1 = w_trace w ++ l /\
     forall e kind, e ∈ l -> call_kind e = Some kind -> known_to s kind) /\
  (forall (M : ApiMeta) A order req w, exists l, w_trace (RuleSetController.Reconcile A order req w).1 = w_trace w ++ l /\
     forall e kind, e ∈ l -> call_kind e = Some kind -> known_to s kind) /\
  (forall req engine o, o ∈ sa_Owners (newServiceAccount req engine) ->
     or_APIVersion o = gv_String GroupVersion /\ kind_version (or_Kind o) = GroupVersion /\ known_to s (or_Kind o)) /\
  (forall (V : Validation) ReadFile order opts scan ver b, Build ReadFile order opts scan ver = inr b ->
     Forall (fun doc => exists kind, known_to s kind /\ kind_version kind = GroupVersion /\ document_of kind doc)
       (bundle_documents b)).
Proof.
  intros Hs.
  assert (Hl : forall l, Forall known_call l -> forall e kind, e ∈ l -> call_kind e = Some kind -> known_to s kind).
  { intros l Hl e kind He Hk. rewrite Forall_forall in Hl. eapply init_main_known; [done|]. by eapply Hl. }
  assert (Hk : forall kind doc, kind ∈ ["RuleSource"; "RuleData"; "RuleSet"] -> document_of kind doc ->
    exists kind, known_to s kind /\ kind_version kind = GroupVersion /\ document_of kind doc).
  { intros kind doc Hin Hd. exists kind. rewrite !elem_of_cons in Hin.
    destruct Hin as [->|[->|[->|Hin]]]; [| | |by apply not_elem_of_nil in Hin];
      (split_and!; [|done|done]); apply init_main_known; [done| |done| |done|];
      apply (bool_decide_unpack _); exact I. }
  split_and!.
  - intros M A r req w. destruct (Engine_Reconcile_known A r req w) as (l & Hw & Hf). eauto.
  - intros M A order req w. destruct (RuleSet_Reconcile_known A order req w) as (l & Hw & Hf). eauto.
  - intros req engine o Ho. apply list_elem_of_singleton in Ho as ->. split_and!; [done|done|].
    apply init_main_known; [done|]. apply (bool_decide_unpack _). exact I.
  - intros V ReadFile order opts scan ver b Hb.
    destruct (Build_documents ReadFile order _ _ _ _ Hb) as (Hbase & Hextra & Hdata & Hset). unfold bundle_documents.
    constructor; [by apply (Hk "RuleSource"); [apply (bool_decide_unpack _)|]|].
    rewrite !Forall_app. split_and!.
    + apply Forall_fmap. eapply Forall_impl; [exact Hextra|]. intros n Hn.
      by apply (Hk "RuleSource"); [apply (bool_decide_unpack _)|].
    + destruct (String.eqb_spec (DataRuleDataDoc b) ""); [constructor|]. constructor; [|constructor].
      destruct Hdata as [?|Hdata]; [done|]. by apply (Hk "RuleData"); [apply (bool_decide_unpack _)|].
    + constructor; [|constructor]. by apply (Hk "RuleSet"); [apply (bool_decide_unpack _)|].
Qed.
End scheme.

(** ** A library that keeps lists *)

Definition list_SchemeLib : SchemeLib := {|
  Scheme := list (string * string * string);
  NewScheme := [];
  recognises s g v k := (g, v, k) ∈ s;
  Builder := group_version * list go_type;
  new_builder gv := (gv, []);
  Register ts b := (b.1, b.2 ++ ts);
  builder_AddToScheme b s := inr (s ++ ((fun t => (gv_Group b.1, gv_Version b.1, type_name t)) <$> b.2));
  clientgo_AddToScheme s := inr (s ++ [("networking.k8s.io", "v1", "NetworkPolicy"); ("", "v1", "ServiceAccount")])
|}.

Definition list_SchemeLaws : SchemeLaws list_SchemeLib.
Proof.
  refine {| registered := fun (b : @Builder list_SchemeLib) t => t ∈ b.2; builder_version := fun b : @Builder list_SchemeLib => b.1 |}.
  - done.
  - intros ts b t. simpl. rewrite elem_of_app. tauto.
  - done.
  - intros b s s' t [= <-] Ht. simpl. rewrite elem_of_app, list_elem_of_fmap. right. by exists t.
  - intros b s s' g v k [= <-] Hk. simpl. rewrite elem_of_app. by left.
  - intros s s' [= <-]. simpl. rewrite !elem_of_app, !elem_of_cons. tauto.
Defined.

Lemma scheme_covers_program_witness :
  exists s : @Scheme list_SchemeLib, init_main (H := list_SchemeLib) = Some s /\
    exists l, w_trace (EngineController.Reconcile (H := list_ApiMeta) sample_engine_api sample_reconciler
      (object_name (e_Meta sample_engine)) empty_world).1 = l /\
    EffGet "RuleSet" {| nn_Namespace := "ns"; nn_Name := "rs" |} ∈ l /\
    recognises (SchemeLib := list_SchemeLib) s "waf.k8s.coraza.io" "v1alpha1" "RuleSet".
Proof.
  destruct (init_main (H := list_SchemeLib)) as [s|] eqn:Hs; [|vm_compute in Hs; discriminate Hs].
  exists s. split; [reflexivity|].
  destruct (scheme_covers_program (L := list_SchemeLib) (SchemeLaws0 := list_SchemeLaws) s Hs) as [He _].
  destruct (He list_ApiMeta sample_engine_api sample_reconciler (object_name (e_Meta sample_engine)) empty_world) as (l & Hl & Hk).
  eexists. split; [reflexivity|].
  assert (Hin : EffGet "RuleSet" {| nn_Namespace := "ns"; nn_Name := "rs" |} ∈
    w_trace (EngineController.Reconcile (H := list_ApiMeta) sample_engine_api sample_reconciler
      (object_name (e_Meta sample_engine)) empty_world).1).
  { apply (list_elem_of_lookup_2 _ 3). vm_compute. reflexivity. }
  split; [exact Hin|]. rewrite Hl in Hin. exact (Hk _ "RuleSet" Hin eq_refl).
Defined.
