(* ===== verification/KubectlCoraza.v ===== *)
(** * The kubectl plugin ([cmd/kubectl-coraza/main.go])

    [genCRS], from the values of its flags to what it writes.  The reading of the
    flags is in [KubectlFlags]; their defaults are here. *)
From S2P Require Import Prelude GoLib GoErrors Unsupported CrsRules CrsManifest CrsGenerate.

(** The flags of [kubectl-coraza generate coreruleset]. *)
Record crs_flags := {
  f_rules_dir : string;
  f_version : string;
  f_ignore_rules : string;
  f_ignore_pmFromFile : bool;
  f_include_test_rule : bool;
  f_ruleset_name : string;
  f_namespace : string;
  f_data_source_name : string;
  f_name_prefix : string;
  f_name_suffix : string;
  f_dry_run : string;
  f_skip_size_check : bool;
  f_ignore_unsupported_rules : string
}.

(** The defaults, with the two required flags. *)
Definition default_flags (rules_dir version : string) : crs_flags :=
  {| f_rules_dir := rules_dir; f_version := version; f_ignore_rules := ""; f_ignore_pmFromFile := false;
     f_include_test_rule := false; f_ruleset_name := "default-ruleset"; f_namespace := "";
     f_data_source_name := "coreruleset-data"; f_name_prefix := ""; f_name_suffix := ""; f_dry_run := "";
     f_skip_size_check := false; f_ignore_unsupported_rules := "wasm" |}.

(** The loop over the comma-separated IDs. *)
Definition ignore_step (ignoreSet : gset string) (p : string) : gset string :=
  let id := TrimSpace p in
  if String.eqb id "" then ignoreSet else {[ id ]} ∪ ignoreSet.

Definition parse_ignored (ignoreCSV : string) : gset string :=
  if String.eqb (TrimSpace ignoreCSV) "" then ∅ else fold_left ignore_step (Split ignoreCSV ",") ∅.

Definition announce_ignored (ignoreSet : gset string) : string :=
  if (0 <? Z.of_nat (size ignoreSet)) then
    "Ignoring rule IDs: " +:+ Join (sort_Strings (elements ignoreSet)) ", " +:+ lf
  else "".

Definition crs_options (fl : crs_flags) : Options :=
  {| RulesDir := f_rules_dir fl; Version := f_version fl; IgnoreRuleIDs := Some (parse_ignored (f_ignore_rules fl));
     IgnorePMFromFile := f_ignore_pmFromFile fl; IncludeTestRule := f_include_test_rule fl;
     RuleSetName := f_ruleset_name fl; Namespace := f_namespace fl; DataSourceName := f_data_source_name fl;
     NamePrefix := f_name_prefix fl; NameSuffix := f_name_suffix fl;
     DryRun := EqualFold (TrimSpace (f_dry_run fl)) "client"; SkipSizeCheck := f_skip_size_check fl;
     IgnoreUnsupportedRules := f_ignore_unsupported_rules fl; autoIgnoredIDs := None |}.

(** [genCRS]: what it writes to stdout and to stderr, and its result. *)
Definition genCRS `{Validation} (E : genv) (fl : crs_flags) : outcome :=
  let '(out, log, res) := Generate E (crs_options fl) in
  (out, announce_ignored (parse_ignored (f_ignore_rules fl)) +:+ log, res).

(** ** The ignored IDs *)

(** White space holds no comma. *)
Lemma space1_comma a : space1 a = true -> Ascii.eqb a "," = false.
Proof. destruct a as [[] [] [] [] [] [] [] []]; done. Qed.
Lemma space2_comma a b : space2 a b = true -> Ascii.eqb a "," || Ascii.eqb b "," = false.
Proof.
  unfold space2. intros Hs. apply orb_false_iff. rewrite !Ascii.eqb_neq.
  split; intros ->; bool_to_prop; unfold code in *; simpl in *; intuition lia.
Qed.
Lemma space3_comma a b c : space3 a b c = true -> Ascii.eqb a "," || (Ascii.eqb b "," || Ascii.eqb c ",") = false.
Proof.
  unfold space3, in_range. intros Hs. rewrite !orb_false_iff, !Ascii.eqb_neq.
  repeat split; intros ->; rewrite !orb_true_iff, !andb_true_iff in Hs;
    rewrite ?Z.eqb_eq, ?Z.leb_le in Hs; revert Hs; change (code ",") with 44; lia.
Qed.

Lemma trim_space_left_comma n s : (String.length s <= n)%nat -> byte_in "," (trim_space_left s) = byte_in "," s.
Proof.
  revert s. induction n as [|n IH]; intros [|a s] Hn; simpl in Hn; [done|lia|done|].
  cbn [trim_space_left]. destruct (space1 a) eqn:H1.
  { rewrite IH by lia. cbn [byte_in]. by rewrite space1_comma. }
  destruct s as [|b s]; [done|]. simpl in Hn. destruct (space2 a b) eqn:H2.
  { rewrite IH by lia. cbn [byte_in]. by rewrite orb_assoc, space2_comma. }
  destruct s as [|c s]; [done|]. simpl in Hn. destruct (space3 a b c) eqn:H3; [|done].
  rewrite IH by lia. cbn [byte_in]. apply space3_comma in H3. rewrite !orb_false_iff in H3. by destruct H3 as (-> & -> & ->).
Qed.

Lemma trim_space_rev_comma n s : (String.length s <= n)%nat -> byte_in "," (trim_space_rev s) = byte_in "," s.
Proof.
  revert s. induction n as [|n IH]; intros [|c s] Hn; simpl in Hn; [done|lia|done|].
  cbn [trim_space_rev]. destruct (space1 c) eqn:H1.
  { rewrite IH by lia. cbn [byte_in]. by rewrite space1_comma. }
  destruct s as [|b s]; [done|]. simpl in Hn. destruct (space2 b c) eqn:H2.
  { rewrite IH by lia. cbn [byte_in]. by rewrite orb_assoc, (orb_comm (Ascii.eqb c ",")), space2_comma. }
  destruct s as [|a s]; [done|]. simpl in Hn. destruct (space3 a b c) eqn:H3; [|done].
  rewrite IH by lia. cbn [byte_in]. apply space3_comma in H3. rewrite !orb_false_iff in H3. by destruct H3 as (-> & -> & ->).
Qed.

Lemma string_of_list_ascii_app l1 l2 :
  String.string_of_list_ascii (l1 ++ l2) = String.string_of_list_ascii l1 +:+ String.string_of_list_ascii l2.
Proof. induction l1 as [|a l1 IH]; [done|]. cbn. by rewrite IH. Qed.

Lemma byte_in_rev c s : byte_in c (rev_string s) = byte_in c s.
Proof.
  unfold rev_string. induction s as [|a s IH]; [done|]. cbn [String.list_ascii_of_string rev].
  rewrite string_of_list_ascii_app, byte_in_app, IH. cbn. by rewrite orb_false_r, orb_comm.
Qed.

Lemma TrimSpace_comma s : byte_in "," (TrimSpace s) = byte_in "," s.
Proof.
  unfold TrimSpace. by rewrite byte_in_rev, (trim_space_rev_comma _ _ (le_n _)), byte_in_rev,
    (trim_space_left_comma _ _ (le_n _)).
Qed.

(** An ID of the list: a piece between commas, without the space around it. *)
Definition listed (ignoreCSV id : string) : Prop :=
  id <> "" /\ exists p, p ∈ Split ignoreCSV "," /\ TrimSpace p = id.

Lemma ignore_fold ps ignoreSet id :
  id ∈ fold_left ignore_step ps ignoreSet <-> id ∈ ignoreSet \/ (id <> "" /\ exists p, p ∈ ps /\ TrimSpace p = id).
Proof.
  revert ignoreSet. induction ps as [|p ps IH]; intros ignoreSet; simpl; [set_solver|].
  rewrite IH. unfold ignore_step. destruct (String.eqb_spec (TrimSpace p) "") as [He|He]; set_solver.
Qed.

Lemma parse_ignored_listed csv id : id ∈ parse_ignored csv <-> listed csv id.
Proof.
  unfold parse_ignored, listed. destruct (String.eqb_spec (TrimSpace csv) "") as [He|He].
  - split; [set_solver|]. rewrite Split_no_sep_singleton by (by rewrite <- TrimSpace_comma, He).
    intros (Hid & p & ->%list_elem_of_singleton & <-). done.
  - rewrite ignore_fold. set_solver.
Qed.

(** ** What the plugin emits *)

(** Every rule of a file is among the file's blocks, and no [SecRule] of it has an
    unsupported ID or a listed one. *)
Definition supported_source (E : genv) (fl : crs_flags) (p : string) (src : string * string) : Prop :=
  exists raw keep,
    let blocks := splitIntoRules (TrimRight cr_or_nl (ToValidUTF8 raw)) in
    ReadFile_build E p = inr raw /\ src.2 = Join (block_at blocks <$> keep) lf /\ StronglySorted lt keep /\
    forall i b, i ∈ keep -> blocks !! i = Some b -> is_SecRule b = true ->
      (forall id, id ∈ AllUnsupportedRuleIDs -> extractRuleID b <> Itoa id) /\
      ~ listed (f_ignore_rules fl) (extractRuleID b).


(** The defaults, and one ID ignored twice. *)
Definition sample_flags : crs_flags :=
  {| f_rules_dir := "./rules/"; f_version := "v4.24.1"; f_ignore_rules := " 922120, ,922120"; f_ignore_pmFromFile := false;
     f_include_test_rule := false; f_ruleset_name := "default-ruleset"; f_namespace := "waf";
     f_data_source_name := "coreruleset-data"; f_name_prefix := "crs-"; f_name_suffix := ""; f_dry_run := "";
     f_skip_size_check := false; f_ignore_unsupported_rules := "wasm" |}.

