(* ===== verification/Triage.v ===== *)
(** * Triage rules ([tools/github_project_manager/triage.go] and [pr_triage.go])

    The label, size, area and milestone decisions of the project automation, as
    functions of the labels of an issue or pull request. *)
From S2P Require Import Prelude GoLib GoErrors.

(** ** Package slices *)

Definition slices_Contains (l : list string) (x : string) : bool := bool_decide (x ∈ l).
Definition ContainsFunc {A} (l : list A) (f : A -> bool) : bool := existsb f l.

(** ** Labels from the milestone ([triage.go]) *)

Record triageResult := { LabelsToAdd : list string; LabelsToRemove : list string }.

Definition triage_accepted : string := "triage/accepted".
Definition triage_needs : string := "triage/needs-triage".
Definition triage_declined : string := "triage/declined".

(** The condition of both loops. *)
Definition other_triage (l : string) : bool := HasPrefix l "triage/" && negb (String.eqb l triage_accepted).

Definition computeLabelUpdates (labels : list string) (hasMilestone : bool) : triageResult :=
  if negb hasMilestone then
    let toRemove := if slices_Contains labels triage_accepted then [triage_accepted] else [] in
    let triageCount := length (filter (fun l => other_triage l = true) labels) in
    if (triageCount =? 0)%nat then {| LabelsToAdd := [triage_needs]; LabelsToRemove := toRemove |}
    else if slices_Contains labels triage_needs && (1 <? triageCount)%nat then
      {| LabelsToAdd := []; LabelsToRemove := toRemove ++ [triage_needs] |}
    else {| LabelsToAdd := []; LabelsToRemove := toRemove |}
  else
    {| LabelsToAdd := if negb (slices_Contains labels triage_accepted) then [triage_accepted] else [];
       LabelsToRemove := filter (fun l => other_triage l = true) labels |}.

Definition effectiveLabels (labels : list string) (result : triageResult) : list string :=
  filter (fun l => l ∉ LabelsToRemove result) labels ++ LabelsToAdd result.

Definition hasLabelPrefix (labels : list string) (prefix : string) : bool :=
  ContainsFunc labels (fun l => HasPrefix l prefix).

(** ** Declined issues *)

Record declinedResult := {
  d_LabelsToRemove : list string;
  RemoveMilestone : bool;
  CloseIssue : bool
}.

Definition computeDeclined (labels : list string) (hasMilestone : bool) (state : string) :
    option declinedResult :=
  if negb (slices_Contains labels triage_declined) then None
  else Some {|
    d_LabelsToRemove :=
      filter (fun l => (HasPrefix l "triage/" && negb (String.eqb l triage_declined)) = true) labels;
    RemoveMilestone := hasMilestone;
    CloseIssue := negb (String.eqb state "closed") |}.

(** ** Areas and sizes of issues *)

Definition areaRules : list (string * list string) :=
  [("area/testing", ["test"; "testing"; "e2e"; "unit test"; "integration test"]);
   ("area/infrastructure", ["ci"; "pipeline"; "build"; "makefile"; "dockerfile"; "github action"; "workflow"; "script"]);
   ("area/documentation", ["docs"; "documentation"; "readme"; "guide"]);
   ("area/refinements", ["refactor"; "improvement"; "cleanup"; "enhance"; "technical debt"]);
   ("area/perfscale", ["performance"; "scale"; "scaling"; "latency"; "throughput"; "benchmark"])].

Definition computeAreaLabels (labels : list string) (body : string) : list string :=
  if negb (slices_Contains labels triage_accepted) || hasLabelPrefix labels "area/" then []
  else
    let lower := ToLower body in
    fst <$> filter (fun r => ContainsFunc r.2 (fun kw => Contains lower kw) = true) areaRules.

Definition computeSizeLabels (labels : list string) : list string :=
  if slices_Contains labels triage_accepted && negb (hasLabelPrefix labels "size/")
  then ["size/needs-sizing"] else [].

(** The changes [runUpdateLabels] ([main.go]) computes for an issue. *)
Definition update_plan (labels : list string) (hasMilestone : bool) (body : string) : triageResult :=
  let result := computeLabelUpdates labels hasMilestone in
  let effective := effectiveLabels labels result in
  {| LabelsToAdd := LabelsToAdd result ++ computeSizeLabels effective ++ computeAreaLabels effective body;
     LabelsToRemove := LabelsToRemove result |}.

(** ** Pull requests ([pr_triage.go]) *)

Definition pathAreaRules : list (string * list string) :=
  [("area/api", ["api/"]);
   ("area/controllers", ["internal/controller/"]);
   ("area/cache", ["internal/rulesets/"]);
   ("area/testing", ["test/"; "internal/controller/suite_test.go"]);
   ("area/infrastructure", [".github/"; "Makefile"; "Dockerfile"; "hack/"; "tools/"]);
   ("area/documentation", ["docs/"; "README.md"; "CONTRIBUTING.md"; "DEVELOPMENT.md"; "RELEASE.md"]);
   ("area/helm", ["charts/"])].

Definition computePRAreaLabels (labels files : list string) : list string :=
  if hasLabelPrefix labels "area/" then []
  else fst <$> filter (fun rule =>
    ContainsFunc files (fun f => ContainsFunc rule.2 (fun p => HasPrefix f p)) = true) pathAreaRules.

Definition computePRSizeLabel (labels : list string) (additions deletions : Z) : list string :=
  if hasLabelPrefix labels "size/" then []
  else
    let total := additions +i deletions in
    [if total <=? 10 then "size/XS"
     else if total <=? 50 then "size/S"
     else if total <=? 200 then "size/M"
     else if total <=? 500 then "size/L"
     else "size/XL"].

Record Milestone := { m_Number : Z; m_Title : string }.

(** [github.com/Masterminds/semver]: parsing and precedence. *)
Class Semver := {
  version : Type;
  StrictNewVersion : string -> option version;
  LessThan : version -> version -> bool
}.

(** The documented order: versions are totally preordered by precedence. *)
Class SemverLaws `{Semver} := {
  LessThan_irrefl v : LessThan v v = false;
  LessThan_trans u v w : LessThan u v = true -> LessThan v w = true -> LessThan u w = true;
  LessThan_cotrans u v w : LessThan u v = true -> LessThan u w = true \/ LessThan w v = true
}.

Section milestones.
Context `{Semver}.

Definition parseSemver (s : string) : option version := StrictNewVersion (TrimPrefix s "v").

Definition semverLess (a b : string) : bool :=
  match parseSemver a, parseSemver b with
  | Some aVer, Some bVer => LessThan aVer bVer
  | _, _ => String.ltb a b
  end.

(** The loop of [findLowestMilestone]. *)
Definition lowest_step (best : option Milestone) (m : Milestone) : option Milestone :=
  match parseSemver (m_Title m) with
  | None => best
  | Some _ =>
      match best with
      | None => Some m
      | Some b => if semverLess (m_Title m) (m_Title b) then Some m else best
      end
  end.

Definition findLowestMilestone (milestones : list Milestone) : gerror + Milestone :=
  match fold_left lowest_step milestones None with
  | None => inl (ErrText "no open milestones with semver titles found")
  | Some best => inr best
  end.
End milestones.

(** ** The rules the labels satisfy afterwards *)

Definition is_triage (l : string) : bool := HasPrefix l "triage/".

(** With a milestone the issue is accepted and nothing else; without one it is not
    accepted, has a triage label, and needs triage only if no other label says more. *)
Definition triaged (hasMilestone : bool) (labels : list string) : Prop :=
  if hasMilestone then
    triage_accepted ∈ labels /\ (forall l, l ∈ labels -> is_triage l = true -> l = triage_accepted) /\
    hasLabelPrefix labels "size/" = true
  else
    triage_accepted ∉ labels /\ (exists l, l ∈ labels /\ is_triage l = true) /\
    (triage_needs ∈ labels -> forall l, l ∈ labels -> is_triage l = true -> l = triage_needs).

Definition no_change : triageResult := {| LabelsToAdd := []; LabelsToRemove := [] |}.

(** ** Lemmas *)

Lemma slices_Contains_true l x : slices_Contains l x = true <-> x ∈ l.
Proof. apply bool_decide_eq_true. Qed.
Lemma slices_Contains_false l x : slices_Contains l x = false <-> x ∉ l.
Proof. apply bool_decide_eq_false. Qed.

Lemma hasLabelPrefix_true labels p :
  hasLabelPrefix labels p = true <-> exists l, l ∈ labels /\ HasPrefix l p = true.
Proof.
  unfold hasLabelPrefix, ContainsFunc. rewrite existsb_exists. by setoid_rewrite list_elem_of_In.
Qed.

Lemma hasLabelPrefix_app l1 l2 p : hasLabelPrefix (l1 ++ l2) p = hasLabelPrefix l1 p || hasLabelPrefix l2 p.
Proof. apply existsb_app. Qed.

Lemma other_triage_true l : other_triage l = true <-> is_triage l = true /\ l <> triage_accepted.
Proof. unfold other_triage. by rewrite andb_true_iff, negb_true_iff, String.eqb_neq. Qed.

(** An issue that is not accepted gets no size and no area. *)
Lemma not_accepted_plain labels body :
  triage_accepted ∉ labels -> computeSizeLabels labels = [] /\ computeAreaLabels labels body = [].
Proof.
  intros Hacc. unfold computeSizeLabels, computeAreaLabels. by apply slices_Contains_false in Hacc as ->.
Qed.

(** The labels added for size and area are no triage labels. *)
Lemma size_labels_plain labels l : l ∈ computeSizeLabels labels -> l = "size/needs-sizing".
Proof. unfold computeSizeLabels. case_match; set_solver. Qed.

Lemma area_labels_in labels body l : l ∈ computeAreaLabels labels body -> l ∈ areaRules.*1.
Proof.
  unfold computeAreaLabels. case_match; [set_solver|].
  intros (r & -> & [_ Hr]%list_elem_of_filter)%list_elem_of_fmap. by apply list_elem_of_fmap_2.
Qed.

Lemma area_rule_labels l : l ∈ areaRules.*1 -> HasPrefix l "area/" = true /\ is_triage l = false /\ HasPrefix l "size/" = false.
Proof. cbn. rewrite !elem_of_cons, elem_of_nil. by intros [->|[->|[->|[->|[->|[]]]]]]. Qed.

Lemma NoDup_fmap_filter {A B} (f : A -> B) (P : A -> Prop) `{forall x, Decision (P x)} (l : list A) :
  NoDup (f <$> l) -> NoDup (f <$> filter P l).
Proof. intros Hl. eapply sublist_NoDup; [exact Hl|]. apply fmap_sublist, sublist_filter. Qed.

Lemma computeAreaLabels_NoDup labels body : NoDup (computeAreaLabels labels body).
Proof.
  unfold computeAreaLabels. case_match; [constructor|].
  apply (NoDup_fmap_filter fst). apply (bool_decide_unpack _). vm_compute. exact I.
Qed.

(** The number of triage labels other than the accepted one. *)
Definition other_count (labels : list string) : nat := length (filter (fun l => other_triage l = true) labels).

Lemma other_count_app l1 l2 : other_count (l1 ++ l2) = (other_count l1 + other_count l2)%nat.
Proof. unfold other_count. by rewrite filter_app, length_app. Qed.

Lemma other_count_zero labels : other_count labels = 0%nat <-> forall l, l ∈ labels -> other_triage l = false.
Proof.
  unfold other_count. rewrite length_zero_iff_nil. split.
  - intros Hnil l Hl. apply not_true_iff_false. intros Ho.
    assert (l ∈ filter (fun l => other_triage l = true) labels) as Hin by by apply list_elem_of_filter.
    rewrite Hnil in Hin. by apply elem_of_nil in Hin.
  - intros Hno. apply filter_none, Forall_forall. intros l Hl. by rewrite Hno.
Qed.

(** Without duplicates, removing one label removes one from the count. *)
Lemma other_count_remove x labels :
  NoDup labels -> x ∈ labels ->
  other_count labels = (other_count (filter (fun l => l <> x) labels) + (if other_triage x then 1 else 0))%nat.
Proof.
  induction 1 as [|y l Hy Hnd IH]; [by intros ?%elem_of_nil|]. intros [->|Hx]%elem_of_cons.
  - rewrite filter_cons_False by naive_solver.
    rewrite (filter_all (fun l => l <> y) l) by (apply Forall_forall; intros z Hz ->; done).
    change (y :: l) with ([y] ++ l). rewrite other_count_app. unfold other_count at 1.
    rewrite filter_cons. destruct (other_triage y); [rewrite decide_True by done|rewrite decide_False by done];
      simpl; lia.
  - rewrite filter_cons_True by (intros ->; done).
    change (y :: l) with ([y] ++ l). change (y :: filter (fun l => l <> x) l) with ([y] ++ filter (fun l => l <> x) l).
    rewrite !other_count_app, IH by done. lia.
Qed.

Lemma other_count_remove_absent (x : string) (labels : list string) : x ∉ labels -> filter (fun l => l <> x) labels = labels.
Proof. intros Hx. apply filter_all, Forall_forall. intros l Hl ->. done. Qed.

Lemma other_count_accepted labels :
  NoDup labels -> other_count (filter (fun l => l <> triage_accepted) labels) = other_count labels.
Proof.
  intros Hnd. destruct (decide (triage_accepted ∈ labels)) as [Hin|Hout].
  - rewrite (other_count_remove _ _ Hnd Hin). change (other_triage triage_accepted) with false. cbv iota. by rewrite Nat.add_0_r.
  - by rewrite other_count_remove_absent.
Qed.

(** What is left once the accepted label is gone. *)
Definition unaccepted (labels : list string) : list string := filter (fun l => l <> triage_accepted) labels.

Lemma effective_unaccepted labels add :
  effectiveLabels labels
    {| LabelsToAdd := add; LabelsToRemove := if slices_Contains labels triage_accepted then [triage_accepted] else [] |} =
  unaccepted labels ++ add.
Proof.
  unfold effectiveLabels, unaccepted. cbn [LabelsToAdd LabelsToRemove]. f_equal.
  destruct (slices_Contains labels triage_accepted) eqn:Hc.
  - apply list_filter_iff. set_solver.
  - apply slices_Contains_false in Hc. rewrite other_count_remove_absent by done.
    apply filter_all, Forall_forall. set_solver.
Qed.

Lemma effective_unaccepted_needs labels :
  effectiveLabels labels
    {| LabelsToAdd := [];
       LabelsToRemove := (if slices_Contains labels triage_accepted then [triage_accepted] else []) ++ [triage_needs] |} =
  filter (fun l => l <> triage_needs) (unaccepted labels).
Proof.
  unfold effectiveLabels, unaccepted. cbn [LabelsToAdd LabelsToRemove]. rewrite app_nil_r, list_filter_filter.
  destruct (slices_Contains labels triage_accepted) eqn:Hc.
  - apply list_filter_iff. set_solver.
  - apply slices_Contains_false in Hc. apply filter_ext_in. intros x Hx. set_solver.
Qed.

Lemma unaccepted_in labels l : l ∈ unaccepted labels <-> l <> triage_accepted /\ l ∈ labels.
Proof. unfold unaccepted. by rewrite list_elem_of_filter. Qed.

Lemma triage_needs_other : other_triage triage_needs = true.
Proof. done. Qed.

(** ** Without a milestone *)

Lemma effective_without labels :
  NoDup labels ->
  let after := effectiveLabels labels (computeLabelUpdates labels false) in
  NoDup after /\ triage_accepted ∉ after /\ (1 <= other_count after)%nat /\
  (triage_needs ∈ after -> other_count after = 1%nat).
Proof.
  intros Hnd. unfold computeLabelUpdates. cbn [negb]. fold (other_count labels).
  assert (Hnd' : NoDup (unaccepted labels)) by by apply NoDup_filter.
  assert (Hcount : other_count (unaccepted labels) = other_count labels) by by apply other_count_accepted.
  destruct (Nat.eqb_spec (other_count labels) 0) as [Hz|Hz].
  - rewrite effective_unaccepted.
    assert (Hneeds : triage_needs ∉ labels).
    { intros Hin. pose proof (proj1 (other_count_zero labels) Hz _ Hin) as Hf. done. }
    split_and!.
    + apply NoDup_app. split_and!; [done| |apply NoDup_singleton]. intros l Hl ->%list_elem_of_singleton.
      by apply unaccepted_in in Hl as [_ Hl].
    + rewrite elem_of_app, unaccepted_in, list_elem_of_singleton. naive_solver.
    + rewrite other_count_app, Hcount. change (other_count [triage_needs]) with 1%nat. lia.
    + intros _. rewrite other_count_app, Hcount, Hz. done.
  - destruct (slices_Contains labels triage_needs && (1 <? other_count labels)%nat) eqn:Hb.
    + apply andb_true_iff in Hb as [Hin%slices_Contains_true Hgt%Nat.ltb_lt].
      rewrite effective_unaccepted_needs.
      assert (Hn : triage_needs ∈ unaccepted labels) by by apply unaccepted_in.
      pose proof (other_count_remove _ _ Hnd' Hn) as Hrem. rewrite triage_needs_other, Hcount in Hrem.
      split_and!.
      * by apply NoDup_filter.
      * intros [_ [Hne _]%unaccepted_in]%list_elem_of_filter. done.
      * lia.
      * by intros [Hne _]%list_elem_of_filter.
    + rewrite effective_unaccepted, app_nil_r. split_and!; [done| |lia|].
      * by intros [Hne _]%unaccepted_in.
      * intros [_ Hin]%unaccepted_in. apply andb_false_iff in Hb as [Hb|Hb].
        { apply slices_Contains_false in Hb. done. }
        apply Nat.ltb_ge in Hb. lia.
Qed.

Lemma update_plan_without labels body :
  NoDup labels -> update_plan labels false body = computeLabelUpdates labels false.
Proof.
  intros Hnd. destruct (effective_without labels Hnd) as (_ & Hacc & _). unfold update_plan.
  destruct (not_accepted_plain _ body Hacc) as [-> ->]. rewrite !app_nil_r.
  by destruct (computeLabelUpdates labels false).
Qed.

Lemma without_stable labels body :
  NoDup labels -> triage_accepted ∉ labels -> (1 <= other_count labels)%nat ->
  (triage_needs ∈ labels -> other_count labels = 1%nat) -> update_plan labels false body = no_change.
Proof.
  intros Hnd Hacc Hpos Hneeds. rewrite update_plan_without by done.
  unfold computeLabelUpdates. cbn [negb]. fold (other_count labels).
  apply slices_Contains_false in Hacc as ->.
  destruct (Nat.eqb_spec (other_count labels) 0); [lia|].
  destruct (slices_Contains labels triage_needs) eqn:Hc; [|done].
  apply slices_Contains_true in Hc. by rewrite (Hneeds Hc).
Qed.

Lemma without_triaged labels :
  NoDup labels -> triage_accepted ∉ labels -> (1 <= other_count labels)%nat ->
  (triage_needs ∈ labels -> other_count labels = 1%nat) -> triaged false labels.
Proof.
  intros Hnd Hacc Hpos Hneeds. split; [done|]. split.
  - destruct (filter (fun l => other_triage l = true) labels) as [|l rest] eqn:Hf;
      [unfold other_count in Hpos; rewrite Hf in Hpos; simpl in Hpos; lia|].
    assert (l ∈ filter (fun l => other_triage l = true) labels) as [Ho Hin]%list_elem_of_filter
      by (rewrite Hf; by left).
    apply other_triage_true in Ho as [? _]. eauto.
  - intros Hin l Hl Ht. destruct (decide (l = triage_needs)) as [|Hne]; [done|]. exfalso.
    pose proof (other_count_remove _ _ Hnd Hin) as Hrem. rewrite (Hneeds Hin), triage_needs_other in Hrem.
    assert (Hz : other_count (filter (fun l => l <> triage_needs) labels) = 0%nat) by lia.
    rewrite other_count_zero in Hz. specialize (Hz l).
    assert (other_triage l = true) as Ho.
    { apply other_triage_true. split; [done|]. by intros ->. }
    rewrite Ho in Hz. discriminate Hz. by apply list_elem_of_filter.
Qed.

(** ** With a milestone *)

Definition base_with (labels : list string) : list string :=
  filter (fun l => other_triage l = false) labels ++
  (if negb (slices_Contains labels triage_accepted) then [triage_accepted] else []).

Lemma effective_with labels : effectiveLabels labels (computeLabelUpdates labels true) = base_with labels.
Proof.
  unfold effectiveLabels, computeLabelUpdates, base_with. cbn [negb LabelsToAdd LabelsToRemove]. f_equal.
  apply filter_ext_in. intros l Hl. rewrite list_elem_of_filter. destruct (other_triage l); naive_solver.
Qed.

Lemma base_with_accepted labels : triage_accepted ∈ base_with labels.
Proof.
  unfold base_with. destruct (slices_Contains labels triage_accepted) eqn:Hc; simpl; [|set_solver].
  apply slices_Contains_true in Hc. rewrite app_nil_r, list_elem_of_filter. done.
Qed.

Lemma base_with_other labels l : l ∈ base_with labels -> other_triage l = false.
Proof.
  unfold base_with. rewrite elem_of_app, list_elem_of_filter.
  case_match; [|intros [[? _]|Hnil%elem_of_nil]; done].
  intros [[? _]| ->%list_elem_of_singleton]; done.
Qed.

Lemma base_with_NoDup labels : NoDup labels -> NoDup (base_with labels).
Proof.
  intros Hnd. unfold base_with. destruct (slices_Contains labels triage_accepted) eqn:Hc; simpl.
  - rewrite app_nil_r. by apply NoDup_filter.
  - apply slices_Contains_false in Hc. apply NoDup_app. split_and!; [by apply NoDup_filter| |apply NoDup_singleton].
    intros l [_ Hl]%list_elem_of_filter ->%list_elem_of_singleton. done.
Qed.

Definition after_with (labels : list string) (body : string) : list string :=
  base_with labels ++ computeSizeLabels (base_with labels) ++ computeAreaLabels (base_with labels) body.

Lemma effective_plan_with labels body :
  effectiveLabels labels (update_plan labels true body) = after_with labels body.
Proof.
  unfold update_plan, after_with. rewrite effective_with.
  transitivity (effectiveLabels labels (computeLabelUpdates labels true) ++
    computeSizeLabels (base_with labels) ++ computeAreaLabels (base_with labels) body); [|by rewrite effective_with].
  unfold effectiveLabels. cbn [LabelsToAdd LabelsToRemove]. by rewrite <- app_assoc.
Qed.

Lemma after_with_other labels body l : l ∈ after_with labels body -> other_triage l = false.
Proof.
  unfold after_with. rewrite !elem_of_app. intros [Hl|[Hl%size_labels_plain|Hl%area_labels_in]]; [|by subst l|].
  - by eapply base_with_other.
  - apply area_rule_labels in Hl as (_ & Ht & _). unfold other_triage, is_triage in *. by rewrite Ht.
Qed.

Lemma after_with_size labels body : hasLabelPrefix (after_with labels body) "size/" = true.
Proof.
  unfold after_with. rewrite !hasLabelPrefix_app. unfold computeSizeLabels.
  rewrite (proj2 (slices_Contains_true _ _) (base_with_accepted labels)).
  by destruct (hasLabelPrefix (base_with labels) "size/").
Qed.

Lemma after_with_NoDup labels body : NoDup labels -> NoDup (after_with labels body).
Proof.
  intros Hnd. unfold after_with. apply NoDup_app. split; [by apply base_with_NoDup|]. split.
  - intros l Hl [Hs|Ha]%elem_of_app.
    + unfold computeSizeLabels in Hs. destruct (hasLabelPrefix (base_with labels) "size/") eqn:Hp.
      { rewrite andb_false_r in Hs. by apply elem_of_nil in Hs. }
      case_match; [|by apply elem_of_nil in Hs]. apply list_elem_of_singleton in Hs as ->.
      apply not_true_iff_false in Hp. apply Hp, hasLabelPrefix_true. by exists "size/needs-sizing".
    + unfold computeAreaLabels in Ha. destruct (hasLabelPrefix (base_with labels) "area/") eqn:Hp.
      { rewrite orb_true_r in Ha. by apply elem_of_nil in Ha. }
      apply not_true_iff_false in Hp. apply Hp, hasLabelPrefix_true. exists l. split; [done|].
      case_match; [by apply elem_of_nil in Ha|].
      apply list_elem_of_fmap in Ha as (r & -> & [_ Hr]%list_elem_of_filter).
      by apply area_rule_labels, list_elem_of_fmap_2.
  - apply NoDup_app. split; [unfold computeSizeLabels; case_match; [apply NoDup_singleton|constructor]|].
    split; [|apply computeAreaLabels_NoDup].
    intros l Hs%size_labels_plain Ha%area_labels_in%area_rule_labels. subst l. by destruct Ha as (_ & _ & ?).
Qed.

(** Areas are inferred once: labels with an area, or from which none follows, give none. *)
Lemma after_with_area labels body : computeAreaLabels (after_with labels body) body = [].
Proof.
  destruct (hasLabelPrefix (after_with labels body) "area/") eqn:Hp.
  { unfold computeAreaLabels. by rewrite Hp, orb_true_r. }
  unfold after_with in Hp. rewrite !hasLabelPrefix_app in Hp. bool_to_prop.
  assert (Hnone : computeAreaLabels (base_with labels) body = []).
  { destruct (computeAreaLabels (base_with labels) body) as [|l rest] eqn:Ha; [done|]. exfalso.
    assert (hasLabelPrefix (l :: rest) "area/" = true); [|congruence].
    apply hasLabelPrefix_true. exists l. split; [by left|].
    assert (l ∈ areaRules.*1) as Hl by (apply (area_labels_in (base_with labels) body); rewrite Ha; by left).
    by apply area_rule_labels in Hl as [? _]. }
  unfold computeAreaLabels in Hnone |- *.
  rewrite (proj2 (slices_Contains_true _ _) (base_with_accepted labels)) in Hnone.
  destruct (hasLabelPrefix (base_with labels) "area/"); [done|]. cbn [negb orb] in Hnone.
  destruct (_ || _); [done|]. exact Hnone.
Qed.

Lemma with_stable labels body : update_plan (after_with labels body) true body = no_change.
Proof.
  assert (Hacc : triage_accepted ∈ after_with labels body)
    by (apply elem_of_app; left; apply base_with_accepted).
  assert (Hup : computeLabelUpdates (after_with labels body) true = no_change).
  { unfold computeLabelUpdates. cbn [negb]. rewrite (proj2 (slices_Contains_true _ _) Hacc). cbn [negb].
    unfold no_change. f_equal. apply filter_none, Forall_forall.
    intros l Hl. by rewrite (after_with_other labels body). }
  unfold update_plan. rewrite Hup. unfold effectiveLabels. cbn [LabelsToAdd LabelsToRemove no_change].
  rewrite app_nil_r, filter_all by (apply Forall_forall; set_solver).
  unfold computeSizeLabels. rewrite after_with_size, andb_false_r, after_with_area. done.
Qed.

Lemma with_triaged labels body : triaged true (after_with labels body).
Proof.
  split; [apply elem_of_app; left; apply base_with_accepted|]. split; [|apply after_with_size].
  intros l Hl Ht. apply after_with_other in Hl. destruct (decide (l = triage_accepted)); [done|].
  assert (other_triage l = true) by by apply other_triage_true. congruence.
Qed.

(** What one run of the label rules achieves. *)
Lemma update_plan_settles labels hasMilestone body :
  NoDup labels ->
  let after := effectiveLabels labels (update_plan labels hasMilestone body) in
  NoDup after /\ triaged hasMilestone after /\ update_plan after hasMilestone body = no_change.
Proof.
  intros Hnd. destruct hasMilestone.
  - cbv zeta. rewrite effective_plan_with. split; [by apply after_with_NoDup|].
    split; [apply with_triaged|apply with_stable].
  - cbv zeta. rewrite update_plan_without by done.
    destruct (effective_without labels Hnd) as (Hnd' & Hacc & Hpos & Hneeds).
    split; [done|]. split; [by apply without_triaged|by apply without_stable].
Qed.

(** ** The order of the labels does not matter *)

Definition result_equiv (r r' : triageResult) : Prop :=
  LabelsToAdd r = LabelsToAdd r' /\ LabelsToRemove r ≡ₚ LabelsToRemove r'.

#[export] Instance result_equiv_equivalence : Equivalence result_equiv.
Proof.
  split; [done|by intros r r' [Ha Hr]|]. intros r1 r2 r3 [Ha Hr] [Ha' Hr']. split; [by rewrite Ha|by rewrite Hr].
Qed.

#[export] Instance slices_Contains_perm : Proper ((≡ₚ) ==> eq ==> eq) slices_Contains.
Proof. intros l l' Hl x ? <-. apply bool_decide_ext. by rewrite Hl. Qed.

#[export] Instance hasLabelPrefix_perm : Proper ((≡ₚ) ==> eq ==> eq) hasLabelPrefix.
Proof.
  intros l l' Hl p ? <-. apply eq_iff_eq_true. rewrite !hasLabelPrefix_true. by setoid_rewrite Hl.
Qed.

#[export] Instance computeSizeLabels_perm : Proper ((≡ₚ) ==> eq) computeSizeLabels.
Proof. intros l l' Hl. unfold computeSizeLabels. by rewrite Hl. Qed.

#[export] Instance computeAreaLabels_perm : Proper ((≡ₚ) ==> eq ==> eq) computeAreaLabels.
Proof. intros l l' Hl b ? <-. unfold computeAreaLabels. by rewrite Hl. Qed.

#[export] Instance computeLabelUpdates_perm : Proper ((≡ₚ) ==> eq ==> result_equiv) computeLabelUpdates.
Proof.
  intros l l' Hl hm ? <-. unfold computeLabelUpdates. rewrite !Hl.
  destruct hm; cbn [negb]; [split; cbn; by rewrite Hl|]. by repeat case_match.
Qed.

#[export] Instance effectiveLabels_perm : Proper ((≡ₚ) ==> result_equiv ==> (≡ₚ)) effectiveLabels.
Proof.
  intros l l' Hl r r' [Ha Hr]. unfold effectiveLabels. rewrite Hl, Ha. f_equiv.
  apply reflexive_eq, list_filter_iff. intros x. by rewrite Hr.
Qed.

#[export] Instance update_plan_perm : Proper ((≡ₚ) ==> eq ==> eq ==> result_equiv) update_plan.
Proof.
  intros l l' Hl hm ? <- b ? <-. unfold update_plan.
  assert (Hu : result_equiv (computeLabelUpdates l hm) (computeLabelUpdates l' hm)) by by rewrite Hl.
  assert (He : effectiveLabels l (computeLabelUpdates l hm) ≡ₚ effectiveLabels l' (computeLabelUpdates l' hm))
    by by apply effectiveLabels_perm.
  destruct Hu as [Ha Hr]. split; cbn; [|done]. by rewrite Ha, He.
Qed.

Lemma no_change_perm r : result_equiv r no_change -> r = no_change.
Proof. destruct r. intros [Ha Hr%Permutation_nil_r]. simpl in *. by subst. Qed.

Lemma triaged_perm hm l l' : l ≡ₚ l' -> triaged hm l -> triaged hm l'.
Proof.
  intros Hl. unfold triaged. by destruct hm; setoid_rewrite Hl.
Qed.

(** ** What the plan adds and removes *)

Definition plan_labels : list string := [triage_needs; triage_accepted; "size/needs-sizing"] ++ areaRules.*1.

Lemma update_plan_labels labels hm body l : l ∈ LabelsToAdd (update_plan labels hm body) -> l ∈ plan_labels.
Proof.
  unfold update_plan, plan_labels. cbn [LabelsToAdd].
  rewrite !elem_of_app. intros [Hl|[->%size_labels_plain|Hl%area_labels_in]]; [|set_solver|set_solver].
  unfold computeLabelUpdates in Hl. repeat case_match; set_solver.
Qed.

Lemma update_plan_disjoint labels hm body l :
  NoDup labels -> l ∈ LabelsToAdd (update_plan labels hm body) -> l ∉ LabelsToRemove (update_plan labels hm body).
Proof.
  intros Hnd Ha. destruct hm.
  - unfold update_plan. cbn. rewrite list_elem_of_filter. intros [Ho _].
    assert (Hl : l ∈ after_with labels body) by (rewrite <- effective_plan_with; apply elem_of_app; by right).
    apply after_with_other in Hl. congruence.
  - rewrite update_plan_without in * by done. unfold computeLabelUpdates in *. cbn [negb] in *.
    repeat case_match; simpl in *; set_solver.
Qed.

(** ** The lowest milestone *)

Section lowest.
Context `{SemverLaws}.

(** [m] is valid and strictly below every valid milestone of [before], and no
    valid milestone of [after] is below it. *)
Definition first_lowest (before : list Milestone) (m : Milestone) (after : list Milestone) : Prop :=
  exists v, parseSemver (m_Title m) = Some v /\
    (forall m' v', m' ∈ before -> parseSemver (m_Title m') = Some v' -> LessThan v v' = true) /\
    (forall m' v', m' ∈ after -> parseSemver (m_Title m') = Some v' -> LessThan v' v = false).

Definition lowest_inv (seen : list Milestone) (best : option Milestone) : Prop :=
  match best with
  | None => forall m, m ∈ seen -> parseSemver (m_Title m) = None
  | Some b => exists before after, seen = before ++ b :: after /\ first_lowest before b after
  end.

Lemma lowest_step_inv seen best m :
  lowest_inv seen best -> lowest_inv (seen ++ [m]) (lowest_step best m).
Proof.
  intros Hinv. unfold lowest_step. destruct (parseSemver (m_Title m)) as [v|] eqn:Hv.
  - destruct best as [b|].
    + destruct Hinv as (before & after & -> & vb & Hb & Hbefore & Hafter).
      unfold semverLess. rewrite Hv, Hb. destruct (LessThan v vb) eqn:Hlt.
      * exists (before ++ b :: after), []. split; [done|]. exists v. split; [done|].
        split; [|by intros ?? ?%elem_of_nil].
        intros m' v' [Hm|[->|Hm]%elem_of_cons]%elem_of_app Hv'.
        -- eauto using LessThan_trans.
        -- congruence.
        -- destruct (LessThan_cotrans _ _ v' Hlt) as [|Hlt']; [done|].
           rewrite (Hafter m' v') in Hlt'; done.
      * exists before, (after ++ [m]). rewrite <- app_assoc. split; [done|]. exists vb. split; [done|].
        split; [done|]. intros m' v' [Hm| ->%list_elem_of_singleton]%elem_of_app Hv'; [eauto|congruence].
    + exists seen, []. split; [done|]. exists v. split; [done|]. split; [|by intros ?? ?%elem_of_nil].
      intros m' v' Hm Hv'. rewrite Hinv in Hv'; done.
  - destruct best as [b|].
    + destruct Hinv as (before & after & -> & vb & Hb & Hbefore & Hafter).
      exists before, (after ++ [m]). rewrite <- app_assoc. split; [done|]. exists vb. split; [done|].
      split; [done|]. intros m' v' [Hm| ->%list_elem_of_singleton]%elem_of_app Hv'; [eauto|congruence].
    + intros m' [Hm| ->%list_elem_of_singleton]%elem_of_app; [eauto|done].
Qed.

Lemma lowest_fold_inv seen best ms :
  lowest_inv seen best -> lowest_inv (seen ++ ms) (fold_left lowest_step ms best).
Proof.
  revert seen best. induction ms as [|m ms IH]; intros seen best Hinv; [by rewrite app_nil_r|].
  simpl. rewrite cons_middle, app_assoc. by apply IH, lowest_step_inv.
Qed.

(** A pull request gets the lowest version among the open milestones whose
    titles are semantic versions, the first one listed among equals, and none
    exactly when no title is a version. *)
Theorem findLowestMilestone_lowest (milestones : list Milestone) :
  match findLowestMilestone milestones with
  | inr m => exists before after, milestones = before ++ m :: after /\ first_lowest before m after
  | inl _ => forall m, m ∈ milestones -> parseSemver (m_Title m) = None
  end.
Proof.
  unfold findLowestMilestone.
  assert (Hinv : lowest_inv ([] ++ milestones) (fold_left lowest_step milestones None)).
  { apply lowest_fold_inv. by intros m ?%elem_of_nil. }
  by destruct (fold_left lowest_step milestones None).
Qed.
End lowest.

(** Versions of three numbers. *)
Definition sample_version (s : string) : option (Z * Z * Z) :=
  match Split s "." with
  | [a; b; c] => x ← Atoi a; y ← Atoi b; z ← Atoi c; Some (x, y, z)
  | _ => None
  end.
Definition sample_less (v w : Z * Z * Z) : bool :=
  let '(a, b, c) := v in let '(x, y, z) := w in
  (a <? x) || ((a =? x) && ((b <? y) || ((b =? y) && (c <? z)))).
Definition sample_semver : Semver :=
  {| version := Z * Z * Z; StrictNewVersion := sample_version; LessThan := sample_less |}.

Lemma sample_less_true a b c x y z :
  sample_less (a, b, c) (x, y, z) = true <-> a < x \/ (a = x /\ (b < y \/ (b = y /\ c < z))).
Proof. simpl. rewrite orb_true_iff, andb_true_iff, orb_true_iff, andb_true_iff. lia. Qed.

#[local] Instance sample_semver_laws : @SemverLaws sample_semver.
Proof.
  constructor; change (@LessThan sample_semver) with sample_less.
  - intros [[a b] c]. apply not_true_iff_false. rewrite sample_less_true. lia.
  - intros [[a b] c] [[x y] z] [[u v] w]. rewrite !sample_less_true. lia.
  - intros [[a b] c] [[x y] z] [[u v] w]. rewrite !sample_less_true. lia.
Defined.

Lemma findLowestMilestone_lowest_witness :
  exists before after,
    [{| m_Number := 1; m_Title := "Backlog" |}; {| m_Number := 2; m_Title := "v0.10.0" |};
     {| m_Number := 3; m_Title := "0.9.1" |}] =
      before ++ {| m_Number := 3; m_Title := "0.9.1" |} :: after /\
    @first_lowest sample_semver before {| m_Number := 3; m_Title := "0.9.1" |} after.
Proof.
  apply (@findLowestMilestone_lowest sample_semver sample_semver_laws
    [{| m_Number := 1; m_Title := "Backlog" |}; {| m_Number := 2; m_Title := "v0.10.0" |};
     {| m_Number := 3; m_Title := "0.9.1" |}]).
Defined.

(** Without a milestone an accepted issue with another triage label only loses
    the accepted label; it is not put back to needing triage. *)
Theorem accepted_not_retriaged (other : string) :
  is_triage other = true -> other <> triage_accepted -> other <> triage_needs ->
  computeLabelUpdates [triage_accepted; other] false =
    {| LabelsToAdd := []; LabelsToRemove := [triage_accepted] |}.
Proof.
  intros Ht Hacc Hneeds. unfold computeLabelUpdates. cbn [negb].
  assert (Ho : other_triage other = true) by by apply other_triage_true.
  rewrite filter_cons_False by done. rewrite filter_cons_True by done.
  rewrite (proj2 (slices_Contains_true _ _)) by by left.
  rewrite (proj2 (slices_Contains_false _ triage_needs)) by set_solver. done.
Qed.
