(* ===== verification/GoFlag.v ===== *)
(** * Packages [flag] and [strconv] (integers in any base, booleans)

    A flag set over a configuration record: each flag carries the function that
    stores its value.  The messages [flag] prints on a mistake are not modelled,
    the errors it returns are. *)
From S2P Require Import Prelude GoLib GoErrors.

(** ** [strconv.ParseInt(s, 0, 64)] *)

Inductive num_err := ErrSyntax | ErrRange.

Definition digit_value (a : ascii) : option Z :=
  if is_digit a then Some (code a - 48)
  else if in_range 97 122 (lower_ascii a) then Some (code (lower_ascii a) - 87)
  else None.

(** The digits of an unsigned number; with [base0] underscores are skipped. *)
Fixpoint uint_digits (base0 : bool) (base n : Z) (s : string) : num_err + Z :=
  match s with
  | EmptyString => inr n
  | String a s' =>
      if base0 && (code a =? 95) then uint_digits base0 base n s' else
      match digit_value a with
      | None => inl ErrSyntax
      | Some d =>
          if base <=? d then inl ErrSyntax
          else let n' := n * base + d in
               if 2 ^ 64 - 1 <? n' then inl ErrRange else uint_digits base0 base n' s'
      end
  end.

(** The base and the digits that follow its prefix. *)
Definition base_prefix (s : string) : Z * string :=
  match s with
  | String z s1 =>
      if code z =? 48 then
        match s1 with
        | String b (String _ _ as s2) =>
            let l := code (lower_ascii b) in
            if l =? 98 then (2, s2) else if l =? 111 then (8, s2) else if l =? 120 then (16, s2) else (8, s1)
        | _ => (8, s1)
        end
      else (10, s)
  | EmptyString => (10, s)
  end.

(** What [underscoreOK] saw last. *)
Inductive saw := SawStart | SawDigit | SawUnderscore | SawOther.

Fixpoint underscores_ok (hex : bool) (last : saw) (s : string) : bool :=
  match s with
  | EmptyString => match last with SawUnderscore => false | _ => true end
  | String a s' =>
      if is_digit a || (hex && in_range 97 102 (lower_ascii a)) then underscores_ok hex SawDigit s'
      else if code a =? 95 then match last with SawDigit => underscores_ok hex SawUnderscore s' | _ => false end
      else match last with SawUnderscore => false | _ => underscores_ok hex SawOther s' end
  end.

(** [underscoreOK] of an unsigned text. *)
Definition underscoreOK (s : string) : bool :=
  match s with
  | String z (String b s2) =>
      let l := code (lower_ascii b) in
      if (code z =? 48) && ((l =? 98) || (l =? 111) || (l =? 120))
      then underscores_ok (l =? 120) SawDigit s2 else underscores_ok false SawStart s
  | _ => underscores_ok false SawStart s
  end.

Definition ParseUint0 (s : string) : num_err + Z :=
  if String.eqb s "" then inl ErrSyntax else
  let '(base, ds) := base_prefix s in
  n ← uint_digits true base 0 ds;
  if byte_in "_" ds && negb (underscoreOK s) then inl ErrSyntax else inr n.

Definition ParseInt0 (s : string) : num_err + Z :=
  let '(neg, ds) := match s with
                    | String a s' => if code a =? 43 then (false, s') else if code a =? 45 then (true, s') else (false, s)
                    | EmptyString => (false, s)
                    end in
  un ← ParseUint0 ds;
  if negb neg && (2 ^ 63 <=? un) then inl ErrRange
  else if neg && (2 ^ 63 <? un) then inl ErrRange
  else inr (if neg : bool then - un else un).

(** The error of [strconv.Atoi] on a text that is no [int]. *)
Definition atoi_error (quote_text : string -> string) (v : string) : gerror :=
  let ds := match v with
            | String a s' => if (code a =? 43) || (code a =? 45) then s' else v
            | EmptyString => v
            end in
  let e := if String.eqb ds "" then ErrSyntax
           else match uint_digits false 10 0 ds with inl e => e | inr _ => ErrRange end in
  ErrText ("strconv.Atoi: parsing " +:+ quote_text v +:+ ": " +:+
    match e with ErrSyntax => "invalid syntax" | ErrRange => "value out of range" end).

(** [strconv.ParseBool]. *)
Definition ParseBool (s : string) : option bool :=
  if bool_decide (s ∈ ["1"; "t"; "T"; "true"; "TRUE"; "True"]) then Some true
  else if bool_decide (s ∈ ["0"; "f"; "F"; "false"; "FALSE"; "False"]) then Some false
  else None.

(** ** Flags *)

Inductive flag_value (C : Type) :=
  | BoolVar (set : bool -> C -> C)
  | StringVar (set : string -> C -> C)
  | IntVar (set : Z -> C -> C)
  (** any other [flag.Value], by its [Set] method *)
  | FuncVar (set : string -> C -> gerror + C).
Arguments BoolVar {C}.
Arguments StringVar {C}.
Arguments IntVar {C}.
Arguments FuncVar {C}.

Section flags.
Context {C : Type} (quote_text : string -> string) (formal : list (string * flag_value C)).

Definition lookup_flag (name : string) : option (flag_value C) :=
  snd ∘ snd <$> list_find (fun f => f.1 = name) formal.

(** The errors of [intValue.Set] and [boolValue.Set]. *)
Definition num_err_text (e : num_err) : string :=
  match e with ErrSyntax => "parse error" | ErrRange => "value out of range" end.

(** [-name], [--name] or either with [=value]: the text after the dashes. *)
Inductive arg_kind :=
  | NotFlag
  | Terminator
  | BadSyntax
  | Flag (name : string) (value : option string).

Definition classify (s : string) : arg_kind :=
  match s with
  | String a (String b rest) =>
      if negb (code a =? 45) then NotFlag else
      if (code b =? 45) && String.eqb rest "" then Terminator else
      let name := if code b =? 45 then rest else String b rest in
      match name with
      | EmptyString => BadSyntax
      | String n rest' =>
          if (code n =? 45) || (code n =? 61) then BadSyntax else
          match Cut rest' "=" with
          | Some (before, value) => Flag (String n before) (Some value)
          | None => Flag name None
          end
      end
  | _ => NotFlag
  end.

Definition set_bool (set : bool -> C -> C) (name value : string) (c : C) : gerror + C :=
  match ParseBool value with
  | Some b => inr (set b c)
  | None => inl (ErrText ("invalid boolean value " +:+ quote_text value +:+ " for -" +:+ name +:+ ": parse error"))
  end.

Definition set_value (v : flag_value C) (name value : string) (c : C) : gerror + C :=
  match v with
  | BoolVar set => set_bool set name value c
  | StringVar set => inr (set value c)
  | IntVar set =>
      match ParseInt0 value with
      | inr n => inr (set n c)
      | inl e => inl (ErrText ("invalid value " +:+ quote_text value +:+ " for flag -" +:+ name +:+ ": " +:+ num_err_text e))
      end
  | FuncVar set =>
      match set value c with
      | inr c => inr c
      | inl e => inl (ErrText ("invalid value " +:+ quote_text value +:+ " for flag -" +:+ name +:+ ": " +:+ error_text e))
      end
  end.

(** [FlagSet.Parse]: the configuration and the arguments that are left. *)
Fixpoint parse_flags (args : list string) (c : C) : gerror + C * list string :=
  match args with
  | [] => inr (c, [])
  | s :: args' =>
      match classify s with
      | NotFlag => inr (c, args)
      | Terminator => inr (c, args')
      | BadSyntax => inl (ErrText ("bad flag syntax: " +:+ s))
      | Flag name value =>
          match lookup_flag name with
          | None =>
              if String.eqb name "help" || String.eqb name "h" then inl (ErrText "flag: help requested")
              else inl (ErrText ("flag provided but not defined: -" +:+ name))
          | Some (BoolVar set) =>
              c ← set_bool set name (default "true" value) c; parse_flags args' c
          | Some v =>
              match value with
              | Some x => c ← set_value v name x c; parse_flags args' c
              | None =>
                  match args' with
                  | x :: args'' => c ← set_value v name x c; parse_flags args'' c
                  | [] => inl (ErrText ("flag needs an argument: -" +:+ name))
                  end
              end
          end
      end
  end.
End flags.

Example ParseInt0_ex :
  ParseInt0 <$> ["0x1_F"; "-0b101"; "017"; "1_000"; "1__0"; "09"; "9223372036854775808"; "-9223372036854775808"; "0"; ""] =
  [inr 31; inr (-5); inr 15; inr 1000; inl ErrSyntax; inl ErrSyntax; inl ErrRange; inr (-9223372036854775808); inr 0;
   inl ErrSyntax].
Proof. vm_compute. reflexivity. Qed.

(** ** Lemmas *)

(** *** [Itoa] is read back *)

Lemma digit_cases (P : N -> Prop) : P 0%N -> P 1%N -> P 2%N -> P 3%N -> P 4%N -> P 5%N -> P 6%N -> P 7%N -> P 8%N ->
  P 9%N -> forall d, (d < 10)%N -> P d.
Proof.
  intros ?????????? d Hd. assert (d = 0 \/ d = 1 \/ d = 2 \/ d = 3 \/ d = 4 \/ d = 5 \/ d = 6 \/ d = 7 \/ d = 8 \/ d = 9)%N
    by lia. naive_solver.
Qed.

Lemma uint_digits_char d n s : (d < 10)%N ->
  uint_digits true 10 n (String (pretty_N_char d) s) =
  if 2 ^ 64 - 1 <? n * 10 + Z.of_N d then inl ErrRange else uint_digits true 10 (n * 10 + Z.of_N d) s.
Proof. revert d. by apply digit_cases. Qed.

Lemma uint_digits_pretty n : forall s, Z.of_N n <= 2 ^ 64 - 1 ->
  uint_digits true 10 0 (pretty_N_go n s) = uint_digits true 10 (Z.of_N n) s.
Proof.
  induction (N.lt_wf_0 n) as [n _ IH]. intros s Hn. destruct (decide (n = 0)%N) as [->|Hz].
  { by rewrite pretty_N_go_0. }
  pose proof (N.div_lt n 10 ltac:(lia) ltac:(lia)) as Hlt.
  pose proof (N.mod_lt n 10 ltac:(lia)) as Hmod. pose proof (N.div_mod n 10 ltac:(lia)) as Hdm.
  rewrite pretty_N_go_step, IH, uint_digits_char by lia.
  replace (Z.of_N (n / 10) * 10 + Z.of_N (n mod 10)) with (Z.of_N n) by lia.
  by rewrite (proj2 (Z.ltb_ge _ _)) by lia.
Qed.

(** The digits of a positive number start with one that is not zero, and hold
    no underscore. *)
Lemma pretty_N_go_head n : forall s, (0 < n)%N -> exists d s', (0 < d < 10)%N /\ pretty_N_go n s = String (pretty_N_char d) s'.
Proof.
  induction (N.lt_wf_0 n) as [n _ IH]. intros s Hn. rewrite pretty_N_go_step by done.
  pose proof (N.mod_lt n 10 ltac:(lia)). pose proof (N.div_mod n 10 ltac:(lia)).
  destruct (decide (n / 10 = 0)%N) as [E|Hd].
  - rewrite E, pretty_N_go_0. eexists _, _. split; [|done]. lia.
  - apply IH; [apply N.div_lt|]; lia.
Qed.

Lemma pretty_N_go_no_underscore n : forall s, byte_in "_" s = false -> byte_in "_" (pretty_N_go n s) = false.
Proof.
  induction (N.lt_wf_0 n) as [n _ IH]. intros s Hs. destruct (decide (n = 0)%N) as [->|Hz]; [by rewrite pretty_N_go_0|].
  rewrite pretty_N_go_step by lia. apply IH; [apply N.div_lt; lia|].
  pose proof (N.mod_lt n 10 ltac:(lia)) as Hm. revert Hm. generalize (n mod 10)%N. intros d Hd.
  revert d Hd. apply digit_cases; cbn; by rewrite Hs.
Qed.

Lemma ParseUint0_pretty n : Z.of_N n <= 2 ^ 64 - 1 -> ParseUint0 (pretty n) = inr (Z.of_N n).
Proof.
  intros Hn. unfold pretty, pretty_N. destruct (decide (n = 0)%N) as [->|Hz]; [done|].
  pose proof (uint_digits_pretty n "" Hn) as Hu. pose proof (pretty_N_go_no_underscore n "" eq_refl) as Hb.
  destruct (pretty_N_go_head n "" ltac:(lia)) as (d & s' & Hd & E). rewrite E in *.
  assert (Hp : base_prefix (String (pretty_N_char d) s') = (10, String (pretty_N_char d) s')).
  { assert (Hd10 : (d < 10)%N) by lia. clear E Hu Hb. revert d Hd10 Hd.
    apply (digit_cases (fun d => (0 < d < 10)%N -> base_prefix (String (pretty_N_char d) s') = (10, String (pretty_N_char d) s'))); intros; done || lia. }
  unfold ParseUint0. rewrite Hp, Hu, Hb. cbn. by destruct (String.eqb_spec (String (pretty_N_char d) s') "").
Qed.

Lemma digit_no_sign d : (d < 10)%N -> (code (pretty_N_char d) =? 43) = false /\ (code (pretty_N_char d) =? 45) = false.
Proof. revert d. by apply digit_cases. Qed.

Lemma ParseInt0_Itoa n : - 2 ^ 63 <= n < 2 ^ 63 -> ParseInt0 (Itoa n) = inr n.
Proof.
  intros Hn. unfold Itoa, pretty, pretty_Z. destruct n as [|p|p].
  - done.
  - unfold ParseInt0. change (pretty p) with (pretty (N.pos p)).
    assert (Hs : match pretty (N.pos p) with
                 | String a s' => if code a =? 43 then (false, s') else if code a =? 45 then (true, s') else (false, pretty (N.pos p))
                 | EmptyString => (false, pretty (N.pos p))
                 end = (false, pretty (N.pos p))).
    { assert (E : exists d s', (d < 10)%N /\ pretty (N.pos p) = String (pretty_N_char d) s').
      { unfold pretty, pretty_N. rewrite decide_False by done.
        destruct (pretty_N_go_head (N.pos p) "" ltac:(lia)) as (d & s' & Hd & ->). exists d, s'. split; [lia|done]. }
      destruct E as (d & s' & Hd & ->). by destruct (digit_no_sign d Hd) as [-> ->]. }
    rewrite Hs, ParseUint0_pretty by lia. cbn. by rewrite (proj2 (Z.leb_gt _ _)) by lia.
  - change (pretty p) with (pretty (N.pos p)).
    change (ParseInt0 ("-" +:+ pretty (N.pos p))) with
      (un ← ParseUint0 (pretty (N.pos p)); if 2 ^ 63 <? un then inl ErrRange else inr (- un) : num_err + Z).
    rewrite ParseUint0_pretty by lia. cbn. by rewrite (proj2 (Z.ltb_ge _ _)) by lia.
Qed.
