(* ===== verification/KubectlFlags.v ===== *)
(** * The commands and flags of the kubectl plugin ([cmd/kubectl-coraza/main.go])

    [main]: the tree of commands and the flags of [generate coreruleset]; and the
    reading of the flags by [genCRS], which ignores the errors of the lookups.
    Cobra and pflag are library code: a class with the laws their documentation
    gives, and [Execute] an argument. *)
From S2P Require Import Prelude GoLib GoErrors GoFlag Unsupported CrsRules CrsManifest CrsGenerate KubectlCoraza.

(** ** Flag sets *)

Class Pflag := {
  FlagSet : Type;
  (** the flags of a new command *)
  NewFlagSet : FlagSet;
  (** [FlagSet.String], [StringP] and [Bool], which add a flag with its default *)
  flags_String : string -> string -> FlagSet -> FlagSet;
  flags_StringP : string -> string -> string -> FlagSet -> FlagSet;
  flags_Bool : string -> bool -> FlagSet -> FlagSet;
  (** [FlagSet.Set], which the command line is parsed with *)
  flags_Set : string -> string -> FlagSet -> gerror + FlagSet;
  GetString : FlagSet -> string -> gerror + string;
  GetBool : FlagSet -> string -> gerror + bool
}.

Section commands.
Context `{Pflag}.

(** A [cobra.Command]: whether it runs [genCRS], and the flags it requires. *)
Inductive command := Command {
  Use : string;
  runs_genCRS : bool;
  cmd_flags : FlagSet;
  required : list string;
  subcommands : list command
}.

(** The declarations of [main], in their order. *)
Definition coreruleset_flags : FlagSet :=
  flags_String "ignore-unsupported-rules" "wasm"
  (flags_Bool "skip-size-check" false
  (flags_String "dry-run" ""
  (flags_String "name-suffix" ""
  (flags_String "name-prefix" ""
  (flags_String "data-source-name" "coreruleset-data"
  (flags_StringP "namespace" "n" ""
  (flags_String "ruleset-name" "default-ruleset"
  (flags_Bool "include-test-rule" false
  (flags_Bool "ignore-pmFromFile" false
  (flags_String "ignore-rules" ""
  (flags_String "version" ""
  (flags_String "rules-dir" "" NewFlagSet)))))))))))).

Definition coreruleset : command := Command "coreruleset" true coreruleset_flags ["rules-dir"; "version"] [].
Definition generate : command := Command "generate" false NewFlagSet [] [coreruleset].
Definition root : command := Command "kubectl-coraza" false NewFlagSet [] [generate].

(** The exit status of [main]; [Execute] is given the arguments. *)
Definition main (Execute : command -> list string -> option gerror) (args : list string) : Z :=
  match Execute root args with Some _ => 1 | None => 0 end.

(** ** The flags as [genCRS] reads them *)

(** [v, _ := f()]: the zero value when there is an error. *)
Definition ignoring {A} (zero : A) (r : gerror + A) : A := match r with inr a => a | inl _ => zero end.

Definition read_flags (fs : FlagSet) : crs_flags :=
  {| f_rules_dir := ignoring "" (GetString fs "rules-dir");
     f_version := ignoring "" (GetString fs "version");
     f_ignore_rules := ignoring "" (GetString fs "ignore-rules");
     f_ignore_pmFromFile := ignoring false (GetBool fs "ignore-pmFromFile");
     f_include_test_rule := ignoring false (GetBool fs "include-test-rule");
     f_ruleset_name := ignoring "" (GetString fs "ruleset-name");
     f_namespace := ignoring "" (GetString fs "namespace");
     f_data_source_name := ignoring "" (GetString fs "data-source-name");
     f_name_prefix := ignoring "" (GetString fs "name-prefix");
     f_name_suffix := ignoring "" (GetString fs "name-suffix");
     f_dry_run := ignoring "" (GetString fs "dry-run");
     f_skip_size_check := ignoring false (GetBool fs "skip-size-check");
     f_ignore_unsupported_rules := ignoring "" (GetString fs "ignore-unsupported-rules") |}.

(** [genCRS] as cobra runs it, on the command's flags. *)
Definition genCRS_cmd `{Validation} (E : genv) (fs : FlagSet) : outcome := genCRS E (read_flags fs).

(** The flags given on the command line, one by one. *)
Fixpoint set_flags (given : list (string * string)) (fs : FlagSet) : gerror + FlagSet :=
  match given with
  | [] => inr fs
  | (name, value) :: given => fs ← flags_Set name value fs; set_flags given fs
  end.

Definition bool_text (b : bool) : string := if b then "true" else "false".

Definition flag_texts (fl : crs_flags) : list (string * string) :=
  [("rules-dir", f_rules_dir fl); ("version", f_version fl); ("ignore-rules", f_ignore_rules fl);
   ("ignore-pmFromFile", bool_text (f_ignore_pmFromFile fl)); ("include-test-rule", bool_text (f_include_test_rule fl));
   ("ruleset-name", f_ruleset_name fl); ("namespace", f_namespace fl); ("data-source-name", f_data_source_name fl);
   ("name-prefix", f_name_prefix fl); ("name-suffix", f_name_suffix fl); ("dry-run", f_dry_run fl);
   ("skip-size-check", bool_text (f_skip_size_check fl)); ("ignore-unsupported-rules", f_ignore_unsupported_rules fl)].
End commands.

(** The value of a flag, of one of the two types. *)
Inductive pflag_value := PString (v : string) | PBool (b : bool).

(** What a flag reads as, once it was set to a text. *)
Definition set_text (v : pflag_value) (t : string) : option pflag_value :=
  match v with
  | PString _ => Some (PString t)
  | PBool _ => PBool <$> ParseBool t
  end.

Class PflagLaws (P : Pflag) := {
  values : FlagSet -> gmap string pflag_value;
  values_new : values NewFlagSet = ∅;
  values_String n d fs : values (flags_String n d fs) = <[n := PString d]> (values fs);
  values_StringP n short d fs : values (flags_StringP n short d fs) = <[n := PString d]> (values fs);
  values_Bool n d fs : values (flags_Bool n d fs) = <[n := PBool d]> (values fs);
  values_Set n t fs v v' : values fs !! n = Some v -> set_text v t = Some v' ->
    exists fs', flags_Set n t fs = inr fs' /\ values fs' = <[n := v']> (values fs);
  GetString_value fs n v : values fs !! n = Some (PString v) -> GetString fs n = inr v;
  GetBool_value fs n b : values fs !! n = Some (PBool b) -> GetBool fs n = inr b
}.

Section properties.
Context `{P : Pflag} `{!PflagLaws P}.

(** The values [genCRS] finds under the names it reads. *)
Definition holds_flags (m : gmap string pflag_value) (fl : crs_flags) : Prop :=
  m !! "rules-dir" = Some (PString (f_rules_dir fl)) /\ m !! "version" = Some (PString (f_version fl)) /\
  m !! "ignore-rules" = Some (PString (f_ignore_rules fl)) /\
  m !! "ignore-pmFromFile" = Some (PBool (f_ignore_pmFromFile fl)) /\
  m !! "include-test-rule" = Some (PBool (f_include_test_rule fl)) /\
  m !! "ruleset-name" = Some (PString (f_ruleset_name fl)) /\ m !! "namespace" = Some (PString (f_namespace fl)) /\
  m !! "data-source-name" = Some (PString (f_data_source_name fl)) /\
  m !! "name-prefix" = Some (PString (f_name_prefix fl)) /\ m !! "name-suffix" = Some (PString (f_name_suffix fl)) /\
  m !! "dry-run" = Some (PString (f_dry_run fl)) /\ m !! "skip-size-check" = Some (PBool (f_skip_size_check fl)) /\
  m !! "ignore-unsupported-rules" = Some (PString (f_ignore_unsupported_rules fl)).

Lemma read_holds fs fl : holds_flags (values fs) fl -> read_flags fs = fl.
Proof.
  intros (?&?&?&?&?&?&?&?&?&?&?&?&?). unfold read_flags.
  repeat (erewrite GetString_value by eassumption). repeat (erewrite GetBool_value by eassumption). by destruct fl.
Qed.

Lemma coreruleset_defaults : holds_flags (values coreruleset_flags) (default_flags "" "").
Proof.
  unfold coreruleset_flags.
  repeat first [rewrite values_String | rewrite values_StringP | rewrite values_Bool | rewrite values_new].
  unfold holds_flags. split_and!; reflexivity.
Qed.

(** Setting flags once each, to texts they take. *)
Lemma set_flags_values given fs : NoDup given.*1 ->
  (forall n t, (n, t) ∈ given -> exists v v', values fs !! n = Some v /\ set_text v t = Some v') ->
  exists fs', set_flags given fs = inr fs' /\
    forall n, values fs' !! n = match (list_to_map given : gmap string string) !! n with
                                | Some t => values fs !! n ≫= fun v => set_text v t
                                | None => values fs !! n
                                end.
Proof.
  revert fs. induction given as [|[n t] given IH]; intros fs Hnd Hg; simpl; [by exists fs|].
  apply NoDup_cons in Hnd as [Hn Hnd]. simpl in Hn.
  destruct (Hg n t) as (v & v' & Hv & Ht); [by left|].
  destruct (values_Set n t fs v v' Hv Ht) as (fs1 & Hfs1 & Hval). rewrite Hfs1. simpl.
  destruct (IH fs1 Hnd) as (fs' & Hfs' & Hval').
  { intros n' t' Hin. assert (n' <> n) by (intros ->; apply Hn; by apply (list_elem_of_fmap_2 fst _ (n, t'))).
    rewrite Hval, lookup_insert_ne by done. apply Hg. by right. }
  exists fs'. split; [done|]. intros n'. rewrite Hval', Hval.
  destruct (decide (n = n')) as [<-|Hne].
  - rewrite !lookup_insert_eq, (not_elem_of_list_to_map_1 given n Hn), Hv. by simpl.
  - by rewrite !lookup_insert_ne.
Qed.

Lemma list_to_map_chosen (chosen : string -> bool) (l : list (string * string)) n :
  (list_to_map (filter (fun f => chosen f.1 = true) l) : gmap string string) !! n =
  if chosen n then (list_to_map l : gmap string string) !! n else None.
Proof.
  induction l as [|[k t] l IH]; [by destruct (chosen n)|]. rewrite filter_cons. simpl.
  case_decide as Hk; simpl; destruct (decide (k = n)) as [->|Hne].
  - by rewrite Hk, !lookup_insert_eq.
  - by rewrite !lookup_insert_ne.
  - rewrite IH. by destruct (chosen n).
  - by rewrite IH, lookup_insert_ne.
Qed.

Lemma NoDup_chosen (chosen : string -> bool) (l : list (string * string)) :
  NoDup l.*1 -> NoDup (filter (fun f => chosen f.1 = true) l).*1.
Proof.
  induction l as [|[k t] l IH]; [done|]. rewrite fmap_cons. intros [Hk Hl]%NoDup_cons. rewrite filter_cons.
  case_decide; [|by apply IH]. rewrite fmap_cons. apply NoDup_cons. split; [|by apply IH].
  intros (x & Hx & [_ Hin]%list_elem_of_filter)%list_elem_of_fmap. apply Hk. rewrite Hx. by apply list_elem_of_fmap_2.
Qed.

(** The given values for the chosen flags, the defaults for the others. *)
Definition choose (chosen : string -> bool) (fl d : crs_flags) : crs_flags :=
  {| f_rules_dir := if chosen "rules-dir" then f_rules_dir fl else f_rules_dir d;
     f_version := if chosen "version" then f_version fl else f_version d;
     f_ignore_rules := if chosen "ignore-rules" then f_ignore_rules fl else f_ignore_rules d;
     f_ignore_pmFromFile := if chosen "ignore-pmFromFile" then f_ignore_pmFromFile fl else f_ignore_pmFromFile d;
     f_include_test_rule := if chosen "include-test-rule" then f_include_test_rule fl else f_include_test_rule d;
     f_ruleset_name := if chosen "ruleset-name" then f_ruleset_name fl else f_ruleset_name d;
     f_namespace := if chosen "namespace" then f_namespace fl else f_namespace d;
     f_data_source_name := if chosen "data-source-name" then f_data_source_name fl else f_data_source_name d;
     f_name_prefix := if chosen "name-prefix" then f_name_prefix fl else f_name_prefix d;
     f_name_suffix := if chosen "name-suffix" then f_name_suffix fl else f_name_suffix d;
     f_dry_run := if chosen "dry-run" then f_dry_run fl else f_dry_run d;
     f_skip_size_check := if chosen "skip-size-check" then f_skip_size_check fl else f_skip_size_check d;
     f_ignore_unsupported_rules := if chosen "ignore-unsupported-rules" then f_ignore_unsupported_rules fl
                                   else f_ignore_unsupported_rules d |}.

Lemma ParseBool_bool_text b : ParseBool (bool_text b) = Some b.
Proof. by destruct b. Qed.

(** C34: every flag is read as it was given.  Whichever flags of [generate
    coreruleset] are given on the command line, and with whatever values, setting
    them succeeds, and [genCRS], which ignores the errors of its lookups, runs with
    these values, and with the documented defaults for the flags not given: no
    lookup fails, for none asks for a flag that was not declared or at another type. *)
Theorem flags_read_as_given `{Validation} (chosen : string -> bool) (fl : crs_flags) (E : genv) :
  exists fs, set_flags (filter (fun f => chosen f.1 = true) (flag_texts fl)) coreruleset_flags = inr fs /\
    genCRS_cmd E fs = genCRS E (choose chosen fl (default_flags "" "")).
Proof.
  pose proof coreruleset_defaults as Hd.
  destruct (set_flags_values (filter (fun f => chosen f.1 = true) (flag_texts fl)) coreruleset_flags) as (fs & Hfs & Hval).
  - apply NoDup_chosen. apply (bool_decide_unpack _). vm_compute. exact I.
  - intros n t [_ Hin]%list_elem_of_filter. unfold holds_flags in Hd. destruct_and! Hd. unfold flag_texts in Hin.
    rewrite !elem_of_cons in Hin.
    repeat (destruct Hin as [[= -> ->]|Hin]; [eexists _, _; (split; [eassumption|]); simpl; rewrite ?ParseBool_bool_text; reflexivity|]).
    by apply not_elem_of_nil in Hin.
  - exists fs. split; [done|]. unfold genCRS_cmd. f_equal. apply read_holds.
    unfold holds_flags in *. destruct_and! Hd.
    split_and!; rewrite Hval, list_to_map_chosen; unfold choose; cbn [f_rules_dir f_version f_ignore_rules f_ignore_pmFromFile
      f_include_test_rule f_ruleset_name f_namespace f_data_source_name f_name_prefix f_name_suffix f_dry_run
      f_skip_size_check f_ignore_unsupported_rules];
      match goal with |- context [chosen ?n] => destruct (chosen n) end; try eassumption;
      unfold flag_texts; cbn [list_to_map foldr uncurry fst snd]; simplify_map_eq;
      by rewrite ?ParseBool_bool_text.
Qed.
End properties.

(** ** A flag set that is a map *)

Definition map_Pflag : Pflag := {|
  FlagSet := gmap string pflag_value;
  NewFlagSet := ∅;
  flags_String n d fs := <[n := PString d]> fs;
  flags_StringP n _ d fs := <[n := PString d]> fs;
  flags_Bool n d fs := <[n := PBool d]> fs;
  flags_Set n t fs := match fs !! n ≫= fun v => set_text v t with
                      | Some v => inr (<[n := v]> fs)
                      | None => inl (ErrText ("no such flag -" +:+ n))
                      end;
  GetString fs n := match fs !! n with Some (PString v) => inr v | _ => inl (ErrText "flag accessed but not defined") end;
  GetBool fs n := match fs !! n with Some (PBool b) => inr b | _ => inl (ErrText "flag accessed but not defined") end
|}.

Definition map_PflagLaws : PflagLaws map_Pflag.
Proof.
  refine {| values := fun fs : @FlagSet map_Pflag => fs |}; try done.
  - intros n t fs v v' Hv Ht. simpl. rewrite Hv. simpl. rewrite Ht. by eexists.
  - intros fs n v Hv. simpl in *. by rewrite Hv.
  - intros fs n b Hb. simpl in *. by rewrite Hb.
Defined.

(** [--rules-dir=rules --version=4.24.1 --include-test-rule]. *)
Definition sample_given : crs_flags :=
  {| f_rules_dir := "rules"; f_version := "4.24.1"; f_ignore_rules := ""; f_ignore_pmFromFile := false;
     f_include_test_rule := true; f_ruleset_name := ""; f_namespace := ""; f_data_source_name := ""; f_name_prefix := "";
     f_name_suffix := ""; f_dry_run := ""; f_skip_size_check := false; f_ignore_unsupported_rules := "" |}.

Lemma flags_read_as_given_witness :
  exists fs, set_flags (H := map_Pflag) [("rules-dir", "rules"); ("version", "4.24.1"); ("include-test-rule", "true")]
      (coreruleset_flags (H := map_Pflag)) = inr fs /\
    genCRS_cmd (H := map_Pflag) (H0 := sample_validation) CrsGenerate.sample_env fs =
      genCRS (H := sample_validation) CrsGenerate.sample_env
        {| f_rules_dir := "rules"; f_version := "4.24.1"; f_ignore_rules := ""; f_ignore_pmFromFile := false;
           f_include_test_rule := true; f_ruleset_name := "default-ruleset"; f_namespace := "";
           f_data_source_name := "coreruleset-data"; f_name_prefix := ""; f_name_suffix := ""; f_dry_run := "";
           f_skip_size_check := false; f_ignore_unsupported_rules := "wasm" |}.
Proof.
  exact (flags_read_as_given (P := map_Pflag) (PflagLaws0 := map_PflagLaws) (H := sample_validation)
    (fun n => bool_decide (n ∈ ["rules-dir"; "version"; "include-test-rule"])) sample_given CrsGenerate.sample_env).
Defined.
