(* ===== verification/ManagerFlags.v ===== *)
(** * The command line of the manager ([parseFlags] of [cmd/manager/main.go])

    The flags are registered over the configuration, with the logger's own flags
    after them.  [time.ParseDuration], the [%q] verb and the logger's flags are
    arguments. *)
From S2P Require Import Prelude GoLib GoErrors RulesetCache CacheServer CacheMetrics GoFlag ManagerMain.

(** ** The configuration, field by field *)

Definition set_metricsAddr (v : string) (cfg : config) : config :=
  let '(Build_config _ b c d e f g h i j k l m n) := cfg in Build_config v b c d e f g h i j k l m n.
Definition set_probeAddr (v : string) (cfg : config) : config :=
  let '(Build_config a _ c d e f g h i j k l m n) := cfg in Build_config a v c d e f g h i j k l m n.
Definition set_enableLeaderElect (v : bool) (cfg : config) : config :=
  let '(Build_config a b _ d e f g h i j k l m n) := cfg in Build_config a b v d e f g h i j k l m n.
Definition set_metricsCertPath (v : string) (cfg : config) : config :=
  let '(Build_config a b c _ e f g h i j k l m n) := cfg in Build_config a b c v e f g h i j k l m n.
Definition set_metricsCertName (v : string) (cfg : config) : config :=
  let '(Build_config a b c d _ f g h i j k l m n) := cfg in Build_config a b c d v f g h i j k l m n.
Definition set_metricsCertKey (v : string) (cfg : config) : config :=
  let '(Build_config a b c d e _ g h i j k l m n) := cfg in Build_config a b c d e v g h i j k l m n.
Definition set_cacheGCInterval (v : Z) (cfg : config) : config :=
  let '(Build_config a b c d e f _ h i j k l m n) := cfg in Build_config a b c d e f v h i j k l m n.
Definition set_cacheMaxAge (v : Z) (cfg : config) : config :=
  let '(Build_config a b c d e f g _ i j k l m n) := cfg in Build_config a b c d e f g v i j k l m n.
Definition set_cacheMaxSize (v : Z) (cfg : config) : config :=
  let '(Build_config a b c d e f g h _ j k l m n) := cfg in Build_config a b c d e f g h v j k l m n.
Definition set_cacheServerPort (v : Z) (cfg : config) : config :=
  let '(Build_config a b c d e f g h i _ k l m n) := cfg in Build_config a b c d e f g h i v k l m n.
Definition set_envoyClusterName (v : string) (cfg : config) : config :=
  let '(Build_config a b c d e f g h i j _ l m n) := cfg in Build_config a b c d e f g h i j v l m n.
Definition set_cfg_istioRevision (v : string) (cfg : config) : config :=
  let '(Build_config a b c d e f g h i j k _ m n) := cfg in Build_config a b c d e f g h i j k v m n.
Definition set_cfg_defaultWasmImage (v : string) (cfg : config) : config :=
  let '(Build_config a b c d e f g h i j k l _ n) := cfg in Build_config a b c d e f g h i j k l v n.
Definition set_operatorName (v : string) (cfg : config) : config :=
  let '(Build_config a b c d e f g h i j k l m _) := cfg in Build_config a b c d e f g h i j k l m v.

Section flags.
Context (quote_text : string -> string) (ParseDuration : string -> option Z).
Context {zap : Type} (zap_flags : list (string * flag_value zap)) (zap_defaults : zap).

(** [flag.DurationVar]. *)
Definition DurationVar (set : Z -> config -> config) : flag_value config :=
  FuncVar (fun v cfg => match ParseDuration v with
                        | Some d => inr (set d cfg)
                        | None => inl (ErrText "parse error")
                        end).

Definition manager_flags : list (string * flag_value config) :=
  [("metrics-bind-address", StringVar set_metricsAddr);
   ("health-probe-bind-address", StringVar set_probeAddr);
   ("leader-elect", BoolVar set_enableLeaderElect);
   ("metrics-cert-path", StringVar set_metricsCertPath);
   ("metrics-cert-name", StringVar set_metricsCertName);
   ("metrics-cert-key", StringVar set_metricsCertKey);
   ("cache-gc-interval", DurationVar set_cacheGCInterval);
   ("cache-max-age", DurationVar set_cacheMaxAge);
   ("cache-max-size", IntVar set_cacheMaxSize);
   ("cache-server-port", IntVar set_cacheServerPort);
   ("envoy-cluster-name", StringVar set_envoyClusterName);
   ("istio-revision", StringVar set_cfg_istioRevision);
   ("default-wasm-image", StringVar set_cfg_defaultWasmImage);
   ("operator-name", StringVar set_operatorName)].

(** A flag over one half of the state. *)
Definition on_config (v : flag_value config) : flag_value (config * zap) :=
  match v with
  | BoolVar set => BoolVar (fun b c => (set b c.1, c.2))
  | StringVar set => StringVar (fun s c => (set s c.1, c.2))
  | IntVar set => IntVar (fun n c => (set n c.1, c.2))
  | FuncVar set => FuncVar (fun s c => c1 ← set s c.1; inr (c1, c.2))
  end.

Definition on_zap (v : flag_value zap) : flag_value (config * zap) :=
  match v with
  | BoolVar set => BoolVar (fun b c => (c.1, set b c.2))
  | StringVar set => StringVar (fun s c => (c.1, set s c.2))
  | IntVar set => IntVar (fun n c => (c.1, set n c.2))
  | FuncVar set => FuncVar (fun s c => c2 ← set s c.2; inr (c.1, c2))
  end.

(** [flag.CommandLine], as [parseFlags] leaves it before [flag.Parse]. *)
Definition formal_flags : list (string * flag_value (config * zap)) :=
  ((fun f => (f.1, on_config f.2)) <$> manager_flags) ++ ((fun f => (f.1, on_zap f.2)) <$> zap_flags).

(** An error of [flag.Parse] ends the process; arguments after the flags are ignored. *)
Definition parseFlags (Getenv : string -> string) (args : list string) : gerror + config :=
  '(c, _) ← parse_flags quote_text formal_flags args (flag_defaults Getenv, zap_defaults);
  inr c.1.

(** ** Every configuration can be given on the command line *)

Context (format_duration : Z -> string).

Definition bool_text (b : bool) : string := if b then "true" else "false".

Definition assignment (name value : string) : string := "--" +:+ name +:+ "=" +:+ value.

Definition command_line (cfg : config) : list string :=
  [assignment "metrics-bind-address" (metricsAddr cfg);
   assignment "health-probe-bind-address" (probeAddr cfg);
   assignment "leader-elect" (bool_text (enableLeaderElect cfg));
   assignment "metrics-cert-path" (metricsCertPath cfg);
   assignment "metrics-cert-name" (metricsCertName cfg);
   assignment "metrics-cert-key" (metricsCertKey cfg);
   assignment "cache-gc-interval" (format_duration (cacheGCInterval cfg));
   assignment "cache-max-age" (format_duration (cacheMaxAge cfg));
   assignment "cache-max-size" (Itoa (cacheMaxSize cfg));
   assignment "cache-server-port" (Itoa (cacheServerPort cfg));
   assignment "envoy-cluster-name" (envoyClusterName cfg);
   assignment "istio-revision" (cfg_istioRevision cfg);
   assignment "default-wasm-image" (cfg_defaultWasmImage cfg);
   assignment "operator-name" (operatorName cfg)].

Lemma classify_assignment n name value : byte_in "=" name = false -> code n <> 45 -> code n <> 61 ->
  classify (assignment (String n name) value) = Flag (String n name) (Some value).
Proof.
  intros Hn H1 H2. unfold assignment.
  change ("--" +:+ String n name +:+ "=" +:+ value) with
    (String "-" (String "-" (String n (name +:+ "=" +:+ value)))).
  unfold classify. change (code "-" =? 45) with true. cbv iota beta delta [negb andb].
  change (String.eqb (String n (name +:+ "=" +:+ value)) "") with false. cbv iota.
  rewrite (proj2 (Z.eqb_neq _ _) H1), (proj2 (Z.eqb_neq _ _) H2). cbv iota beta delta [orb].
  by rewrite (proj2 (Cut_byte (name +:+ "=" +:+ value) "=" name value)).
Qed.

Lemma parse_flags_assignment {C} (formal : list (string * flag_value C)) n name value args c v :
  byte_in "=" name = false -> code n <> 45 -> code n <> 61 ->
  lookup_flag formal (String n name) = Some v ->
  parse_flags quote_text formal (assignment (String n name) value :: args) c =
    (c ← set_value quote_text v (String n name) value c; parse_flags quote_text formal args c).
Proof.
  intros Hn H1 H2 Hl. cbn [parse_flags]. rewrite classify_assignment, Hl by done. by destruct v.
Qed.

Lemma ParseBool_text b : ParseBool (bool_text b) = Some b.
Proof. by destruct b. Qed.

(** What the flags can carry. *)
Definition representable (cfg : config) : Prop :=
  ParseDuration (format_duration (cacheGCInterval cfg)) = Some (cacheGCInterval cfg) /\
  ParseDuration (format_duration (cacheMaxAge cfg)) = Some (cacheMaxAge cfg) /\
  - 2 ^ 63 <= cacheMaxSize cfg < 2 ^ 63 /\ - 2 ^ 63 <= cacheServerPort cfg < 2 ^ 63.

(** Parsing the flags of a configuration leaves it, before the other arguments. *)
Lemma parse_command_line cfg cfg0 z rest : representable cfg ->
  parse_flags quote_text formal_flags (command_line cfg ++ rest) (cfg0, z) =
  parse_flags quote_text formal_flags rest (cfg, z).
Proof.
  intros (Hgc & Hage & Hsize & Hport). unfold command_line. cbn [app].
  do 14 (erewrite parse_flags_assignment; [|done|done|done|reflexivity]; lazy iota beta delta [compose prod_map id fst snd on_config set_value set_bool DurationVar mbind sum_bind];
    rewrite ?Hgc, ?Hage, ?ParseBool_text, ?ParseInt0_Itoa by done; lazy iota beta).
  by destruct cfg, cfg0.
Qed.

(** Every configuration can be given on the command line: parsing the flags
    that assign its fields gives it back, whatever the environment and the logger's
    own flags are. *)
Theorem parseFlags_command_line (Getenv : string -> string) (cfg : config) :
  representable cfg -> parseFlags Getenv (command_line cfg) = inr cfg.
Proof.
  intros Hcfg. unfold parseFlags. rewrite <- (app_nil_r (command_line cfg)). by rewrite parse_command_line.
Qed.
End flags.

(** Durations as nanoseconds, for the witness. *)
Definition nanoseconds (s : string) : option Z := match ParseInt0 s with inr n => Some n | inl _ => None end.

Definition sample_config : config :=
  {| metricsAddr := ":8443"; probeAddr := ":8081"; enableLeaderElect := true; metricsCertPath := "/certs";
     metricsCertName := "tls.crt"; metricsCertKey := "tls.key"; cacheGCInterval := 60 * Second;
     cacheMaxAge := 3600 * Second; cacheMaxSize := 1048576; cacheServerPort := 18080;
     envoyClusterName := "outbound|80||cache"; cfg_istioRevision := ""; cfg_defaultWasmImage := "oci://image=x";
     operatorName := "op" |}.

Lemma parseFlags_command_line_witness :
  representable nanoseconds Itoa sample_config /\
  parseFlags (fun s => s) nanoseconds [("zap-devel", BoolVar (fun b _ => b))] false (fun _ => "")
    (command_line Itoa sample_config) = inr sample_config.
Proof.
  assert (H : representable nanoseconds Itoa sample_config) by (split_and!; by vm_compute).
  split; [exact H|]. exact (parseFlags_command_line _ _ _ _ _ _ _ H).
Defined.
