(* ===== verification/Deployment.v ===== *)
(** * The manager process and its configuration

    [main] of [cmd/manager/main.go] as a process: the command line is parsed, then
    the manager is started; the process ends with a status.  What the configured
    parts make of the configuration together: the port the cache server listens on
    and the port the Engines' NetworkPolicies open. *)
From S2P Require Import Prelude GoLib GoErrors RulesetCache CacheServer CacheMetrics KubeApi EngineNetwork EngineController GoFlag ManagerMain ManagerFlags.

(** ** The process *)

Section process.
Context (quote_text : string -> string) (ParseDuration : string -> option Z).
Context {zap : Type} (zap_flags : list (string * flag_value zap)) (zap_defaults : zap).
Context (answer : list action -> action -> option gerror).
Context {R : Type} (register : Registerer -> collector -> R -> R * (gerror + unit)).
Context (registry cache_addr : nat).

(** [flag.CommandLine] ends the process on an error, with 0 when help was asked for. *)
Definition flag_exit (err : gerror) : Z :=
  match err with
  | ErrText t => if String.eqb t "flag: help requested" then 0 else 2
  | _ => 2
  end.

(** The calls made and the exit status. *)
Definition manager_process (Getenv : string -> string) (args : list string) (m : use_state R) : setup_state (R := R) * Z :=
  match parseFlags quote_text ParseDuration zap_flags zap_defaults Getenv args with
  | inl err => ({| calls := []; metrics := m |}, flag_exit err)
  | inr cfg =>
      match main answer register registry cache_addr Getenv cfg {| calls := []; metrics := m |} with
      | (st, Some _) => (st, 0)
      | (st, None) => (st, 1)
      end
  end.

(** ** A start-up in which every call succeeds *)

Section succeeding.
Context (Hanswer : forall l a, answer l a = None)
  (Hregister : forall col x, exists x', register (PromRegistry registry) col x = (x', inr tt)).

Lemma must_ok a (st : setup_state (R := R)) : must answer a st = ({| calls := calls st ++ [a]; metrics := metrics st |}, Some tt).
Proof. unfold must. by rewrite Hanswer. Qed.

Lemma registerCollectors_ok l x : exists x', registerCollectors register (PromRegistry registry) l x = (x', inr tt).
Proof.
  revert x. induction l as [|col l IH]; intros x; simpl; [by exists x|].
  destruct (Hregister col x) as [x' ->]. apply IH.
Qed.

Lemma register_metrics_ok gc (st : setup_state (R := R)) : registeredUSEMetricsByPromRegistry (metrics st) !! registry = None ->
  exists m', register_metrics register registry cache_addr gc st = ({| calls := calls st ++ [RegisterMetrics gc]; metrics := m' |}, Some tt).
Proof.
  intros Hn. unfold register_metrics, RegisterUSEMetrics. rewrite Hn.
  destruct (registerCollectors_ok use_collectors (registries (metrics st))) as [x' ->]. by eexists.
Qed.

Lemma must_bind {B} a (k : unit -> setup (R := R) B) (st : setup_state (R := R)) : setup_bind unit B k (must answer a) st =
  k tt {| calls := calls st ++ [a]; metrics := metrics st |}.
Proof. unfold setup_bind. by rewrite must_ok. Qed.

Lemma start_manager_ok cfg ns m : registeredUSEMetricsByPromRegistry m !! registry = None ->
  exists st, start_manager answer register registry cache_addr cfg ns {| calls := []; metrics := m |} = (st, Some tt).
Proof.
  intros Hn. unfold start_manager, setupCacheServer, SetupControllers, setupHealthChecks, mbind.
  rewrite !must_bind. cbn [calls metrics].
  match goal with |- exists st, setup_bind _ _ ?k ?m ?s = _ => change (setup_bind _ _ k m s) with
    (match m s with (st', None) => (st', None) | (st', Some a) => k a st' end) end.
  unfold setup_bind at 1.
  match goal with |- context [register_metrics register registry cache_addr ?gc ?s] =>
    destruct (register_metrics_ok gc s Hn) as [m' ->] end.
  rewrite must_ok. cbn [calls metrics].
  assert (Hi : forall st : setup_state (R := R), exists st', setupIstioPrerequisites answer cfg ns st = (st', Some tt)).
  { intros st. unfold setupIstioPrerequisites. destruct (String.eqb _ _); [by exists st|]. rewrite must_ok. by eexists. }
  unfold setup_bind at 1. match goal with |- context [setupIstioPrerequisites answer cfg ns ?s] => destruct (Hi s) as [st' ->] end.
  unfold setup_bind. rewrite !must_ok. by eexists.
Qed.
End succeeding.

(** ** The properties *)

(** C33: the manager starts from its command line.  Given the flags of a
    configuration that is complete, a process whose calls all succeed makes the
    calls of the start-up in their order, with this configuration, and runs until
    it is stopped, with status 0; a process given a command line that does not
    parse makes no call and ends with status 2 (0 for help); and one that is not
    configured makes no call and ends with status 1. *)
Theorem manager_process_starts (format_duration : Z -> string) (Getenv : string -> string) (cfg : config) (m : use_state R) :
  (forall l a, answer l a = None) ->
  (forall col x, exists x', register (PromRegistry registry) col x = (x', inr tt)) ->
  registeredUSEMetricsByPromRegistry m !! registry = None ->
  representable ParseDuration format_duration cfg ->
  (let '(st, code) := manager_process Getenv (command_line format_duration cfg) m in
   if bool_decide (startable cfg (Getenv "POD_NAMESPACE"))
   then calls st = startup_calls cfg (Getenv "POD_NAMESPACE") /\ code = 0
   else calls st = [] /\ code = 1) /\
  forall args err, parseFlags quote_text ParseDuration zap_flags zap_defaults Getenv args = inl err ->
    manager_process Getenv args m = ({| calls := []; metrics := m |}, flag_exit err).
Proof.
  intros Hanswer Hregister Hm Hcfg. split; [|by intros args err; unfold manager_process; intros ->].
  unfold manager_process, parseFlags. rewrite <- (app_nil_r (command_line _ cfg)), parse_command_line by done.
  cbn. case_bool_decide as Hs.
  - rewrite main_startable by done.
    destruct (start_manager_ok Hanswer Hregister cfg (Getenv "POD_NAMESPACE") m Hm) as [st Hst].
    pose proof (follows_start answer register registry cache_addr cfg (Getenv "POD_NAMESPACE") {| calls := []; metrics := m |}) as Hf.
    by rewrite Hst in *.
  - by rewrite main_not_startable.
Qed.

(** The policies an Engine's reconciliation writes. *)
Definition writes_np (A : api) (r : EngineReconciler) (e : Engine) (np : NetworkPolicy) : Prop :=
  exists w l, w_trace (applyNetworkPolicy A r e w).1 = w_trace w ++ l /\
    (EffCreatePolicy np ∈ l \/ EffUpdatePolicy np ∈ l).

(** C20: the port of the cache server.  A complete start-up runs the cache server on
    the port of the configuration, and Engine reconcilers; whatever NetworkPolicy
    one of them writes for an Engine, a pod of the Engine's Gateway is admitted to
    the port the cache server listens on if and only if that port is the default
    one.  With another [--cache-server-port] no Engine reaches its rules. *)
Theorem cache_port_admitted (Getenv : string -> string) (cfg : config) (m : use_state R) st :
  main answer register registry cache_addr Getenv cfg {| calls := []; metrics := m |} = (st, Some tt) ->
  exists gc, Add (RunCacheServer (":" +:+ Itoa (cacheServerPort cfg)) gc) ∈ calls st /\
    (exists r, SetupWithManager (EngineReconciler_ r) ∈ calls st) /\
    forall r, SetupWithManager (EngineReconciler_ r) ∈ calls st ->
      forall A e np nsLabels podLabels, writes_np A r e np ->
        nsLabels !! "kubernetes.io/metadata.name" = Some (Namespace (e_Meta e)) ->
        podLabels !! gatewayNameLabel = Some (target_Name (e_Target (e_Spec e))) ->
        admits np nsLabels podLabels "TCP" (cacheServerPort cfg) <-> cacheServerPort cfg = 18080.
Proof.
  intros Hr. destruct (decide (startable cfg (Getenv "POD_NAMESPACE"))) as [Hs|Hs];
    [|by rewrite main_not_startable in Hr].
  rewrite main_startable in Hr by done.
  pose proof (follows_start answer register registry cache_addr cfg (Getenv "POD_NAMESPACE") {| calls := []; metrics := m |}) as Hf.
  rewrite Hr in Hf. rewrite Hf. eexists.
  cbn [calls]. unfold startup_calls. rewrite !elem_of_app.
  split; [right; left; do 4 right; left|]. split; [eexists; rewrite !elem_of_app; right; right; right; right; left|].
  intros r _ A e np nsLabels podLabels (w & l & Hl & Hin) Hns Hpod.
  destruct (applyNetworkPolicy_post A r e w) as (l' & Hl' & Hpols & _).
  rewrite Hl in Hl'. apply app_inv_head in Hl' as <-. rewrite Forall_forall in Hpols.
  assert (policy_of A r e np) as (_ & _ & _ & _ & Ha) by by (destruct Hin as [Hin|Hin]; apply (Hpols _ Hin)).
  rewrite Ha. unfold DefaultRuleSetCacheServerPort. naive_solver.
Qed.
End process.

(** ** A process that starts *)

Definition quiet_registry (_ : Registerer) (_ : collector) (n : nat) : nat * (gerror + unit) := (S n, inr tt).
Definition fresh_metrics : use_state nat := {| registries := 0%nat; registeredUSEMetricsByPromRegistry := ∅ |}.
Definition pod_env (name : string) : string := if String.eqb name "POD_NAMESPACE" then "coraza-system" else "".

Lemma manager_process_starts_witness :
  let '(st, code) := manager_process (fun s => s) nanoseconds [("zap-devel", BoolVar (fun b _ => b))] false
    (fun _ _ => None) quiet_registry 0 0 pod_env (command_line Itoa sample_config) fresh_metrics in
  calls st = startup_calls sample_config "coraza-system" /\ code = 0.
Proof.
  assert (Hcfg : representable nanoseconds Itoa sample_config) by (split_and!; by vm_compute).
  destruct (manager_process_starts (fun s => s) nanoseconds [("zap-devel", BoolVar (fun b _ => b))] false
    (fun _ _ => None) quiet_registry 0 0 Itoa pod_env sample_config fresh_metrics (fun _ _ => eq_refl)
    (fun _ x => ex_intro _ (S x) eq_refl) eq_refl Hcfg) as [H _].
  assert (Hs : bool_decide (startable sample_config (pod_env "POD_NAMESPACE")) = true) by (vm_compute; reflexivity).
  rewrite Hs in H. exact H.
Defined.

(** The cache server listens on 9090, where no Gateway pod may connect. *)
Definition other_port : config := set_cacheServerPort 9090 sample_config.

Lemma cache_port_admitted_witness :
  exists (st : setup_state (R := nat)) r np,
    main (fun _ _ => None) quiet_registry 0 0 pod_env other_port {| calls := []; metrics := fresh_metrics |} = (st, Some tt) /\
    (exists gc, Add (RunCacheServer ":9090" gc) ∈ calls st) /\ SetupWithManager (EngineReconciler_ r) ∈ calls st /\
    EffCreatePolicy np ∈ w_trace (applyNetworkPolicy sample_engine_api r sample_engine empty_world).1 /\
    ~ admits np {["kubernetes.io/metadata.name" := "ns"]} {[gatewayNameLabel := "gw"]} "TCP" 9090.
Proof.
  destruct (main (R := nat) (fun _ _ => None) quiet_registry 0 0 pod_env other_port {| calls := []; metrics := fresh_metrics |})
    as [st [[]|]] eqn:Hr; [|vm_compute in Hr; discriminate Hr].
  destruct (cache_port_admitted (fun _ _ => None) quiet_registry 0 0 pod_env other_port fresh_metrics st Hr)
    as (gc & Hadd & [r Hrec] & Hport).
  set (np := buildNetworkPolicy sample_engine_api r sample_engine).
  assert (Hin : EffCreatePolicy np ∈ w_trace (applyNetworkPolicy sample_engine_api r sample_engine empty_world).1)
    by (apply (list_elem_of_lookup_2 _ 1); reflexivity).
  exists st, r, np. split; [reflexivity|]. split; [exists gc; exact Hadd|]. split; [exact Hrec|]. split; [exact Hin|].
  intros Hadm. assert (9090 = 18080) as Hbad; [|discriminate Hbad].
  apply (Hport r Hrec sample_engine_api sample_engine np {["kubernetes.io/metadata.name" := "ns"]} {[gatewayNameLabel := "gw"]}).
  - exists empty_world, (w_trace (applyNetworkPolicy sample_engine_api r sample_engine empty_world).1).
    split; [reflexivity|left; exact Hin].
  - reflexivity.
  - reflexivity.
  - exact Hadm.
Defined.
