(* ===== verification/GitHub.v ===== *)
(** * The GitHub client ([tools/github_project_manager/github.go])

    Every operation of the client as a program that sends HTTP requests; the server
    that answers them, the network and the requests sent so far are the state. *)
From S2P Require Import Prelude GoLib GoErrors GoJson JsonParse JsonDecode Triage.

(** ** Constants *)

Definition defaultBaseURL : string := "https://api.github.com".
Definition apiVersion : string := "2022-11-28".
Definition userAgent : string := "github_project_manager/1.0".
Definition StatusOK : Z := 200.
Definition StatusNotFound : Z := 404.

(** ** [url.PathEscape] *)

Definition hex_upper (n : Z) : ascii := ascii_of_N (Z.to_N (if n <? 10 then 48 + n else 55 + n)).

(** The bytes a path segment keeps: letters, digits and [-_.~$&+:=@]. *)
Definition path_plain (a : ascii) : bool :=
  is_digit a || is_upper a || is_lower a || in_cutset "-_.~$&+:=@" a.

Fixpoint PathEscape (s : string) : string :=
  match s with
  | EmptyString => ""
  | String a s' =>
      if path_plain a then String a (PathEscape s')
      else String "%" (String (hex_upper (code a / 16)) (String (hex_upper (code a mod 16)) (PathEscape s')))
  end.

(** ** Requests and the server *)

(** Headers by their canonical names, in the order they are set. *)
Record request := {
  rq_method : string;
  rq_url : string;
  rq_headers : list (string * string);
  rq_body : string
}.

Inductive answer :=
  (** [http.Client.Do] failed. *)
  | NetError (err : gerror)
  (** The body could not be read. *)
  | BodyError (status : Z) (err : gerror)
  | Answered (status : Z) (body : string).

(** What the client runs against: a server with its state, the verdict of
    [http.NewRequest] on a URL, the text of [json.Unmarshal]'s errors and of the
    [%q] verb. *)
Class Network := {
  server : Type;
  serve : server -> request -> server * answer;
  NewRequest_error : string -> option gerror;
  Unmarshal_error : option string -> gerror;
  quote_text : string -> string
}.

(** ** Programs *)

Section programs.
Context `{Network}.

Record gh_world := {
  gh_server : server;
  gh_requests : list request;
  gh_stdout : string;
  gh_stderr : string
}.

Definition gh (A : Type) : Type := gh_world -> gh_world * (gerror + A).

#[export] Instance gh_ret : MRet gh := fun A a w => (w, inr a).
#[export] Instance gh_bind : MBind gh := fun A B k m w =>
  match m w with (w', inl e) => (w', inl e) | (w', inr a) => k a w' end.

Definition gh_fail {A} (e : gerror) : gh A := fun w => (w, inl e).
(** Run [m] and go on with its result or its error. *)
Definition gh_attempt {A} (m : gh A) : gh (gerror + A) := fun w => let '(w', r) := m w in (w', inr r).
(** [fmt.Errorf("<prefix>%w", err)] around the error of [m]. *)
Definition gh_wrap {A} (prefix : string) (m : gh A) : gh A := fun w =>
  match m w with (w', inl e) => (w', inl (errorf_w prefix e)) | r => r end.

Definition gh_send (r : request) : gh answer := fun w =>
  let '(s, a) := serve (gh_server w) r in
  ({| gh_server := s; gh_requests := gh_requests w ++ [r];
      gh_stdout := gh_stdout w; gh_stderr := gh_stderr w |}, inr a).

Definition put_stdout (line : string) : gh unit := fun w =>
  ({| gh_server := gh_server w; gh_requests := gh_requests w;
      gh_stdout := gh_stdout w +:+ line; gh_stderr := gh_stderr w |}, inr tt).
Definition put_stderr (line : string) : gh unit := fun w =>
  ({| gh_server := gh_server w; gh_requests := gh_requests w;
      gh_stdout := gh_stdout w; gh_stderr := gh_stderr w +:+ line |}, inr tt).

(** [for _, x := range l { if err := f(x); err != nil { return err } }]. *)
Fixpoint gh_each {A} (f : A -> gh unit) (l : list A) : gh unit :=
  match l with
  | [] => mret tt
  | x :: l' => _ ← f x; gh_each f l'
  end.
End programs.

(** ** Data *)

(** [Milestone] is a pointer to an empty struct: whether it is set. *)
Record Issue := {
  Number : Z;
  State : string;
  Body : string;
  Labels : list string;
  has_Milestone : bool
}.
Definition zero_Issue : Issue :=
  {| Number := 0; State := ""; Body := ""; Labels := []; has_Milestone := false |}.

Definition HasMilestone (i : Issue) : bool := has_Milestone i.

(** [struct { Name string }]. *)
Definition dec_name : decoder string := dec_struct [("name", dec_string)].

(** [Issue.UnmarshalJSON]: the auxiliary struct with the labels as objects, whose
    names become the labels. *)
Definition issue_fields : list (field Issue) :=
  [("number", sub Number (fun x i => {| Number := x; State := State i; Body := Body i; Labels := Labels i;
                                        has_Milestone := has_Milestone i |}) dec_int);
   ("state", sub State (fun x i => {| Number := Number i; State := x; Body := Body i; Labels := Labels i;
                                      has_Milestone := has_Milestone i |}) dec_string);
   ("body", sub Body (fun x i => {| Number := Number i; State := State i; Body := x; Labels := Labels i;
                                    has_Milestone := has_Milestone i |}) dec_string);
   ("milestone", sub has_Milestone (fun x i => {| Number := Number i; State := State i; Body := Body i;
                                                  Labels := Labels i; has_Milestone := x |}) dec_present);
   ("labels", sub Labels (fun x i => {| Number := Number i; State := State i; Body := Body i; Labels := x;
                                        has_Milestone := has_Milestone i |}) (dec_slice dec_name ""))].
Definition UnmarshalJSON : decoder Issue := dec_struct issue_fields.

Definition dec_Milestone : decoder Milestone := dec_struct
  [("number", sub m_Number (fun x m => {| m_Number := x; m_Title := m_Title m |}) dec_int);
   ("title", sub m_Title (fun x m => {| m_Number := m_Number m; m_Title := x |}) dec_string)].

Record pullRequestInfo := { NodeID : string; Additions : Z; Deletions : Z }.
Definition dec_pullRequestInfo : decoder pullRequestInfo := dec_struct
  [("node_id", sub NodeID (fun x p => {| NodeID := x; Additions := Additions p; Deletions := Deletions p |}) dec_string);
   ("additions", sub Additions (fun x p => {| NodeID := NodeID p; Additions := x; Deletions := Deletions p |}) dec_int);
   ("deletions", sub Deletions (fun x p => {| NodeID := NodeID p; Additions := Additions p; Deletions := x |}) dec_int)].

Record GitHubClient := {
  gc_token : string;
  gc_owner : string;
  gc_repo : string;
  gc_baseURL : string;
  (** the timeout of the HTTP client *)
  gc_timeout : Z
}.

Definition NewGitHubClient (token owner repo : string) : GitHubClient :=
  {| gc_token := token; gc_owner := owner; gc_repo := repo; gc_baseURL := defaultBaseURL;
     gc_timeout := 30 * Second |}.

(** ** Plumbing *)

Definition repoURL (c : GitHubClient) : string :=
  gc_baseURL c +:+ "/repos/" +:+ gc_owner c +:+ "/" +:+ gc_repo c.
Definition issueURL (c : GitHubClient) (number : Z) : string := repoURL c +:+ "/issues/" +:+ Itoa number.
Definition issueLabelsURL (c : GitHubClient) (number : Z) : string := issueURL c number +:+ "/labels".
Definition issueLabelURL (c : GitHubClient) (number : Z) (label : string) : string :=
  issueURL c number +:+ "/labels/" +:+ PathEscape label.

(** The request [doRequest] sends. *)
Definition build_request (c : GitHubClient) (method reqURL body : string) : request :=
  {| rq_method := method; rq_url := reqURL;
     rq_headers :=
       [("Accept", "application/vnd.github+json"); ("X-Github-Api-Version", apiVersion);
        ("User-Agent", userAgent)] ++
       (if String.eqb (gc_token c) "" then [] else [("Authorization", "Bearer " +:+ gc_token c)]) ++
       (if String.eqb body "" then [] else [("Content-Type", "application/json")]);
     rq_body := body |}.

Definition status_text (status : Z) (body : string) : string := "status " +:+ Itoa status +:+ ": " +:+ body.

Section client.
Context `{Network} (c : GitHubClient).

Definition doRequest (method reqURL body : string) : gh (string * Z) :=
  match NewRequest_error reqURL with
  | Some err => gh_fail (errorf_w "creating request: " err)
  | None =>
      a ← gh_send (build_request c method reqURL body);
      match a with
      | NetError err => gh_fail (errorf_w "executing request: " err)
      | BodyError _ err => gh_fail (errorf_w "reading response: " err)
      | Answered status respBody => mret (respBody, status)
      end
  end.

Definition getJSON {A} (dec : decoder A) (zero : A) (reqURL : string) : gh A :=
  '(body, status) ← doRequest "GET" reqURL "";
  if negb (status =? StatusOK) then gh_fail (ErrText (status_text status body)) else
  match Unmarshal dec zero body with
  | Some a => mret a
  | None => gh_fail (Unmarshal_error (Some body))
  end.

Definition patchJSON (reqURL payload : string) : gh unit :=
  '(body, status) ← doRequest "PATCH" reqURL payload;
  if negb (status =? StatusOK) then gh_fail (ErrText (status_text status body)) else mret tt.

(** ** Issues *)

Definition GetIssue (number : Z) : gh Issue :=
  gh_wrap ("fetching issue #" +:+ Itoa number +:+ ": ") (getJSON UnmarshalJSON zero_Issue (issueURL c number)).

Definition labels_payload (labels : list string) : string :=
  json_print (json_map {[ "labels" := json_strings labels ]}).

Definition AddLabels (number : Z) (labels : list string) : gh unit :=
  let what := "adding labels to #" +:+ Itoa number +:+ ": " in
  '(body, status) ← gh_wrap what (doRequest "POST" (issueLabelsURL c number) (labels_payload labels));
  if negb (status =? StatusOK) then gh_fail (ErrText (what +:+ status_text status body)) else mret tt.

Definition RemoveLabel (number : Z) (label : string) : gh unit :=
  let what := "removing label " +:+ quote_text label +:+ " from #" +:+ Itoa number +:+ ": " in
  '(body, status) ← gh_wrap what (doRequest "DELETE" (issueLabelURL c number label) "");
  if negb (status =? StatusOK) && negb (status =? StatusNotFound)
  then gh_fail (ErrText (what +:+ status_text status body)) else mret tt.

Definition gh_CloseIssue (number : Z) : gh unit :=
  gh_wrap ("closing issue #" +:+ Itoa number +:+ ": ")
    (patchJSON (issueURL c number) (dq "{~state~:~closed~}")).

Definition gh_RemoveMilestone (number : Z) : gh unit :=
  gh_wrap ("removing milestone from #" +:+ Itoa number +:+ ": ")
    (patchJSON (issueURL c number) (dq "{~milestone~:null}")).

Definition ListOpenMilestones : gh (list Milestone) :=
  gh_wrap "listing milestones: "
    (getJSON (dec_slice dec_Milestone {| m_Number := 0; m_Title := "" |}) []
       (repoURL c +:+ "/milestones?state=open&per_page=100")).

Definition milestone_payload (milestoneNumber : Z) : string :=
  json_print (json_map {[ "milestone" := JNum (Itoa milestoneNumber) ]}).

Definition SetMilestone (number milestoneNumber : Z) : gh unit :=
  gh_wrap ("setting milestone on #" +:+ Itoa number +:+ ": ")
    (patchJSON (issueURL c number) (milestone_payload milestoneNumber)).

(** ** Pull requests *)

Definition pullURL (number : Z) : string := repoURL c +:+ "/pulls/" +:+ Itoa number.

Definition GetPullRequestInfo (number : Z) : gh pullRequestInfo :=
  gh_wrap ("fetching PR #" +:+ Itoa number +:+ " info: ")
    (getJSON dec_pullRequestInfo {| NodeID := ""; Additions := 0; Deletions := 0 |} (pullURL number)).

Definition GetPullRequestFiles (number : Z) : gh (list string) :=
  gh_wrap ("fetching PR #" +:+ Itoa number +:+ " files: ")
    (getJSON (dec_slice (dec_struct [("filename", dec_string)]) "") []
       (pullURL number +:+ "/files?per_page=100")).
End client.

(** ** GraphQL *)

Definition tabs (n : nat) (line : string) : string := Repeat (String (ascii_of_N 9) "") n +:+ line.

Definition query_org_projects : string := text (dq <$>
  ["query($owner: String!) {";
   tabs 2 "organization(login: $owner) {";
   tabs 3 "projectsV2(first: 100) { nodes { id number closed } }";
   tabs 2 "}";
   tabs 1 "}"]).

Definition query_user_projects : string := text (dq <$>
  ["query($owner: String!) {";
   tabs 2 "user(login: $owner) {";
   tabs 3 "projectsV2(first: 100) { nodes { id number closed } }";
   tabs 2 "}";
   tabs 1 "}"]).

Definition query_org_project : string := text (dq <$>
  ["query($owner: String!, $number: Int!) {";
   tabs 2 "organization(login: $owner) { projectV2(number: $number) { id } }";
   tabs 1 "}"]).

Definition query_user_project : string := text (dq <$>
  ["query($owner: String!, $number: Int!) {";
   tabs 2 "user(login: $owner) { projectV2(number: $number) { id } }";
   tabs 1 "}"]).

Definition mutation_add_item : string := text (dq <$>
  ["mutation($project: ID!, $content: ID!) {";
   tabs 2 "addProjectV2ItemById(input: {projectId: $project, contentId: $content}) {";
   tabs 3 "item { id }";
   tabs 2 "}";
   tabs 1 "}"]).

Definition mutation_set_status : string := text (dq <$>
  ["mutation($project: ID!, $item: ID!, $field: ID!, $value: ID!) {";
   tabs 2 "updateProjectV2ItemFieldValue(input: {";
   tabs 3 "projectId: $project, itemId: $item, fieldId: $field,";
   tabs 3 "value: {singleSelectOptionId: $value}";
   tabs 2 "}) { projectV2Item { id } }";
   tabs 1 "}"]).

Definition query_status_field : string := text (dq <$>
  ["query($project: ID!) {";
   tabs 2 "node(id: $project) {";
   tabs 3 "... on ProjectV2 {";
   tabs 4 "field(name: ~Status~) {";
   tabs 5 "... on ProjectV2SingleSelectField {";
   tabs 6 "id";
   tabs 6 "options { id name }";
   tabs 5 "}";
   tabs 4 "}";
   tabs 3 "}";
   tabs 2 "}";
   tabs 1 "}"]).

(** The top level of a response: the data and the messages of the errors. *)
Record graphql_response := { gq_data : option json; gq_errors : list string }.
Definition dec_graphql : decoder graphql_response := dec_struct
  [("data", sub gq_data (fun x r => {| gq_data := x; gq_errors := gq_errors r |}) dec_raw);
   ("errors", sub gq_errors (fun x r => {| gq_data := gq_data r; gq_errors := x |})
                (dec_slice (dec_struct [("message", dec_string)]) ""))].

Record projectNode := { pn_ID : string; pn_Number : Z; pn_Closed : bool }.
Definition dec_projectNode : decoder projectNode := dec_struct
  [("id", sub pn_ID (fun x p => {| pn_ID := x; pn_Number := pn_Number p; pn_Closed := pn_Closed p |}) dec_string);
   ("number", sub pn_Number (fun x p => {| pn_ID := pn_ID p; pn_Number := x; pn_Closed := pn_Closed p |}) dec_int);
   ("closed", sub pn_Closed (fun x p => {| pn_ID := pn_ID p; pn_Number := pn_Number p; pn_Closed := x |}) dec_bool)].

(** A struct with one field that matters. *)
Definition dec_in {A} (name : string) (dec : decoder A) : decoder A := dec_struct [(name, dec)].

(** [pickOldestOpen]. *)
Definition oldest_step (best : option projectNode) (n : projectNode) : option projectNode :=
  if pn_Closed n then best else
  match best with
  | None => Some n
  | Some b => if pn_Number n <? pn_Number b then Some n else best
  end.
Definition pickOldestOpen (nodes : list projectNode) : option string :=
  pn_ID <$> fold_left oldest_step nodes None.

Record status_field := { sf_ID : string; sf_Options : list (string * string) }.
Definition dec_option : decoder (string * string) := dec_struct
  [("id", sub fst (fun x o => (x, o.2)) dec_string); ("name", sub snd (fun x o => (o.1, x)) dec_string)].
Definition dec_status_field : decoder status_field := dec_struct
  [("id", sub sf_ID (fun x f => {| sf_ID := x; sf_Options := sf_Options f |}) dec_string);
   ("options", sub sf_Options (fun x f => {| sf_ID := sf_ID f; sf_Options := x |}) (dec_slice dec_option ("", "")))].

Section graphql.
Context `{Network} (c : GitHubClient).

Definition graphqlURL : string := gc_baseURL c +:+ "/graphql".

Definition graphql_payload (query : string) (variables : gmap string json) : string :=
  json_print (json_map (<[ "query" := JStr query ]> {[ "variables" := json_map variables ]})).

Definition doGraphQL (query : string) (variables : gmap string json) : gh (option json) :=
  '(respBody, status) ← gh_wrap "executing GraphQL request: "
      (doRequest c "POST" graphqlURL (graphql_payload query variables));
  if negb (status =? StatusOK) then gh_fail (ErrText ("GraphQL request: " +:+ status_text status respBody)) else
  match Unmarshal dec_graphql {| gq_data := None; gq_errors := [] |} respBody with
  | None => gh_fail (errorf_w "decoding GraphQL response: " (Unmarshal_error (Some respBody)))
  | Some resp =>
      match gq_errors resp with
      | msg :: _ => gh_fail (ErrText ("GraphQL error: " +:+ msg))
      | [] => mret (gq_data resp)
      end
  end.

(** The error of [json.Unmarshal] on the data of a response. *)
Definition raw_error (raw : option json) : gerror := Unmarshal_error (json_print <$> raw).

Definition projects_of (owner_kind : string) : decoder (list projectNode) :=
  dec_in owner_kind (dec_in "projectsV2" (dec_in "nodes"
    (dec_slice dec_projectNode {| pn_ID := ""; pn_Number := 0; pn_Closed := false |}))).

Definition findOldestOpenProject : gh string :=
  let vars := {[ "owner" := JStr (gc_owner c) ]} in
  org ← gh_attempt (doGraphQL query_org_projects vars);
  match (match org with
         | inr data => nodes ← Unmarshal_raw (projects_of "organization") [] data; pickOldestOpen nodes
         | inl _ => None
         end) with
  | Some id => mret id
  | None =>
      data ← gh_wrap ("listing projects for " +:+ gc_owner c +:+ ": ") (doGraphQL query_user_projects vars);
      match Unmarshal_raw (projects_of "user") [] data with
      | None => gh_fail (errorf_w "decoding user projects: " (raw_error data))
      | Some nodes =>
          match pickOldestOpen nodes with
          | Some id => mret id
          | None => gh_fail (ErrText ("no open projects found for " +:+ gc_owner c))
          end
      end
  end.

Definition project_of (owner_kind : string) : decoder string :=
  dec_in owner_kind (dec_in "projectV2" (dec_in "id" dec_string)).

Definition lookupProjectID (projectNumber : Z) : gh string :=
  let vars := <[ "owner" := JStr (gc_owner c) ]> {[ "number" := JNum (Itoa projectNumber) ]} in
  org ← gh_attempt (doGraphQL query_org_project vars);
  match (match org with
         | inr data => id ← Unmarshal_raw (project_of "organization") "" data;
                       if String.eqb id "" then None else Some id
         | inl _ => None
         end) with
  | Some id => mret id
  | None =>
      data ← gh_wrap ("looking up project #" +:+ Itoa projectNumber +:+ ": ") (doGraphQL query_user_project vars);
      match Unmarshal_raw (project_of "user") "" data with
      | None => gh_fail (errorf_w "decoding user project: " (raw_error data))
      | Some id => if String.eqb id "" then gh_fail (ErrText ("project #" +:+ Itoa projectNumber +:+ " not found"))
                   else mret id
      end
  end.

(** The option of the Status field with the given name, ignoring case. *)
Definition find_option (statusName : string) (options : list (string * string)) : option string :=
  fst ∘ snd <$> list_find (fun opt => EqualFold opt.2 statusName = true) options.

Definition lookupStatusOption (projectID statusName : string) : gh (string * string) :=
  data ← gh_wrap "looking up Status field: " (doGraphQL query_status_field {[ "project" := JStr projectID ]});
  match Unmarshal_raw (dec_in "node" (dec_in "field" dec_status_field)) {| sf_ID := ""; sf_Options := [] |} data with
  | None => gh_fail (errorf_w "decoding Status field: " (raw_error data))
  | Some f =>
      match find_option statusName (sf_Options f) with
      | Some optionID => mret (sf_ID f, optionID)
      | None => gh_fail (ErrText ("status option " +:+ quote_text statusName +:+ " not found in project"))
      end
  end.

Definition addItemToProject (projectID contentID statusName : string) : gh unit :=
  data ← gh_wrap "adding item to project: "
    (doGraphQL mutation_add_item (<[ "project" := JStr projectID ]> {[ "content" := JStr contentID ]}));
  match Unmarshal_raw (dec_in "addProjectV2ItemById" (dec_in "item" (dec_in "id" dec_string))) "" data with
  | None => gh_fail (errorf_w "decoding add-item response: " (raw_error data))
  | Some itemID =>
      '(fieldID, optionID) ← lookupStatusOption projectID statusName;
      _ ← gh_wrap ("setting status to " +:+ quote_text statusName +:+ ": ")
        (doGraphQL mutation_set_status
           (<[ "project" := JStr projectID ]> (<[ "item" := JStr itemID ]>
             (<[ "field" := JStr fieldID ]> {[ "value" := JStr optionID ]}))));
      mret tt
  end.

Definition AddToProjectBoard (prNodeID : string) (projectNumber : Z) (statusName : string) : gh unit :=
  projectID ← lookupProjectID projectNumber;
  addItemToProject projectID prNodeID statusName.
End graphql.

(** ** Escaped labels *)

Lemma hex_upper_value a :
  hex_value (hex_upper (code a / 16)) = Some (code a / 16) /\
  hex_value (hex_upper (code a mod 16)) = Some (code a mod 16).
Proof. destruct a as [[] [] [] [] [] [] [] []]; done. Qed.

Lemma PathEscape_inj s t : PathEscape s = PathEscape t -> s = t.
Proof.
  revert t. induction s as [|a s IH]; intros [|b t]; cbn [PathEscape]; [done|by case_match..|].
  destruct (path_plain a) eqn:Ha, (path_plain b) eqn:Hb; intros [= ].
  - subst b. f_equal. by apply IH.
  - subst a. done.
  - subst b. done.
  - assert (Hcode : code a = code b).
    { rewrite (Z.div_mod (code a) 16), (Z.div_mod (code b) 16) by done.
      pose proof (hex_upper_value a) as [Ha1 Ha2]. pose proof (hex_upper_value b) as [Hb1 Hb2]. congruence. }
    apply code_inj in Hcode as ->. f_equal. by apply IH.
Qed.

(** No byte that ends a path segment or starts a query or a fragment. *)
Definition segment_byte (a : ascii) : bool := negb (in_cutset "/?#" a).

Lemma PathEscape_segment s : forallb segment_byte (String.list_ascii_of_string (PathEscape s)) = true.
Proof.
  induction s as [|a s IH]; [done|]. cbn [PathEscape].
  destruct (path_plain a) eqn:Ha; cbn [String.list_ascii_of_string forallb]; rewrite IH; revert Ha; clear;
    destruct a as [[] [] [] [] [] [] [] []]; done.
Qed.

Lemma issueLabelURL_inj c number label label' :
  issueLabelURL c number label = issueLabelURL c number label' -> label = label'.
Proof. intros Heq%string_app_inj_l%string_app_inj_l. by apply PathEscape_inj. Qed.

(** The URL of a label addresses that label alone: different labels have different URLs, and the
    label is one path segment, with nothing in it read as a path separator, a query or a fragment. *)
Theorem issueLabelURL_faithful (c : GitHubClient) (number : Z) (label label' : string) :
  (issueLabelURL c number label = issueLabelURL c number label' <-> label = label') /\
  exists segment, issueLabelURL c number label = issueLabelsURL c number +:+ "/" +:+ segment /\
    forallb segment_byte (String.list_ascii_of_string segment) = true.
Proof.
  split.
  - split; [apply issueLabelURL_inj|by intros ->].
  - exists (PathEscape label). split; [|apply PathEscape_segment].
    unfold issueLabelURL, issueLabelsURL. by rewrite string_app_assoc.
Qed.
