(* ===== verification/GitHubMain.v ===== *)
(** * The project manager command ([tools/github_project_manager/main.go])

    Flags and environment, the three commands, and the exit status. *)
From S2P Require Import Prelude GoLib GoErrors GoFlag GoJson JsonParse JsonDecode Triage GitHub.

(** ** Configuration *)

Record gpm_config := {
  verbose : bool;
  dryRun : bool;
  owner : string;
  repo : string;
  issue : Z;
  project : Z;
  command : string;
  token : string
}.
Definition zero_config : gpm_config :=
  {| verbose := false; dryRun := false; owner := ""; repo := ""; issue := 0; project := 0; command := ""; token := "" |}.

Definition gpm_usage : string := text
  ["Usage: github_project_manager [flags] <command>";
   "";
   "Issue Commands:";
   "  update-labels     Apply triage label rules based on milestone status";
   "  close-declined    Handle declined issues (close, remove labels/milestone)";
   "";
   "PR Commands:";
   "  triage-pr         Apply area labels, milestone, size labels, and add to project board";
   "";
   "Flags:";
   "  -v, --verbose     Enable verbose output";
   "  --dry-run         Display changes without making them";
   "  --owner           Repository owner (or GITHUB_OWNER env)";
   "  --repo            Repository name (or GITHUB_REPO env)";
   "  --issue           Issue/PR number (or GITHUB_ISSUE env)";
   "  --project         Project number for board management (default: auto-discover oldest open)";
   "";
   "Environment:";
   "  GITHUB_TOKEN      GitHub API token (required)"].

Definition set_verbose (b : bool) (c : gpm_config) : gpm_config :=
  {| verbose := b; dryRun := dryRun c; owner := owner c; repo := repo c; issue := issue c; project := project c;
     command := command c; token := token c |}.
Definition set_dryRun (b : bool) (c : gpm_config) : gpm_config :=
  {| verbose := verbose c; dryRun := b; owner := owner c; repo := repo c; issue := issue c; project := project c;
     command := command c; token := token c |}.
Definition set_owner (s : string) (c : gpm_config) : gpm_config :=
  {| verbose := verbose c; dryRun := dryRun c; owner := s; repo := repo c; issue := issue c; project := project c;
     command := command c; token := token c |}.
Definition set_repo (s : string) (c : gpm_config) : gpm_config :=
  {| verbose := verbose c; dryRun := dryRun c; owner := owner c; repo := s; issue := issue c; project := project c;
     command := command c; token := token c |}.
Definition set_issue (n : Z) (c : gpm_config) : gpm_config :=
  {| verbose := verbose c; dryRun := dryRun c; owner := owner c; repo := repo c; issue := n; project := project c;
     command := command c; token := token c |}.
Definition set_project (n : Z) (c : gpm_config) : gpm_config :=
  {| verbose := verbose c; dryRun := dryRun c; owner := owner c; repo := repo c; issue := issue c; project := n;
     command := command c; token := token c |}.
Definition set_command (s : string) (c : gpm_config) : gpm_config :=
  {| verbose := verbose c; dryRun := dryRun c; owner := owner c; repo := repo c; issue := issue c; project := project c;
     command := s; token := token c |}.
Definition set_token (s : string) (c : gpm_config) : gpm_config :=
  {| verbose := verbose c; dryRun := dryRun c; owner := owner c; repo := repo c; issue := issue c; project := project c;
     command := command c; token := s |}.

Definition gpm_flags : list (string * flag_value gpm_config) :=
  [("verbose", BoolVar set_verbose); ("v", BoolVar set_verbose); ("dry-run", BoolVar set_dryRun);
   ("owner", StringVar set_owner); ("repo", StringVar set_repo); ("issue", IntVar set_issue);
   ("project", IntVar set_project)].

(** [parseConfig] with the arguments and [os.Getenv]. *)
Definition parseConfig (quote_text : string -> string) (Getenv : string -> string) (args : list string) :
    gerror + gpm_config :=
  '(cfg, remaining) ← parse_flags quote_text gpm_flags args zero_config;
  match remaining with
  | [] => inl (ErrText ("missing command" +:+ lf +:+ lf +:+ gpm_usage))
  | cmd :: _ =>
      let cfg := set_command cmd cfg in
      let cfg := if String.eqb (owner cfg) "" then set_owner (Getenv "GITHUB_OWNER") cfg else cfg in
      let cfg := if String.eqb (repo cfg) "" then set_repo (Getenv "GITHUB_REPO") cfg else cfg in
      cfg ← (if issue cfg =? 0 then
               let v := Getenv "GITHUB_ISSUE" in
               if String.eqb v "" then inr cfg else
               match Atoi v with
               | Some n => inr (set_issue n cfg)
               | None => inl (errorf_w ("invalid GITHUB_ISSUE " +:+ quote_text v +:+ ": ") (atoi_error quote_text v))
               end
             else inr cfg);
      if String.eqb (owner cfg) "" || String.eqb (repo cfg) "" || (issue cfg =? 0) then
        inl (ErrText "--owner, --repo, and --issue are required (or set GITHUB_OWNER, GITHUB_REPO, GITHUB_ISSUE)")
      else
        let cfg := set_token (Getenv "GITHUB_TOKEN") cfg in
        if String.eqb (token cfg) "" then inl (ErrText "GITHUB_TOKEN environment variable is required")
        else inr cfg
  end.

(** ** Commands *)

Definition bool_v (b : bool) : string := if b then "true" else "false".
(** [%v] of a slice of strings. *)
Definition strings_v (l : list string) : string := "[" +:+ Join l " " +:+ "]".

Section commands.
Context `{Network} `{Semver} (client : GitHubClient) (cfg : gpm_config).

(** [newLogger]. *)
Definition log (line : string) : gh unit :=
  if verbose cfg || dryRun cfg then put_stdout (line +:+ lf) else mret tt.

Definition dry_run_note : gh unit := put_stdout ("dry-run: no changes applied" +:+ lf).

Definition applyLabels (number : Z) (toAdd toRemove : list string) : gh unit :=
  _ ← gh_each (fun l => log ("Adding label: " +:+ l)) toAdd;
  _ ← gh_each (fun l => log ("Removing label: " +:+ l)) toRemove;
  if dryRun cfg then mret tt else
  _ ← (if (0 <? Z.of_nat (length toAdd)) then AddLabels client number toAdd else mret tt);
  gh_each (fun l => RemoveLabel client number l) toRemove.

Definition runUpdateLabels (number : Z) (labels : list string) (hasMilestone : bool) (body : string) : gh unit :=
  if slices_Contains labels triage_declined then log "Issue is declined, skipping label updates" else
  let result := update_plan labels hasMilestone body in
  if (length (LabelsToAdd result) =? 0)%nat && (length (LabelsToRemove result) =? 0)%nat
  then log "No label changes needed" else
  _ ← applyLabels number (LabelsToAdd result) (LabelsToRemove result);
  if dryRun cfg then dry_run_note else mret tt.

Definition runCloseDeclined (number : Z) (labels : list string) (hasMilestone : bool) (state : string) : gh unit :=
  match computeDeclined labels hasMilestone state with
  | None => log "Issue is not declined, nothing to do"
  | Some result =>
      _ ← gh_each (fun l => log ("Removing label: " +:+ l)) (d_LabelsToRemove result);
      _ ← (if RemoveMilestone result then log "Removing milestone" else mret tt);
      _ ← (if CloseIssue result then log "Closing issue" else mret tt);
      if dryRun cfg then dry_run_note else
      _ ← gh_each (fun l => RemoveLabel client number l) (d_LabelsToRemove result);
      _ ← (if RemoveMilestone result then gh_RemoveMilestone client number else mret tt);
      if CloseIssue result then gh_CloseIssue client number else mret tt
  end.

Definition resolveProjectID (projectNumber : Z) : gh string :=
  if 0 <? projectNumber then
    _ ← log ("Looking up project board #" +:+ Itoa projectNumber);
    lookupProjectID client projectNumber
  else
    _ ← log "Auto-discovering oldest open project board";
    findOldestOpenProject client.

Definition assignMilestone (number : Z) : gh unit :=
  milestones ← ListOpenMilestones client;
  match findLowestMilestone milestones with
  | inl err => log ("Skipping milestone: " +:+ error_text err)
  | inr m =>
      _ ← log ("Setting milestone: " +:+ m_Title m +:+ " (#" +:+ Itoa (m_Number m) +:+ ")");
      if negb (dryRun cfg) then SetMilestone client number (m_Number m) else mret tt
  end.

(** Adding the pull request to the project board; failures are warnings. *)
Definition addToBoard (projectNumber : Z) (nodeID : string) : gh unit :=
  r ← gh_attempt (resolveProjectID projectNumber);
  match r with
  | inl err => put_stderr ("::warning::could not resolve project board: " +:+ error_text err +:+ lf)
  | inr projectID =>
      r ← gh_attempt (addItemToProject client projectID nodeID "Review");
      match r with
      | inl err => put_stderr ("::warning::could not add to project board: " +:+ error_text err +:+ lf)
      | inr _ => mret tt
      end
  end.

Definition runTriagePR (number : Z) (iss : Issue) (projectNumber : Z) : gh unit :=
  prInfo ← GetPullRequestInfo client number;
  files ← GetPullRequestFiles client number;
  _ ← log ("PR #" +:+ Itoa number +:+ " changed " +:+ Itoa (Z.of_nat (length files)) +:+ " files");
  let labelsToAdd := computePRAreaLabels (Labels iss) files ++
                     computePRSizeLabel (Labels iss) (Additions prInfo) (Deletions prInfo) in
  _ ← applyLabels number labelsToAdd [];
  _ ← (if negb (HasMilestone iss) then assignMilestone number
       else log "PR already has a milestone, skipping");
  _ ← (if negb (dryRun cfg) then addToBoard projectNumber (NodeID prInfo) else mret tt);
  if dryRun cfg then dry_run_note else mret tt.

Definition dispatch : gh unit :=
  _ ← log ("Fetching issue #" +:+ Itoa (issue cfg) +:+ " from " +:+ owner cfg +:+ "/" +:+ repo cfg);
  iss ← GetIssue client (issue cfg);
  _ ← log ("Issue #" +:+ Itoa (Number iss) +:+ ": state=" +:+ State iss +:+ " milestone=" +:+
           bool_v (HasMilestone iss) +:+ " labels=" +:+ strings_v (Labels iss));
  if String.eqb (command cfg) "update-labels" then
    runUpdateLabels (issue cfg) (Labels iss) (HasMilestone iss) (Body iss)
  else if String.eqb (command cfg) "close-declined" then
    runCloseDeclined (issue cfg) (Labels iss) (HasMilestone iss) (State iss)
  else if String.eqb (command cfg) "triage-pr" then
    runTriagePR (issue cfg) iss (project cfg)
  else gh_fail (ErrText ("unknown command " +:+ quote_text (command cfg) +:+ lf +:+ lf +:+ gpm_usage)).
End commands.

(** [run]: the whole command. *)
Definition run `{Network} `{Semver} (Getenv : string -> string) (args : list string) : gh unit :=
  match parseConfig quote_text Getenv args with
  | inl err => gh_fail err
  | inr cfg => dispatch (NewGitHubClient (token cfg) (owner cfg) (repo cfg)) cfg
  end.

(** [main]: the final state and the exit status. *)
Definition gpm_main `{Network} `{Semver} (Getenv : string -> string) (args : list string) (w : gh_world) :
    gh_world * Z :=
  match run Getenv args w with
  | (w', inr _) => (w', 0)
  | (w', inl err) =>
      ({| gh_server := gh_server w'; gh_requests := gh_requests w'; gh_stdout := gh_stdout w';
          gh_stderr := gh_stderr w' +:+ "error: " +:+ error_text err +:+ lf |}, 1)
  end.
