(* ===== verification/GitHubSafety.v ===== *)
(** * What the project manager sends

    A small logic of the requests a program sends, and the two safety properties of
    every command: a dry run only reads, and requests stay within the repository
    and carry the token. *)
From S2P Require Import Prelude GoLib GoErrors GoFlag GoJson JsonParse JsonDecode Triage GitHub GitHubMain.

Section sends.
Context `{Network}.

(** Every request [m] sends satisfies [P]. *)
Definition sends {A} (P : request -> Prop) (m : gh A) : Prop :=
  forall w, exists l, gh_requests (m w).1 = gh_requests w ++ l /\ Forall P l.

Lemma gh_bind_eq {A B} (m : gh A) (k : A -> gh B) w :
  (m ≫= k) w = match m w with (w', inl e) => (w', inl e) | (w', inr a) => k a w' end.
Proof. done. Qed.

Lemma sends_ret {A} P (a : A) : sends P (mret a).
Proof. intros w. exists []. by rewrite app_nil_r. Qed.

Lemma sends_fail {A} P e : sends P (gh_fail (A := A) e).
Proof. intros w. exists []. by rewrite app_nil_r. Qed.

Lemma sends_bind {A B} P (m : gh A) (k : A -> gh B) :
  sends P m -> (forall a, sends P (k a)) -> sends P (m ≫= k).
Proof.
  intros Hm Hk w. rewrite gh_bind_eq. destruct (Hm w) as (l & Hl & HP).
  destruct (m w) as [w' [e|a]]; simpl in Hl; [by exists l|].
  destruct (Hk a w') as (l' & -> & HP'). exists (l ++ l'). rewrite Hl, app_assoc.
  split; [done|]. by apply Forall_app.
Qed.

Lemma sends_attempt {A} P (m : gh A) : sends P m -> sends P (gh_attempt m).
Proof. intros Hm w. unfold gh_attempt. specialize (Hm w). by destruct (m w). Qed.

Lemma sends_wrap {A} P prefix (m : gh A) : sends P m -> sends P (gh_wrap prefix m).
Proof. intros Hm w. unfold gh_wrap. specialize (Hm w). by destruct (m w) as [w' [|]]. Qed.

Lemma sends_send (P : request -> Prop) r : P r -> sends P (gh_send r).
Proof.
  intros Hr w. exists [r]. unfold gh_send. destruct (serve (gh_server w) r). split; [done|]. by constructor.
Qed.

Lemma sends_stdout P line : sends P (put_stdout line).
Proof. intros w. exists []. by rewrite app_nil_r. Qed.

Lemma sends_stderr P line : sends P (put_stderr line).
Proof. intros w. exists []. by rewrite app_nil_r. Qed.

Lemma sends_each {A} P (f : A -> gh unit) l : (forall x, sends P (f x)) -> sends P (gh_each f l).
Proof. intros Hf. induction l as [|x l IH]; [apply sends_ret|]. apply sends_bind; auto. Qed.
End sends.

#[export] Hint Resolve sends_ret sends_fail sends_stdout sends_stderr sends_each : operator.

(** Walk through a program, leaving the requests it builds. *)
Ltac solve_sends :=
  repeat first
    [ apply sends_ret | apply sends_fail | apply sends_stdout | apply sends_stderr
    | progress auto with operator
    | apply sends_wrap | apply sends_attempt | apply sends_each; intros ?
    | apply sends_bind; [|intros ?]
    | case_match ].

(** A URL below the repository. *)
Definition in_repo (c : GitHubClient) (url : string) : Prop := exists path, url = repoURL c +:+ "/" +:+ path.

Lemma in_repo_app c url rest : in_repo c url -> in_repo c (url +:+ rest).
Proof. intros [path ->]. exists (path +:+ rest). by rewrite !string_app_assoc. Qed.

Lemma issueURL_in c number : in_repo c (issueURL c number).
Proof. by exists ("issues/" +:+ Itoa number). Qed.

Lemma pullURL_in c number : in_repo c (pullURL c number).
Proof. by exists ("pulls/" +:+ Itoa number). Qed.

Lemma milestonesURL_in c : in_repo c (repoURL c +:+ "/milestones?state=open&per_page=100").
Proof. by exists "milestones?state=open&per_page=100". Qed.

#[export] Hint Resolve in_repo_app issueURL_in pullURL_in milestonesURL_in : operator.

Section client.
Context `{Network} (c : GitHubClient) (P : request -> Prop).

Lemma doRequest_sends method reqURL body :
  P (build_request c method reqURL body) -> sends P (doRequest c method reqURL body).
Proof.
  intros HP. unfold doRequest. case_match; [apply sends_fail|].
  apply sends_bind; [by apply sends_send|]. intros a. solve_sends.
Qed.

Lemma getJSON_sends {A} (dec : decoder A) zero reqURL :
  P (build_request c "GET" reqURL "") -> sends P (getJSON c dec zero reqURL).
Proof. intros HP. unfold getJSON. apply sends_bind; [by apply doRequest_sends|]. intros []. solve_sends. Qed.

Lemma patchJSON_sends reqURL payload :
  P (build_request c "PATCH" reqURL payload) -> sends P (patchJSON c reqURL payload).
Proof. intros HP. unfold patchJSON. apply sends_bind; [by apply doRequest_sends|]. intros []. solve_sends. Qed.

Lemma doGraphQL_sends query variables :
  P (build_request c "POST" (graphqlURL c) (graphql_payload query variables)) ->
  sends P (doGraphQL c query variables).
Proof.
  intros HP. unfold doGraphQL. apply sends_bind; [by apply sends_wrap, doRequest_sends|].
  intros []. solve_sends.
Qed.
End client.

Section commands.
Context `{Network} `{Semver} (c : GitHubClient) (cfg : gpm_config) (P : request -> Prop).

Lemma log_sends line : sends P (log cfg line).
Proof. unfold log. solve_sends. Qed.

(** The reads every command may make. *)
Hypothesis Hget : forall url, in_repo c url -> P (build_request c "GET" url "").

Lemma GetIssue_sends number : sends P (GetIssue c number).
Proof using Hget. apply sends_wrap, getJSON_sends, Hget. auto with operator. Qed.

Lemma ListOpenMilestones_sends : sends P (ListOpenMilestones c).
Proof using Hget. apply sends_wrap, getJSON_sends, Hget. auto with operator. Qed.

Lemma GetPullRequestInfo_sends number : sends P (GetPullRequestInfo c number).
Proof using Hget. apply sends_wrap, getJSON_sends, Hget. auto with operator. Qed.

Lemma GetPullRequestFiles_sends number : sends P (GetPullRequestFiles c number).
Proof using Hget. apply sends_wrap, getJSON_sends, Hget. auto with operator. Qed.

(** The writes, needed unless the run is dry: they address the issue [n] itself. *)
Inductive issue_write (n : Z) : string -> string -> Prop :=
  | write_labels : issue_write n "POST" (issueLabelsURL c n)
  | write_label label : issue_write n "DELETE" (issueLabelURL c n label)
  | write_issue : issue_write n "PATCH" (issueURL c n).

Definition writes_ok (n : Z) : Prop :=
  forall method url body, issue_write n method url -> P (build_request c method url body).
Definition graphql_ok : Prop :=
  forall query variables, P (build_request c "POST" (graphqlURL c) (graphql_payload query variables)).

Lemma AddLabels_sends number labels : writes_ok number -> sends P (AddLabels c number labels).
Proof.
  intros Hw. unfold AddLabels. apply sends_bind; [|intros []; solve_sends].
  apply sends_wrap, doRequest_sends, Hw. constructor.
Qed.

Lemma RemoveLabel_sends number label : writes_ok number -> sends P (RemoveLabel c number label).
Proof.
  intros Hw. unfold RemoveLabel. apply sends_bind; [|intros []; solve_sends].
  apply sends_wrap, doRequest_sends, Hw. constructor.
Qed.

Lemma patch_issue_sends prefix number payload :
  writes_ok number -> sends P (gh_wrap prefix (patchJSON c (issueURL c number) payload)).
Proof. intros Hw. apply sends_wrap, patchJSON_sends, Hw. constructor. Qed.

Lemma applyLabels_sends number toAdd toRemove :
  dryRun cfg = true \/ writes_ok number -> sends P (applyLabels c cfg number toAdd toRemove).
Proof.
  intros Hw. unfold applyLabels. apply sends_bind; [apply sends_each; intros; apply log_sends|]. intros _.
  apply sends_bind; [apply sends_each; intros; apply log_sends|]. intros _.
  destruct (dryRun cfg); [apply sends_ret|]. destruct Hw as [|Hw]; [done|].
  apply sends_bind; [case_match; [by apply AddLabels_sends|apply sends_ret]|]. intros _.
  apply sends_each. intros. by apply RemoveLabel_sends.
Qed.

Lemma runUpdateLabels_sends number labels hm body :
  dryRun cfg = true \/ writes_ok number -> sends P (runUpdateLabels c cfg number labels hm body).
Proof.
  intros Hw. unfold runUpdateLabels. case_match; [apply log_sends|]. case_match; [apply log_sends|].
  apply sends_bind; [by apply applyLabels_sends|]. solve_sends.
Qed.

Lemma runCloseDeclined_sends number labels hm state :
  dryRun cfg = true \/ writes_ok number -> sends P (runCloseDeclined c cfg number labels hm state).
Proof.
  intros Hw. unfold runCloseDeclined. case_match; [|apply log_sends].
  apply sends_bind; [apply sends_each; intros; apply log_sends|]. intros _.
  apply sends_bind; [case_match; [apply log_sends|apply sends_ret]|]. intros _.
  apply sends_bind; [case_match; [apply log_sends|apply sends_ret]|]. intros _.
  destruct (dryRun cfg); [apply sends_stdout|]. destruct Hw as [|Hw]; [done|].
  apply sends_bind; [apply sends_each; intros; by apply RemoveLabel_sends|]. intros _.
  apply sends_bind; [case_match; [by apply patch_issue_sends|apply sends_ret]|]. intros _.
  case_match; [by apply patch_issue_sends|apply sends_ret].
Qed.

Lemma assignMilestone_sends number :
  dryRun cfg = true \/ writes_ok number -> sends P (assignMilestone c cfg number).
Proof using Hget.
  intros Hw. unfold assignMilestone. apply sends_bind; [apply ListOpenMilestones_sends|]. intros ms.
  case_match; [apply log_sends|]. apply sends_bind; [apply log_sends|]. intros _.
  destruct (dryRun cfg); [apply sends_ret|]. destruct Hw as [|Hw]; [done|]. by apply patch_issue_sends.
Qed.

Lemma addToBoard_sends projectNumber nodeID : graphql_ok -> sends P (addToBoard c cfg projectNumber nodeID).
Proof.
  intros Hw. assert (Hq := fun q v => doGraphQL_sends c P q v (Hw q v)). assert (Hl := log_sends).
  unfold addToBoard, resolveProjectID, lookupProjectID, findOldestOpenProject, addItemToProject, lookupStatusOption.
  solve_sends.
Qed.

Lemma runTriagePR_sends number iss projectNumber :
  dryRun cfg = true \/ writes_ok number /\ graphql_ok -> sends P (runTriagePR c cfg number iss projectNumber).
Proof using Hget.
  intros Hw. unfold runTriagePR. apply sends_bind; [apply GetPullRequestInfo_sends|]. intros info.
  apply sends_bind; [apply GetPullRequestFiles_sends|]. intros files.
  apply sends_bind; [apply log_sends|]. intros _.
  apply sends_bind; [apply applyLabels_sends; tauto|]. intros _.
  apply sends_bind; [case_match; [apply assignMilestone_sends; tauto|apply log_sends]|]. intros _.
  apply sends_bind; [|intros _; case_match; [apply sends_stdout|apply sends_ret]].
  destruct (dryRun cfg); [apply sends_ret|]. destruct Hw as [|[_ Hw]]; [done|]. by apply addToBoard_sends.
Qed.

Lemma dispatch_sends :
  dryRun cfg = true \/ writes_ok (issue cfg) /\ (command cfg = "triage-pr" -> graphql_ok) ->
  sends P (dispatch c cfg).
Proof using Hget.
  intros Hw. unfold dispatch. apply sends_bind; [apply log_sends|]. intros _.
  apply sends_bind; [apply GetIssue_sends|]. intros iss. apply sends_bind; [apply log_sends|]. intros _.
  case_match; [apply runUpdateLabels_sends; tauto|]. case_match; [apply runCloseDeclined_sends; tauto|].
  destruct (String.eqb_spec (command cfg) "triage-pr"); [|apply sends_fail].
  apply runTriagePR_sends. tauto.
Qed.
End commands.

(** ** A dry run only reads *)

Definition reads_only (r : request) : Prop := rq_method r = "GET" /\ rq_body r = "".

(** ** What a run may send *)

(** A read below the repository; a write to the configured issue or pull request; a
    GraphQL request, for [triage-pr] only. *)
Definition may_send (c : GitHubClient) (cfg : gpm_config) (r : request) : Prop :=
  (rq_method r = "GET" /\ in_repo c (rq_url r)) \/
  issue_write c (issue cfg) (rq_method r) (rq_url r) \/
  (command cfg = "triage-pr" /\ rq_method r = "POST" /\ rq_url r = graphqlURL c).

Lemma build_request_token c method url body :
  gc_token c <> "" -> ("Authorization", "Bearer " +:+ gc_token c) ∈ rq_headers (build_request c method url body).
Proof.
  intros Ht. unfold build_request. simpl. destruct (String.eqb_spec (gc_token c) ""); [done|]. set_solver.
Qed.

Lemma parseConfig_ok quote Getenv args cfg :
  parseConfig quote Getenv args = inr cfg ->
  owner cfg <> "" /\ repo cfg <> "" /\ issue cfg <> 0 /\ token cfg <> "" /\ token cfg = Getenv "GITHUB_TOKEN".
Proof.
  intros ([c0 [|cmd rest]] & _ & Hp)%bind_inr; [done|].
  apply bind_inr in Hp as (c1 & _ & Hp). destruct (_ || _) eqn:He; [done|].
  bool_to_prop. simpl in Hp.
  destruct (String.eqb_spec (Getenv "GITHUB_TOKEN") ""); by simplify_eq/=.
Qed.

Section runs.
Context `{Network} `{Semver}.

(** C29: with [--dry-run], no command sends anything but GET requests with no body: nothing is
    changed on GitHub, whatever the server answers. *)
Theorem dry_run_reads_only (Getenv : string -> string) (args : list string) (cfg : gpm_config) :
  parseConfig quote_text Getenv args = inr cfg -> dryRun cfg = true ->
  sends reads_only (run Getenv args).
Proof. intros Hp Hd. unfold run. rewrite Hp. apply dispatch_sends; [done|]. by left. Qed.

(** C31: every request of a run carries the token of the environment and is a read below the
    configured repository, a label or field write to the configured issue itself, or, for
    [triage-pr], a GraphQL request; an invalid command line sends nothing and exits with 1. *)
Theorem run_requests_confined (Getenv : string -> string) (args : list string) (w : gh_world) :
  exists sent, gh_requests (gpm_main Getenv args w).1 = gh_requests w ++ sent /\
  match parseConfig quote_text Getenv args with
  | inl _ => sent = [] /\ (gpm_main Getenv args w).2 = 1
  | inr cfg => Forall (fun r =>
      ("Authorization", "Bearer " +:+ Getenv "GITHUB_TOKEN") ∈ rq_headers r /\
      may_send (NewGitHubClient (token cfg) (owner cfg) (repo cfg)) cfg r) sent
  end.
Proof.
  unfold gpm_main, run. destruct (parseConfig _ _ _) as [err|cfg] eqn:Hp.
  { exists []. by rewrite app_nil_r. }
  apply parseConfig_ok in Hp as (_ & _ & _ & Ht & <-).
  set (c := NewGitHubClient (token cfg) (owner cfg) (repo cfg)).
  assert (Htok := fun m u b => build_request_token c m u b Ht).
  destruct (dispatch_sends c cfg (fun r => ("Authorization", "Bearer " +:+ gc_token c) ∈ rq_headers r /\ may_send c cfg r)
    ltac:(unfold may_send; eauto)) with (w := w) as (l & Hl & HP).
  { right. split; [|intros Hc ??]; unfold may_send; [red; eauto|]. split; [done|]. by right; right. }
  exists l. split; [|done]. by destruct (dispatch c cfg w) as [w' [|]].
Qed.
End runs.

(** A server that answers every read with the same issue and refuses writes. *)
Definition issue_text : string :=
  dq "{~number~:7,~state~:~open~,~labels~:[{~name~:~triage/declined~},{~name~:~triage/accepted~}]}".
Definition sample_network : Network := {|
  server := unit;
  serve := fun s r => (s, if String.eqb (rq_method r) "GET" then Answered 200 issue_text else Answered 403 "");
  NewRequest_error := fun _ => None;
  Unmarshal_error := fun _ => ErrText "unexpected end of JSON input";
  quote_text := fun s => s |}.
Definition sample_env (name : string) : string := if String.eqb name "GITHUB_TOKEN" then "secret" else "".
Definition sample_args : list string := ["--dry-run"; "--owner=acme"; "--repo=waf"; "--issue=7"; "close-declined"].
Definition sample_world : @gh_world sample_network := @Build_gh_world sample_network tt [] "" "".

Lemma dry_run_reads_only_witness :
  Forall reads_only (gh_requests (@run sample_network sample_semver sample_env sample_args sample_world).1) /\
  length (gh_requests (@run sample_network sample_semver sample_env sample_args sample_world).1) = 1%nat.
Proof.
  split; [|by vm_compute].
  destruct (@dry_run_reads_only sample_network sample_semver sample_env sample_args
    {| verbose := false; dryRun := true; owner := "acme"; repo := "waf"; issue := 7; project := 0;
       command := "close-declined"; token := "secret" |} eq_refl eq_refl sample_world) as (l & -> & Hl).
  exact Hl.
Defined.
