(* ===== verification/GitHubErrors.v ===== *)
(** * Failures of the commands

    Replaying the requests of a run against the server gives the answers they got.
    The predicate [careful] says that a program ends with an error unless every
    answer was one it may accept, and sends nothing after one it may not; in
    [careful_board] the requests for the project board come last and do not count. *)
From S2P Require Import Prelude GoLib GoErrors GoFlag GoJson JsonParse JsonDecode Triage GitHub GitHubMain GitHubSafety.

Section replay.
Context `{Network}.

(** The answers to a list of requests. *)
Fixpoint replay (s : server) (l : list request) : server * list answer :=
  match l with
  | [] => (s, [])
  | r :: l' => let '(s1, a) := serve s r in let '(s2, as') := replay s1 l' in (s2, a :: as')
  end.

Lemma replay_app s l1 l2 :
  replay s (l1 ++ l2) = ((replay (replay s l1).1 l2).1, (replay s l1).2 ++ (replay (replay s l1).1 l2).2).
Proof.
  revert s. induction l1 as [|r l1 IH]; intros s; [cbn; by destruct (replay s l2)|]. cbn [app replay].
  destruct (serve s r) as [s1 a]. rewrite IH. destruct (replay s1 l1) as [s2 as1]. done.
Qed.

(** What a command goes on after: 200, and 404 for a label that is already gone. *)
Definition accepted (r : request) (a : answer) : Prop :=
  match a with
  | Answered status _ => status = StatusOK \/ (rq_method r = "DELETE" /\ status = StatusNotFound)
  | _ => False
  end.

Definition all_answered (s : server) (l : list request) : Prop := Forall2 accepted l (replay s l).2.

(** At most the last request was not accepted. *)
Definition accepted_but_last (s : server) (l : list request) : Prop :=
  all_answered s l \/ exists l' r, l = l' ++ [r] /\ all_answered s l'.

Lemma all_answered_app s l1 l2 :
  all_answered s l1 -> all_answered (replay s l1).1 l2 -> all_answered s (l1 ++ l2).
Proof. intros H1 H2. unfold all_answered. rewrite replay_app. by apply Forall2_app. Qed.

Definition careful {A} (m : gh A) : Prop := forall w, exists l,
  gh_requests (m w).1 = gh_requests w ++ l /\ gh_server (m w).1 = (replay (gh_server w) l).1 /\
  match (m w).2 with
  | inr _ => all_answered (gh_server w) l
  | inl _ => accepted_but_last (gh_server w) l
  end.

(** A program that sends nothing. *)
Definition silent {A} (m : gh A) : Prop := forall w,
  gh_requests (m w).1 = gh_requests w /\ gh_server (m w).1 = gh_server w.

Lemma silent_careful {A} (m : gh A) : silent m -> careful m.
Proof.
  intros Hm w. destruct (Hm w) as [Hr Hs]. exists []. rewrite app_nil_r. split_and!; [done..|].
  assert (Ha : all_answered (gh_server w) []) by constructor. case_match; [by left|done].
Qed.

Lemma silent_ret {A} (a : A) : silent (mret a).
Proof. done. Qed.
Lemma silent_fail {A} e : silent (gh_fail (A := A) e).
Proof. done. Qed.
Lemma silent_log cfg line : silent (log cfg line).
Proof. unfold log. case_match; done. Qed.

Lemma careful_bind {A B} (m : gh A) (k : A -> gh B) : careful m -> (forall a, careful (k a)) -> careful (m ≫= k).
Proof.
  intros Hm Hk w. unfold mbind, gh_bind. destruct (Hm w) as (l1 & Hr1 & Hs1 & Ha1).
  destruct (m w) as [w1 [e|a]]; cbn in *; [by exists l1|].
  destruct (Hk a w1) as (l2 & Hr2 & Hs2 & Ha2). exists (l1 ++ l2).
  rewrite Hr2, Hs2, Hr1, Hs1, app_assoc, replay_app. split_and!; [done..|]. rewrite Hs1 in Ha2.
  destruct (k a w1).2.
  - destruct Ha2 as [Ha2|(l & r & -> & Ha2)]; [left; by apply all_answered_app|].
    right. exists (l1 ++ l), r. rewrite app_assoc. split; [done|]. by apply all_answered_app.
  - by apply all_answered_app.
Qed.

Lemma careful_wrap {A} prefix (m : gh A) : careful m -> careful (gh_wrap prefix m).
Proof.
  intros Hm w. unfold gh_wrap. destruct (Hm w) as (l & Hl). exists l. by destruct (m w) as [w' [e|a]].
Qed.

Lemma careful_each {A} (f : A -> gh unit) l : (forall x, careful (f x)) -> careful (gh_each f l).
Proof.
  intros Hf. induction l as [|x l IH]; [apply silent_careful, silent_ret|]. by apply careful_bind.
Qed.

(** A request whose answer the continuation checks. *)
Definition checks {A} (ok : Z -> Prop) (k : string * Z -> gh A) : Prop :=
  forall body status, silent (k (body, status)) /\
    (forall w a, (k (body, status) w).2 = inr a -> ok status).

(** [m] sends [r], or nothing, and gives its answer. *)
Definition requests_once (r : request) (m : gh (string * Z)) : Prop := forall w,
  match m w with
  | (w', inr (body, status)) =>
      gh_requests w' = gh_requests w ++ [r] /\ serve (gh_server w) r = (gh_server w', Answered status body)
  | (w', inl _) =>
      (gh_requests w' = gh_requests w /\ gh_server w' = gh_server w) \/
      (gh_requests w' = gh_requests w ++ [r] /\ gh_server w' = (serve (gh_server w) r).1)
  end.

Lemma doRequest_once c method url body :
  requests_once (build_request c method url body) (doRequest c method url body).
Proof.
  intros w. unfold doRequest. destruct (NewRequest_error url); [by left|].
  unfold mbind, gh_bind, gh_send. destruct (serve (gh_server w) _) as [s [e|status e|status respBody]] eqn:Hs; cbn.
  - by right.
  - by right.
  - done.
Qed.

Lemma wrap_once prefix r m : requests_once r m -> requests_once r (gh_wrap prefix m).
Proof. intros Hm w. specialize (Hm w). unfold gh_wrap. by destruct (m w) as [w' [e|[body status]]]. Qed.

Lemma replay_one s r : replay s [r] = ((serve s r).1, [(serve s r).2]).
Proof. cbn. by destruct (serve s r). Qed.

Lemma last_any s r : accepted_but_last s [r].
Proof. right. exists [], r. split; [done|]. constructor. Qed.

Lemma careful_checked {A} r m (k : string * Z -> gh A) :
  requests_once r m -> checks (fun status => accepted r (Answered status "")) k -> careful (m ≫= k).
Proof.
  intros Hm Hk w. unfold mbind, gh_bind. specialize (Hm w). destruct (m w) as [w1 [e|[body status]]]; cbn.
  - destruct Hm as [[Hr Hs]|[Hr Hs]]; [exists []|exists [r]].
    + rewrite app_nil_r. split_and!; [done..|]. left. constructor.
    + rewrite replay_one. split_and!; [done..|]. apply last_any.
  - destruct Hm as [Hr Hs]. destruct (Hk body status) as [Hsil Hok]. destruct (Hsil w1) as [Hr1 Hs1].
    specialize (Hok w1). exists [r]. rewrite replay_one, Hs, Hr1, Hs1. split_and!; [done..|].
    destruct (k (body, status) w1).2 as [e|b]; [apply last_any|].
    unfold all_answered. rewrite replay_one, Hs. constructor; [exact (Hok b eq_refl)|constructor].
Qed.
End replay.

#[export] Hint Resolve doRequest_once wrap_once silent_careful silent_log silent_ret silent_fail : operator.

(** ** The client and the commands *)

Section commands.
Context `{Network} `{Semver} (c : GitHubClient) (cfg : gpm_config).

Lemma getJSON_careful {A} (dec : decoder A) zero url : careful (getJSON c dec zero url).
Proof.
  eapply careful_checked; [apply doRequest_once|]. intros body status.
  destruct (Z.eqb_spec status StatusOK) as [->|]; cbn; [|by split].
  destruct (Unmarshal dec zero body); split; try done; intros; by left.
Qed.

Lemma patchJSON_careful url payload : careful (patchJSON c url payload).
Proof.
  eapply careful_checked; [apply doRequest_once|]. intros body status.
  destruct (Z.eqb_spec status StatusOK) as [->|]; cbn; split; try done. intros; by left.
Qed.

Lemma AddLabels_careful number labels : careful (AddLabels c number labels).
Proof.
  eapply careful_checked; [apply wrap_once, doRequest_once|]. intros body status.
  destruct (Z.eqb_spec status StatusOK) as [->|]; cbn; split; try done. intros; by left.
Qed.

Lemma RemoveLabel_careful number label : careful (RemoveLabel c number label).
Proof.
  eapply careful_checked; [apply wrap_once, doRequest_once|]. intros body status.
  destruct (Z.eqb_spec status StatusOK) as [->|]; cbn; [split; [done|]; intros; by left|].
  destruct (Z.eqb_spec status StatusNotFound) as [->|]; cbn; split; try done. intros; by right.
Qed.

(** Walk through a command. *)
Ltac solve_careful :=
  repeat first
    [ apply careful_each; intros ?
    | apply careful_wrap
    | apply getJSON_careful | apply patchJSON_careful | apply AddLabels_careful | apply RemoveLabel_careful
    | apply silent_careful, silent_log | apply silent_careful, silent_ret | apply silent_careful, silent_fail
    | apply silent_careful; done
    | apply careful_bind; [|intros ?]
    | case_match ].

Lemma runUpdateLabels_careful number labels hm body : careful (runUpdateLabels c cfg number labels hm body).
Proof. unfold runUpdateLabels, applyLabels. solve_careful. Qed.

Lemma runCloseDeclined_careful number labels hm state : careful (runCloseDeclined c cfg number labels hm state).
Proof. unfold runCloseDeclined, gh_RemoveMilestone, gh_CloseIssue. solve_careful. Qed.

(** *** The project board *)

(** A request for the project board. *)
Definition board_request (r : request) : Prop := rq_method r = "POST" /\ rq_url r = graphqlURL c.

(** The requests for the board come last, only after every other one was
    accepted, and do not decide how the program ends. *)
Definition careful_board {A} (board : bool) (m : gh A) : Prop := forall w, exists l b,
  gh_requests (m w).1 = gh_requests w ++ l ++ b /\ Forall board_request b /\ (board = false -> b = []) /\
  match (m w).2 with
  | inr _ => all_answered (gh_server w) l
  | inl _ => b = [] /\ accepted_but_last (gh_server w) l
  end.

Lemma careful_board_careful {A} board (m : gh A) : careful m -> careful_board board m.
Proof.
  intros Hm w. destruct (Hm w) as (l & Hr & _ & Ha). exists l, []. rewrite app_nil_r.
  split_and!; [done|constructor|done|]. by destruct (m w).2.
Qed.

Lemma careful_board_bind {A B} board (m : gh A) (k : A -> gh B) :
  careful m -> (forall a, careful_board board (k a)) -> careful_board board (m ≫= k).
Proof.
  intros Hm Hk w. unfold mbind, gh_bind. destruct (Hm w) as (l1 & Hr1 & Hs1 & Ha1).
  destruct (m w) as [w1 [e|a]]; cbn in *.
  { exists l1, []. rewrite app_nil_r. by split_and!. }
  destruct (Hk a w1) as (l2 & b & Hr2 & Hb & Hn & Ha2). exists (l1 ++ l2), b.
  rewrite Hr2, Hr1, !app_assoc. split_and!; [done..|]. rewrite Hs1 in Ha2.
  destruct (k a w1).2; [destruct Ha2 as [-> [Ha2|(l & r & -> & Ha2)]]|by apply all_answered_app].
  - split; [done|]. left. by apply all_answered_app.
  - split; [done|]. right. exists (l1 ++ l), r. rewrite app_assoc. split; [done|]. by apply all_answered_app.
Qed.

(** The board itself, and what follows it without a request. *)
Lemma careful_board_last {A B} (m : gh A) (k : A -> gh B) :
  sends board_request m -> (forall w, exists a, (m w).2 = inr a) ->
  (forall a w, gh_requests (k a w).1 = gh_requests w /\ exists b, (k a w).2 = inr b) ->
  careful_board true (m ≫= k).
Proof.
  intros Hm Ht Hk w. unfold mbind, gh_bind. destruct (Hm w) as (b & Hr & Hb). destruct (Ht w) as [a Ha].
  destruct (m w) as [w1 r]; cbn in *; subst r. destruct (Hk a w1) as [Hr1 [x Hx]].
  exists [], b. rewrite Hr1, Hx. split_and!; [done..|]. constructor.
Qed.

Lemma addToBoard_ends projectNumber nodeID w : exists a, (addToBoard c cfg projectNumber nodeID w).2 = inr a.
Proof.
  unfold addToBoard, mbind, gh_bind, gh_attempt. destruct (resolveProjectID _ _ _ w) as [w1 [e|id]]; cbn.
  - by eexists.
  - destruct (addItemToProject _ _ _ _ w1) as [w2 [e|x]]; cbn; by eexists.
Qed.

Lemma runTriagePR_careful number iss projectNumber :
  careful_board true (runTriagePR c cfg number iss projectNumber).
Proof.
  unfold runTriagePR, GetPullRequestInfo, GetPullRequestFiles. apply careful_board_bind; [solve_careful|]. intros info.
  apply careful_board_bind; [solve_careful|]. intros files.
  apply careful_board_bind; [solve_careful|]. intros _.
  apply careful_board_bind; [unfold applyLabels; solve_careful|]. intros _.
  apply careful_board_bind; [unfold assignMilestone, ListOpenMilestones, SetMilestone; solve_careful|]. intros _.
  apply careful_board_last.
  - destruct (negb (dryRun cfg)); [|apply sends_ret]. apply addToBoard_sends. intros query variables. by split.
  - intros w. destruct (negb (dryRun cfg)); [apply addToBoard_ends|by eexists].
  - intros [] w. destruct (dryRun cfg); (split; [done|by eexists]).
Qed.

Lemma dispatch_careful : careful_board (String.eqb (command cfg) "triage-pr") (dispatch c cfg).
Proof.
  unfold dispatch. apply careful_board_bind; [solve_careful|]. intros _.
  apply careful_board_bind; [unfold GetIssue; solve_careful|]. intros iss.
  apply careful_board_bind; [solve_careful|]. intros _.
  case_match; [apply careful_board_careful, runUpdateLabels_careful|].
  case_match; [apply careful_board_careful, runCloseDeclined_careful|].
  case_match; [apply runTriagePR_careful|apply careful_board_careful; solve_careful].
Qed.

End commands.

Section exit_status.
Context `{Network} `{Semver}.

(** C36: no failure of a command goes unnoticed, except those of the project board.
    The exit status is 0 only if every request but those for the board was
    answered with 200 (or 404 when removing a label); otherwise it is 1, nothing was
    sent after the first other answer, and the board was not touched.  Only
    triage-pr sends requests for the board: they come after all the others, and
    whatever they are answered the exit status is 0. *)
Theorem commands_report_failures (Getenv : string -> string) (args : list string) (w : gh_world) cfg :
  parseConfig quote_text Getenv args = inr cfg ->
  let c := NewGitHubClient (token cfg) (owner cfg) (repo cfg) in
  let '(w', status) := gpm_main Getenv args w in
  exists sent board, gh_requests w' = gh_requests w ++ sent ++ board /\ Forall (board_request c) board /\
    (command cfg <> "triage-pr" -> board = []) /\
    ((status = 0 /\ all_answered (gh_server w) sent) \/
     (status = 1 /\ board = [] /\ accepted_but_last (gh_server w) sent)).
Proof.
  intros Hp c. unfold gpm_main, run. rewrite Hp. fold c.
  destruct (dispatch_careful c cfg w) as (l & b & Hl & Hb & Hn & Ha).
  destruct (dispatch c cfg w) as [w' [e|[]]]; exists l, b; cbn in *; (split_and!; [done|done| |]);
    try (intros Hc; apply Hn; by apply String.eqb_neq); [right|left]; naive_solver.
Qed.
End exit_status.

(** A server that answers the first read and refuses everything afterwards. *)
Definition failing_issue : string :=
  dq "{~number~:7,~state~:~open~,~milestone~:{},~labels~:[{~name~:~triage/needs-triage~}]}".
Definition failing_network : Network := {|
  server := bool;
  serve := fun first r => (false, if first then Answered 200 failing_issue else Answered 500 "down");
  NewRequest_error := fun _ => None;
  Unmarshal_error := fun _ => ErrText "unexpected end of JSON input";
  quote_text := fun s => s |}.
Definition failing_env (name : string) : string := if String.eqb name "GITHUB_TOKEN" then "secret" else "".
Definition failing_args : list string := ["--owner=acme"; "--repo=waf"; "--issue=7"; "update-labels"].
Definition failing_world : @gh_world failing_network := @Build_gh_world failing_network true [] "" "".

(** The labels are not added, so the old ones are not removed either. *)
Lemma commands_report_failures_witness :
  let '(w', status) := @gpm_main failing_network sample_semver failing_env failing_args failing_world in
  status = 1 /\ rq_method <$> gh_requests w' = ["GET"; "POST"] /\
  @accepted_but_last failing_network true (gh_requests w').
Proof.
  destruct (parseConfig (@quote_text failing_network) failing_env failing_args) as [e|cfg] eqn:Hp; [vm_compute in Hp; discriminate Hp|].
  pose proof (@commands_report_failures failing_network sample_semver failing_env failing_args failing_world cfg Hp) as Hr.
  destruct (@gpm_main failing_network sample_semver failing_env failing_args failing_world) as [w' status] eqn:Hg.
  assert (Hst : status = 1) by (apply (f_equal snd) in Hg; vm_compute in Hg; exact (eq_sym Hg)).
  assert (Hm : rq_method <$> gh_requests w' = ["GET"; "POST"])
    by (apply (f_equal (fun x => rq_method <$> gh_requests x.1)) in Hg; vm_compute in Hg; exact (eq_sym Hg)).
  split; [exact Hst|]. split; [exact Hm|].
  destruct Hr as (sent & board & Hreq & _ & _ & [[? _]|(_ & -> & Hlast)]); [congruence|].
  rewrite app_nil_r in Hreq. cbn in Hreq. rewrite Hreq. exact Hlast.
Defined.
