(* ===== verification/TriageRefinement.v ===== *)
(** * What the issue commands achieve

    The issue commands against a server that answers as the REST API documents: the
    abstract effect of [update-labels] and of [close-declined] on the issue, the
    refinement theorems, and a server with one issue that satisfies the laws. *)
From S2P Require Import Prelude GoLib GoErrors GoFlag GoJson JsonParse JsonDecode Triage GitHub GitHubMain.

(** ** Specification *)

(** The same issue with other labels, up to their order. *)
Record relabelled (i i' : Issue) (labels : list string) : Prop := {
  rl_Number : Number i' = Number i;
  rl_State : State i' = State i;
  rl_Body : Body i' = Body i;
  rl_Milestone : has_Milestone i' = has_Milestone i;
  rl_Labels : Labels i' ≡ₚ labels
}.

Definition declined (i : Issue) : Prop := triage_declined ∈ Labels i.

(** [update-labels]: declined issues stay as they are. *)
Definition update_spec (i i' : Issue) : Prop :=
  relabelled i i' (if slices_Contains (Labels i) triage_declined then Labels i
                   else effectiveLabels (Labels i) (update_plan (Labels i) (HasMilestone i) (Body i))).

(** [close-declined]: a declined issue is closed, loses its milestone, and keeps no
    other triage label; any other issue stays as it is. *)
Definition keep_declined (l : string) : Prop := is_triage l = true -> l = triage_declined.
#[export] Instance keep_declined_dec l : Decision (keep_declined l).
Proof. unfold keep_declined. apply _. Defined.

Definition close_issue (i : Issue) (labels : list string) : Issue :=
  {| Number := Number i; State := "closed"; Body := Body i; Labels := labels; has_Milestone := false |}.
Definition close_spec (i i' : Issue) : Prop :=
  if slices_Contains (Labels i) triage_declined then
    exists labels, i' = close_issue i labels /\ labels ≡ₚ filter keep_declined (Labels i)
  else i' = i.

(** ** The server *)

(** An issue server for the issue [n]: [view] is the issue in a state of the server
    and [good] the states it goes through, with distinct labels. *)
Class IssueServer `{Network} (c : GitHubClient) (n : Z) := {
  view : server -> Issue;
  good : server -> Prop;
  good_NoDup s : good s -> NoDup (Labels (view s));
  issue_url_ok : NewRequest_error (issueURL c n) = None;
  labels_url_ok : NewRequest_error (issueLabelsURL c n) = None;
  label_url_ok l : NewRequest_error (issueLabelURL c n l) = None;
  (** [GET /repos/{owner}/{repo}/issues/{issue_number}] *)
  serve_get s : good s -> exists s' body,
    serve s (build_request c "GET" (issueURL c n) "") = (s', Answered StatusOK body) /\
    Unmarshal UnmarshalJSON zero_Issue body = Some (view s) /\ good s' /\ view s' = view s;
  (** [POST .../labels]: labels already there are kept once *)
  serve_add s ls : good s -> Forall (fun l => ValidString l = true) ls -> exists s' body labels,
    serve s (build_request c "POST" (issueLabelsURL c n) (labels_payload ls)) = (s', Answered StatusOK body) /\
    good s' /\ relabelled (view s) (view s') labels /\
    (forall l, l ∈ labels <-> l ∈ Labels (view s) \/ l ∈ ls);
  (** [DELETE .../labels/{name}] *)
  serve_remove s l : good s -> exists s' status body,
    serve s (build_request c "DELETE" (issueLabelURL c n l) "") = (s', Answered status body) /\
    (status = StatusOK \/ status = StatusNotFound) /\
    good s' /\ relabelled (view s) (view s') (filter (fun l' => l' <> l) (Labels (view s)));
  (** [PATCH .../issues/{issue_number}] *)
  serve_close s : good s -> exists s' body,
    serve s (build_request c "PATCH" (issueURL c n) (dq "{~state~:~closed~}")) = (s', Answered StatusOK body) /\
    good s' /\
    view s' = {| Number := Number (view s); State := "closed"; Body := Body (view s);
                 Labels := Labels (view s); has_Milestone := has_Milestone (view s) |};
  serve_unset_milestone s : good s -> exists s' body,
    serve s (build_request c "PATCH" (issueURL c n) (dq "{~milestone~:null}")) = (s', Answered StatusOK body) /\
    good s' /\
    view s' = {| Number := Number (view s); State := State (view s); Body := Body (view s);
                 Labels := Labels (view s); has_Milestone := false |}
}.

(** ** Runs that succeed *)

Section succeeds.
Context `{Network}.

(** [m] ends without an error in a state and a result that satisfy [Q]. *)
Definition succeeds {A} (m : gh A) (w : gh_world) (Q : gh_world -> A -> Prop) : Prop :=
  exists w' a, m w = (w', inr a) /\ Q w' a.

Lemma succeeds_ret {A} (a : A) w (Q : gh_world -> A -> Prop) : Q w a -> succeeds (mret a) w Q.
Proof. intros HQ. by exists w, a. Qed.

Lemma succeeds_bind {A B} (m : gh A) (k : A -> gh B) w Q Q' :
  succeeds m w Q' -> (forall w' a, Q' w' a -> succeeds (k a) w' Q) -> succeeds (m ≫= k) w Q.
Proof.
  intros (w1 & a & Hm & HQ') Hk. destruct (Hk w1 a HQ') as (w2 & b & Hk' & HQ).
  exists w2, b. split; [|done]. unfold mbind, gh_bind. by rewrite Hm.
Qed.

Lemma succeeds_mono {A} (m : gh A) w (Q Q' : gh_world -> A -> Prop) :
  succeeds m w Q' -> (forall w' a, Q' w' a -> Q w' a) -> succeeds m w Q.
Proof. intros (w' & a & Hm & HQ) HQQ. exists w', a. auto. Qed.

Lemma succeeds_wrap {A} prefix (m : gh A) w Q : succeeds m w Q -> succeeds (gh_wrap prefix m) w Q.
Proof. intros (w' & a & Hm & HQ). exists w', a. unfold gh_wrap. by rewrite Hm. Qed.

(** The server and the requests are as before. *)
Definition same_server (w w' : gh_world) : Prop :=
  gh_server w' = gh_server w /\ gh_requests w' = gh_requests w.

Lemma succeeds_stdout line w : succeeds (put_stdout line) w (fun w' _ => same_server w w').
Proof. by eexists _, _. Qed.

Lemma succeeds_log cfg line w : succeeds (log cfg line) w (fun w' _ => same_server w w').
Proof. unfold log. case_match; [apply succeeds_stdout|by apply succeeds_ret]. Qed.

Lemma succeeds_logs {A} cfg (f : A -> string) l w :
  succeeds (gh_each (fun x => log cfg (f x)) l) w (fun w' _ => same_server w w').
Proof.
  revert w. induction l as [|x l IH]; intros w; [by apply succeeds_ret|].
  eapply succeeds_bind; [apply succeeds_log|]. intros w1 _ [Hs Hr].
  eapply succeeds_mono; [apply IH|]. intros w2 _ [Hs' Hr']. unfold same_server. by rewrite Hs', Hr'.
Qed.

(** A request and its answer. *)
Definition sent (w w' : gh_world) (r : request) (s : server) : Prop :=
  gh_server w' = s /\ gh_requests w' = gh_requests w ++ [r].

Lemma doRequest_succeeds c method reqURL body w s status respBody :
  NewRequest_error reqURL = None ->
  serve (gh_server w) (build_request c method reqURL body) = (s, Answered status respBody) ->
  succeeds (doRequest c method reqURL body) w (fun w' a =>
    sent w w' (build_request c method reqURL body) s /\ a = (respBody, status)).
Proof.
  intros Hurl Hs. unfold doRequest. rewrite Hurl.
  eapply succeeds_bind with (Q' := fun w' a => sent w w' _ s /\ a = Answered status respBody).
  - eexists _, _. unfold gh_send. rewrite Hs. by split.
  - intros w' a [Hsent ->]. apply succeeds_ret. done.
Qed.

Lemma getJSON_succeeds {A} c (dec : decoder A) zero reqURL w s respBody a :
  NewRequest_error reqURL = None ->
  serve (gh_server w) (build_request c "GET" reqURL "") = (s, Answered StatusOK respBody) ->
  Unmarshal dec zero respBody = Some a ->
  succeeds (getJSON c dec zero reqURL) w (fun w' a' => sent w w' (build_request c "GET" reqURL "") s /\ a' = a).
Proof.
  intros Hurl Hs Hdec. eapply succeeds_bind; [by apply doRequest_succeeds|].
  intros w' ? [Hsent ->]. rewrite Z.eqb_refl, Hdec. by apply succeeds_ret.
Qed.

Lemma patchJSON_succeeds c reqURL payload w s respBody :
  NewRequest_error reqURL = None ->
  serve (gh_server w) (build_request c "PATCH" reqURL payload) = (s, Answered StatusOK respBody) ->
  succeeds (patchJSON c reqURL payload) w (fun w' _ => sent w w' (build_request c "PATCH" reqURL payload) s).
Proof.
  intros Hurl Hs. eapply succeeds_bind; [by apply doRequest_succeeds|].
  intros w' ? [Hsent ->]. rewrite Z.eqb_refl. by apply succeeds_ret.
Qed.
End succeeds.

(** ** Each operation on the issue *)

Lemma relabelled_refl i : relabelled i i (Labels i).
Proof. done. Qed.

Lemma relabelled_trans i1 i2 i3 l2 l3 :
  relabelled i1 i2 l2 -> relabelled i2 i3 l3 -> relabelled i1 i3 l3.
Proof. intros [] []. split; congruence || done. Qed.

Lemma relabelled_perm i i' l l' : l ≡ₚ l' -> relabelled i i' l -> relabelled i i' l'.
Proof. intros Hl []. split; [done..|]. by rewrite <- Hl. Qed.

Section issue.
Context `{IssueServer c n} `{Semver} (cfg : gpm_config).

Definition view_of (w : gh_world) : Issue := view (gh_server w).
Definition good_world (w : gh_world) : Prop := good (gh_server w).

(** [w'] is a good state in which the issue has other labels. *)
Definition relabels (w w' : gh_world) (labels : list string) : Prop :=
  good_world w' /\ relabelled (view_of w) (view_of w') labels.

Lemma GetIssue_succeeds w : good_world w ->
  succeeds (GetIssue c n) w (fun w' i => i = view_of w /\ good_world w' /\ view_of w' = view_of w /\
    gh_requests w' = gh_requests w ++ [build_request c "GET" (issueURL c n) ""]).
Proof.
  intros (s & body & Hs & Hdec & Hg & Hv)%serve_get. apply succeeds_wrap.
  eapply succeeds_mono; [apply (getJSON_succeeds _ _ _ _ _ _ _ _ issue_url_ok Hs Hdec)|].
  unfold good_world, view_of. intros w' i [[-> ->] ->]. done.
Qed.

Lemma AddLabels_succeeds w ls : good_world w -> Forall (fun l => ValidString l = true) ls ->
  succeeds (AddLabels c n ls) w (fun w' _ => exists labels, relabels w w' labels /\
    forall l, l ∈ labels <-> l ∈ Labels (view_of w) \/ l ∈ ls).
Proof.
  intros Hg Hls. destruct (serve_add _ _ Hg Hls) as (s & body & labels & Hs & Hg' & Hrel & Hin).
  eapply succeeds_bind; [apply succeeds_wrap, (doRequest_succeeds _ _ _ _ _ _ _ _ labels_url_ok Hs)|].
  intros w' ? [[Hw' _] ->]. rewrite Z.eqb_refl. apply succeeds_ret. exists labels.
  unfold relabels, good_world, view_of. by rewrite Hw'.
Qed.

Lemma RemoveLabel_succeeds w l : good_world w ->
  succeeds (RemoveLabel c n l) w (fun w' _ => relabels w w' (filter (fun l' => l' <> l) (Labels (view_of w)))).
Proof.
  intros (s & status & body & Hs & Hst & Hg & Hrel)%(fun Hg => serve_remove _ l Hg).
  eapply succeeds_bind; [apply succeeds_wrap, (doRequest_succeeds _ _ _ _ _ _ _ _ (label_url_ok l) Hs)|].
  intros w' ? [[Hw' _] ->]. unfold relabels, good_world, view_of.
  destruct Hst as [-> | ->]; apply succeeds_ret; by rewrite Hw'.
Qed.

Lemma RemoveLabels_succeeds w ls : good_world w ->
  succeeds (gh_each (fun l => RemoveLabel c n l) ls) w (fun w' _ =>
    relabels w w' (filter (fun l => l ∉ ls) (Labels (view_of w)))).
Proof.
  revert w. induction ls as [|l ls IH]; intros w Hg.
  - apply succeeds_ret. split; [done|]. rewrite filter_all; [done|]. apply Forall_forall. set_solver.
  - eapply succeeds_bind; [by apply RemoveLabel_succeeds|]. intros w1 _ [Hg1 Hrel1].
    eapply succeeds_mono; [by apply IH|]. intros w2 _ [Hg2 Hrel2]. split; [done|].
    eapply relabelled_trans; [done|]. eapply relabelled_perm; [|done].
    rewrite (rl_Labels _ _ _ Hrel1), list_filter_filter.
    apply reflexive_eq, list_filter_iff. set_solver.
Qed.

Lemma same_server_good w w' : same_server w w' -> good_world w -> good_world w' /\ view_of w' = view_of w.
Proof. unfold good_world, view_of. by intros [-> _]. Qed.

(** Adding and then removing gives the labels the plan announces. *)
Lemma applyLabels_succeeds w toAdd toRemove :
  dryRun cfg = false -> good_world w -> NoDup (filter (fun l => l ∉ toRemove) (Labels (view_of w)) ++ toAdd) ->
  Forall (fun l => ValidString l = true) toAdd -> (forall l, l ∈ toAdd -> l ∉ toRemove) ->
  succeeds (applyLabels c cfg n toAdd toRemove) w (fun w' _ =>
    relabels w w' (filter (fun l => l ∉ toRemove) (Labels (view_of w)) ++ toAdd)).
Proof.
  intros Hdry Hg Hnd Hadd Hdisj. unfold applyLabels. rewrite Hdry.
  eapply succeeds_bind; [apply succeeds_logs|]. intros w1 _ (Hg1 & Hv1)%(fun Hs => same_server_good _ _ Hs Hg).
  eapply succeeds_bind; [apply succeeds_logs|]. intros w2 _ (Hg2 & Hv2)%(fun Hs => same_server_good _ _ Hs Hg1).
  rewrite Hv1 in Hv2. eapply succeeds_bind with (Q' := fun w' _ => exists labels, relabels w2 w' labels /\
    forall l, l ∈ labels <-> l ∈ Labels (view_of w) \/ l ∈ toAdd).
  - rewrite <- Hv2. destruct toAdd as [|x toAdd]; [|by apply AddLabels_succeeds].
    apply succeeds_ret. exists (Labels (view_of w2)). split; [done|]. set_solver.
  - intros w3 _ (labels & [Hg3 Hrel3] & Hin). eapply succeeds_mono; [by apply RemoveLabels_succeeds|].
    intros w4 _ [Hg4 Hrel4]. split; [done|]. rewrite <- Hv2. eapply relabelled_trans; [done|].
    rewrite Hv2. eapply relabelled_perm; [|done]. apply NoDup_Permutation; [|done|].
    + by apply NoDup_filter, good_NoDup.
    + intros l. rewrite elem_of_app, !list_elem_of_filter, (rl_Labels _ _ _ Hrel3), Hin. naive_solver.
Qed.

Lemma plan_labels_valid labels hm body :
  Forall (fun l => ValidString l = true) (LabelsToAdd (update_plan labels hm body)).
Proof.
  apply Forall_forall. intros l Hl%update_plan_labels. revert l Hl. apply Forall_forall.
  apply (bool_decide_unpack _). vm_compute. exact I.
Qed.

Lemma runUpdateLabels_succeeds w : dryRun cfg = false -> good_world w ->
  let i := view_of w in
  succeeds (runUpdateLabels c cfg n (Labels i) (HasMilestone i) (Body i)) w (fun w' _ =>
    good_world w' /\ update_spec i (view_of w')).
Proof.
  intros Hdry Hg i. unfold runUpdateLabels, update_spec.
  destruct (slices_Contains (Labels i) triage_declined).
  { eapply succeeds_mono; [apply succeeds_log|]. intros w1 _ [Hg1 ->]%same_server_good; done. }
  destruct (update_plan_settles (Labels i) (HasMilestone i) (Body i) (good_NoDup _ Hg)) as (Hnd & _ & _).
  destruct (_ && _) eqn:Hnone.
  - apply andb_true_iff in Hnone as [Ha Hr]. apply Nat.eqb_eq, length_zero_iff_nil in Ha, Hr.
    eapply succeeds_mono; [apply succeeds_log|]. intros w1 _ [Hg1 ->]%same_server_good; [|done].
    split; [done|]. unfold effectiveLabels. rewrite Ha, Hr, app_nil_r, filter_all; [done|].
    apply Forall_forall. set_solver.
  - rewrite Hdry. eapply succeeds_bind; [apply applyLabels_succeeds|].
    + done.
    + done.
    + exact Hnd.
    + apply plan_labels_valid.
    + intros l. by apply update_plan_disjoint, good_NoDup.
    + intros w' ? Hw'. by apply succeeds_ret.
Qed.

Lemma update_labels_succeeds w : dryRun cfg = false -> command cfg = "update-labels" -> issue cfg = n ->
  good_world w ->
  succeeds (dispatch c cfg) w (fun w' _ => good_world w' /\ update_spec (view_of w) (view_of w')).
Proof.
  intros Hdry Hcmd Hn Hg. unfold dispatch. rewrite Hcmd, Hn.
  eapply succeeds_bind; [apply succeeds_log|]. intros w1 _ [Hg1 Hv1]%same_server_good; [|done].
  eapply succeeds_bind; [by apply GetIssue_succeeds|]. intros w2 i (-> & Hg2 & Hv2 & _).
  eapply succeeds_bind; [apply succeeds_log|]. intros w3 _ [Hg3 Hv3]%same_server_good; [|done].
  cbn [String.eqb]. rewrite <- Hv1, <- Hv2, <- Hv3. by apply runUpdateLabels_succeeds.
Qed.

(** The labels need no change. *)
Definition settled_issue (i : Issue) : Prop :=
  declined i \/ update_plan (Labels i) (HasMilestone i) (Body i) = no_change.

(** After [update-labels] the issue follows the rules. *)
Lemma update_spec_settles i i' : NoDup (Labels i) -> update_spec i i' ->
  settled_issue i' /\ (declined i' <-> declined i) /\ (~ declined i -> triaged (HasMilestone i') (Labels i')).
Proof.
  intros Hnd [Hn Hs Hb Hm Hl]. unfold settled_issue, declined, HasMilestone in *. rewrite Hm, Hb.
  destruct (slices_Contains (Labels i) triage_declined) eqn:Hd.
  { apply slices_Contains_true in Hd. assert (triage_declined ∈ Labels i') by by rewrite Hl. naive_solver. }
  apply slices_Contains_false in Hd.
  destruct (update_plan_settles (Labels i) (has_Milestone i) (Body i) Hnd) as (_ & Ht & Hplan).
  split_and!.
  - right. apply no_change_perm. rewrite Hl, Hplan. done.
  - rewrite Hl. unfold effectiveLabels. rewrite elem_of_app, list_elem_of_filter. split; [|done].
    intros [[_ ?]|Ha%update_plan_labels]; [done|]. exfalso. revert Ha. apply (bool_decide_unpack _).
    vm_compute. exact I.
  - intros _. by eapply triaged_perm.
Qed.

Lemma runUpdateLabels_idle w : settled_issue (view_of w) ->
  let i := view_of w in
  succeeds (runUpdateLabels c cfg n (Labels i) (HasMilestone i) (Body i)) w (fun w' _ => same_server w w').
Proof.
  intros Hset i. unfold runUpdateLabels.
  destruct (slices_Contains (Labels i) triage_declined) eqn:Hd; [apply succeeds_log|].
  apply slices_Contains_false in Hd. destruct Hset as [?|Hp]; [done|]. fold i in Hp. rewrite Hp. apply succeeds_log.
Qed.

Lemma update_labels_idle w :
  command cfg = "update-labels" -> issue cfg = n -> good_world w -> settled_issue (view_of w) ->
  succeeds (dispatch c cfg) w (fun w' _ =>
    view_of w' = view_of w /\ gh_requests w' = gh_requests w ++ [build_request c "GET" (issueURL c n) ""]).
Proof.
  intros Hcmd Hn Hg Hset. unfold dispatch. rewrite Hcmd, Hn.
  eapply succeeds_bind; [apply succeeds_log|]. intros w1 ? Hs1.
  destruct (same_server_good _ _ Hs1 Hg) as [Hg1 Hv1]. destruct Hs1 as [_ Hr1].
  eapply succeeds_bind; [by apply GetIssue_succeeds|]. intros w2 i (-> & Hg2 & Hv2 & Hr2).
  eapply succeeds_bind; [apply succeeds_log|]. intros w3 ? Hs3.
  destruct (same_server_good _ _ Hs3 Hg2) as [Hg3 Hv3]. destruct Hs3 as [_ Hr3].
  cbn [String.eqb]. assert (Hv : view_of w3 = view_of w) by congruence. rewrite Hv1, <- Hv in *.
  eapply succeeds_mono; [by apply runUpdateLabels_idle|]. intros w4 ? Hs4.
  destruct (same_server_good _ _ Hs4 Hg3) as [_ ->]. destruct Hs4 as [_ ->].
  split; [done|]. by rewrite Hr3, Hr2, Hr1.
Qed.

(** [close-declined] *)

Lemma patch_close_succeeds w : good_world w ->
  succeeds (gh_CloseIssue c n) w (fun w' _ => good_world w' /\ 
    view_of w' = {| Number := Number (view_of w); State := "closed"; Body := Body (view_of w);
                    Labels := Labels (view_of w); has_Milestone := has_Milestone (view_of w) |}).
Proof.
  intros (s & body & Hs & Hg & Hv)%serve_close. apply succeeds_wrap.
  eapply succeeds_mono; [apply (patchJSON_succeeds _ _ _ _ _ _ issue_url_ok Hs)|].
  unfold good_world, view_of. by intros w' ? [-> _].
Qed.

Lemma patch_milestone_succeeds w : good_world w ->
  succeeds (gh_RemoveMilestone c n) w (fun w' _ => good_world w' /\
    view_of w' = {| Number := Number (view_of w); State := State (view_of w); Body := Body (view_of w);
                    Labels := Labels (view_of w); has_Milestone := false |}).
Proof.
  intros (s & body & Hs & Hg & Hv)%serve_unset_milestone. apply succeeds_wrap.
  eapply succeeds_mono; [apply (patchJSON_succeeds _ _ _ _ _ _ issue_url_ok Hs)|].
  unfold good_world, view_of. by intros w' ? [-> _].
Qed.

Lemma declined_kept (labels : list string) :
  filter (fun l => l ∉ filter (fun l => (HasPrefix l "triage/" && negb (String.eqb l triage_declined)) = true) labels) labels =
  filter keep_declined labels.
Proof.
  apply filter_ext_in. intros l Hl. unfold keep_declined, is_triage.
  rewrite list_elem_of_filter, andb_true_iff, negb_true_iff, String.eqb_neq.
  destruct (decide (l = triage_declined)); naive_solver.
Qed.

Lemma runCloseDeclined_succeeds w : dryRun cfg = false -> good_world w ->
  let i := view_of w in
  succeeds (runCloseDeclined c cfg n (Labels i) (HasMilestone i) (State i)) w (fun w' _ =>
    good_world w' /\ close_spec i (view_of w')).
Proof.
  intros Hdry Hg i. unfold runCloseDeclined, computeDeclined, close_spec.
  destruct (slices_Contains (Labels i) triage_declined); cbn [negb].
  2:{ eapply succeeds_mono; [apply succeeds_log|]. intros w1 _ Hs%same_server_good; auto. }
  cbn [d_LabelsToRemove RemoveMilestone CloseIssue].
  eapply succeeds_bind; [apply succeeds_logs|]. intros w1 _ [Hg1 Hv1]%same_server_good; [|done].
  eapply (succeeds_bind _ _ _ _ (fun w' _ => same_server w1 w')).
  { case_match; [apply succeeds_log|by apply succeeds_ret]. }
  intros w2 _ [Hg2 Hv2]%same_server_good; [|done].
  eapply (succeeds_bind _ _ _ _ (fun w' _ => same_server w2 w')).
  { case_match; [apply succeeds_log|by apply succeeds_ret]. }
  intros w3 _ [Hg3 Hv3]%same_server_good; [|done]. rewrite Hdry.
  eapply succeeds_bind; [by apply RemoveLabels_succeeds|]. intros w4 ? [Hg4 [Hn Hst Hb Hm Hl]].
  assert (Hv : view_of w3 = i) by (unfold i; congruence). rewrite Hv in *. rewrite declined_kept in Hl.
  eapply (succeeds_bind _ _ _ _ (fun w' _ => good_world w' /\ view_of w' =
    {| Number := Number i; State := State i; Body := Body i; Labels := Labels (view_of w4); has_Milestone := false |})).
  { destruct (HasMilestone i) eqn:Hhm.
    - eapply succeeds_mono; [by apply patch_milestone_succeeds|]. intros w5 _ [? ->]. by rewrite Hn, Hst, Hb.
    - apply succeeds_ret. split; [done|]. unfold HasMilestone in Hhm. rewrite Hhm in Hm.
      destruct (view_of w4). simpl in *. by subst. }
  intros w5 ? [Hg5 Hv5]. destruct (String.eqb_spec (State i) "closed") as [Hc|Hc]; cbn [negb].
  - apply succeeds_ret. split; [done|]. exists (Labels (view_of w4)). rewrite Hv5, Hc. done.
  - eapply succeeds_mono; [by apply patch_close_succeeds|]. intros w6 ? [Hg6 Hv6]. split; [done|].
    exists (Labels (view_of w4)). rewrite Hv6, Hv5. done.
Qed.

Lemma close_declined_succeeds w : dryRun cfg = false -> command cfg = "close-declined" -> issue cfg = n ->
  good_world w ->
  succeeds (dispatch c cfg) w (fun w' _ => good_world w' /\ close_spec (view_of w) (view_of w')).
Proof.
  intros Hdry Hcmd Hn Hg. unfold dispatch. rewrite Hcmd, Hn.
  eapply succeeds_bind; [apply succeeds_log|]. intros w1 _ [Hg1 Hv1]%same_server_good; [|done].
  eapply succeeds_bind; [by apply GetIssue_succeeds|]. intros w2 i (-> & Hg2 & Hv2 & _).
  eapply succeeds_bind; [apply succeeds_log|]. intros w3 _ [Hg3 Hv3]%same_server_good; [|done].
  cbn [String.eqb]. rewrite <- Hv1, <- Hv2, <- Hv3. by apply runCloseDeclined_succeeds.
Qed.
End issue.

(** ** Refinement *)

Section refinement.
Context `{Network} `{Semver} (Getenv : string -> string) (args : list string) (cfg : gpm_config).
Context `{!IssueServer (NewGitHubClient (token cfg) (owner cfg) (repo cfg)) (issue cfg)}.
Hypothesis Hcfg : parseConfig quote_text Getenv args = inr cfg.
Hypothesis Hdry : dryRun cfg = false.

Lemma gpm_main_succeeds w Q :
  succeeds (dispatch (NewGitHubClient (token cfg) (owner cfg) (repo cfg)) cfg) w (fun w' _ => Q w') ->
  (gpm_main Getenv args w).2 = 0 /\ Q (gpm_main Getenv args w).1.
Proof using Hcfg. unfold gpm_main, run. rewrite Hcfg. by intros (w' & a & -> & HQ). Qed.

(** C27: [update-labels] ends with status 0 and leaves the issue with exactly the labels the rules
    give it: a declined issue is untouched, any other loses and gains the labels of the plan, and
    nothing else of the issue changes. *)
Theorem update_labels_refines (w : gh_world) :
  command cfg = "update-labels" -> good_world w ->
  (gpm_main Getenv args w).2 = 0 /\ good_world (gpm_main Getenv args w).1 /\
  update_spec (view_of w) (view_of (gpm_main Getenv args w).1).
Proof using Hcfg Hdry.
  intros Hcmd Hg. apply (gpm_main_succeeds w (fun w' => good_world w' /\ update_spec (view_of w) (view_of w'))).
  by apply update_labels_succeeds.
Qed.

(** One run of [update-labels] is enough: afterwards the issue follows the triage rules unless it
    is declined, and a second run reads it once, changes nothing and ends with status 0. *)
Theorem update_labels_converges (w : gh_world) :
  command cfg = "update-labels" -> good_world w ->
  let w' := (gpm_main Getenv args w).1 in
  (~ declined (view_of w) -> triaged (HasMilestone (view_of w')) (Labels (view_of w'))) /\
  (gpm_main Getenv args w').2 = 0 /\
  view_of (gpm_main Getenv args w').1 = view_of w' /\
  exists get, gh_requests (gpm_main Getenv args w').1 = gh_requests w' ++ [get] /\ rq_method get = "GET".
Proof using Hcfg Hdry.
  intros Hcmd Hg.
  destruct (gpm_main_succeeds w (fun w' => good_world w' /\ update_spec (view_of w) (view_of w'))
              (update_labels_succeeds cfg w Hdry Hcmd eq_refl Hg)) as (_ & Hg' & Hspec).
  destruct (update_spec_settles _ _ (good_NoDup _ Hg) Hspec) as (Hset & _ & Htri).
  split; [done|].
  destruct (gpm_main_succeeds _ _ (update_labels_idle cfg _ Hcmd eq_refl Hg' Hset)) as (Hst & Hv & Hr).
  split; [done|]. split; [done|]. by eexists.
Qed.

(** C35: [close-declined] ends with status 0; a declined issue is then closed, without milestone and with
    no other triage label, and any other issue is untouched. *)
Theorem close_declined_refines (w : gh_world) :
  command cfg = "close-declined" -> good_world w ->
  (gpm_main Getenv args w).2 = 0 /\ close_spec (view_of w) (view_of (gpm_main Getenv args w).1).
Proof using Hcfg Hdry.
  intros Hcmd Hg. apply (gpm_main_succeeds w (fun w' => close_spec (view_of w) (view_of w'))).
  eapply succeeds_mono; [by apply close_declined_succeeds|]. by intros w' ? [_ ?].
Qed.
End refinement.

(** ** A server with one issue *)

Module Demo.
Record demo := { dm_labels : list string; dm_milestone : bool; dm_closed : bool }.

Definition demo_client : GitHubClient := NewGitHubClient "secret" "acme" "waf".
Definition demo_body : string := "Speed up the CI pipeline".

Definition demo_json (s : demo) : json :=
  JObj [("number", JNum "7"); ("state", JStr (if dm_closed s then "closed" else "open")); ("body", JStr demo_body);
        ("milestone", if dm_milestone s then JObj [] else JNull);
        ("labels", JArr ((fun l => JObj [("name", JStr l)]) <$> dm_labels s))].

Definition demo_view (s : demo) : Issue :=
  {| Number := 7; State := if dm_closed s then "closed" else "open"; Body := demo_body;
     Labels := dm_labels s; has_Milestone := dm_milestone s |}.

Definition relabel (s : demo) (labels : list string) : demo :=
  {| dm_labels := labels; dm_milestone := dm_milestone s; dm_closed := dm_closed s |}.

Definition demo_get (s : demo) (r : request) : demo * answer :=
  if String.eqb (rq_url r) (issueURL demo_client 7) then (s, Answered 200 (json_print (demo_json s)))
  else (s, Answered 404 "").

Definition demo_post (s : demo) (r : request) : demo * answer :=
  if String.eqb (rq_url r) (issueLabelsURL demo_client 7) then
    match Unmarshal (dec_in "labels" (dec_slice dec_string "")) [] (rq_body r) with
    | Some ls => (relabel s (dm_labels s ++ filter (fun l => l ∉ dm_labels s) (remove_dups ls)), Answered 200 "[]")
    | None => (s, Answered 422 "")
    end
  else (s, Answered 404 "").

Definition demo_delete (s : demo) (r : request) : demo * answer :=
  match list_find (fun l => issueLabelURL demo_client 7 l = rq_url r) (dm_labels s) with
  | Some (_, l) => (relabel s (filter (fun l' => l' <> l) (dm_labels s)), Answered 200 "[]")
  | None => (s, Answered 404 "")
  end.

Definition demo_patch (s : demo) (r : request) : demo * answer :=
  if String.eqb (rq_url r) (issueURL demo_client 7) then
    if String.eqb (rq_body r) (dq "{~state~:~closed~}") then
      ({| dm_labels := dm_labels s; dm_milestone := dm_milestone s; dm_closed := true |}, Answered 200 "{}")
    else if String.eqb (rq_body r) (dq "{~milestone~:null}") then
      ({| dm_labels := dm_labels s; dm_milestone := false; dm_closed := dm_closed s |}, Answered 200 "{}")
    else (s, Answered 422 "")
  else (s, Answered 404 "").

Definition demo_serve (s : demo) (r : request) : demo * answer :=
  if String.eqb (rq_method r) "GET" then demo_get s r
  else if String.eqb (rq_method r) "POST" then demo_post s r
  else if String.eqb (rq_method r) "DELETE" then demo_delete s r
  else if String.eqb (rq_method r) "PATCH" then demo_patch s r
  else (s, Answered 404 "").

Definition demo_network : Network := {|
  server := demo;
  serve := demo_serve;
  NewRequest_error := fun _ => None;
  Unmarshal_error := fun _ => ErrText "unexpected end of JSON input";
  quote_text := fun s => "'" +:+ s +:+ "'" |}.

Definition demo_good (s : demo) : Prop :=
  NoDup (dm_labels s) /\ Forall (fun l => ValidString l = true) (dm_labels s).

Lemma demo_json_ok s d : demo_good s -> json_ok (S (S (S d))) (demo_json s) = true.
Proof.
  intros [_ Hv]. unfold demo_json. cbn [json_ok forallb fst snd].
  assert (Hl : forallb (json_ok (S d)) ((fun l => JObj [("name", JStr l)]) <$> dm_labels s) = true).
  { apply forallb_forall. intros j (l & -> & Hl)%list_elem_of_In%list_elem_of_fmap. cbn [json_ok forallb fst snd].
    by rewrite (proj1 (Forall_forall _ _) Hv l Hl). }
  rewrite Hl. destruct (dm_closed s), (dm_milestone s); done.
Qed.

Lemma demo_names ls : dec_elems dec_name "" ((fun l => JObj [("name", JStr l)]) <$> ls) [] = Some ls.
Proof. induction ls as [|l ls IH]; [done|]. rewrite fmap_cons. cbn. by rewrite IH. Qed.

Lemma issue_field_at k name : fst <$> issue_fields !! k = Some name -> find_field issue_fields name = issue_fields !! k.
Proof. destruct k as [|[|[|[|[|k]]]]]; [by intros [= <-]..|done]. Qed.

Lemma demo_decodes s : demo_good s ->
  Unmarshal UnmarshalJSON zero_Issue (json_print (demo_json s)) = Some (demo_view s).
Proof.
  intros Hg. rewrite Unmarshal_print by by apply (demo_json_ok s (Z.to_nat 9997)).
  unfold UnmarshalJSON, demo_json, dec_struct. cbn [dec_members].
  rewrite (issue_field_at 0), (issue_field_at 1), (issue_field_at 2), (issue_field_at 3), (issue_field_at 4) by done.
  cbn [issue_fields lookup list_lookup snd sub mbind option_bind dec_string dec_slice].
  unfold sub. cbn -[Atoi dec_name dec_elems]. change (Atoi "7") with (Some 7).
  cbn -[dec_name dec_elems]. destruct (dm_milestone s) eqn:Hm; cbn -[dec_name dec_elems];
    rewrite demo_names; unfold demo_view; by rewrite Hm.
Qed.

Lemma payload_decodes ls d : Forall (fun l => ValidString l = true) ls ->
  json_ok (S (S d)) (json_map {[ "labels" := json_strings ls ]}) = true.
Proof.
  intros Hls. rewrite json_map_singleton. cbn [json_ok forallb fst snd]. apply andb_true_iff. split; [|done].
  cbn [andb]. change (ValidString "labels") with true. cbn [andb]. apply forallb_forall.
  intros j (l & -> & Hl)%list_elem_of_In%list_elem_of_fmap. by apply (proj1 (Forall_forall _ _) Hls).
Qed.

Lemma demo_serve_add s ls : Forall (fun l => ValidString l = true) ls ->
  demo_serve s (build_request demo_client "POST" (issueLabelsURL demo_client 7) (labels_payload ls)) =
  (relabel s (dm_labels s ++ filter (fun l => l ∉ dm_labels s) (remove_dups ls)), Answered 200 "[]").
Proof.
  intros Hls. unfold demo_serve. cbn [build_request rq_method String.eqb Ascii.eqb Bool.eqb].
  unfold demo_post. cbn [build_request rq_url rq_body]. rewrite String.eqb_refl. unfold labels_payload.
  rewrite Unmarshal_print by by apply (payload_decodes ls (Z.to_nat 9998)).
  rewrite json_map_singleton. unfold dec_in, dec_struct. cbn [dec_members].
  change (find_field [("labels", dec_slice dec_string "")] "labels") with (Some ("labels", dec_slice dec_string "")).
  cbn [snd]. by rewrite dec_strings.
Qed.

Lemma demo_add_good s ls : Forall (fun l => ValidString l = true) ls -> demo_good s ->
  demo_good (relabel s (dm_labels s ++ filter (fun l => l ∉ dm_labels s) (remove_dups ls))).
Proof.
  intros Hls [Hnd Hv]. split; cbn.
  - apply NoDup_app. split_and!; [done| |apply NoDup_filter, NoDup_remove_dups].
    intros l Hl Hf. apply list_elem_of_filter in Hf as [Hn _]. exact (Hn Hl).
  - apply Forall_app. split; [done|]. apply Forall_filter, Forall_forall.
    intros l Hl. rewrite elem_of_remove_dups in Hl. by apply (proj1 (Forall_forall _ _) Hls).
Qed.

Lemma demo_serve_remove s l : exists status,
  demo_serve s (build_request demo_client "DELETE" (issueLabelURL demo_client 7 l) "") =
    (relabel s (filter (fun l' => l' <> l) (dm_labels s)), Answered status (if bool_decide (l ∈ dm_labels s) then "[]" else "")) /\
  (status = StatusOK \/ status = StatusNotFound).
Proof.
  unfold demo_serve. cbn [build_request rq_method String.eqb Ascii.eqb Bool.eqb]. unfold demo_delete.
  cbn [build_request rq_url]. destruct (list_find _ _) as [[i l']|] eqn:Hf.
  - apply list_find_Some in Hf as (Hin & Hurl & _). apply issueLabelURL_inj in Hurl as ->.
    exists 200. split; [|by left]. rewrite bool_decide_true; [done|]. by eapply list_elem_of_lookup_2.
  - apply list_find_None in Hf. rewrite Forall_forall in Hf. exists 404. split; [|by right].
    assert (Hl : l ∉ dm_labels s) by (intros Hl; by apply (Hf l Hl)).
    rewrite bool_decide_false by done. rewrite other_count_remove_absent by done. by destruct s.
Qed.

#[export] Instance demo_server : @IssueServer demo_network demo_client 7.
Proof.
  refine (@Build_IssueServer demo_network demo_client 7 demo_view demo_good _ _ _ _ _ _ _ _ _).
  - by intros s [? _].
  - done.
  - done.
  - done.
  - intros s Hg. exists s, (json_print (demo_json s)). by rewrite demo_decodes.
  - intros s ls Hg Hls. eexists _, _, (dm_labels s ++ filter (fun l => l ∉ dm_labels s) (remove_dups ls)).
    split; [by apply demo_serve_add|]. split; [by apply demo_add_good|]. split; [done|].
    intros l. rewrite elem_of_app, list_elem_of_filter, elem_of_remove_dups. cbn.
    destruct (decide (l ∈ dm_labels s)); naive_solver.
  - intros s l [Hnd Hv]. destruct (demo_serve_remove s l) as (status & Hs & Hst). eexists _, status, _.
    split; [exact Hs|]. split; [done|]. split; [|done]. split; [by apply NoDup_filter|by apply Forall_filter].
  - intros s Hg. by eexists _, _.
  - intros s Hg. by eexists _, _.
Defined.
End Demo.

(** ** The hypotheses can hold *)

Definition demo_env (name : string) : string := if String.eqb name "GITHUB_TOKEN" then "secret" else "".
Definition demo_args (command : string) : list string := ["--owner=acme"; "--repo=waf"; "--issue=7"; command].
Definition demo_config (command : string) : gpm_config :=
  {| verbose := false; dryRun := false; owner := "acme"; repo := "waf"; issue := 7; project := 0;
     command := command; token := "secret" |}.
Definition demo_world (labels : list string) (milestone : bool) : @gh_world Demo.demo_network :=
  @Build_gh_world Demo.demo_network
    {| Demo.dm_labels := labels; Demo.dm_milestone := milestone; Demo.dm_closed := false |} [] "" "".

Definition demo_issue (w : @gh_world Demo.demo_network) : Issue :=
  @view_of Demo.demo_network Demo.demo_client 7 Demo.demo_server w.
Definition demo_run (command : string) (w : @gh_world Demo.demo_network) : @gh_world Demo.demo_network :=
  (@gpm_main Demo.demo_network sample_semver demo_env (demo_args command) w).1.

Lemma demo_world_good labels milestone :
  NoDup labels -> Forall (fun l => ValidString l = true) labels ->
  @good_world Demo.demo_network Demo.demo_client 7 Demo.demo_server (demo_world labels milestone).
Proof. by split. Qed.

(** An issue with a milestone that still needs triage. *)
Lemma update_labels_refines_witness :
  Labels (demo_issue (demo_run "update-labels" (demo_world ["bug"; "triage/needs-triage"] true))) ≡ₚ
    ["bug"; "triage/accepted"; "size/needs-sizing"; "area/infrastructure"].
Proof.
  destruct (@update_labels_refines Demo.demo_network sample_semver demo_env (demo_args "update-labels")
    (demo_config "update-labels") Demo.demo_server eq_refl eq_refl
    (demo_world ["bug"; "triage/needs-triage"] true) eq_refl) as (_ & _ & Hspec).
  { by apply demo_world_good; apply (bool_decide_unpack _); vm_compute. }
  exact (rl_Labels _ _ _ Hspec).
Defined.

(** The second run on an issue without a milestone. *)
Lemma update_labels_converges_witness :
  let w' := demo_run "update-labels" (demo_world ["triage/accepted"; "triage/needs-info"] false) in
  triaged false (Labels (demo_issue w')) /\ demo_issue (demo_run "update-labels" w') = demo_issue w'.
Proof.
  destruct (@update_labels_converges Demo.demo_network sample_semver demo_env (demo_args "update-labels")
    (demo_config "update-labels") Demo.demo_server eq_refl eq_refl
    (demo_world ["triage/accepted"; "triage/needs-info"] false) eq_refl) as (Htri & _ & Hv & _).
  { by apply demo_world_good; apply (bool_decide_unpack _); vm_compute. }
  split; [|exact Hv]. apply Htri. apply (bool_decide_unpack _). vm_compute. exact I.
Defined.

(** A declined issue with a milestone. *)
Lemma close_declined_refines_witness :
  let i := demo_issue (demo_run "close-declined" (demo_world ["triage/declined"; "bug"; "triage/accepted"] true)) in
  State i = "closed" /\ HasMilestone i = false /\ Labels i ≡ₚ ["triage/declined"; "bug"].
Proof.
  destruct (@close_declined_refines Demo.demo_network sample_semver demo_env (demo_args "close-declined")
    (demo_config "close-declined") Demo.demo_server eq_refl eq_refl
    (demo_world ["triage/declined"; "bug"; "triage/accepted"] true) eq_refl) as (_ & labels & Hi & Hl).
  { by apply demo_world_good; apply (bool_decide_unpack _); vm_compute. }
  intros i. change (i = close_issue (demo_issue (demo_world ["triage/declined"; "bug"; "triage/accepted"] true)) labels) in Hi.
  clearbody i. subst i. split; [done|]. split; [done|]. exact Hl.
Defined.
